(** * Brace cleanup: a shallow embedding of [src/brace_cleanup.cpp]

    The pass walks the token list once, keeps a parse frame (a stack of
    open brackets and in-flight complex statements plus a few counters),
    assigns levels, inserts virtual braces and reclassifies tokens.

    The embedding keeps the shape of the C++ code: chunks live in a shared
    store addressed by identifiers (the [Chunk *] of the source), the parse
    frame and the scan-global brace state are threaded through a small
    state-and-abort monad, [exit] and [throw] are outcomes of that monad. *)

From Stdlib Require Import ZArith List Bool String Ascii Lia PeanoNat.
Import ListNotations.

Local Open Scope Z_scope.
Local Open Scope bool_scope.

(* ================================================================== *)
(** ** Token types *)

(** The members of [E_Token] that the pass names, plus [CT_WORD] for an
    ordinary identifier. *)
Inductive E_Token : Type :=
| CT_NONE | CT_EOF | CT_WORD
| CT_NEWLINE | CT_NL_CONT | CT_COMMENT | CT_COMMENT_MULTI | CT_COMMENT_CPP
| CT_ATTRIBUTE | CT_IGNORED
| CT_PREPROC | CT_PREPROC_BODY | CT_PP_DEFINE | CT_PP_IF | CT_PP_ELSE | CT_PP_ENDIF
| CT_SEMICOLON | CT_VSEMICOLON
| CT_PAREN_OPEN | CT_PAREN_CLOSE
| CT_FPAREN_OPEN | CT_FPAREN_CLOSE
| CT_SPAREN_OPEN | CT_SPAREN_CLOSE
| CT_BRACE_OPEN | CT_BRACE_CLOSE
| CT_VBRACE_OPEN | CT_VBRACE_CLOSE
| CT_ANGLE_OPEN | CT_ANGLE_CLOSE
| CT_MACRO_OPEN | CT_MACRO_CLOSE
| CT_SQUARE_OPEN | CT_SQUARE_CLOSE
| CT_MACRO
| CT_IF | CT_ELSE | CT_ELSEIF | CT_CONSTEXPR
| CT_WHILE | CT_WHILE_OF_DO | CT_DO | CT_FOR | CT_SWITCH
| CT_TRY | CT_CATCH | CT_FINALLY | CT_WHEN
| CT_SYNCHRONIZED | CT_LOCK | CT_USING_STMT | CT_USING | CT_NAMESPACE
| CT_D_VERSION | CT_D_VERSION_IF | CT_D_SCOPE | CT_D_SCOPE_IF
| CT_BODY | CT_UNITTEST | CT_UNSAFE | CT_VOLATILE | CT_GETSET
| CT_FUNCTION | CT_ENUM | CT_DECLSPEC | CT_ASSIGN | CT_RETURN
| CT_CASE | CT_DEFAULT | CT_BREAK
| CT_AUTORELEASEPOOL | CT_COLON | CT_OC_END
| CT_ARITH | CT_SHIFT | CT_COMPARE | CT_STAR | CT_BOOL | CT_MINUS | CT_PLUS
| CT_CARET | CT_THROW | CT_GOTO | CT_CONTINUE | CT_COMMA | CT_NOT | CT_INV
| CT_QUESTION.

Scheme Equality for E_Token.

Definition tok_eqb : E_Token -> E_Token -> bool := E_Token_beq.

Lemma tok_eqb_eq (a b : E_Token) : tok_eqb a b = true <-> a = b.
Proof.
  split; [apply internal_E_Token_dec_bl | apply internal_E_Token_dec_lb].
Qed.

Lemma tok_eqb_refl (a : E_Token) : tok_eqb a a = true.
Proof. now apply tok_eqb_eq. Qed.

Lemma tok_eqb_neq (a b : E_Token) : tok_eqb a b = false <-> a <> b.
Proof.
  split; intro H.
  - intro E. apply tok_eqb_eq in E. congruence.
  - destruct (tok_eqb a b) eqn:E; [apply tok_eqb_eq in E; contradiction | reflexivity].
Qed.

(** Modelled from the spec: [token_enum.h] is not among the sources.  The
    code writes the closer of an opener as [type + 1]; the spec (data model,
    invariant 3) says the enum pairs every opener with its closer adjacently.
    [tok_succ t] is [Some c] when [c] is the member that follows opener [t];
    for a member that is not an opener its successor is no closer, which is
    all the pass ever asks. *)
Definition tok_succ (t : E_Token) : option E_Token :=
  match t with
  | CT_PAREN_OPEN  => Some CT_PAREN_CLOSE
  | CT_FPAREN_OPEN => Some CT_FPAREN_CLOSE
  | CT_SPAREN_OPEN => Some CT_SPAREN_CLOSE
  | CT_BRACE_OPEN  => Some CT_BRACE_CLOSE
  | CT_VBRACE_OPEN => Some CT_VBRACE_CLOSE
  | CT_ANGLE_OPEN  => Some CT_ANGLE_CLOSE
  | CT_MACRO_OPEN  => Some CT_MACRO_CLOSE
  | CT_SQUARE_OPEN => Some CT_SQUARE_CLOSE
  | _ => None
  end.

(** [t == (E_Token)(open + 1)] *)
Definition is_succ_of (t open : E_Token) : bool :=
  match tok_succ open with
  | Some c => tok_eqb t c
  | None => false
  end.

(** Stages of a complex statement ([brace_stage_e]). *)
Inductive brace_stage_e : Type :=
| NONE | PAREN1 | OP_PAREN1 | BRACE2 | BRACE_DO | ELSE | ELSEIF
| WHILE | CATCH | CATCH_WHEN | WOD_PAREN | WOD_SEMI.

Scheme Equality for brace_stage_e.

Definition stage_eqb : brace_stage_e -> brace_stage_e -> bool := brace_stage_e_beq.

Lemma stage_eqb_eq (a b : brace_stage_e) : stage_eqb a b = true <-> a = b.
Proof.
  split; [apply internal_brace_stage_e_dec_bl | apply internal_brace_stage_e_dec_lb].
Qed.

Inductive pattern_class_e : Type :=
| PC_NONE | PC_BRACED | PC_PBRACED | PC_OPBRACED | PC_ELSE.

(** Modelled from the spec: [get_token_pattern_class] lives in the keyword
    tables, which are not among the sources.  The table of pattern classes
    of the spec (complex-statement state machine) is followed. *)
Definition get_token_pattern_class (t : E_Token) : pattern_class_e :=
  match t with
  | CT_DO | CT_TRY | CT_FINALLY | CT_BODY | CT_UNITTEST | CT_UNSAFE
  | CT_VOLATILE | CT_GETSET => PC_BRACED
  | CT_IF | CT_ELSEIF | CT_FOR | CT_WHILE | CT_SWITCH | CT_USING_STMT
  | CT_SYNCHRONIZED | CT_LOCK | CT_CATCH | CT_D_VERSION_IF | CT_D_SCOPE_IF => PC_PBRACED
  | CT_WHEN | CT_D_VERSION | CT_D_SCOPE => PC_OPBRACED
  | CT_ELSE => PC_ELSE
  | _ => PC_NONE
  end.

(* ================================================================== *)
(** ** Machine integers and chunk flags *)

(** [size_t] arithmetic wraps modulo 2^64. *)
Definition wrap64 (z : Z) : Z := z mod 2 ^ 64.

(** Modelled from the spec: [pcf_flags.h] is not among the sources.  Flags
    are a 64-bit mask; the pass names the bits below, and [PCF_COPY_FLAGS]
    is the subset a copied chunk inherits (the location flags, among them
    [PCF_IN_PREPROC], [PCF_IN_SPAREN], [PCF_IN_NAMESPACE] and [PCF_IN_FOR],
    but neither of the start marks nor [PCF_LONG_BLOCK]). *)
Definition PCF_BIT (n : Z) : Z := Z.shiftl 1 n.
Definition PCF_NONE         : Z := 0.
Definition PCF_COPY_FLAGS   : Z := 65535.
Definition PCF_IN_PREPROC   : Z := PCF_BIT 0.
Definition PCF_IN_SPAREN    : Z := PCF_BIT 5.
Definition PCF_IN_NAMESPACE : Z := PCF_BIT 12.
Definition PCF_IN_FOR       : Z := PCF_BIT 13.
Definition PCF_STMT_START   : Z := PCF_BIT 18.
Definition PCF_EXPR_START   : Z := PCF_BIT 19.
Definition PCF_LONG_BLOCK   : Z := PCF_BIT 22.

(** Exit statuses of the C library headers. *)
Definition EXIT_FAILURE : Z := 1.
Definition EX_SOFTWARE  : Z := 70.

(* ================================================================== *)
(** ** Chunks and the token list *)

Definition ChunkId := nat.

(** A [Chunk *]: [None] is the null chunk. *)
Definition ChunkPtr := option ChunkId.

Record Chunk : Type := mkChunk {
  c_type        : E_Token;
  c_parent_type : E_Token;
  c_level       : Z;
  c_brace_level : Z;
  c_pp_level    : Z;
  c_flags       : Z;
  c_orig_line   : Z;
  c_orig_col    : Z;
  c_column      : Z;
  c_str         : string;
  c_parent      : ChunkPtr
}.

(** A default-constructed chunk; it also stands for what the null chunk
    reports. *)
Definition null_chunk : Chunk :=
  mkChunk CT_NONE CT_NONE 0 0 0 0 0 0 0 EmptyString None.

Definition SetType (t : E_Token) (c : Chunk) : Chunk :=
  mkChunk t (c_parent_type c) (c_level c) (c_brace_level c) (c_pp_level c)
          (c_flags c) (c_orig_line c) (c_orig_col c) (c_column c) (c_str c) (c_parent c).
Definition SetParentType (t : E_Token) (c : Chunk) : Chunk :=
  mkChunk (c_type c) t (c_level c) (c_brace_level c) (c_pp_level c)
          (c_flags c) (c_orig_line c) (c_orig_col c) (c_column c) (c_str c) (c_parent c).
Definition SetLevel (v : Z) (c : Chunk) : Chunk :=
  mkChunk (c_type c) (c_parent_type c) v (c_brace_level c) (c_pp_level c)
          (c_flags c) (c_orig_line c) (c_orig_col c) (c_column c) (c_str c) (c_parent c).
Definition SetBraceLevel (v : Z) (c : Chunk) : Chunk :=
  mkChunk (c_type c) (c_parent_type c) (c_level c) v (c_pp_level c)
          (c_flags c) (c_orig_line c) (c_orig_col c) (c_column c) (c_str c) (c_parent c).
Definition SetPpLevel (v : Z) (c : Chunk) : Chunk :=
  mkChunk (c_type c) (c_parent_type c) (c_level c) (c_brace_level c) v
          (c_flags c) (c_orig_line c) (c_orig_col c) (c_column c) (c_str c) (c_parent c).
Definition SetFlags (v : Z) (c : Chunk) : Chunk :=
  mkChunk (c_type c) (c_parent_type c) (c_level c) (c_brace_level c) (c_pp_level c)
          v (c_orig_line c) (c_orig_col c) (c_column c) (c_str c) (c_parent c).
Definition SetOrigLine (v : Z) (c : Chunk) : Chunk :=
  mkChunk (c_type c) (c_parent_type c) (c_level c) (c_brace_level c) (c_pp_level c)
          (c_flags c) v (c_orig_col c) (c_column c) (c_str c) (c_parent c).
Definition SetOrigCol (v : Z) (c : Chunk) : Chunk :=
  mkChunk (c_type c) (c_parent_type c) (c_level c) (c_brace_level c) (c_pp_level c)
          (c_flags c) (c_orig_line c) v (c_column c) (c_str c) (c_parent c).
Definition SetColumn (v : Z) (c : Chunk) : Chunk :=
  mkChunk (c_type c) (c_parent_type c) (c_level c) (c_brace_level c) (c_pp_level c)
          (c_flags c) (c_orig_line c) (c_orig_col c) v (c_str c) (c_parent c).
Definition SetStr (v : string) (c : Chunk) : Chunk :=
  mkChunk (c_type c) (c_parent_type c) (c_level c) (c_brace_level c) (c_pp_level c)
          (c_flags c) (c_orig_line c) (c_orig_col c) (c_column c) v (c_parent c).
Definition SetParent (p : ChunkPtr) (c : Chunk) : Chunk :=
  mkChunk (c_type c) (c_parent_type c) (c_level c) (c_brace_level c) (c_pp_level c)
          (c_flags c) (c_orig_line c) (c_orig_col c) (c_column c) (c_str c) p.

Definition SetFlagBits (m : Z) (c : Chunk) : Chunk := SetFlags (Z.lor (c_flags c) m) c.
Definition ResetFlagBits (m : Z) (c : Chunk) : Chunk := SetFlags (Z.ldiff (c_flags c) m) c.
Definition TestFlags (m : Z) (c : Chunk) : bool := negb (Z.land (c_flags c) m =? 0).

Definition Is (t : E_Token) (c : Chunk) : bool := tok_eqb (c_type c) t.
Definition IsNot (t : E_Token) (c : Chunk) : bool := negb (Is t c).
Definition IsComment (c : Chunk) : bool :=
  Is CT_COMMENT c || Is CT_COMMENT_MULTI c || Is CT_COMMENT_CPP c.
Definition IsNewline (c : Chunk) : bool := Is CT_NEWLINE c || Is CT_NL_CONT c.
Definition IsCommentOrNewline (c : Chunk) : bool := IsComment c || IsNewline c.
Definition IsSemicolon (c : Chunk) : bool := Is CT_SEMICOLON c || Is CT_VSEMICOLON c.
Definition IsString (str : string) (c : Chunk) : bool := String.eqb (c_str c) str.
Definition Len (c : Chunk) : Z := Z.of_nat (String.length (c_str c)).

(** The first character of the chunk text is ['=']. *)
Definition starts_with_eq (c : Chunk) : bool :=
  match c_str c with
  | String a _ => Ascii.eqb a "="%char
  | EmptyString => false
  end.

(* Text and arithmetic stay folded when proofs simplify. *)
#[local] Arguments Z.lor : simpl never.
#[local] Arguments Z.land : simpl never.
#[local] Arguments Z.ldiff : simpl never.
#[local] Arguments Z.shiftl : simpl never.
Arguments PCF_BIT : simpl never.
Arguments IsString : simpl never.
Arguments starts_with_eq : simpl never.
Arguments Len : simpl never.
Arguments wrap64 : simpl never.
Arguments TestFlags : simpl never.
Arguments SetFlagBits : simpl never.
Arguments ResetFlagBits : simpl never.

(** The token list: the chunks in source order, each with its identity.
    Identities are what stack entries and [parent] links point to, so a
    change made through one pointer is seen through every other. *)
Definition ChunkList := list (ChunkId * Chunk).

Fixpoint lookup (cl : ChunkList) (id : ChunkId) : option Chunk :=
  match cl with
  | [] => None
  | (i, c) :: rest => if Nat.eqb i id then Some c else lookup rest id
  end.

(** Dereference; the null chunk (and a dangling pointer) reports defaults. *)
Definition chunk_at (cl : ChunkList) (p : ChunkPtr) : Chunk :=
  match p with
  | None => null_chunk
  | Some id => match lookup cl id with Some c => c | None => null_chunk end
  end.

Definition IsNullChunk (cl : ChunkList) (p : ChunkPtr) : bool :=
  match p with
  | None => true
  | Some id => match lookup cl id with Some _ => false | None => true end
  end.

Fixpoint update (cl : ChunkList) (id : ChunkId) (f : Chunk -> Chunk) : ChunkList :=
  match cl with
  | [] => []
  | (i, c) :: rest =>
      if Nat.eqb i id then (i, f c) :: rest else (i, c) :: update rest id f
  end.

(** A setter called through a pointer; on the null chunk it does nothing. *)
Definition update_at (cl : ChunkList) (p : ChunkPtr) (f : Chunk -> Chunk) : ChunkList :=
  match p with
  | None => cl
  | Some id => update cl id f
  end.

(** Chunks before [id], nearest first. *)
Fixpoint before_acc (cl : ChunkList) (id : ChunkId) (acc : ChunkList) : ChunkList :=
  match cl with
  | [] => []
  | (i, c) :: rest =>
      if Nat.eqb i id then acc else before_acc rest id ((i, c) :: acc)
  end.

Definition before (cl : ChunkList) (p : ChunkPtr) : ChunkList :=
  match p with
  | None => []
  | Some id => before_acc cl id []
  end.

(** Chunks after [id], nearest first. *)
Fixpoint after_id (cl : ChunkList) (id : ChunkId) : ChunkList :=
  match cl with
  | [] => []
  | (i, _) :: rest => if Nat.eqb i id then rest else after_id rest id
  end.

Definition after (cl : ChunkList) (p : ChunkPtr) : ChunkList :=
  match p with
  | None => []
  | Some id => after_id cl id
  end.

Definition first_id (l : ChunkList) : ChunkPtr :=
  match l with
  | [] => None
  | (i, _) :: _ => Some i
  end.

Definition first_such (P : Chunk -> bool) (l : ChunkList) : ChunkPtr :=
  first_id (filter (fun x => P (snd x)) l).

Definition GetHead (cl : ChunkList) : ChunkPtr := first_id cl.
Definition GetNext (cl : ChunkList) (p : ChunkPtr) : ChunkPtr := first_id (after cl p).
Definition GetPrev (cl : ChunkList) (p : ChunkPtr) : ChunkPtr := first_id (before cl p).
Definition GetNextNc (cl : ChunkList) (p : ChunkPtr) : ChunkPtr :=
  first_such (fun c => negb (IsComment c)) (after cl p).
Definition GetPrevNc (cl : ChunkList) (p : ChunkPtr) : ChunkPtr :=
  first_such (fun c => negb (IsComment c)) (before cl p).
Definition GetNextNcNnl (cl : ChunkList) (p : ChunkPtr) : ChunkPtr :=
  first_such (fun c => negb (IsCommentOrNewline c)) (after cl p).
Definition GetPrevNcNnl (cl : ChunkList) (p : ChunkPtr) : ChunkPtr :=
  first_such (fun c => negb (IsCommentOrNewline c)) (before cl p).

(** A fresh identity for an inserted chunk. *)
Definition fresh_id (cl : ChunkList) : ChunkId :=
  S (fold_right (fun x m => Nat.max (fst x) m) O cl).

Fixpoint insert_after (cl : ChunkList) (id : ChunkId) (n : ChunkId * Chunk) : ChunkList :=
  match cl with
  | [] => []
  | (i, c) :: rest =>
      if Nat.eqb i id then (i, c) :: n :: rest else (i, c) :: insert_after rest id n
  end.

(** [chunk.CopyAndAddAfter(ref)]: a copy of [c] is linked in after [ref] and
    its address returned; after the null chunk nothing is linked. *)
Definition CopyAndAddAfter (cl : ChunkList) (c : Chunk) (ref : ChunkPtr)
  : ChunkList * ChunkPtr :=
  match ref with
  | None => (cl, None)
  | Some id =>
      match lookup cl id with
      | None => (cl, None)
      | Some _ => let n := fresh_id cl in (insert_after cl id (n, c), Some n)
      end
  end.

(* ================================================================== *)
(** ** Parse frame, frame list, brace state *)

Record paren_stack_entry_t : Type := mkEntry {
  e_type   : E_Token;
  e_parent : E_Token;
  e_stage  : brace_stage_e;
  e_pc     : ChunkPtr
}.

Definition set_e_type (t : E_Token) (e : paren_stack_entry_t) : paren_stack_entry_t :=
  mkEntry t (e_parent e) (e_stage e) (e_pc e).
Definition set_e_parent (t : E_Token) (e : paren_stack_entry_t) : paren_stack_entry_t :=
  mkEntry (e_type e) t (e_stage e) (e_pc e).
Definition set_e_stage (st : brace_stage_e) (e : paren_stack_entry_t) : paren_stack_entry_t :=
  mkEntry (e_type e) (e_parent e) st (e_pc e).

(** Modelled from the spec: the class [ParseFrame] is not among the sources.
    The frame is the stack of entries and five counters; [stack[0]] is a
    sentinel of type [CT_EOF], so [top()] is always valid.  The stack is kept
    with its top at the head of the list. *)
Record ParseFrame : Type := mkFrame {
  pse              : list paren_stack_entry_t;
  frm_level        : Z;
  frm_brace_level  : Z;
  frm_pp_level     : Z;
  sparen_count     : Z;
  stmt_count       : Z;
  expr_count       : Z
}.

Definition eof_entry : paren_stack_entry_t := mkEntry CT_EOF CT_NONE NONE None.

(** [ParseFrame{}] *)
Definition new_frame : ParseFrame := mkFrame [eof_entry] 0 0 0 0 0 0.

Definition set_pse (l : list paren_stack_entry_t) (f : ParseFrame) : ParseFrame :=
  mkFrame l (frm_level f) (frm_brace_level f) (frm_pp_level f)
          (sparen_count f) (stmt_count f) (expr_count f).
Definition set_frm_level (v : Z) (f : ParseFrame) : ParseFrame :=
  mkFrame (pse f) v (frm_brace_level f) (frm_pp_level f)
          (sparen_count f) (stmt_count f) (expr_count f).
Definition set_frm_brace_level (v : Z) (f : ParseFrame) : ParseFrame :=
  mkFrame (pse f) (frm_level f) v (frm_pp_level f)
          (sparen_count f) (stmt_count f) (expr_count f).
Definition set_sparen_count (v : Z) (f : ParseFrame) : ParseFrame :=
  mkFrame (pse f) (frm_level f) (frm_brace_level f) (frm_pp_level f)
          v (stmt_count f) (expr_count f).
Definition set_stmt_count (v : Z) (f : ParseFrame) : ParseFrame :=
  mkFrame (pse f) (frm_level f) (frm_brace_level f) (frm_pp_level f)
          (sparen_count f) v (expr_count f).
Definition set_expr_count (v : Z) (f : ParseFrame) : ParseFrame :=
  mkFrame (pse f) (frm_level f) (frm_brace_level f) (frm_pp_level f)
          (sparen_count f) (stmt_count f) v.

(** [frm.level--; frm.brace_level--;] *)
Definition set_brace_level_dec (f : ParseFrame) : ParseFrame :=
  set_frm_brace_level (wrap64 (frm_brace_level f - 1))
    (set_frm_level (wrap64 (frm_level f - 1)) f).

(** [frm.level++; frm.brace_level++;] *)
Definition set_brace_level_inc (f : ParseFrame) : ParseFrame :=
  set_frm_brace_level (wrap64 (frm_brace_level f + 1))
    (set_frm_level (wrap64 (frm_level f + 1)) f).

(** Modelled from the spec: [top()], [prev()], [push] and [pop] of the parse
    frame.  [push(opener, stage)] appends the entry
    [{type: opener.type, parent: opener.parent_type, stage, pc: opener}];
    [pop()] removes the top. *)
Definition top (f : ParseFrame) : paren_stack_entry_t := hd eof_entry (pse f).
Definition prev_entry (f : ParseFrame) : paren_stack_entry_t := nth 1 (pse f) eof_entry.
Definition frm_size (f : ParseFrame) : nat := List.length (pse f).

Definition set_top (g : paren_stack_entry_t -> paren_stack_entry_t) (f : ParseFrame)
  : ParseFrame :=
  match pse f with
  | [] => f
  | e :: rest => set_pse (g e :: rest) f
  end.

Definition frm_push (cl : ChunkList) (pc : ChunkPtr) (st : brace_stage_e) (f : ParseFrame)
  : ParseFrame :=
  let c := chunk_at cl pc in
  set_pse (mkEntry (c_type c) (c_parent_type c) st pc :: pse f) f.

(** [frm.push(nullptr, stage)]: an entry made from a default chunk. *)
Definition frm_push_null (st : brace_stage_e) (f : ParseFrame) : ParseFrame :=
  set_pse (mkEntry (c_type null_chunk) (c_parent_type null_chunk) st None :: pse f) f.

Definition frm_pop (f : ParseFrame) : ParseFrame := set_pse (tl (pse f)) f.

(** [frm.at(frm.size() - 2)]: the entry under the top; the index wraps
    around and is out of range when the stack holds fewer than two entries. *)
Definition at_size_minus_2 (f : ParseFrame) : option paren_stack_entry_t :=
  match pse f with
  | _ :: e :: _ => Some e
  | _ => None
  end.

Record BraceState : Type := mkBraceState {
  frames     : list ParseFrame;
  in_preproc : E_Token;
  pp_level   : Z;
  consumed   : bool
}.

Definition new_brace_state : BraceState := mkBraceState [] CT_NONE 0 false.

(** Modelled from the spec: [fl_push] and [fl_pop] of the frame list are not
    among the sources.  The frame list is a stack of parse frames (top at
    the head here); push stores a copy of the current frame, pop restores
    the current frame from the top and removes it. *)
Definition fl_push (fs : list ParseFrame) (f : ParseFrame) : list ParseFrame := f :: fs.

Definition fl_pop (fs : list ParseFrame) (f : ParseFrame) : list ParseFrame * ParseFrame :=
  match fs with
  | [] => ([], f)
  | g :: rest => (rest, g)
  end.

(* ================================================================== *)
(** ** Environment: options, language and the passes called out to *)

Record FlCheckResult : Type := mkFlCheck {
  fc_chunks   : ChunkList;
  fc_frames   : list ParseFrame;
  fc_frm      : ParseFrame;
  fc_pp_level : Z;
  fc_ret      : Z
}.

(** The options and language toggles the pass consults, and the functions
    of other translation units it calls: [fl_check] (frame list),
    [flag_parens], [Chunk::GetClosingParen] and the two Pawn helpers. *)
Record Env : Type := mkEnv {
  lang_pawn : bool;
  lang_d    : bool;
  lang_cs   : bool;
  lang_oc   : bool;
  lang_cpp  : bool;
  pp_warn_unbalanced_if          : bool;
  indent_namespace               : bool;
  indent_namespace_single_indent : bool;
  indent_namespace_limit         : Z;
  indent_else_if                 : bool;
  indent_using_block             : bool;
  fl_check : ChunkList -> list ParseFrame -> ParseFrame -> Z -> ChunkPtr -> FlCheckResult;
  flag_parens : ChunkList -> ChunkPtr -> Z -> E_Token -> E_Token -> bool -> ChunkList;
  GetClosingParen : ChunkList -> ChunkPtr -> ChunkPtr;
  pawn_check_vsemicolon : ChunkList -> ChunkPtr -> ChunkList * ChunkPtr;
  pawn_add_vsemi_after : ChunkList -> ChunkPtr -> ChunkList
}.

(* ================================================================== *)
(** ** State, outcomes and the monad *)

(** The warnings ([LWARN]) the pass writes; the other log levels are
    tracing and are left out. *)
Inductive LogMsg : Type :=
| W_unbalanced_define (orig_line brace_level : Z)
| W_closer (orig_line orig_col : Z) (text : string) (ty : E_Token)
| W_expected_closer (ty : option E_Token)
| W_unexpected (orig_line orig_col : Z) (text : string) (open_ty : E_Token) (open_line : Z)
| W_expected_semicolon (orig_line : Z) (ty : E_Token)
| W_expected_while (orig_line : Z) (text : string)
| W_expected_paren (orig_line : Z) (text : string) (tos : E_Token)
| W_tos_problem (orig_line : Z) (tos : E_Token) (st : brace_stage_e).

Inductive Exn : Type := invalid_argument | out_of_range.

Record State : Type := mkState {
  chunks     : ChunkList;
  frm        : ParseFrame;
  braceState : BraceState;
  log        : list LogMsg      (* newest first *)
}.

Definition set_chunks (cl : ChunkList) (s : State) : State :=
  mkState cl (frm s) (braceState s) (log s).
Definition set_frm (f : ParseFrame) (s : State) : State :=
  mkState (chunks s) f (braceState s) (log s).
Definition set_braceState (b : BraceState) (s : State) : State :=
  mkState (chunks s) (frm s) b (log s).
Definition set_log (l : list LogMsg) (s : State) : State :=
  mkState (chunks s) (frm s) (braceState s) l.

Inductive Outcome (A : Type) : Type :=
| Ok (a : A) (s : State)               (* normal return *)
| Exit (status : Z) (s : State)        (* exit(status) *)
| Throw (e : Exn) (s : State)          (* an exception leaves the pass *)
| OutOfFuel.

Arguments Ok {A} a s.
Arguments Exit {A} status s.
Arguments Throw {A} e s.
Arguments OutOfFuel {A}.

Definition M (A : Type) : Type := State -> Outcome A.

Definition ret {A : Type} (a : A) : M A := fun s => Ok a s.

Definition bind {A B : Type} (m : M A) (k : A -> M B) : M B :=
  fun s =>
    match m s with
    | Ok a s' => k a s'
    | Exit c s' => Exit c s'
    | Throw e s' => Throw e s'
    | OutOfFuel => OutOfFuel
    end.

Declare Scope brace_scope.
Delimit Scope brace_scope with brace.
Notation "x <- m ;; k" := (bind m (fun x => k))
  (at level 61, m at next level, right associativity) : brace_scope.
Notation "m ;;; k" := (bind m (fun _ => k))
  (at level 61, right associativity) : brace_scope.
Local Open Scope brace_scope.

Definition gets {A : Type} (f : State -> A) : M A := fun s => Ok (f s) s.
Definition modify (f : State -> State) : M unit := fun s => Ok tt (f s).
Definition exit_with {A : Type} (status : Z) : M A := fun s => Exit status s.
Definition throw {A : Type} (e : Exn) : M A := fun s => Throw e s.
Definition out_of_fuel {A : Type} : M A := fun _ => OutOfFuel.
Definition when (b : bool) (m : M unit) : M unit := if b then m else ret tt.

Definition the_chunk (p : ChunkPtr) : M Chunk := gets (fun s => chunk_at (chunks s) p).
Definition the_top : M paren_stack_entry_t := gets (fun s => top (frm s)).
Definition upd_chunk (p : ChunkPtr) (f : Chunk -> Chunk) : M unit :=
  modify (fun s => set_chunks (update_at (chunks s) p f) s).
Definition upd_frm (f : ParseFrame -> ParseFrame) : M unit :=
  modify (fun s => set_frm (f (frm s)) s).
Definition upd_top (g : paren_stack_entry_t -> paren_stack_entry_t) : M unit :=
  upd_frm (set_top g).
Definition push (pc : ChunkPtr) (st : brace_stage_e) : M unit :=
  modify (fun s => set_frm (frm_push (chunks s) pc st (frm s)) s).
Definition pop : M unit := upd_frm frm_pop.
Definition log_warn (m : LogMsg) : M unit := modify (fun s => set_log (m :: log s) s).
Definition set_consumed (b : bool) : M unit :=
  modify (fun s =>
    set_braceState (mkBraceState (frames (braceState s)) (in_preproc (braceState s))
                                 (pp_level (braceState s)) b) s).
Definition is_consumed : M bool := gets (fun s => consumed (braceState s)).

(* ================================================================== *)
(** ** The pass *)

Section BraceCleanup.

Variable env : Env.

(** *** [insert_vbrace] *)

(** The loop [while (ref->IsCommentOrNewline())] of [insert_vbrace]: [l] is
    what lies before the chunk, nearest first.  Every comment or newline
    passed gets its level and brace level raised by one. *)
Fixpoint rewind_comments (l : ChunkList) (cl : ChunkList) : ChunkList * ChunkPtr :=
  match l with
  | [] => (cl, None)
  | (i, c) :: rest =>
      if IsCommentOrNewline c
      then rewind_comments rest
             (update cl i (fun r => SetBraceLevel (wrap64 (c_brace_level r + 1))
                                      (SetLevel (wrap64 (c_level r + 1)) r)))
      else (cl, Some i)
  end.

(** "Don't back into a preprocessor". *)
Definition leave_preproc_anchor (cl : ChunkList) (ref : ChunkPtr) : ChunkPtr :=
  if Is CT_PREPROC_BODY (chunk_at cl ref)
  then first_such (fun c => negb (TestFlags PCF_IN_PREPROC c)) (before cl ref)
  else
    let ref1 := GetNext cl ref in
    if Is CT_COMMENT (chunk_at cl ref1) then GetNextNc cl ref1 else ref1.

Definition insert_vbrace (pc : ChunkPtr) (after_pc : bool) : M ChunkPtr :=
  fun s =>
    let cl := chunks s in
    let f := frm s in
    let c := chunk_at cl pc in
    let chunk :=
      SetStr EmptyString
        (SetFlags (Z.land (c_flags c) PCF_COPY_FLAGS)
          (SetBraceLevel (frm_brace_level f)
            (SetPpLevel (frm_pp_level f)
              (SetLevel (frm_level f)
                (SetOrigLine (c_orig_line c)
                  (SetParentType (e_type (top f)) null_chunk)))))) in
    if after_pc then
      let r := CopyAndAddAfter cl
                 (SetType CT_VBRACE_CLOSE (SetOrigCol (c_orig_col c) chunk)) pc in
      Ok (snd r) (set_chunks (fst r) s)
    else
      let ref := GetPrev cl pc in
      if IsNullChunk cl ref then Ok None s
      else
        let chunk := if negb (TestFlags PCF_IN_PREPROC (chunk_at cl ref))
                     then ResetFlagBits PCF_IN_PREPROC chunk else chunk in
        let ref_is_comment := IsComment (chunk_at cl ref) in
        let rw := rewind_comments (before cl pc) cl in
        let cl1 := fst rw in
        let ref := snd rw in
        if IsNullChunk cl1 ref then Ok None (set_chunks cl1 s)
        else
          let ref := if negb (TestFlags PCF_IN_PREPROC c)
                        && TestFlags PCF_IN_PREPROC (chunk_at cl1 ref)
                     then leave_preproc_anchor cl1 ref else ref in
          let ref := if ref_is_comment then GetNext cl1 ref else ref in
          if IsNullChunk cl1 ref then Ok None (set_chunks cl1 s)
          else
            let r := chunk_at cl1 ref in
            let chunk :=
              SetType CT_VBRACE_OPEN
                (SetPpLevel (c_pp_level r)
                  (SetColumn (wrap64 (c_column r + Len r + 1))
                    (SetOrigCol (c_orig_col r)
                      (SetOrigLine (c_orig_line r) chunk)))) in
            let res := CopyAndAddAfter cl1 chunk ref in
            Ok (snd res) (set_chunks (fst res) s).

Definition insert_vbrace_close_after (pc : ChunkPtr) : M ChunkPtr := insert_vbrace pc true.
Definition insert_vbrace_open_before (pc : ChunkPtr) : M ChunkPtr := insert_vbrace pc false.

(** *** [handle_complex_close] and [close_statement] *)

(** The body of [handle_complex_close], with its calls to [close_statement]
    going through [cs]. *)
Definition handle_complex_close_body (cs : ChunkPtr -> M bool) (pc : ChunkPtr) : M bool :=
  t <- the_top ;;
  match e_stage t with
  | PAREN1 =>
      nxt <- gets (fun s => chunk_at (chunks s) (GetNext (chunks s) pc)) ;;
      if tok_eqb (c_type nxt) CT_WHEN then
        c <- the_chunk pc ;;
        upd_top (fun e => set_e_stage CATCH_WHEN (set_e_type (c_type c) e)) ;;;
        ret true
      else
        (* PAREN1 always => BRACE2 *)
        upd_top (set_e_stage BRACE2) ;;; ret false
  | BRACE2 =>
      (* BRACE2: IF => ELSE, anything else => close *)
      if tok_eqb (e_type t) CT_IF || tok_eqb (e_type t) CT_ELSEIF then
        upd_top (set_e_stage ELSE) ;;;
        next_null <- gets (fun s => IsNullChunk (chunks s) (GetNextNcNnl (chunks s) pc)) ;;
        next <- gets (fun s => chunk_at (chunks s) (GetNextNcNnl (chunks s) pc)) ;;
        if next_null || IsNot CT_ELSE next then pop ;;; cs pc else ret false
      else if tok_eqb (e_type t) CT_TRY || tok_eqb (e_type t) CT_CATCH then
        upd_top (set_e_stage CATCH) ;;;
        next <- gets (fun s => chunk_at (chunks s) (GetNextNcNnl (chunks s) pc)) ;;
        if IsNot CT_CATCH next && IsNot CT_FINALLY next then pop ;;; cs pc else ret false
      else
        pop ;;; cs pc
  | BRACE_DO => upd_top (set_e_stage WHILE) ;;; ret false
  | WOD_PAREN => upd_top (set_e_stage WOD_SEMI) ;;; ret false
  | WOD_SEMI => pop ;;; cs pc
  | st =>
      (* PROBLEM *)
      c <- the_chunk pc ;;
      log_warn (W_tos_problem (c_orig_line c) (e_type t) st) ;;;
      exit_with EX_SOFTWARE
  end.

(** The body of [close_statement]; [cs] stands for the recursive calls. *)
Definition close_statement_body (cs : ChunkPtr -> M bool) (pc : ChunkPtr) : M bool :=
  isnull <- gets (fun s => IsNullChunk (chunks s) pc) ;;
  if isnull then throw invalid_argument
  else
    was_consumed <- is_consumed ;;
    when was_consumed (upd_frm (fun f => set_expr_count 0 (set_stmt_count 0 f))) ;;;
    (* Insert a CT_VBRACE_CLOSE, if needed *)
    t <- the_top ;;
    let finish : M bool :=
      (* See if we are done with a complex statement *)
      t' <- the_top ;;
      if negb (stage_eqb (e_stage t') NONE)
      then b <- handle_complex_close_body cs pc ;; ret b
      else ret false in
    if tok_eqb (e_type t) CT_VBRACE_OPEN then
      if was_consumed then
        (* the current token has already been consumed: add after it *)
        _ <- insert_vbrace_close_after pc ;; finish
      else
        (* otherwise, add before it and consume the vbrace *)
        vbc0 <- gets (fun s => GetPrevNcNnl (chunks s) pc) ;;
        upd_frm (fun f => set_brace_level_dec f) ;;;
        vbc <- insert_vbrace_close_after vbc0 ;;
        t1 <- the_top ;;
        upd_chunk vbc (SetParentType (e_parent t1)) ;;;
        pop ;;;
        (* Update the token level *)
        f <- gets frm ;;
        upd_chunk pc (fun c => SetBraceLevel (frm_brace_level f) (SetLevel (frm_level f) c)) ;;;
        (* And repeat the close *)
        _ <- cs pc ;;
        ret true
    else finish.

(** [close_statement] calls itself directly and through
    [handle_complex_close]; [fuel] bounds the depth of these calls. *)
Fixpoint close_statement_fuel (fuel : nat) (pc : ChunkPtr) : M bool :=
  match fuel with
  | O => out_of_fuel
  | S n => close_statement_body (close_statement_fuel n) pc
  end.

(** Every nested call comes after a pop, so one more than the stack size is
    enough ([close_statement_total] below). *)
Definition close_statement (pc : ChunkPtr) : M bool :=
  fun s => close_statement_fuel (S (frm_size (frm s))) pc s.

Definition handle_complex_close (pc : ChunkPtr) : M bool :=
  handle_complex_close_body close_statement pc.

(** *** [check_complex_statements] *)

(** A step of [check_complex_statements] either returns from the function
    ([Some b]) or falls through to the next check ([None]). *)
Definition or_continue (m : M (option bool)) (k : M bool) : M bool :=
  r <- m ;;
  match r with
  | Some b => ret b
  | None => k
  end.

(** Turn an optional parenthesis into either a real parenthesis or a brace *)
Definition ccs_op_paren1 (pc : ChunkPtr) : M unit :=
  t <- the_top ;;
  c <- the_chunk pc ;;
  when (stage_eqb (e_stage t) OP_PAREN1)
       (upd_top (set_e_stage (if IsNot CT_PAREN_OPEN c then BRACE2 else PAREN1))).

(** Check for CT_ELSE after CT_IF: [while (frm.top().stage == ELSE)] *)
Fixpoint ccs_else_loop (fuel : nat) (pc : ChunkPtr) : M (option bool) :=
  match fuel with
  | O => out_of_fuel
  | S n =>
      t <- the_top ;;
      if stage_eqb (e_stage t) ELSE then
        c <- the_chunk pc ;;
        if Is CT_ELSE c then
          (* Replace CT_IF with CT_ELSE on the stack & we are done *)
          upd_top (fun e => set_e_stage ELSEIF (set_e_type CT_ELSE e)) ;;;
          ret (Some true)
        else
          (* Remove the CT_IF and close the statement *)
          pop ;;;
          b <- close_statement pc ;;
          if b then ret (Some true) else ccs_else_loop n pc
      else ret None
  end.

(** Check for CT_IF after CT_ELSE *)
Definition ccs_elseif (pc : ChunkPtr) : M (option bool) :=
  t <- the_top ;;
  if stage_eqb (e_stage t) ELSEIF then
    c <- the_chunk pc ;;
    prev_nc <- gets (fun s => chunk_at (chunks s) (GetPrevNc (chunks s) pc)) ;;
    if Is CT_IF c && (negb (indent_else_if env) || negb (IsNewline prev_nc)) then
      (* Replace CT_ELSE with CT_IF *)
      upd_chunk pc (SetType CT_ELSEIF) ;;;
      upd_top (fun e => set_e_stage PAREN1 (set_e_type CT_ELSEIF e)) ;;;
      ret (Some true)
    else
      (* Jump to the 'expecting brace' stage *)
      upd_top (set_e_stage BRACE2) ;;; ret None
  else ret None.

(** Check for CT_CATCH or CT_FINALLY after CT_TRY or CT_CATCH:
    [while (frm.top().stage == CATCH)] *)
Fixpoint ccs_catch_loop (fuel : nat) (pc : ChunkPtr) : M (option bool) :=
  match fuel with
  | O => out_of_fuel
  | S n =>
      t <- the_top ;;
      if stage_eqb (e_stage t) CATCH then
        c <- the_chunk pc ;;
        if Is CT_CATCH c || Is CT_FINALLY c then
          (* Replace CT_TRY with CT_CATCH or CT_FINALLY on the stack *)
          upd_top (set_e_type (c_type c)) ;;;
          upd_top (set_e_stage
                     (if lang_cs env
                      then (if Is CT_CATCH c then CATCH_WHEN else BRACE2)
                      else (if Is CT_CATCH c then PAREN1 else BRACE2))) ;;;
          ret (Some true)
        else
          (* Remove the CT_TRY and close the statement *)
          pop ;;;
          b <- close_statement pc ;;
          if b then ret (Some true) else ccs_catch_loop n pc
      else ret None
  end.

(** Check for optional parenthesis and optional CT_WHEN after CT_CATCH *)
Definition ccs_catch_when (pc : ChunkPtr) : M (option bool) :=
  t <- the_top ;;
  if stage_eqb (e_stage t) CATCH_WHEN then
    c <- the_chunk pc ;;
    if Is CT_PAREN_OPEN c then
      (* Replace CT_PAREN_OPEN with CT_SPAREN_OPEN *)
      upd_chunk pc (SetType CT_SPAREN_OPEN) ;;;
      c' <- the_chunk pc ;;
      upd_top (fun e => set_e_stage PAREN1 (set_e_type (c_type c') e)) ;;;
      ret (Some false)
    else if Is CT_WHEN c then
      upd_top (fun e => set_e_stage OP_PAREN1 (set_e_type (c_type c) e)) ;;;
      ret (Some true)
    else if Is CT_BRACE_OPEN c then
      upd_top (set_e_stage BRACE2) ;;; ret (Some false)
    else ret None
  else ret None.

(** Check for CT_WHILE after the CT_DO *)
Definition ccs_while (pc : ChunkPtr) : M (option bool) :=
  t <- the_top ;;
  if stage_eqb (e_stage t) WHILE then
    c <- the_chunk pc ;;
    if Is CT_WHILE c then
      upd_chunk pc (SetType CT_WHILE_OF_DO) ;;;
      upd_top (fun e => set_e_stage WOD_PAREN (set_e_type CT_WHILE_OF_DO e)) ;;;
      ret (Some true)
    else
      log_warn (W_expected_while (c_orig_line c) (c_str c)) ;;;
      pop ;;;
      exit_with EX_SOFTWARE
  else ret None.

(** Insert a CT_VBRACE_OPEN, if needed, but not in a preprocessor *)
Definition ccs_vbrace (pc : ChunkPtr) : M unit :=
  t <- the_top ;;
  c <- the_chunk pc ;;
  if IsNot CT_BRACE_OPEN c
     && negb (TestFlags PCF_IN_PREPROC c)
     && (stage_eqb (e_stage t) BRACE2 || stage_eqb (e_stage t) BRACE_DO)
  then
    if lang_cs env && Is CT_USING_STMT c && negb (indent_using_block env) then
      (* don't indent the using block *)
      ret tt
    else
      let parentType := e_type t in
      vbrace <- insert_vbrace_open_before pc ;;
      upd_chunk vbrace (SetParentType parentType) ;;;
      upd_frm set_brace_level_inc ;;;
      push vbrace NONE ;;;
      upd_top (set_e_parent parentType) ;;;
      (* update the level of pc *)
      f <- gets frm ;;
      upd_chunk pc (fun x => SetBraceLevel (frm_brace_level f) (SetLevel (frm_level f) x)) ;;;
      (* Mark as a start of a statement *)
      upd_chunk pc (SetFlagBits (Z.lor PCF_STMT_START PCF_EXPR_START)) ;;;
      upd_frm (fun f => set_expr_count 1 (set_stmt_count 1 f))
  else ret tt.

(** Check for "constexpr" after CT_IF or CT_ELSEIF *)
Definition ccs_constexpr (pc : ChunkPtr) : M (option bool) :=
  t <- the_top ;;
  c <- the_chunk pc ;;
  if stage_eqb (e_stage t) PAREN1
     && (tok_eqb (e_type t) CT_IF || tok_eqb (e_type t) CT_ELSEIF)
     && Is CT_CONSTEXPR c
  then ret (Some false)
  else ret None.

(** Verify open parenthesis in complex statement *)
Definition ccs_verify_paren (pc : ChunkPtr) : M bool :=
  t <- the_top ;;
  c <- the_chunk pc ;;
  if IsNot CT_PAREN_OPEN c
     && (stage_eqb (e_stage t) PAREN1 || stage_eqb (e_stage t) WOD_PAREN)
  then
    log_warn (W_expected_paren (c_orig_line c) (c_str c) (e_type t)) ;;;
    (* Throw out the complex statement *)
    pop ;;;
    exit_with EX_SOFTWARE
  else ret false.

Definition loop_fuel : M nat := gets (fun s => S (frm_size (frm s))).

Definition check_complex_statements (pc : ChunkPtr) : M bool :=
  ccs_op_paren1 pc ;;;
  n <- loop_fuel ;;
  or_continue (ccs_else_loop n pc)
    (or_continue (ccs_elseif pc)
      (m <- loop_fuel ;;
       or_continue (ccs_catch_loop m pc)
         (or_continue (ccs_catch_when pc)
           (or_continue (ccs_while pc)
             (ccs_vbrace pc ;;;
              or_continue (ccs_constexpr pc)
                (ccs_verify_paren pc)))))).

(** *** [maybe_while_of_do] *)

(** "Find the chunk before the preprocessor":
    [while (prev->IsNullChunk() && prev->TestFlags(PCF_IN_PREPROC))]. *)
Fixpoint mwod_rewind (fuel : nat) (cl : ChunkList) (prev : ChunkPtr) : ChunkPtr :=
  match fuel with
  | O => prev
  | S n =>
      if IsNullChunk cl prev && TestFlags PCF_IN_PREPROC (chunk_at cl prev)
      then mwod_rewind n cl (GetPrevNcNnl cl prev)
      else prev
  end.

Definition maybe_while_of_do (cl : ChunkList) (pc : ChunkPtr) : bool :=
  let prev := GetPrevNcNnl cl pc in
  if IsNullChunk cl prev || negb (TestFlags PCF_IN_PREPROC (chunk_at cl prev))
  then false
  else
    let prev := mwod_rewind (List.length cl) cl prev in
    let p := chunk_at cl prev in
    if (Is CT_VBRACE_CLOSE p || Is CT_BRACE_CLOSE p) && tok_eqb (c_parent_type p) CT_DO
    then true
    else false.

(** *** [parse_cleanup], block by block *)

(** Mark statement starts; count the chunk. *)
Definition pc_mark_start (pc : ChunkPtr) : M unit :=
  f <- gets frm ;;
  c <- the_chunk pc ;;
  when (((stmt_count f =? 0) || (expr_count f =? 0))
        && negb (IsSemicolon c)
        && IsNot CT_BRACE_CLOSE c
        && IsNot CT_VBRACE_CLOSE c
        && negb (IsString ")" c)
        && negb (IsString "]" c))
       (upd_chunk pc
          (SetFlagBits (Z.lor PCF_EXPR_START
                          (if stmt_count f =? 0 then PCF_STMT_START else PCF_NONE)))) ;;;
  upd_frm (fun f => set_expr_count (wrap64 (expr_count f + 1))
                      (set_stmt_count (wrap64 (stmt_count f + 1)) f)).

(** [for (tmp = size - 2; tmp >= 0; tmp--) if (frm.at(tmp).type == CT_FOR)]:
    every entry but the top is inspected. *)
Definition for_below_top (f : ParseFrame) : bool :=
  existsb (fun e => tok_eqb (e_type e) CT_FOR) (tl (pse f)).

(** [if (frm.sparen_count > 0)]: mark the chunk as inside a statement paren,
    mark everything in the for statement, and set the parent on semicolons
    in for() statements. *)
Definition pc_mark_sparen (pc : ChunkPtr) : M unit :=
  f <- gets frm ;;
  if 0 <? sparen_count f then
    upd_chunk pc (SetFlagBits PCF_IN_SPAREN) ;;;
    when (for_below_top f) (upd_chunk pc (SetFlagBits PCF_IN_FOR)) ;;;
    c <- the_chunk pc ;;
    when (Is CT_SEMICOLON c
          && Nat.ltb 2 (frm_size f)
          && tok_eqb (e_type (prev_entry f)) CT_FOR)
         (upd_chunk pc (SetParentType CT_FOR))
  else ret tt.

(** Check for a virtual brace statement close due to a semicolon. *)
Definition pc_vbrace_close (pc : ChunkPtr) : M unit :=
  t <- the_top ;;
  c <- the_chunk pc ;;
  if tok_eqb (e_type t) CT_VBRACE_OPEN then
    if IsSemicolon c then
      set_consumed true ;;;
      _ <- close_statement pc ;; ret tt
    else if lang_pawn env && Is CT_BRACE_CLOSE c then
      _ <- close_statement pc ;; ret tt
    else if lang_d env && Is CT_BRACE_CLOSE c then
      _ <- close_statement pc ;; ret tt
    else ret tt
  else ret tt.

Definition is_closer (c : Chunk) : bool :=
  Is CT_PAREN_CLOSE c || Is CT_BRACE_CLOSE c || Is CT_VBRACE_CLOSE c
  || Is CT_ANGLE_CLOSE c || Is CT_MACRO_CLOSE c || Is CT_SQUARE_CLOSE c.

(** The test "make sure the open / close match" fails for a closer of type
    [close] against a stack top of type [open]: [close] is not the member
    after [open], also not once a plain close paren has taken the type that
    pairs with a function or statement paren. *)
Definition mismatched (open close : E_Token) : bool :=
  negb (is_succ_of close open)
  && negb (tok_eqb close CT_PAREN_CLOSE
           && (tok_eqb open CT_FPAREN_OPEN || tok_eqb open CT_SPAREN_OPEN)).

(** The types of the two entries that stand for no opener: the bottom of
    every stack and the entry a [#define] body starts with. *)
Definition is_sentinel_type (t : E_Token) : bool :=
  tok_eqb t CT_EOF || tok_eqb t CT_PP_DEFINE.

(** [pc->SetType(static_cast<E_Token>(frm.top().type + 1))] *)
Definition SetType_succ (open : E_Token) (c : Chunk) : Chunk :=
  match tok_succ open with
  | Some t => SetType t c
  | None => c
  end.

(** Handle close parenthesis, vbrace, brace, and square. *)
Definition pc_close (pc : ChunkPtr) : M unit :=
  c <- the_chunk pc ;;
  if is_closer c then
    t <- the_top ;;
    (* Change CT_PAREN_CLOSE into CT_SPAREN_CLOSE or CT_FPAREN_CLOSE *)
    when (Is CT_PAREN_CLOSE c
          && (tok_eqb (e_type t) CT_FPAREN_OPEN || tok_eqb (e_type t) CT_SPAREN_OPEN))
         (upd_chunk pc (SetType_succ (e_type t)) ;;;
          c1 <- the_chunk pc ;;
          when (Is CT_SPAREN_CLOSE c1)
               (upd_frm (fun f => set_sparen_count (wrap64 (sparen_count f - 1)) f) ;;;
                upd_chunk pc (ResetFlagBits PCF_IN_SPAREN))) ;;;
    (* Make sure the open / close match *)
    c2 <- the_chunk pc ;;
    if negb (is_succ_of (c_type c2) (e_type t)) then
      if TestFlags PCF_IN_PREPROC c2 then
        (* do nothing *)
        ret tt
      else
        log_warn (W_closer (c_orig_line c2) (c_orig_col c2) (c_str c2) (c_type c2)) ;;;
        when (negb (tok_eqb (e_type t) CT_EOF))
             (log_warn (W_expected_closer (tok_succ (e_type t)))) ;;;
        if negb (tok_eqb (e_type t) CT_EOF) && negb (tok_eqb (e_type t) CT_PP_DEFINE) then
          opener <- the_chunk (e_pc t) ;;
          log_warn (W_unexpected (c_orig_line c2) (c_orig_col c2) (c_str c2)
                                 (c_type opener) (c_orig_line opener)) ;;;
          exit_with EXIT_FAILURE
        else ret tt
    else
      set_consumed true ;;;
      (* Copy the parent, update the parenthesis/brace levels *)
      upd_chunk pc (SetParentType (e_parent t)) ;;;
      upd_frm (fun f => set_frm_level (wrap64 (frm_level f - 1)) f) ;;;
      when (Is CT_BRACE_CLOSE c2 || Is CT_VBRACE_CLOSE c2 || Is CT_MACRO_CLOSE c2)
           (upd_frm (fun f => set_frm_brace_level (wrap64 (frm_brace_level f - 1)) f)) ;;;
      f <- gets frm ;;
      upd_chunk pc (fun x => SetBraceLevel (frm_brace_level f) (SetLevel (frm_level f) x)) ;;;
      (* Pop the entry *)
      pop ;;;
      t1 <- the_top ;;
      opener <- the_chunk (e_pc t1) ;;
      when (stage_eqb (e_stage t1) NONE
            && (Is CT_VBRACE_CLOSE c2 || Is CT_BRACE_CLOSE c2 || Is CT_SEMICOLON c2)
            && Is CT_VBRACE_OPEN opener)
           (* dummy frame for the function *)
           (upd_frm (frm_push_null NONE) ;;; upd_top (set_e_stage BRACE2)) ;;;
      (* See if we are in a complex statement *)
      t2 <- the_top ;;
      if negb (stage_eqb (e_stage t2) NONE)
      then _ <- handle_complex_close pc ;; ret tt
      else ret tt
  else ret tt.

(** [if (frm.top().stage == brace_stage_e::WOD_SEMI)] *)
Definition pc_wod_semi (pc : ChunkPtr) : M unit :=
  t <- the_top ;;
  if stage_eqb (e_stage t) WOD_SEMI then
    was_consumed <- is_consumed ;;
    if was_consumed then
      (* we are on the close sparen *)
      if lang_pawn env then
        tmp <- gets (fun s => chunk_at (chunks s) (GetNextNcNnl (chunks s) pc)) ;;
        when (negb (IsSemicolon tmp))
             (modify (fun s => set_chunks (pawn_add_vsemi_after env (chunks s) pc) s))
      else ret tt
    else
      c <- the_chunk pc ;;
      (* Complain if this ISN'T a semicolon, but close out WHILE_OF_DO anyway *)
      (if IsSemicolon c then
         set_consumed true ;;;
         upd_chunk pc (SetParentType CT_WHILE_OF_DO)
       else
         log_warn (W_expected_semicolon (c_orig_line c) (c_type c)) ;;;
         exit_with EX_SOFTWARE) ;;;
      _ <- handle_complex_close pc ;; ret tt
  else ret tt.

Definition is_sparen_keyword (prev : Chunk) : bool :=
  Is CT_IF prev || Is CT_CONSTEXPR prev || Is CT_ELSEIF prev || Is CT_WHILE prev
  || Is CT_WHILE_OF_DO prev || Is CT_DO prev || Is CT_FOR prev || Is CT_SWITCH prev
  || Is CT_CATCH prev || Is CT_SYNCHRONIZED prev || Is CT_D_VERSION prev
  || Is CT_D_VERSION_IF prev || Is CT_D_SCOPE prev || Is CT_D_SCOPE_IF prev.

(** Get the parent type for brace and parenthesis open. *)
Definition pc_parent (pc : ChunkPtr) : M E_Token :=
  c <- the_chunk pc ;;
  let parentType := c_parent_type c in
  if Is CT_PAREN_OPEN c || Is CT_FPAREN_OPEN c || Is CT_SPAREN_OPEN c || Is CT_BRACE_OPEN c
  then
    prev_null <- gets (fun s => IsNullChunk (chunks s) (GetPrevNcNnl (chunks s) pc)) ;;
    prev <- gets (fun s => chunk_at (chunks s) (GetPrevNcNnl (chunks s) pc)) ;;
    if negb prev_null then
      if Is CT_PAREN_OPEN c || Is CT_FPAREN_OPEN c || Is CT_SPAREN_OPEN c then
        (* Set the parent for parenthesis and change parenthesis type *)
        if is_sparen_keyword prev then
          upd_chunk pc (SetType CT_SPAREN_OPEN) ;;;
          t <- the_top ;;
          upd_frm (fun f => set_sparen_count (wrap64 (sparen_count f + 1)) f) ;;;
          ret (e_type t)
        else if Is CT_FUNCTION prev then
          upd_chunk pc (SetType CT_FPAREN_OPEN) ;;; ret CT_FUNCTION
        else if Is CT_ENUM prev && lang_oc env then
          upd_chunk pc (SetType CT_FPAREN_OPEN) ;;; ret CT_ENUM
        else if Is CT_DECLSPEC prev then ret CT_DECLSPEC
        else ret parentType
      else
        (* must be CT_BRACE_OPEN: set the parent for open braces *)
        t <- the_top ;;
        if negb (stage_eqb (e_stage t) NONE) then ret (e_type t)
        else if Is CT_ASSIGN prev && starts_with_eq prev then ret CT_ASSIGN
        else if Is CT_RETURN prev && lang_cpp env then ret CT_RETURN
        else if Is CT_FPAREN_CLOSE prev && lang_oc env
                && tok_eqb (c_parent_type prev) CT_ENUM then ret CT_ENUM
        else if Is CT_FPAREN_CLOSE prev then ret CT_FUNCTION
        else ret parentType
    else ret parentType
  else ret parentType.

Definition is_opener (c : Chunk) : bool :=
  Is CT_BRACE_OPEN c || Is CT_PAREN_OPEN c || Is CT_FPAREN_OPEN c || Is CT_SPAREN_OPEN c
  || Is CT_ANGLE_OPEN c || Is CT_MACRO_OPEN c || Is CT_SQUARE_OPEN c.

(** Adjust the level for opens & create a stack entry. *)
Definition pc_open (pc : ChunkPtr) (parentType : E_Token) : M unit :=
  c <- the_chunk pc ;;
  if is_opener c then
    upd_frm (fun f => set_frm_level (wrap64 (frm_level f + 1)) f) ;;;
    when (Is CT_BRACE_OPEN c || Is CT_MACRO_OPEN c)
         (t <- the_top ;;
          tmp <- the_chunk (e_pc t) ;;
          let single :=
            tok_eqb (c_parent_type c) CT_NAMESPACE
            && tok_eqb (c_parent_type tmp) CT_NAMESPACE
            && indent_namespace env && indent_namespace_single_indent env in
          when (negb single)
               (upd_frm (fun f => set_frm_brace_level (wrap64 (frm_brace_level f + 1)) f))) ;;;
    push pc NONE ;;;
    upd_top (set_e_parent parentType) ;;;
    upd_chunk pc (SetParentType parentType)
  else ret tt.

(** [saved = frm.at(idx - 2).pc; if (saved->IsNotNullChunk()) pc->SetParent(saved);] *)
Definition set_parent_from_stack (pc : ChunkPtr) : M unit :=
  f <- gets frm ;;
  match at_size_minus_2 f with
  | None => throw out_of_range
  | Some e =>
      saved_null <- gets (fun s => IsNullChunk (chunks s) (e_pc e)) ;;
      when (negb saved_null) (upd_chunk pc (SetParent (e_pc e)))
  end.

(** The braces of a switch, [case], [default] and [break] get their parent. *)
Definition pc_switch (pc : ChunkPtr) : M unit :=
  c <- the_chunk pc ;;
  when (Is CT_BRACE_OPEN c && tok_eqb (c_parent_type c) CT_SWITCH)
       (set_parent_from_stack pc) ;;;
  (if Is CT_CASE c || Is CT_DEFAULT c then
     prev <- gets (fun s => chunk_at (chunks s) (GetPrevNcNnl (chunks s) pc)) ;;
     when (Is CT_CASE c || (Is CT_DEFAULT c && IsNot CT_ASSIGN prev))
          (upd_chunk pc (SetParentType CT_SWITCH) ;;; set_parent_from_stack pc)
   else ret tt) ;;;
  when (Is CT_BREAK c) (set_parent_from_stack pc).

(** Create a stack entry for complex statements. *)
Definition pc_push_complex (pc : ChunkPtr) : M unit :=
  c <- the_chunk pc ;;
  match get_token_pattern_class (c_type c) with
  | PC_BRACED => push pc (if Is CT_DO c then BRACE_DO else BRACE2)
  | PC_PBRACED =>
      wod <- gets (fun s => maybe_while_of_do (chunks s) pc) ;;
      if Is CT_WHILE c && wod then
        upd_chunk pc (SetType CT_WHILE_OF_DO) ;;;
        push pc WOD_PAREN
      else push pc PAREN1
  | PC_OPBRACED => push pc OP_PAREN1
  | PC_ELSE => push pc ELSEIF
  | PC_NONE => ret tt
  end.

(** Mark simple statement/expression starts. *)
Definition pc_reset_counts (pc : ChunkPtr) : M unit :=
  c <- the_chunk pc ;;
  t <- the_top ;;
  when (Is CT_SQUARE_OPEN c
        || (Is CT_BRACE_OPEN c && negb (tok_eqb (c_parent_type c) CT_ASSIGN))
        || Is CT_BRACE_CLOSE c
        || Is CT_VBRACE_CLOSE c
        || (Is CT_SPAREN_OPEN c && tok_eqb (c_parent_type c) CT_FOR)
        || Is CT_COLON c
        || Is CT_OC_END c
        || (IsSemicolon c
            && negb (tok_eqb (e_type t) CT_PAREN_OPEN)
            && negb (tok_eqb (e_type t) CT_FPAREN_OPEN)
            && negb (tok_eqb (e_type t) CT_SPAREN_OPEN))
        || Is CT_MACRO c)
       (upd_frm (fun f => set_expr_count 0 (set_stmt_count 0 f))) ;;;
  (* Mark expression starts *)
  tmp <- gets (fun s => chunk_at (chunks s) (GetNextNcNnl (chunks s) pc)) ;;
  when (Is CT_ARITH c || Is CT_SHIFT c || Is CT_ASSIGN c || Is CT_CASE c
        || Is CT_COMPARE c || (Is CT_STAR c && IsNot CT_STAR tmp)
        || Is CT_BOOL c || Is CT_MINUS c || Is CT_PLUS c || Is CT_CARET c
        || Is CT_ANGLE_OPEN c || Is CT_ANGLE_CLOSE c || Is CT_RETURN c
        || Is CT_THROW c || Is CT_GOTO c || Is CT_CONTINUE c
        || Is CT_PAREN_OPEN c || Is CT_FPAREN_OPEN c || Is CT_SPAREN_OPEN c
        || Is CT_BRACE_OPEN c || IsSemicolon c || Is CT_COMMA c || Is CT_NOT c
        || Is CT_INV c || Is CT_COLON c || Is CT_QUESTION c)
       (upd_frm (set_expr_count 0)).

(** What [parse_cleanup] does with a chunk once the complex-statement check
    has said "keep processing". *)
Definition parse_cleanup_rest (pc : ChunkPtr) : M unit :=
  pc_vbrace_close pc ;;;
  pc_close pc ;;;
  pc_wod_semi pc ;;;
  parentType <- pc_parent pc ;;
  pc_open pc parentType ;;;
  pc_switch pc ;;;
  pc_push_complex pc ;;;
  pc_reset_counts pc.

Definition parse_cleanup (pc : ChunkPtr) : M unit :=
  pc_mark_start pc ;;;
  pc_mark_sparen pc ;;;
  (* Check the progression of complex statements *)
  t <- the_top ;;
  c <- the_chunk pc ;;
  done <- (if negb (stage_eqb (e_stage t) NONE) && negb (Is CT_AUTORELEASEPOOL c)
           then check_complex_statements pc else ret false) ;;
  if done then ret tt else parse_cleanup_rest pc.

(** *** [preproc_start] *)

Definition set_in_preproc (t : E_Token) : M unit :=
  modify (fun s =>
    set_braceState (mkBraceState (frames (braceState s)) t
                                 (pp_level (braceState s)) (consumed (braceState s))) s).

Definition set_frames (fs : list ParseFrame) : M unit :=
  modify (fun s =>
    set_braceState (mkBraceState fs (in_preproc (braceState s))
                                 (pp_level (braceState s)) (consumed (braceState s))) s).

(** The frame a [#define] body starts with: a new, blank frame at level 1
    and brace level 1, with one entry pushed whose type is [CT_PP_DEFINE]. *)
Definition define_frame : ParseFrame :=
  set_top (set_e_type CT_PP_DEFINE)
    (frm_push_null NONE (set_frm_brace_level 1 (set_frm_level 1 new_frame))).

Definition preproc_start (pc : ChunkPtr) : M Z :=
  bs <- gets braceState ;;
  let pp := wrap64 (pp_level bs) in
  next_null <- gets (fun s => IsNullChunk (chunks s) (GetNextNcNnl (chunks s) pc)) ;;
  next <- gets (fun s => chunk_at (chunks s) (GetNextNcNnl (chunks s) pc)) ;;
  if next_null then ret pp
  else
    (* Get the type of preprocessor and handle it *)
    set_in_preproc (c_type next) ;;;
    if negb (tok_eqb (c_type next) CT_PP_DEFINE) then
      (* If we are not in a define, check for #if, #else, #endif, etc *)
      fun s =>
        let b := braceState s in
        let r := fl_check env (chunks s) (frames b) (frm s) (pp_level b) pc in
        Ok (wrap64 (fc_ret r))
           (mkState (fc_chunks r) (fc_frm r)
                    (mkBraceState (fc_frames r) (in_preproc b) (fc_pp_level r) (consumed b))
                    (log s))
    else
      (* else push the frame stack *)
      f <- gets frm ;;
      set_frames (fl_push (frames bs) f) ;;;
      (* a preproc body starts a new, blank frame *)
      upd_frm (fun _ => define_frame) ;;;
      ret pp.

(** *** [mark_namespace] *)

(** The loop of [mark_namespace] over the chunks that follow the namespace
    keyword, comments and newlines skipped ([l], nearest first). *)
Fixpoint mark_namespace_loop (l : list ChunkId) (is_using : bool) : M unit :=
  match l with
  | [] => ret tt
  | i :: rest =>
      let pc := Some i in
      upd_chunk pc (SetParentType CT_NAMESPACE) ;;;
      c <- the_chunk pc ;;
      if IsNot CT_BRACE_OPEN c then
        if Is CT_SEMICOLON c then
          when is_using (upd_chunk pc (SetParentType CT_USING))
        else mark_namespace_loop rest is_using
      else
        br_close <- gets (fun s => GetClosingParen env (chunks s) pc) ;;
        br_null <- gets (fun s => IsNullChunk (chunks s) br_close) ;;
        bc <- the_chunk br_close ;;
        when ((0 <? indent_namespace_limit env) && negb br_null)
             (let numberOfLines := wrap64 (c_orig_line bc - c_orig_line c - 1) in
              when (indent_namespace_limit env <? numberOfLines)
                   (upd_chunk pc (SetFlagBits PCF_LONG_BLOCK) ;;;
                    upd_chunk br_close (SetFlagBits PCF_LONG_BLOCK))) ;;;
        modify (fun s =>
          set_chunks (flag_parens env (chunks s) pc PCF_IN_NAMESPACE CT_NONE CT_NAMESPACE false) s)
  end.

Definition mark_namespace (pns : ChunkPtr) : M unit :=
  prev <- gets (fun s => chunk_at (chunks s) (GetPrevNcNnl (chunks s) pns)) ;;
  when (Is CT_USING prev) (upd_chunk pns (SetParentType CT_USING)) ;;;
  following <- gets (fun s =>
    map fst (filter (fun x => negb (IsCommentOrNewline (snd x))) (after (chunks s) pns))) ;;
  mark_namespace_loop following (Is CT_USING prev).

(** *** [brace_cleanup] *)

(** Check for leaving a #define body. *)
Definition leave_preproc (pc : ChunkPtr) : M unit :=
  bs <- gets braceState ;;
  c <- the_chunk pc ;;
  if negb (tok_eqb (in_preproc bs) CT_NONE) && negb (TestFlags PCF_IN_PREPROC c) then
    when (tok_eqb (in_preproc bs) CT_PP_DEFINE)
         ((* out of the #define body, restore the frame *)
          f <- gets frm ;;
          let brace_level := frm_brace_level f in
          when (pp_warn_unbalanced_if env && negb (brace_level =? 1))
               (log_warn (W_unbalanced_define (c_orig_line c) brace_level)) ;;;
          modify (fun s =>
            let r := fl_pop (frames (braceState s)) (frm s) in
            set_frm (snd r)
              (set_braceState (mkBraceState (fst r) (in_preproc (braceState s))
                                            (pp_level (braceState s))
                                            (consumed (braceState s))) s))) ;;;
    set_in_preproc CT_NONE
  else ret tt.

(** One turn of the loop of [brace_cleanup] on chunk [pc]; the result is the
    chunk the loop goes on with ([None] ends the pass). *)
Definition brace_cleanup_step (pc : ChunkPtr) : M ChunkPtr :=
  leave_preproc pc ;;;
  (* Check for a preprocessor start *)
  c <- the_chunk pc ;;
  pp <- (if Is CT_PREPROC c then preproc_start pc
         else gets (fun s => wrap64 (pp_level (braceState s)))) ;;
  (* Do before assigning stuff from the frame *)
  t <- the_top ;;
  c <- the_chunk pc ;;
  pc' <- (if lang_pawn env && tok_eqb (e_type t) CT_VBRACE_OPEN && Is CT_NEWLINE c
          then fun s => let r := pawn_check_vsemicolon env (chunks s) pc in
                        Ok (snd r) (set_chunks (fst r) s)
          else ret pc) ;;
  pc_null <- gets (fun s => IsNullChunk (chunks s) pc') ;;
  if pc_null then ret None
  else
    let pc := pc' in
    c <- the_chunk pc ;;
    when (Is CT_NAMESPACE c) (mark_namespace pc) ;;;
    (* Assume the level won't change *)
    f <- gets frm ;;
    upd_chunk pc (fun x => SetPpLevel pp (SetBraceLevel (frm_brace_level f)
                                            (SetLevel (frm_level f) x))) ;;;
    bs <- gets braceState ;;
    c <- the_chunk pc ;;
    when (negb (IsCommentOrNewline c)
          && negb (Is CT_ATTRIBUTE c)
          && negb (Is CT_IGNORED c)
          && (tok_eqb (in_preproc bs) CT_PP_DEFINE || tok_eqb (in_preproc bs) CT_NONE))
         (set_consumed false ;;; parse_cleanup pc) ;;;
    gets (fun s => GetNext (chunks s) pc).

(** [while (pc->IsNotNullChunk())]; [fuel] bounds the number of turns. *)
Fixpoint brace_cleanup_loop (fuel : nat) (pc : ChunkPtr) : M unit :=
  match fuel with
  | O => out_of_fuel
  | S n =>
      pc_null <- gets (fun s => IsNullChunk (chunks s) pc) ;;
      if pc_null then ret tt
      else next <- brace_cleanup_step pc ;; brace_cleanup_loop n next
  end.

Definition initial_state (cl : ChunkList) : State :=
  mkState cl new_frame new_brace_state [].

Definition brace_cleanup (fuel : nat) (cl : ChunkList) : Outcome unit :=
  brace_cleanup_loop fuel (GetHead cl) (initial_state cl).

End BraceCleanup.

Arguments insert_vbrace : simpl never.

(** An environment for plain C with every option off and the outside passes
    doing nothing. *)
Definition c_env : Env :=
  mkEnv false false false false false
        false false false 0 false false
        (fun cl fs f pp _ => mkFlCheck cl fs f pp pp)
        (fun cl _ _ _ _ _ => cl)
        (fun _ _ => None)
        (fun cl p => (cl, p))
        (fun cl _ => cl).

(** A chunk as the tokenizer hands it over. *)
Definition tok (t : E_Token) (text : string) (line col : Z) : Chunk :=
  mkChunk t CT_NONE 0 0 0 0 line col col text None.

Definition number (l : list Chunk) : ChunkList := combine (seq 0 (List.length l)) l.

Definition type_of (s : State) (id : ChunkId) : E_Token := c_type (chunk_at (chunks s) (Some id)).
Definition parent_type_of (s : State) (id : ChunkId) : E_Token :=
  c_parent_type (chunk_at (chunks s) (Some id)).

(** [do { x; } while (y);] *)
Definition do_while_stream : ChunkList :=
  number [ tok CT_DO "do" 1 1; tok CT_BRACE_OPEN "{" 1 4; tok CT_WORD "x" 1 6;
           tok CT_SEMICOLON ";" 1 7; tok CT_BRACE_CLOSE "}" 1 9;
           tok CT_WHILE "while" 1 11; tok CT_PAREN_OPEN "(" 1 17; tok CT_WORD "y" 1 18;
           tok CT_PAREN_CLOSE ")" 1 19; tok CT_SEMICOLON ";" 1 20 ].

(** *** Running the loop a few turns *)

Fixpoint brace_cleanup_steps (env : Env) (n : nat) (pc : ChunkPtr) : M ChunkPtr :=
  match n with
  | O => ret pc
  | S k => next <- brace_cleanup_step env pc ;; brace_cleanup_steps env k next
  end.

Definition outcome_state {A : Type} (dflt : State) (o : Outcome A) : State :=
  match o with
  | Ok _ s => s
  | Exit _ s => s
  | Throw _ s => s
  | OutOfFuel => dflt
  end.

(** The state after the first [n] chunks of [cl] have gone through the loop. *)
Definition state_after (env : Env) (n : nat) (cl : ChunkList) : State :=
  outcome_state (initial_state cl)
    (brace_cleanup_steps env n (GetHead cl) (initial_state cl)).

(** A chunk of a preprocessor line. *)
Definition ptok (t : E_Token) (text : string) (line col : Z) : Chunk :=
  SetFlags PCF_IN_PREPROC (tok t text line col).

(** *** Token streams used as examples *)


(** [x ; ]] *)
Definition stray_square_stream : ChunkList :=
  number [ tok CT_WORD "x" 1 1; tok CT_SEMICOLON ";" 1 2; tok CT_SQUARE_CLOSE "]" 1 3 ].



(** [if constexpr ( x ) y ;] *)
Definition if_constexpr_stream : ChunkList :=
  number [ tok CT_IF "if" 1 1; tok CT_CONSTEXPR "constexpr" 1 4; tok CT_PAREN_OPEN "(" 1 14;
           tok CT_WORD "x" 1 15; tok CT_PAREN_CLOSE ")" 1 16; tok CT_WORD "y" 1 18;
           tok CT_SEMICOLON ";" 1 19 ].

(** [while x] *)
Definition while_word_stream : ChunkList :=
  number [ tok CT_WHILE "while" 1 1; tok CT_WORD "x" 1 7 ].

(** [if ( a ) if ( b ) c ;] *)
Definition nested_if_stream : ChunkList :=
  number [ tok CT_IF "if" 1 1; tok CT_PAREN_OPEN "(" 1 4; tok CT_WORD "a" 1 5;
           tok CT_PAREN_CLOSE ")" 1 6; tok CT_IF "if" 1 8; tok CT_PAREN_OPEN "(" 1 11;
           tok CT_WORD "b" 1 12; tok CT_PAREN_CLOSE ")" 1 13; tok CT_WORD "c" 1 15;
           tok CT_SEMICOLON ";" 1 16 ].

(** [{ ] newline [#define OPEN {] newline [x] *)
Definition define_open_stream : ChunkList :=
  number [ tok CT_BRACE_OPEN "{" 1 1; tok CT_NEWLINE "" 1 2;
           ptok CT_PREPROC "#" 2 1; ptok CT_PP_DEFINE "define" 2 2;
           ptok CT_MACRO "OPEN" 2 9; ptok CT_BRACE_OPEN "{" 2 14;
           tok CT_NEWLINE "" 2 15; tok CT_WORD "x" 3 1 ].

(** The environment of [c_env] with the option [pp_warn_unbalanced_if] on. *)
Definition c_env_warn : Env :=
  mkEnv false false false false false
        true false false 0 false false
        (fl_check c_env) (flag_parens c_env) (GetClosingParen c_env)
        (pawn_check_vsemicolon c_env) (pawn_add_vsemi_after c_env).


(** [while ( x ) y ;] *)
Definition while_stream : ChunkList :=
  number [ tok CT_WHILE "while" 1 1; tok CT_PAREN_OPEN "(" 1 7; tok CT_WORD "x" 1 8;
           tok CT_PAREN_CLOSE ")" 1 9; tok CT_WORD "y" 1 11; tok CT_SEMICOLON ";" 1 12 ].


(** C#: [try { } catch ( e ) { x ; }] *)
Definition try_catch_stream : ChunkList :=
  number [ tok CT_TRY "try" 1 1; tok CT_BRACE_OPEN "{" 1 5; tok CT_BRACE_CLOSE "}" 1 7;
           tok CT_CATCH "catch" 1 9; tok CT_PAREN_OPEN "(" 1 15; tok CT_WORD "e" 1 16;
           tok CT_PAREN_CLOSE ")" 1 17; tok CT_BRACE_OPEN "{" 1 19; tok CT_WORD "x" 1 21;
           tok CT_SEMICOLON ";" 1 22; tok CT_BRACE_CLOSE "}" 1 24 ].

(** The environment of [c_env] with the language set to C#. *)
Definition cs_env : Env :=
  mkEnv false false true false false
        false false false 0 false false
        (fl_check c_env) (flag_parens c_env) (GetClosingParen c_env)
        (pawn_check_vsemicolon c_env) (pawn_add_vsemi_after c_env).

(** C#: [using ( a ) using ( b ) x ;] *)
Definition using_stream : ChunkList :=
  number [ tok CT_USING_STMT "using" 1 1; tok CT_PAREN_OPEN "(" 1 7; tok CT_WORD "a" 1 8;
           tok CT_PAREN_CLOSE ")" 1 9; tok CT_USING_STMT "using" 2 1;
           tok CT_PAREN_OPEN "(" 2 7; tok CT_WORD "b" 2 8; tok CT_PAREN_CLOSE ")" 2 9;
           tok CT_WORD "x" 3 1; tok CT_SEMICOLON ";" 3 2 ].

(** [if ( x )] newline, a comment, [y ;] *)
Definition if_comment_stream : ChunkList :=
  number [ tok CT_IF "if" 1 1; tok CT_PAREN_OPEN "(" 1 4; tok CT_WORD "x" 1 5;
           tok CT_PAREN_CLOSE ")" 1 6; tok CT_NEWLINE "" 1 7;
           tok CT_COMMENT "/* c */" 2 1; tok CT_WORD "y" 2 9; tok CT_SEMICOLON ";" 2 10 ].

(** *** More token streams used as examples *)

(** [do x ; y]: the [y] is met where [while] is expected. *)
Definition do_word_stream : ChunkList :=
  number [ tok CT_DO "do" 1 1; tok CT_WORD "x" 1 4; tok CT_SEMICOLON ";" 1 5;
           tok CT_WORD "y" 1 7 ].

(** [do { } while ( x ) y]: the [y] is met where a semicolon is expected. *)
Definition do_while_word_stream : ChunkList :=
  number [ tok CT_DO "do" 1 1; tok CT_BRACE_OPEN "{" 1 4; tok CT_BRACE_CLOSE "}" 1 6;
           tok CT_WHILE "while" 1 8; tok CT_PAREN_OPEN "(" 1 14; tok CT_WORD "x" 1 15;
           tok CT_PAREN_CLOSE ")" 1 16; tok CT_WORD "y" 1 18 ].

(** [if ( a ) { } else if ( b ) { }] *)
Definition else_if_stream : ChunkList :=
  number [ tok CT_IF "if" 1 1; tok CT_PAREN_OPEN "(" 1 4; tok CT_WORD "a" 1 5;
           tok CT_PAREN_CLOSE ")" 1 6; tok CT_BRACE_OPEN "{" 1 8; tok CT_BRACE_CLOSE "}" 1 9;
           tok CT_ELSE "else" 1 11; tok CT_IF "if" 1 16; tok CT_PAREN_OPEN "(" 1 19;
           tok CT_WORD "b" 1 20; tok CT_PAREN_CLOSE ")" 1 21; tok CT_BRACE_OPEN "{" 1 23;
           tok CT_BRACE_CLOSE "}" 1 24 ].

(** [using namespace std ; x] *)
Definition using_namespace_stream : ChunkList :=
  number [ tok CT_USING "using" 1 1; tok CT_NAMESPACE "namespace" 1 7;
           tok CT_WORD "std" 1 17; tok CT_SEMICOLON ";" 1 20; tok CT_WORD "x" 2 1 ].

(** The environment of [c_env] with [indent_namespace_limit] set to 3 and
    the closing brace of an open brace looked up as the next [}] of the
    list, as it is where no braces are nested. *)
Definition ns_env : Env :=
  mkEnv false false false false false
        false false false 3 false false
        (fl_check c_env) (flag_parens c_env)
        (fun cl p => first_such (Is CT_BRACE_CLOSE) (after cl p))
        (pawn_check_vsemicolon c_env) (pawn_add_vsemi_after c_env).

(** [namespace a { }] *)
Definition one_line_namespace_stream : ChunkList :=
  number [ tok CT_NAMESPACE "namespace" 1 1; tok CT_WORD "a" 1 11;
           tok CT_BRACE_OPEN "{" 1 13; tok CT_BRACE_CLOSE "}" 1 15 ].

(** [switch ( x ) { case y : break ; }] *)
Definition switch_stream : ChunkList :=
  number [ tok CT_SWITCH "switch" 1 1; tok CT_PAREN_OPEN "(" 1 8; tok CT_WORD "x" 1 9;
           tok CT_PAREN_CLOSE ")" 1 10; tok CT_BRACE_OPEN "{" 1 12;
           tok CT_CASE "case" 2 1; tok CT_WORD "y" 2 6; tok CT_COLON ":" 2 7;
           tok CT_BREAK "break" 3 1; tok CT_SEMICOLON ";" 3 6;
           tok CT_BRACE_CLOSE "}" 4 1 ].

(** [while ( x ) { } y] *)
Definition while_block_stream : ChunkList :=
  number [ tok CT_WHILE "while" 1 1; tok CT_PAREN_OPEN "(" 1 7; tok CT_WORD "x" 1 8;
           tok CT_PAREN_CLOSE ")" 1 9; tok CT_BRACE_OPEN "{" 1 11;
           tok CT_BRACE_CLOSE "}" 1 12; tok CT_WORD "y" 2 1 ].

(** The environment of [c_env] with [indent_namespace] and
    [indent_namespace_single_indent] on. *)
Definition single_env : Env :=
  mkEnv false false false false false
        false true true 0 false false
        (fl_check c_env) (flag_parens c_env) (GetClosingParen c_env)
        (pawn_check_vsemicolon c_env) (pawn_add_vsemi_after c_env).

(** [namespace a { namespace b { } }] *)
Definition nested_namespace_stream : ChunkList :=
  number [ tok CT_NAMESPACE "namespace" 1 1; tok CT_WORD "a" 1 11;
           tok CT_BRACE_OPEN "{" 1 13;
           tok CT_NAMESPACE "namespace" 2 1; tok CT_WORD "b" 2 11;
           tok CT_BRACE_OPEN "{" 2 13; tok CT_BRACE_CLOSE "}" 3 1;
           tok CT_BRACE_CLOSE "}" 4 1 ].
(* ================================================================== *)
(** ** Basic facts *)

Ltac monad_unfold :=
  unfold bind, ret, gets, modify, when, the_chunk, the_top, upd_chunk, upd_frm,
         upd_top, push, pop, log_warn, set_consumed, is_consumed, exit_with,
         throw, out_of_fuel, or_continue in *.

Ltac mrun := repeat progress (monad_unfold; simpl).
Ltac mrun_with H := repeat progress (monad_unfold; simpl; rewrite ?H; simpl).

Lemma top_stage_nonempty (f : ParseFrame) :
  e_stage (top f) <> NONE -> pse f <> [].
Proof.
  unfold top. destruct (pse f); simpl; [intro H; now elim H | discriminate].
Qed.

Lemma top_type_nonempty (f : ParseFrame) :
  e_type (top f) <> CT_EOF -> pse f <> [].
Proof.
  unfold top. destruct (pse f); simpl; [intro H; now elim H | discriminate].
Qed.

Lemma frm_size_pop (f : ParseFrame) :
  pse f <> [] -> S (frm_size (frm_pop f)) = frm_size f.
Proof.
  unfold frm_size, frm_pop. destruct (pse f); simpl; [intro H; now elim H | reflexivity].
Qed.

Lemma insert_vbrace_frm (pc : ChunkPtr) (b : bool) (s : State) :
  exists p cl, insert_vbrace pc b s = Ok p (set_chunks cl s).
Proof.
  unfold insert_vbrace.
  destruct b; [eexists; eexists; reflexivity|].
  destruct (IsNullChunk (chunks s) (GetPrev (chunks s) pc)).
  - exists None, (chunks s). destruct s; reflexivity.
  - match goal with |- context [rewind_comments ?a ?b] => destruct (rewind_comments a b) as [cl1 ref] end.
    simpl.
    destruct (IsNullChunk cl1 ref); [eexists; eexists; reflexivity|].
    match goal with |- context [if IsNullChunk cl1 ?r then _ else _] =>
      destruct (IsNullChunk cl1 r) end; eexists; eexists; reflexivity.
Qed.

(** *** Chunk store *)

Lemma lookup_update (cl : ChunkList) (id id' : ChunkId) (f : Chunk -> Chunk) :
  lookup (update cl id f) id' =
  if Nat.eqb id id' then option_map f (lookup cl id') else lookup cl id'.
Proof.
  induction cl as [|[i c] rest IH]; simpl.
  - now destruct (Nat.eqb id id').
  - destruct (Nat.eqb i id) eqn:Ei; simpl.
    + apply Nat.eqb_eq in Ei. subst i.
      destruct (Nat.eqb id id') eqn:E; reflexivity.
    + destruct (Nat.eqb i id') eqn:Ei'.
      * apply Nat.eqb_eq in Ei'. subst i.
        rewrite Nat.eqb_sym in Ei. now rewrite Ei.
      * exact IH.
Qed.

Lemma IsNullChunk_update_at (cl : ChunkList) (p q : ChunkPtr) (f : Chunk -> Chunk) :
  IsNullChunk (update_at cl p f) q = IsNullChunk cl q.
Proof.
  destruct p as [id|], q as [id'|]; simpl; try reflexivity.
  rewrite lookup_update. destruct (Nat.eqb id id'); [|reflexivity].
  now destruct (lookup cl id').
Qed.

Lemma chunk_at_update_at_same (cl : ChunkList) (p : ChunkPtr) (f : Chunk -> Chunk) :
  IsNullChunk cl p = false ->
  chunk_at (update_at cl p f) p = f (chunk_at cl p).
Proof.
  destruct p as [id|]; simpl; [|discriminate].
  rewrite lookup_update, Nat.eqb_refl.
  destruct (lookup cl id); simpl; [reflexivity | discriminate].
Qed.

Lemma chunk_at_update_at_null (cl : ChunkList) (p : ChunkPtr) (f : Chunk -> Chunk) :
  IsNullChunk cl p = true ->
  chunk_at (update_at cl p f) p = null_chunk.
Proof.
  destruct p as [id|]; simpl; [|reflexivity].
  rewrite lookup_update, Nat.eqb_refl.
  destruct (lookup cl id); simpl; [discriminate | reflexivity].
Qed.

Lemma chunk_at_null (cl : ChunkList) (p : ChunkPtr) :
  IsNullChunk cl p = true -> chunk_at cl p = null_chunk.
Proof.
  destruct p as [id|]; simpl; [|reflexivity].
  destruct (lookup cl id); [discriminate | reflexivity].
Qed.

Lemma chunk_at_update_at_other (cl : ChunkList) (p q : ChunkPtr) (f : Chunk -> Chunk) :
  p <> q -> chunk_at (update_at cl p f) q = chunk_at cl q.
Proof.
  destruct p as [id|], q as [id'|]; simpl; try reflexivity.
  intro H. rewrite lookup_update.
  destruct (Nat.eqb id id') eqn:E; [|reflexivity].
  apply Nat.eqb_eq in E. congruence.
Qed.

(** A field that the setter [f] leaves alone reads the same after the
    update, through any pointer. *)
Lemma chunk_at_update_at_field {A : Type} (g : Chunk -> A)
      (cl : ChunkList) (p q : ChunkPtr) (f : Chunk -> Chunk) :
  (forall c, g (f c) = g c) ->
  g (chunk_at (update_at cl p f) q) = g (chunk_at cl q).
Proof.
  intro Hf.
  destruct p as [id|], q as [id'|]; simpl; try reflexivity.
  rewrite lookup_update. destruct (Nat.eqb id id'); [|reflexivity].
  destruct (lookup cl id'); simpl; [apply Hf | reflexivity].
Qed.

(** *** Flag bits *)

Lemma TestFlags_SetFlagBits_other (m b : Z) (c : Chunk) :
  Z.land m b = 0 -> TestFlags b (SetFlagBits m c) = TestFlags b c.
Proof.
  intro H. unfold TestFlags, SetFlagBits. simpl.
  now rewrite Z.land_lor_distr_l, H, Z.lor_0_r.
Qed.

Lemma TestFlags_SetFlagBits_same (b : Z) (c : Chunk) :
  b <> 0 -> TestFlags b (SetFlagBits b c) = true.
Proof.
  intro H. unfold TestFlags, SetFlagBits. simpl.
  rewrite Z.land_lor_distr_l, Z.land_diag.
  apply negb_true_iff, Z.eqb_neq. intro E.
  apply Z.lor_eq_0_iff in E. tauto.
Qed.

Lemma TestFlags_SetFlagBits_lor_l (a b : Z) (c : Chunk) :
  a <> 0 -> TestFlags a (SetFlagBits (Z.lor a b) c) = true.
Proof.
  intro H. unfold TestFlags, SetFlagBits. simpl.
  rewrite !Z.land_lor_distr_l, Z.land_diag.
  apply negb_true_iff, Z.eqb_neq. intro E.
  apply Z.lor_eq_0_iff in E. destruct E as [_ E].
  apply Z.lor_eq_0_iff in E. tauto.
Qed.

Lemma TestFlags_SetFlagBits_lor_r (a b : Z) (c : Chunk) :
  b <> 0 -> TestFlags b (SetFlagBits (Z.lor a b) c) = true.
Proof.
  intro H. rewrite Z.lor_comm. now apply TestFlags_SetFlagBits_lor_l.
Qed.

(** *** The two marking blocks at the head of [parse_cleanup] *)

(** What the marking blocks leave alone: the stack, the levels, the brace
    state, the log, and of the chunks everything but flags and parent type
    of [pc]. *)
Record marks_only (pc : ChunkPtr) (s s1 : State) : Prop := {
  mo_pse    : pse (frm s1) = pse (frm s);
  mo_level  : frm_level (frm s1) = frm_level (frm s);
  mo_blevel : frm_brace_level (frm s1) = frm_brace_level (frm s);
  mo_sparen : sparen_count (frm s1) = sparen_count (frm s);
  mo_bs     : braceState s1 = braceState s;
  mo_log    : log s1 = log s;
  mo_type   : forall q, c_type (chunk_at (chunks s1) q) = c_type (chunk_at (chunks s) q);
  mo_str    : forall q, c_str (chunk_at (chunks s1) q) = c_str (chunk_at (chunks s) q);
  mo_line   : forall q, c_orig_line (chunk_at (chunks s1) q) = c_orig_line (chunk_at (chunks s) q);
  mo_col    : forall q, c_orig_col (chunk_at (chunks s1) q) = c_orig_col (chunk_at (chunks s) q);
  mo_prep   : forall q, TestFlags PCF_IN_PREPROC (chunk_at (chunks s1) q)
                        = TestFlags PCF_IN_PREPROC (chunk_at (chunks s) q);
  mo_null   : forall q, IsNullChunk (chunks s1) q = IsNullChunk (chunks s) q
}.

Lemma marks_only_refl (pc : ChunkPtr) (s : State) : marks_only pc s s.
Proof. constructor; reflexivity. Qed.

Lemma marks_only_trans (pc : ChunkPtr) (s s1 s2 : State) :
  marks_only pc s s1 -> marks_only pc s1 s2 -> marks_only pc s s2.
Proof.
  intros [] []. constructor; intros; etransitivity; eauto.
Qed.

Lemma marks_only_frm (pc : ChunkPtr) (s : State) (f : ParseFrame) :
  pse f = pse (frm s) -> frm_level f = frm_level (frm s) ->
  frm_brace_level f = frm_brace_level (frm s) ->
  sparen_count f = sparen_count (frm s) ->
  marks_only pc s (set_frm f s).
Proof. intros. constructor; simpl; auto. Qed.

Lemma marks_only_flag (pc p : ChunkPtr) (s s1 : State) (m : Z) :
  s1 = set_chunks (update_at (chunks s) p (SetFlagBits m)) s ->
  Z.land m PCF_IN_PREPROC = 0 ->
  marks_only pc s s1.
Proof.
  intros -> Hm. constructor; simpl; auto; intro q;
    try (apply (chunk_at_update_at_field _ (chunks s) p q (SetFlagBits m)); reflexivity).
  - apply (chunk_at_update_at_field (TestFlags PCF_IN_PREPROC)).
    intro c. now apply TestFlags_SetFlagBits_other.
  - apply IsNullChunk_update_at.
Qed.

Lemma marks_only_parent (pc p : ChunkPtr) (s s1 : State) (t : E_Token) :
  s1 = set_chunks (update_at (chunks s) p (SetParentType t)) s ->
  marks_only pc s s1.
Proof.
  intros ->. constructor; simpl; auto; intro q;
    try (apply (chunk_at_update_at_field _ (chunks s) p q (SetParentType t)); reflexivity).
  apply IsNullChunk_update_at.
Qed.

Ltac marks_chain :=
  match goal with
  | |- marks_only _ ?s ?s => apply marks_only_refl
  | |- marks_only _ _ (set_chunks (update_at _ _ (SetFlagBits _)) ?X) =>
      apply marks_only_trans with (s1 := X);
      [marks_chain | eapply marks_only_flag; [reflexivity | reflexivity]]
  | |- marks_only _ _ (set_chunks (update_at _ _ (SetParentType _)) ?X) =>
      apply marks_only_trans with (s1 := X);
      [marks_chain | eapply marks_only_parent; reflexivity]
  | |- marks_only _ _ (set_frm _ ?X) =>
      apply marks_only_trans with (s1 := X);
      [marks_chain | apply marks_only_frm; reflexivity]
  end.

Lemma pc_mark_start_marks (pc : ChunkPtr) (s : State) :
  exists s1, pc_mark_start pc s = Ok tt s1 /\ marks_only pc s s1.
Proof.
  unfold pc_mark_start. monad_unfold. simpl.
  match goal with |- context [if ?c then _ else _] => destruct c end; simpl.
  - eexists. split; [reflexivity|].
    eapply marks_only_trans; [|apply marks_only_frm; reflexivity].
    eapply marks_only_flag; [reflexivity|].
    destruct (stmt_count (frm s) =? 0); reflexivity.
  - eexists. split; [reflexivity|]. apply marks_only_frm; reflexivity.
Qed.

Lemma pc_mark_sparen_marks (pc : ChunkPtr) (s : State) :
  exists s1, pc_mark_sparen pc s = Ok tt s1 /\ marks_only pc s s1.
Proof.
  unfold pc_mark_sparen. monad_unfold. simpl.
  destruct (0 <? sparen_count (frm s)); simpl.
  2: { eexists. split; [reflexivity | apply marks_only_refl]. }
  destruct (for_below_top (frm s)); simpl;
    match goal with |- context [if ?c then _ else _] => destruct c end; simpl;
      eexists; (split; [reflexivity|]); marks_chain.
Qed.

Lemma marks_spec (pc : ChunkPtr) (s : State) :
  exists s1, (pc_mark_start pc ;;; pc_mark_sparen pc) s = Ok tt s1 /\ marks_only pc s s1.
Proof.
  destruct (pc_mark_start_marks pc s) as (s1 & E1 & M1).
  destruct (pc_mark_sparen_marks pc s1) as (s2 & E2 & M2).
  exists s2. split; [|eapply marks_only_trans; eauto].
  unfold bind. now rewrite E1.
Qed.




(* ================================================================== *)
(** ** What inserting chunks and closing statements leave alone *)

(** *** Insertion into the chunk list *)

Lemma lookup_le_max (cl : ChunkList) (id : ChunkId) (c : Chunk) :
  lookup cl id = Some c ->
  (id <= fold_right (fun x m => Nat.max (fst x) m) O cl)%nat.
Proof.
  induction cl as [|[i x] rest IH]; simpl; [discriminate|].
  destruct (Nat.eqb i id) eqn:E.
  - apply Nat.eqb_eq in E. subst. intros _. apply Nat.le_max_l.
  - intro H. apply IH in H. etransitivity; [exact H | apply Nat.le_max_r].
Qed.

Lemma lookup_fresh_id (cl : ChunkList) : lookup cl (fresh_id cl) = None.
Proof.
  destruct (lookup cl (fresh_id cl)) as [c|] eqn:E; [|reflexivity].
  apply lookup_le_max in E. unfold fresh_id in E. lia.
Qed.

Lemma lookup_insert_after_other (cl : ChunkList) (a n id : ChunkId) (c : Chunk) :
  n <> id -> lookup (insert_after cl a (n, c)) id = lookup cl id.
Proof.
  intro Hn. induction cl as [|[i x] rest IH]; simpl; [reflexivity|].
  destruct (Nat.eqb i a) eqn:Ea; simpl.
  - destruct (Nat.eqb i id); [reflexivity|].
    destruct (Nat.eqb n id) eqn:En; [apply Nat.eqb_eq in En; contradiction | reflexivity].
  - destruct (Nat.eqb i id); [reflexivity | exact IH].
Qed.

Lemma lookup_insert_after_new (cl : ChunkList) (a n : ChunkId) (c : Chunk) :
  lookup cl n = None -> lookup cl a <> None ->
  lookup (insert_after cl a (n, c)) n = Some c.
Proof.
  induction cl as [|[i x] rest IH]; simpl; [intros _ H; now elim H|].
  destruct (Nat.eqb i n) eqn:En; [discriminate|]. intros Hn Ha.
  destruct (Nat.eqb i a) eqn:Ea; simpl; rewrite En.
  - now rewrite Nat.eqb_refl.
  - apply IH; assumption.
Qed.

Lemma CopyAndAddAfter_new (cl cl' : ChunkList) (c : Chunk) (ref : ChunkPtr) (n : ChunkId) :
  CopyAndAddAfter cl c ref = (cl', Some n) ->
  lookup cl n = None /\ lookup cl' n = Some c
  /\ forall id, id <> n -> lookup cl' id = lookup cl id.
Proof.
  unfold CopyAndAddAfter. destruct ref as [a|]; [|discriminate].
  destruct (lookup cl a) eqn:Ea; [|discriminate].
  intro H. inversion H; subst. clear H.
  split; [apply lookup_fresh_id|]. split.
  - apply lookup_insert_after_new; [apply lookup_fresh_id | congruence].
  - intros id Hid. apply lookup_insert_after_other. congruence.
Qed.

Lemma CopyAndAddAfter_null (cl cl' : ChunkList) (c : Chunk) (ref : ChunkPtr) :
  CopyAndAddAfter cl c ref = (cl', None) -> cl' = cl.
Proof.
  unfold CopyAndAddAfter. destruct ref as [a|]; [|now inversion 1].
  destruct (lookup cl a); [discriminate | now inversion 1].
Qed.

(** Whatever is in the list stays as it is when a chunk is linked in. *)
Lemma CopyAndAddAfter_old (cl : ChunkList) (c : Chunk) (ref q : ChunkPtr) :
  IsNullChunk cl q = false ->
  IsNullChunk (fst (CopyAndAddAfter cl c ref)) q = false
  /\ chunk_at (fst (CopyAndAddAfter cl c ref)) q = chunk_at cl q.
Proof.
  intro Hq.
  destruct (CopyAndAddAfter cl c ref) as [cl' [n|]] eqn:E; simpl.
  - apply CopyAndAddAfter_new in E. destruct E as (Hn & _ & Ho).
    destruct q as [id|]; [|discriminate]. simpl in *.
    assert (id <> n) by (intro; subst; rewrite Hn in Hq; discriminate).
    rewrite (Ho id H). split; [assumption | reflexivity].
  - apply CopyAndAddAfter_null in E. subst. split; [assumption | reflexivity].
Qed.

(** *** Chunks that are kept *)

(** Every chunk of [s] is still there in [s'] and reads the same through
    the observer [g]. *)
Definition kept {A : Type} (g : Chunk -> A) (s s' : State) : Prop :=
  forall q, IsNullChunk (chunks s) q = false ->
    IsNullChunk (chunks s') q = false
    /\ g (chunk_at (chunks s') q) = g (chunk_at (chunks s) q).

Lemma kept_refl {A : Type} (g : Chunk -> A) (s : State) : kept g s s.
Proof. intros q Hq. split; [assumption | reflexivity]. Qed.

Lemma kept_trans {A : Type} (g : Chunk -> A) (s s1 s2 : State) :
  kept g s s1 -> kept g s1 s2 -> kept g s s2.
Proof.
  intros H1 H2 q Hq. destruct (H1 q Hq) as [N1 E1]. destruct (H2 q N1) as [N2 E2].
  split; [assumption | congruence].
Qed.

Lemma kept_same_chunks {A : Type} (g : Chunk -> A) (s s' : State) :
  chunks s' = chunks s -> kept g s s'.
Proof. intros E q Hq. rewrite E. split; [assumption | reflexivity]. Qed.

Lemma kept_update {A : Type} (g : Chunk -> A) (s s' : State) (p : ChunkPtr) (f : Chunk -> Chunk) :
  (forall c, g (f c) = g c) ->
  chunks s' = update_at (chunks s) p f ->
  kept g s s'.
Proof.
  intros Hf E q Hq. rewrite E. split.
  - now rewrite IsNullChunk_update_at.
  - now apply chunk_at_update_at_field.
Qed.

Lemma kept_insert {A : Type} (g : Chunk -> A) (s s' : State) (c : Chunk) (ref : ChunkPtr) :
  chunks s' = fst (CopyAndAddAfter (chunks s) c ref) ->
  kept g s s'.
Proof.
  intros E q Hq. rewrite E.
  destruct (CopyAndAddAfter_old (chunks s) c ref q Hq) as [H1 H2].
  split; [assumption | now rewrite H2].
Qed.

(** *** Outcomes that keep the chunks *)

(** Whenever [m] returns, the chunks are kept as seen through [g]. *)
Definition keeps {A B : Type} (g : Chunk -> A) (m : M B) : Prop :=
  forall s b s', m s = Ok b s' -> kept g s s'.

Lemma keeps_ret {A B : Type} (g : Chunk -> A) (b : B) : keeps g (ret b).
Proof. intros s b' s' E. inversion E; subst. apply kept_refl. Qed.

Lemma keeps_bind {A B C : Type} (g : Chunk -> A) (m : M B) (k : B -> M C) :
  keeps g m -> (forall b, keeps g (k b)) -> keeps g (bind m k).
Proof.
  intros Hm Hk s c s' E. unfold bind in E.
  destruct (m s) as [b s1| | |] eqn:Em; try discriminate.
  eapply kept_trans; [eapply Hm; eassumption | eapply Hk; eassumption].
Qed.

Lemma keeps_gets {A B : Type} (g : Chunk -> A) (f : State -> B) : keeps g (gets f).
Proof. intros s b s' E. inversion E; subst. apply kept_refl. Qed.

Lemma keeps_modify {A : Type} (g : Chunk -> A) (f : State -> State) :
  (forall s, kept g s (f s)) -> keeps g (modify f).
Proof. intros Hf s b s' E. inversion E; subst. apply Hf. Qed.

Lemma keeps_exit {A B : Type} (g : Chunk -> A) (st : Z) : keeps g (@exit_with B st).
Proof. intros s b s' E. discriminate. Qed.

Lemma keeps_throw {A B : Type} (g : Chunk -> A) (e : Exn) : keeps g (@throw B e).
Proof. intros s b s' E. discriminate. Qed.

Lemma keeps_out_of_fuel {A B : Type} (g : Chunk -> A) : keeps g (@out_of_fuel B).
Proof. intros s b s' E. discriminate. Qed.

Lemma keeps_upd_frm {A : Type} (g : Chunk -> A) (f : ParseFrame -> ParseFrame) :
  keeps g (upd_frm f).
Proof. apply keeps_modify. intro s. now apply kept_same_chunks. Qed.

Lemma keeps_upd_top {A : Type} (g : Chunk -> A) (f : paren_stack_entry_t -> paren_stack_entry_t) :
  keeps g (upd_top f).
Proof. apply keeps_upd_frm. Qed.

Lemma keeps_pop {A : Type} (g : Chunk -> A) : keeps g pop.
Proof. apply keeps_upd_frm. Qed.

Lemma keeps_push {A : Type} (g : Chunk -> A) (pc : ChunkPtr) (st : brace_stage_e) :
  keeps g (push pc st).
Proof. apply keeps_modify. intro s. now apply kept_same_chunks. Qed.

Lemma keeps_log_warn {A : Type} (g : Chunk -> A) (m : LogMsg) : keeps g (log_warn m).
Proof. apply keeps_modify. intro s. now apply kept_same_chunks. Qed.

Lemma keeps_set_consumed {A : Type} (g : Chunk -> A) (b : bool) : keeps g (set_consumed b).
Proof. apply keeps_modify. intro s. now apply kept_same_chunks. Qed.

Lemma keeps_upd_chunk {A : Type} (g : Chunk -> A) (p : ChunkPtr) (f : Chunk -> Chunk) :
  (forall c, g (f c) = g c) -> keeps g (upd_chunk p f).
Proof.
  intro Hf. apply keeps_modify. intro s.
  eapply kept_update; [exact Hf | reflexivity].
Qed.

Lemma keeps_when {A : Type} (g : Chunk -> A) (b : bool) (m : M unit) :
  keeps g m -> keeps g (when b m).
Proof. intro H. destruct b; [exact H | apply keeps_ret]. Qed.

(** Observers that do not see levels, parent types and the start marks are
    kept by everything that closes a statement. *)
Section Observer.

Context {A : Type} (g : Chunk -> A).
Hypothesis g_level : forall v c, g (SetLevel v c) = g c.
Hypothesis g_brace_level : forall v c, g (SetBraceLevel v c) = g c.
Hypothesis g_parent_type : forall t c, g (SetParentType t c) = g c.

Lemma kept_rewind_comments (l : ChunkList) :
  forall (s s' : State),
    chunks s' = fst (rewind_comments l (chunks s)) -> kept g s s'.
Proof.
  induction l as [|[i c] rest IH]; intros s s' E; simpl in E.
  - now apply kept_same_chunks.
  - destruct (IsCommentOrNewline c).
    + eapply kept_trans.
      * apply kept_update with (p := Some i)
          (f := fun r => SetBraceLevel (wrap64 (c_brace_level r + 1))
                           (SetLevel (wrap64 (c_level r + 1)) r))
          (s' := set_chunks (update (chunks s) i
                   (fun r => SetBraceLevel (wrap64 (c_brace_level r + 1))
                               (SetLevel (wrap64 (c_level r + 1)) r))) s);
          [|reflexivity].
        intro x. now rewrite g_brace_level, g_level.
      * apply IH. exact E.
    + now apply kept_same_chunks.
Qed.

Lemma keeps_insert_vbrace (pc : ChunkPtr) (b : bool) : keeps g (insert_vbrace pc b).
Proof.
  intros s p s' E. unfold insert_vbrace in E.
  destruct b.
  - inversion E; subst. eapply kept_insert. reflexivity.
  - destruct (IsNullChunk (chunks s) (GetPrev (chunks s) pc));
      [inversion E; subst; apply kept_refl|].
    match type of E with context [rewind_comments ?l ?cl] =>
      pose proof (kept_rewind_comments l s (set_chunks (fst (rewind_comments l cl)) s) eq_refl) as K;
      destruct (rewind_comments l cl) as [cl1 ref] end.
    simpl in E, K.
    destruct (IsNullChunk cl1 ref); [inversion E; subst; exact K|].
    match type of E with (if IsNullChunk cl1 ?r then _ else _) = _ =>
      destruct (IsNullChunk cl1 r) end; inversion E; subst; clear E.
    + exact K.
    + eapply kept_trans; [exact K|]. eapply kept_insert. reflexivity.
Qed.


Hypothesis g_start :
  forall c, g (SetFlagBits (Z.lor PCF_STMT_START PCF_EXPR_START) c) = g c.

Ltac g_simpl :=
  intros; repeat first [rewrite g_level | rewrite g_brace_level
                       | rewrite g_parent_type | rewrite g_start]; reflexivity.

Ltac keeps_step :=
  lazymatch goal with
  | |- keeps _ (bind _ _) => apply keeps_bind; [| intro]
  | |- keeps _ (ret _) => apply keeps_ret
  | |- keeps _ (gets _) => apply keeps_gets
  | |- keeps _ the_top => apply keeps_gets
  | |- keeps _ (the_chunk _) => apply keeps_gets
  | |- keeps _ is_consumed => apply keeps_gets
  | |- keeps _ loop_fuel => apply keeps_gets
  | |- keeps _ (upd_frm _) => apply keeps_upd_frm
  | |- keeps _ (upd_top _) => apply keeps_upd_top
  | |- keeps _ pop => apply keeps_pop
  | |- keeps _ (push _ _) => apply keeps_push
  | |- keeps _ (log_warn _) => apply keeps_log_warn
  | |- keeps _ (set_consumed _) => apply keeps_set_consumed
  | |- keeps _ (exit_with _) => apply keeps_exit
  | |- keeps _ (throw _) => apply keeps_throw
  | |- keeps _ out_of_fuel => apply keeps_out_of_fuel
  | |- keeps _ (when _ _) => apply keeps_when
  | |- keeps _ (upd_chunk _ _) => apply keeps_upd_chunk; g_simpl
  | |- keeps _ (insert_vbrace_close_after _) => apply keeps_insert_vbrace
  | |- keeps _ (insert_vbrace_open_before _) => apply keeps_insert_vbrace
  | |- keeps _ (insert_vbrace _ _) => apply keeps_insert_vbrace
  | |- keeps _ (if ?c then _ else _) => destruct c
  | |- keeps _ (match ?x with _ => _ end) => destruct x
  end.

Ltac keeps_auto := repeat keeps_step.

Lemma keeps_handle_complex_close_body (cs : ChunkPtr -> M bool) (pc : ChunkPtr) :
  (forall p, keeps g (cs p)) -> keeps g (handle_complex_close_body cs pc).
Proof.
  intro Hcs. unfold handle_complex_close_body.
  keeps_auto; apply Hcs.
Qed.

Lemma keeps_close_statement_body (cs : ChunkPtr -> M bool) (pc : ChunkPtr) :
  (forall p, keeps g (cs p)) -> keeps g (close_statement_body cs pc).
Proof.
  intro Hcs. unfold close_statement_body. cbv zeta.
  keeps_auto; first [apply Hcs | now apply keeps_handle_complex_close_body].
Qed.

Lemma keeps_close_statement_fuel (fuel : nat) :
  forall pc, keeps g (close_statement_fuel fuel pc).
Proof.
  induction fuel as [|n IH]; intro pc; simpl.
  - apply keeps_out_of_fuel.
  - now apply keeps_close_statement_body.
Qed.

Lemma keeps_close_statement (pc : ChunkPtr) : keeps g (close_statement pc).
Proof.
  intros s b s' E. unfold close_statement in E.
  eapply keeps_close_statement_fuel; eassumption.
Qed.





End Observer.

(* ================================================================== *)
(** ** Termination of [close_statement] *)

Lemma frm_size_pop_top (f : ParseFrame) g :
  e_stage (top f) <> NONE -> S (frm_size (frm_pop (set_top g f))) = frm_size f.
Proof.
  intro H. apply top_stage_nonempty in H.
  unfold frm_size, frm_pop, set_top. destruct (pse f); simpl; [now elim H | reflexivity].
Qed.

Lemma frm_size_pop_stage (f : ParseFrame) :
  e_stage (top f) <> NONE -> S (frm_size (frm_pop f)) = frm_size f.
Proof. intro H. apply frm_size_pop. now apply top_stage_nonempty. Qed.

Ltac split_ifs :=
  repeat match goal with
         | |- context [if ?c then _ else _] => destruct c eqn:?
         end.

Lemma handle_complex_close_body_total (cs : ChunkPtr -> M bool) (n : nat) :
  (forall pc s, (frm_size (frm s) < n)%nat -> cs pc s <> OutOfFuel) ->
  forall pc s, (frm_size (frm s) <= n)%nat ->
    handle_complex_close_body cs pc s <> OutOfFuel.
Proof.
  intros Hcs pc s Hn.
  assert (Hpop : forall g, e_stage (top (frm s)) <> NONE ->
            (frm_size (frm_pop (set_top g (frm s))) < n)%nat)
    by (intros g H; pose proof (frm_size_pop_top (frm s) g H); lia).
  assert (Hpop' : e_stage (top (frm s)) <> NONE -> (frm_size (frm_pop (frm s)) < n)%nat)
    by (intros H; pose proof (frm_size_pop_stage (frm s) H); lia).
  unfold handle_complex_close_body. monad_unfold. simpl.
  destruct (e_stage (top (frm s))) eqn:E; simpl; split_ifs; simpl;
    try discriminate; apply Hcs; simpl;
    first [apply Hpop | apply Hpop']; discriminate.
Qed.

Ltac not_oof H :=
  simpl; split_ifs; simpl; try discriminate;
  let Hb := fresh "Hb" in
  let Ex := fresh "Ex" in
  intro Hb;
  match type of Hb with
  | match ?x with _ => _ end = _ => destruct x eqn:Ex; try discriminate
  end;
  revert Ex; apply H.

Lemma close_statement_fuel_total (fuel : nat) :
  forall pc s, (frm_size (frm s) < fuel)%nat -> close_statement_fuel fuel pc s <> OutOfFuel.
Proof.
  induction fuel as [|n IH]; intros pc s Hn; [lia|].
  simpl. unfold close_statement_body. monad_unfold. simpl.
  destruct (IsNullChunk (chunks s) pc); [discriminate|].
  assert (Hhcc : forall s', frm_size (frm s') = frm_size (frm s) ->
             handle_complex_close_body (close_statement_fuel n) pc s' <> OutOfFuel).
  { intros s' Hs'. apply handle_complex_close_body_total with (n := n); [exact IH|]. lia. }
  destruct (consumed (braceState s)) eqn:Ec; simpl.
  - destruct (tok_eqb _ _) eqn:Et; simpl.
    + not_oof Hhcc. reflexivity.
    + not_oof Hhcc. reflexivity.
  - destruct (tok_eqb _ _) eqn:Et; simpl.
    + not_oof IH. simpl.
      apply tok_eqb_eq in Et.
      assert (pse (frm s) <> []) by (apply top_type_nonempty; rewrite Et; discriminate).
      unfold frm_size, frm_pop in *. simpl. destruct (pse (frm s)); simpl in *; [congruence | lia].
    + not_oof Hhcc. reflexivity.
Qed.

Lemma close_statement_total (pc : ChunkPtr) (s : State) :
  close_statement pc s <> OutOfFuel.
Proof. unfold close_statement. apply close_statement_fuel_total. lia. Qed.

Lemma handle_complex_close_body_ext (cs1 cs2 : ChunkPtr -> M bool) (n : nat) :
  (forall pc s, (frm_size (frm s) < n)%nat -> cs1 pc s = cs2 pc s) ->
  forall pc s, (frm_size (frm s) <= n)%nat ->
    handle_complex_close_body cs1 pc s = handle_complex_close_body cs2 pc s.
Proof.
  intros Hcs pc s Hn.
  assert (Hpop : forall g, e_stage (top (frm s)) <> NONE ->
            (frm_size (frm_pop (set_top g (frm s))) < n)%nat)
    by (intros g H; pose proof (frm_size_pop_top (frm s) g H); lia).
  assert (Hpop' : e_stage (top (frm s)) <> NONE -> (frm_size (frm_pop (frm s)) < n)%nat)
    by (intros H; pose proof (frm_size_pop_stage (frm s) H); lia).
  unfold handle_complex_close_body. monad_unfold. simpl.
  destruct (e_stage (top (frm s))) eqn:E; simpl; split_ifs; simpl;
    try reflexivity; apply Hcs; simpl;
    first [apply Hpop | apply Hpop']; discriminate.
Qed.

Lemma close_statement_body_ext (cs1 cs2 : ChunkPtr -> M bool) (n : nat) :
  (forall pc s, (frm_size (frm s) < n)%nat -> cs1 pc s = cs2 pc s) ->
  forall pc s, (frm_size (frm s) <= n)%nat ->
    close_statement_body cs1 pc s = close_statement_body cs2 pc s.
Proof.
  intros Hcs pc s Hn.
  unfold close_statement_body. monad_unfold. simpl.
  destruct (IsNullChunk (chunks s) pc); [reflexivity|].
  assert (Hhcc : forall s', frm_size (frm s') = frm_size (frm s) ->
            handle_complex_close_body cs1 pc s' = handle_complex_close_body cs2 pc s').
  { intros s' Hs'. apply handle_complex_close_body_ext with (n := n); [exact Hcs | lia]. }
  destruct (consumed (braceState s)) eqn:Ec; simpl.
  - destruct (tok_eqb _ _) eqn:Et; simpl; split_ifs; simpl; try reflexivity;
      rewrite Hhcc by reflexivity; reflexivity.
  - destruct (tok_eqb _ _) eqn:Et; simpl.
    + rewrite Hcs; [reflexivity|]. simpl.
      apply tok_eqb_eq in Et.
      assert (pse (frm s) <> []) by (apply top_type_nonempty; rewrite Et; discriminate).
      unfold frm_size, frm_pop in *. simpl. destruct (pse (frm s)); simpl in *; [congruence | lia].
    + split_ifs; simpl; try reflexivity. rewrite Hhcc by reflexivity; reflexivity.
Qed.

Lemma close_statement_fuel_mono (n : nat) :
  forall m pc s, (frm_size (frm s) < n)%nat -> (n <= m)%nat ->
    close_statement_fuel n pc s = close_statement_fuel m pc s.
Proof.
  induction n as [|n IH]; intros m pc s Hs Hm; [lia|].
  destruct m as [|m]; [lia|]. simpl.
  apply close_statement_body_ext with (n := n); [|lia].
  intros pc' s' Hs'. apply IH; lia.
Qed.

(** The fuel is not seen: [close_statement] satisfies the recursive equation
    of the source function. *)
Lemma close_statement_unfold (pc : ChunkPtr) (s : State) :
  close_statement pc s = close_statement_body close_statement pc s.
Proof.
  unfold close_statement at 1. simpl.
  apply close_statement_body_ext with (n := frm_size (frm s)); [|lia].
  intros pc' s' Hs'. unfold close_statement.
  symmetry. apply close_statement_fuel_mono; lia.
Qed.

(** C8: [close_statement] terminates on every call.  A nested call, direct
    or through [handle_complex_close], is made only on a frame whose stack
    is strictly smaller (third part), so the depth of the calls never
    exceeds the stack size: any fuel above it gives the same result (second
    part), and the result is never "out of fuel" (first part). *)
Theorem close_statement_terminates (pc : ChunkPtr) (s : State) :
  close_statement pc s <> OutOfFuel
  /\ (forall fuel, (frm_size (frm s) < fuel)%nat ->
        close_statement_fuel fuel pc s = close_statement pc s)
  /\ (forall cs : ChunkPtr -> M bool,
        (forall pc' s', (frm_size (frm s') < frm_size (frm s))%nat ->
                        cs pc' s' = close_statement pc' s') ->
        close_statement_body cs pc s = close_statement pc s).
Proof.
  split; [apply close_statement_total|]. split.
  - intros fuel Hf. unfold close_statement. symmetry.
    apply close_statement_fuel_mono; lia.
  - intros cs Hcs. rewrite close_statement_unfold.
    apply close_statement_body_ext with (n := frm_size (frm s)); [exact Hcs | lia].
Qed.

(** The theorem at work on the [;] of [if (a) if (b) c;], where two virtual
    braces and two [if] entries are closed by nested calls. *)
Lemma close_statement_terminates_witness :
  frm_size (frm (state_after c_env 9 nested_if_stream)) = 5%nat
  /\ close_statement_fuel 6 (Some 9%nat) (state_after c_env 9 nested_if_stream)
     = close_statement (Some 9%nat) (state_after c_env 9 nested_if_stream)
  /\ exists s', close_statement (Some 9%nat) (state_after c_env 9 nested_if_stream)
                = Ok true s' /\ pse (frm s') = [eof_entry].
Proof.
  split; [vm_compute; reflexivity|]. split.
  - apply (proj1 (proj2 (close_statement_terminates (Some 9%nat)
                           (state_after c_env 9 nested_if_stream)))).
    vm_compute. apply le_n.
  - eexists. split; vm_compute; reflexivity.
Defined.

(* ================================================================== *)
(** ** Closers that do not match the top of the stack *)


Lemma pc_close_mismatch (pc : ChunkPtr) (s : State) :
  let c := chunk_at (chunks s) pc in
  let t := top (frm s) in
  is_closer c = true ->
  TestFlags PCF_IN_PREPROC c = false ->
  mismatched (e_type t) (c_type c) = true ->
  pc_close pc s =
    let w1 := W_closer (c_orig_line c) (c_orig_col c) (c_str c) (c_type c) in
    if tok_eqb (e_type t) CT_EOF then Ok tt (set_log (w1 :: log s) s)
    else
      let w2 := W_expected_closer (tok_succ (e_type t)) in
      if tok_eqb (e_type t) CT_PP_DEFINE then Ok tt (set_log (w2 :: w1 :: log s) s)
      else
        let opener := chunk_at (chunks s) (e_pc t) in
        Exit EXIT_FAILURE
          (set_log (W_unexpected (c_orig_line c) (c_orig_col c) (c_str c)
                                 (c_type opener) (c_orig_line opener)
                    :: w2 :: w1 :: log s) s).
Proof.
  intros c t Hc Hp Hm. subst c t.
  unfold pc_close. monad_unfold. simpl. rewrite Hc.
  unfold mismatched in Hm. apply andb_true_iff in Hm. destruct Hm as [Hm1 Hm2].
  apply negb_true_iff in Hm2. unfold Is at 1. rewrite Hm2. simpl.
  rewrite Hm1. rewrite Hp. simpl.
  destruct (tok_eqb (e_type (top (frm s))) CT_EOF) eqn:E1; simpl; [reflexivity|].
  destruct (tok_eqb (e_type (top (frm s))) CT_PP_DEFINE) eqn:E2; simpl; reflexivity.
Qed.



(** On this path the status passed to [exit] is [EXIT_FAILURE]; the other
    aborts of the pass use [EX_SOFTWARE]. *)
Lemma closer_mismatch_exit_status (pc : ChunkPtr) (s : State) (status : Z) (s' : State) :
  let c := chunk_at (chunks s) pc in
  is_closer c = true ->
  TestFlags PCF_IN_PREPROC c = false ->
  mismatched (e_type (top (frm s))) (c_type c) = true ->
  pc_close pc s = Exit status s' ->
  status = EXIT_FAILURE.
Proof.
  intros c Hc Hp Hm E.
  rewrite (pc_close_mismatch pc s Hc Hp Hm) in E. cbv zeta in E.
  destruct (tok_eqb _ CT_EOF); [discriminate|].
  destruct (tok_eqb _ CT_PP_DEFINE); [discriminate|].
  now inversion E.
Qed.




(** C9: with the [CT_EOF] or the [CT_PP_DEFINE] entry on top, a closer
    outside a preprocessor that matches nothing is warned about and the
    pass goes on with the chunk, the stack untouched; the process is ended
    only when the top is another entry. *)
Theorem closer_mismatch_on_sentinel_continues (pc : ChunkPtr) (s : State) :
  let c := chunk_at (chunks s) pc in
  let t := top (frm s) in
  is_closer c = true ->
  TestFlags PCF_IN_PREPROC c = false ->
  mismatched (e_type t) (c_type c) = true ->
  (is_sentinel_type (e_type t) = true ->
     exists s',
       pc_close pc s = Ok tt s'
       /\ In (W_closer (c_orig_line c) (c_orig_col c) (c_str c) (c_type c)) (log s')
       /\ frm s' = frm s
       /\ chunks s' = chunks s
       /\ braceState s' = braceState s)
  /\ (forall status s',
        pc_close pc s = Exit status s' -> is_sentinel_type (e_type t) = false).
Proof.
  intros c t Hc Hp Hm.
  pose proof (pc_close_mismatch pc s Hc Hp Hm) as E. cbv zeta in E.
  fold c t in E. unfold is_sentinel_type. split.
  - intro Hs.
    destruct (tok_eqb (e_type t) CT_EOF) eqn:E1.
    + eexists. split; [exact E|]. simpl. repeat split; auto.
    + simpl in Hs. rewrite Hs in E.
      eexists. split; [exact E|]. simpl. repeat split; auto.
  - intros status s' Ex. rewrite Ex in E.
    destruct (tok_eqb (e_type t) CT_EOF); [discriminate|].
    destruct (tok_eqb (e_type t) CT_PP_DEFINE); [discriminate|]. reflexivity.
Qed.

(** The theorem at work on the []] of [x ; ]]. *)
Lemma closer_mismatch_on_sentinel_continues_witness :
  (is_sentinel_type CT_EOF = true ->
     exists s',
       pc_close (Some 2%nat) (state_after c_env 2 stray_square_stream) = Ok tt s'
       /\ In (W_closer 1 3 "]" CT_SQUARE_CLOSE) (log s')
       /\ frm s' = frm (state_after c_env 2 stray_square_stream)
       /\ chunks s' = chunks (state_after c_env 2 stray_square_stream)
       /\ braceState s' = braceState (state_after c_env 2 stray_square_stream))
  /\ (forall status s',
        pc_close (Some 2%nat) (state_after c_env 2 stray_square_stream) = Exit status s' ->
        is_sentinel_type CT_EOF = false).
Proof.
  apply (closer_mismatch_on_sentinel_continues (Some 2%nat)
           (state_after c_env 2 stray_square_stream)); vm_compute; reflexivity.
Defined.

(* ================================================================== *)
(** ** The complex-statement check in stage [PAREN1] *)

Ltac ccs_unfold :=
  unfold check_complex_statements, ccs_op_paren1, loop_fuel, ccs_elseif,
         ccs_catch_when, ccs_while, ccs_vbrace, ccs_constexpr, ccs_verify_paren.

(** In stage [PAREN1] the checks for the other stages are passed over and
    the outcome is decided by the last two. *)
Lemma ccs_at_paren1 (env : Env) (pc : ChunkPtr) (s : State) :
  let c := chunk_at (chunks s) pc in
  let t := top (frm s) in
  e_stage t = PAREN1 ->
  check_complex_statements env pc s =
    if (tok_eqb (e_type t) CT_IF || tok_eqb (e_type t) CT_ELSEIF) && Is CT_CONSTEXPR c
    then Ok false s
    else if IsNot CT_PAREN_OPEN c
    then Exit EX_SOFTWARE
           (set_frm (frm_pop (frm s))
              (set_log (W_expected_paren (c_orig_line c) (c_str c) (e_type t) :: log s) s))
    else Ok false s.
Proof.
  intros c t Hst. subst c t.
  ccs_unfold. mrun_with Hst. rewrite ?andb_false_r. mrun_with Hst.
  destruct ((tok_eqb _ _ || tok_eqb _ _) && _); simpl; [reflexivity|].
  rewrite Hst. simpl. rewrite andb_true_r.
  destruct (IsNot _ _); reflexivity.
Qed.

Lemma parse_cleanup_at_paren1 (env : Env) (pc : ChunkPtr) (s : State) :
  let c := chunk_at (chunks s) pc in
  let t := top (frm s) in
  e_stage t = PAREN1 ->
  IsNot CT_PAREN_OPEN c = true ->
  IsNot CT_AUTORELEASEPOOL c = true ->
  (tok_eqb (e_type t) CT_IF || tok_eqb (e_type t) CT_ELSEIF) && Is CT_CONSTEXPR c = false ->
  exists s',
    parse_cleanup env pc s = Exit EX_SOFTWARE s'
    /\ pse (frm s') = tl (pse (frm s))
    /\ log s' = W_expected_paren (c_orig_line c) (c_str c) (e_type t) :: log s.
Proof.
  intros c t Hst Hp Ha Hc. subst c t.
  destruct (pc_mark_start_marks pc s) as (s1 & E1 & M1).
  destruct (pc_mark_sparen_marks pc s1) as (s2 & E2 & M2).
  destruct (marks_only_trans _ _ _ _ M1 M2)
    as [Mpse Mlev Mblev Msp Mbs Mlog Mtype Mstr Mline Mcol Mprep Mnull].
  clear M1 M2.
  unfold parse_cleanup.
  unfold bind at 1. rewrite E1. unfold bind at 1. rewrite E2.
  unfold bind at 1. unfold the_top at 1, gets at 1.
  unfold bind at 1. unfold the_chunk at 1, gets at 1.
  assert (Htop : top (frm s2) = top (frm s)) by (unfold top; now rewrite Mpse).
  unfold IsNot, Is in *.
  rewrite Htop, Hst, Mtype. simpl stage_eqb. simpl negb at 1.
  rewrite Ha. simpl andb.
  unfold bind at 1.
  rewrite ccs_at_paren1 by (now rewrite Htop).
  unfold Is, IsNot. rewrite Htop, !Mtype, Hc. unfold Is. rewrite Mtype, Hp.
  eexists. split; [reflexivity|]. simpl.
  rewrite Mpse, Mlog, Mline, Mstr. split; reflexivity.
Qed.

(** C4 (as amended): with the top of the stack in stage [PAREN1], a chunk
    that is not an open paren makes the pass warn "Expected '('", pop the
    complex statement and end the process with status [EX_SOFTWARE], unless
    the chunk is [constexpr] after [if] or [else if], or is
    [CT_AUTORELEASEPOOL], for which the check is not run. *)
Theorem paren1_expects_open_paren (env : Env) (pc : ChunkPtr) (s : State) :
  let c := chunk_at (chunks s) pc in
  let t := top (frm s) in
  e_stage t = PAREN1 ->
  c_type c <> CT_PAREN_OPEN ->
  c_type c <> CT_AUTORELEASEPOOL ->
  ~ ((e_type t = CT_IF \/ e_type t = CT_ELSEIF) /\ c_type c = CT_CONSTEXPR) ->
  exists s',
    parse_cleanup env pc s = Exit EX_SOFTWARE s'
    /\ EX_SOFTWARE = 70
    /\ pse (frm s') = tl (pse (frm s))
    /\ log s' = W_expected_paren (c_orig_line c) (c_str c) (e_type t) :: log s.
Proof.
  intros c t Hst Hp Ha Hc.
  destruct (parse_cleanup_at_paren1 env pc s Hst) as (s' & E & H1 & H2).
  - unfold IsNot, Is. now apply negb_true_iff, tok_eqb_neq.
  - unfold IsNot, Is. now apply negb_true_iff, tok_eqb_neq.
  - apply not_true_is_false. intro H. apply Hc.
    apply andb_true_iff in H. destruct H as [H H'].
    apply orb_true_iff in H. unfold Is in H'.
    rewrite !tok_eqb_eq in H. now rewrite tok_eqb_eq in H'.
  - exists s'. repeat split; assumption.
Qed.

(** The theorem at work on [while x]. *)
Lemma paren1_expects_open_paren_witness :
  exists s',
    parse_cleanup c_env (Some 1%nat) (state_after c_env 1 while_word_stream)
      = Exit EX_SOFTWARE s'
    /\ EX_SOFTWARE = 70
    /\ pse (frm s') = [eof_entry]
    /\ log s' = [W_expected_paren 1 "x" CT_WHILE].
Proof.
  apply (paren1_expects_open_paren c_env (Some 1%nat)
           (state_after c_env 1 while_word_stream));
    vm_compute; try reflexivity; try discriminate.
  intros [[H | H] _]; discriminate.
Defined.

(** C4 as stated fails: after [if], [constexpr] is not an open paren and the
    [if] is in stage [PAREN1], yet the pass keeps the entry and goes on. *)
Lemma constexpr_after_if_is_accepted :
  let s := state_after c_env 1 if_constexpr_stream in
  let c := chunk_at (chunks s) (Some 1%nat) in
  e_stage (top (frm s)) = PAREN1
  /\ c_type c = CT_CONSTEXPR
  /\ c_type c <> CT_PAREN_OPEN
  /\ (exists s', parse_cleanup c_env (Some 1%nat) s = Ok tt s'
                 /\ pse (frm s') = pse (frm s) /\ log s' = [])
  /\ (exists s', brace_cleanup c_env 12 if_constexpr_stream = Ok tt s' /\ log s' = []).
Proof.
  cbv zeta.
  split; [vm_compute; reflexivity|].
  split; [vm_compute; reflexivity|].
  split; [vm_compute; discriminate|].
  split.
  - eexists. split; [vm_compute; reflexivity|]. split; vm_compute; reflexivity.
  - eexists. split; vm_compute; reflexivity.
Qed.

(* ================================================================== *)
(** ** The do-while scenario *)

(** C7: on [do { x; } while (y);] the pass, whatever the language and the
    options, turns the [while] into [CT_WHILE_OF_DO], its parens into
    [CT_SPAREN_OPEN] and [CT_SPAREN_CLOSE], and gives the closing semicolon
    the parent type [CT_WHILE_OF_DO]; no chunk is inserted. *)
Theorem do_while_scenario (env : Env) :
  exists s,
    brace_cleanup env 11 do_while_stream = Ok tt s
    /\ type_of s 5%nat = CT_WHILE_OF_DO
    /\ type_of s 6%nat = CT_SPAREN_OPEN
    /\ type_of s 8%nat = CT_SPAREN_CLOSE
    /\ parent_type_of s 9%nat = CT_WHILE_OF_DO
    /\ map fst (chunks s) = seq 0 10
    /\ log s = [].
Proof.
  destruct env as [pawn d cs oc cpp o1 o2 o3 o4 o5 o6 h1 h2 h3 h4 h5].
  destruct pawn; eexists; (split; [vm_compute; reflexivity|]);
    vm_compute; repeat split.
Qed.

(* ================================================================== *)
(** ** [#define] bodies get a frame of their own *)

Lemma preproc_start_define (env : Env) (pc : ChunkPtr) (s : State) :
  let next := GetNextNcNnl (chunks s) pc in
  IsNullChunk (chunks s) next = false ->
  c_type (chunk_at (chunks s) next) = CT_PP_DEFINE ->
  preproc_start env pc s =
    Ok (wrap64 (pp_level (braceState s)))
       (mkState (chunks s) define_frame
                (mkBraceState (fl_push (frames (braceState s)) (frm s)) CT_PP_DEFINE
                              (pp_level (braceState s)) (consumed (braceState s)))
                (log s)).
Proof.
  intros next Hn Ht. subst next.
  unfold preproc_start, set_in_preproc, set_frames. mrun.
  rewrite Hn, Ht. simpl. reflexivity.
Qed.

Lemma leave_preproc_define (env : Env) (pc : ChunkPtr) (s : State) :
  let c := chunk_at (chunks s) pc in
  in_preproc (braceState s) = CT_PP_DEFINE ->
  TestFlags PCF_IN_PREPROC c = false ->
  leave_preproc env pc s =
    let b := braceState s in
    let r := fl_pop (frames b) (frm s) in
    Ok tt (mkState (chunks s) (snd r)
                   (mkBraceState (fst r) CT_NONE (pp_level b) (consumed b))
                   (if pp_warn_unbalanced_if env && negb (frm_brace_level (frm s) =? 1)
                    then W_unbalanced_define (c_orig_line c) (frm_brace_level (frm s)) :: log s
                    else log s)).
Proof.
  intros c Hd Hp. subst c.
  unfold leave_preproc, set_in_preproc. mrun.
  rewrite Hd, Hp. simpl.
  destruct (pp_warn_unbalanced_if env && negb (frm_brace_level (frm s) =? 1));
    simpl; reflexivity.
Qed.

(** C6: on a [#define] the current frame is pushed on the frame list and a
    new frame takes its place, at level 1 and brace level 1, holding above
    the bottom entry one entry of type [CT_PP_DEFINE]; on the first chunk
    without [PCF_IN_PREPROC] met while [in_preproc] is [CT_PP_DEFINE] the
    saved frame comes back, and the warning about unbalanced braces is
    written exactly when the option is on and the brace level is not 1. *)
Theorem define_body_frame (env : Env) :
  (forall pc s,
     IsNullChunk (chunks s) (GetNextNcNnl (chunks s) pc) = false ->
     c_type (chunk_at (chunks s) (GetNextNcNnl (chunks s) pc)) = CT_PP_DEFINE ->
     exists s',
       preproc_start env pc s = Ok (wrap64 (pp_level (braceState s))) s'
       /\ frames (braceState s') = frm s :: frames (braceState s)
       /\ in_preproc (braceState s') = CT_PP_DEFINE
       /\ frm_level (frm s') = 1
       /\ frm_brace_level (frm s') = 1
       /\ pse (frm s') = [mkEntry CT_PP_DEFINE CT_NONE NONE None; eof_entry]
       /\ sparen_count (frm s') = 0
       /\ chunks s' = chunks s /\ log s' = log s)
  /\ (forall pc s saved rest,
        in_preproc (braceState s) = CT_PP_DEFINE ->
        TestFlags PCF_IN_PREPROC (chunk_at (chunks s) pc) = false ->
        frames (braceState s) = saved :: rest ->
        exists s',
          leave_preproc env pc s = Ok tt s'
          /\ frm s' = saved
          /\ frames (braceState s') = rest
          /\ in_preproc (braceState s') = CT_NONE
          /\ chunks s' = chunks s
          /\ (pp_warn_unbalanced_if env = true /\ frm_brace_level (frm s) <> 1 ->
              log s' = W_unbalanced_define (c_orig_line (chunk_at (chunks s) pc))
                                           (frm_brace_level (frm s)) :: log s)
          /\ (pp_warn_unbalanced_if env = false \/ frm_brace_level (frm s) = 1 ->
              log s' = log s)).
Proof.
  split.
  - intros pc s Hn Ht. eexists. split; [apply preproc_start_define; assumption|].
    simpl. repeat split.
  - intros pc s saved rest Hd Hp Hf. eexists.
    split; [apply leave_preproc_define; assumption|].
    cbv zeta. rewrite Hf. simpl. repeat split.
    + intros [Ho Hb]. rewrite Ho. apply Z.eqb_neq in Hb. now rewrite Hb.
    + intros [Ho | Hb]; [now rewrite Ho | rewrite Hb, andb_false_r; reflexivity].
Qed.

(** The theorem at work on [{ #define OPEN { x]: the [#] starts the
    directive in the frame of the outer brace, [x] is the first chunk after
    the body, whose brace is still open. *)
Lemma define_body_frame_witness :
  (exists s',
     preproc_start c_env_warn (Some 2%nat) (state_after c_env_warn 2 define_open_stream)
       = Ok 0 s'
     /\ frames (braceState s') = [frm (state_after c_env_warn 2 define_open_stream)]
     /\ in_preproc (braceState s') = CT_PP_DEFINE
     /\ frm_level (frm s') = 1
     /\ frm_brace_level (frm s') = 1
     /\ pse (frm s') = [mkEntry CT_PP_DEFINE CT_NONE NONE None; eof_entry]
     /\ sparen_count (frm s') = 0
     /\ chunks s' = chunks (state_after c_env_warn 2 define_open_stream)
     /\ log s' = [])
  /\ (exists s',
        leave_preproc c_env_warn (Some 6%nat) (state_after c_env_warn 6 define_open_stream)
          = Ok tt s'
        /\ frm_level (frm s') = 1
        /\ pse (frm s') = [mkEntry CT_BRACE_OPEN CT_NONE NONE (Some 0%nat); eof_entry]
        /\ frames (braceState s') = []
        /\ log s' = [W_unbalanced_define 2 2]).
Proof.
  split.
  - apply (proj1 (define_body_frame c_env_warn) (Some 2%nat)
             (state_after c_env_warn 2 define_open_stream));
      vm_compute; reflexivity.
  - destruct (proj2 (define_body_frame c_env_warn) (Some 6%nat)
                (state_after c_env_warn 6 define_open_stream)
                (frm (state_after c_env_warn 2 define_open_stream)) [])
      as (s' & E & Hfrm & Hfs & Hin & Hch & Hw & _);
      try (vm_compute; reflexivity).
    exists s'. split; [exact E|].
    rewrite Hfrm, Hfs. split; [vm_compute; reflexivity|].
    split; [vm_compute; reflexivity|]. split; [reflexivity|].
    rewrite Hw; [vm_compute; reflexivity|].
    split; [reflexivity | vm_compute; discriminate].
Defined.

(* ================================================================== *)
(** ** The [while] of a [do] *)






Lemma keeps_type_close_statement (pc : ChunkPtr) : keeps c_type (close_statement pc).
Proof. apply keeps_close_statement; reflexivity. Qed.




(* ================================================================== *)
(** ** The marks [PCF_IN_SPAREN] and [PCF_IN_FOR] *)




Lemma TestFlags_ResetFlagBits_other (m b : Z) (c : Chunk) :
  Z.land m b = 0 -> TestFlags b (ResetFlagBits m c) = TestFlags b c.
Proof.
  intro H. unfold TestFlags, ResetFlagBits. cbn [c_flags SetFlags].
  f_equal. f_equal. apply Z.bits_inj'. intros n Hn.
  rewrite !Z.land_spec, Z.ldiff_spec.
  assert (Hb : Z.testbit m n && Z.testbit b n = false)
    by (rewrite <- Z.land_spec, H; apply Z.bits_0).
  destruct (Z.testbit (c_flags c) n), (Z.testbit m n), (Z.testbit b n);
    simpl in *; congruence.
Qed.

(** *** The mark of a [for] statement stays *)













(** The counter and the stack can disagree on statement parens too.  In C#
    the entry of a [catch] takes the type [CT_SPAREN_OPEN] and keeps it for
    the block that follows, where the counter is back at zero: inside
    [catch (e) { x; }] an entry of type [CT_SPAREN_OPEN] is on the stack and
    [x] is not given [PCF_IN_SPAREN]. *)
Lemma catch_body_is_not_marked :
  let s := state_after cs_env 8 try_catch_stream in
  let x := Some 8%nat in
  (exists e, In e (pse (frm s)) /\ e_type e = CT_SPAREN_OPEN)
  /\ sparen_count (frm s) = 0
  /\ (exists s', parse_cleanup cs_env x s = Ok tt s'
                 /\ TestFlags PCF_IN_SPAREN (chunk_at (chunks s') x) = false).
Proof.
  cbv zeta.
  split.
  { exists (mkEntry CT_SPAREN_OPEN CT_NONE BRACE2 (Some 0%nat)).
    split; [vm_compute; right; left; reflexivity | reflexivity]. }
  split; [vm_compute; reflexivity|].
  eexists; split; vm_compute; reflexivity.
Qed.

(* ================================================================== *)
(** ** Opening a virtual brace *)

(** The state [check_complex_statements] leaves when it has opened a virtual
    brace [vbrace] in front of [pc]: [s1] is the state after the insertion,
    [parentType] the type of the complex statement. *)
Definition vbrace_opened (pc vbrace : ChunkPtr) (parentType : E_Token) (s1 : State) : State :=
  let cl2 := update_at (chunks s1) vbrace (SetParentType parentType) in
  let f2 := set_top (set_e_parent parentType)
              (frm_push cl2 vbrace NONE (set_brace_level_inc (frm s1))) in
  let cl3 := update_at cl2 pc (fun x => SetBraceLevel (frm_brace_level f2)
                                          (SetLevel (frm_level f2) x)) in
  let cl4 := update_at cl3 pc (SetFlagBits (Z.lor PCF_STMT_START PCF_EXPR_START)) in
  mkState cl4 (set_expr_count 1 (set_stmt_count 1 f2)) (braceState s1) (log s1).

Lemma ccs_at_brace2 (env : Env) (pc vbrace : ChunkPtr) (s s1 : State) :
  let c := chunk_at (chunks s) pc in
  let t := top (frm s) in
  e_stage t = BRACE2 \/ e_stage t = BRACE_DO ->
  IsNot CT_BRACE_OPEN c = true ->
  TestFlags PCF_IN_PREPROC c = false ->
  lang_cs env && Is CT_USING_STMT c && negb (indent_using_block env) = false ->
  insert_vbrace_open_before pc s = Ok vbrace s1 ->
  check_complex_statements env pc s = Ok false (vbrace_opened pc vbrace (e_type t) s1).
Proof.
  intros c t Hst Hb Hp Hu Hi. subst c t.
  destruct (insert_vbrace_frm pc false s) as (q & cl & Hq).
  unfold insert_vbrace_open_before in Hi. rewrite Hq in Hi. inversion Hi; subst q s1. clear Hi.
  unfold check_complex_statements, ccs_op_paren1, loop_fuel, ccs_elseif,
         ccs_catch_when, ccs_while, ccs_vbrace, ccs_constexpr, ccs_verify_paren,
         insert_vbrace_open_before.
  destruct Hst as [Hst | Hst].
  - mrun_with Hst. rewrite Hb, Hp, Hu. simpl. rewrite Hq. mrun.
    rewrite andb_false_r. reflexivity.
  - mrun_with Hst. rewrite Hb, Hp, Hu. simpl. rewrite Hq. mrun.
    rewrite andb_false_r. reflexivity.
Qed.

Lemma before_acc_absent (cl : ChunkList) (id : ChunkId) :
  forall acc, lookup cl id = None -> before_acc cl id acc = [].
Proof.
  induction cl as [|[i c] rest IH]; intros acc H; simpl in *; [reflexivity|].
  destruct (Nat.eqb i id); [discriminate | now apply IH].
Qed.

Lemma GetPrev_not_null (cl : ChunkList) (pc : ChunkPtr) :
  IsNullChunk cl (GetPrev cl pc) = false -> IsNullChunk cl pc = false.
Proof.
  destruct pc as [id|]; simpl; [|discriminate].
  unfold GetPrev. simpl.
  destruct (lookup cl id) eqn:E; [reflexivity|].
  now rewrite (before_acc_absent cl id [] E).
Qed.

Lemma lookup_rewind_comments (l : ChunkList) :
  forall cl id, lookup (fst (rewind_comments l cl)) id = None <-> lookup cl id = None.
Proof.
  induction l as [|[i c] rest IH]; intros cl id; simpl; [reflexivity|].
  destruct (IsCommentOrNewline c); simpl; [|reflexivity].
  rewrite IH, lookup_update.
  destruct (Nat.eqb i id); [|reflexivity].
  destruct (lookup cl id); simpl; split; congruence.
Qed.

(** What a successful [insert_vbrace_open_before] has done. *)
Lemma insert_vbrace_open_some (pc : ChunkPtr) (s s1 : State) (vb : ChunkId) :
  insert_vbrace_open_before pc s = Ok (Some vb) s1 ->
  frm s1 = frm s /\ braceState s1 = braceState s /\ log s1 = log s
  /\ IsNullChunk (chunks s) pc = false
  /\ lookup (chunks s) vb = None
  /\ exists c, lookup (chunks s1) vb = Some c
               /\ c_type c = CT_VBRACE_OPEN
               /\ c_parent_type c = e_type (top (frm s))
               /\ c_level c = frm_level (frm s)
               /\ c_brace_level c = frm_brace_level (frm s)
               /\ c_str c = EmptyString.
Proof.
  unfold insert_vbrace_open_before, insert_vbrace. intro E.
  destruct (IsNullChunk (chunks s) (GetPrev (chunks s) pc)) eqn:Hprev; [discriminate|].
  pose proof (GetPrev_not_null _ _ Hprev) as Hpc.
  pose proof (lookup_rewind_comments (before (chunks s) pc) (chunks s) vb) as Hrw.
  destruct (rewind_comments (before (chunks s) pc) (chunks s)) as [cl1 ref].
  simpl in E, Hrw.
  destruct (IsNullChunk cl1 ref); [discriminate|].
  match type of E with (if IsNullChunk cl1 ?r then _ else _) = _ =>
    destruct (IsNullChunk cl1 r); [discriminate|] end.
  match type of E with context [CopyAndAddAfter cl1 ?ch ?r] =>
    destruct (CopyAndAddAfter cl1 ch r) as [cl' q] eqn:Ec end.
  simpl in E. inversion E; subst q s1. clear E.
  apply CopyAndAddAfter_new in Ec. destruct Ec as (Hnew & Hin & _).
  simpl. repeat split; try assumption.
  - now apply Hrw.
  - eexists. split; [exact Hin|].
    repeat split; simpl;
      repeat match goal with |- context [if ?b then _ else _] => destruct b end;
      reflexivity.
Qed.

(** *** Where the virtual brace is linked in *)

Definition ids (cl : ChunkList) : list ChunkId := map fst cl.

(** The identities before the first occurrence of [p], in list order. *)
Fixpoint prefix_ids (l : list ChunkId) (p : ChunkId) : option (list ChunkId) :=
  match l with
  | [] => None
  | i :: rest =>
      if Nat.eqb i p then Some []
      else option_map (cons i) (prefix_ids rest p)
  end.

Lemma ids_before_acc (cl : ChunkList) (p : ChunkId) :
  forall acc,
    ids (before_acc cl p acc) =
    match prefix_ids (ids cl) p with
    | Some pre => rev pre ++ ids acc
    | None => []
    end.
Proof.
  induction cl as [|[i c] rest IH]; intro acc; simpl; [reflexivity|].
  destruct (Nat.eqb i p); [reflexivity|].
  rewrite IH. simpl. destruct (prefix_ids (ids rest) p); simpl; [|reflexivity].
  now rewrite <- app_assoc.
Qed.

Lemma ids_before (cl : ChunkList) (p : ChunkId) :
  ids (before cl (Some p)) =
  match prefix_ids (ids cl) p with
  | Some pre => rev pre
  | None => []
  end.
Proof.
  unfold before. rewrite ids_before_acc. simpl.
  destruct (prefix_ids (ids cl) p); [apply app_nil_r | reflexivity].
Qed.

Lemma ids_update (cl : ChunkList) (i : ChunkId) (f : Chunk -> Chunk) :
  ids (update cl i f) = ids cl.
Proof.
  induction cl as [|[j c] rest IH]; simpl; [reflexivity|].
  destruct (Nat.eqb j i); simpl; [reflexivity | now rewrite IH].
Qed.

Lemma ids_update_at (cl : ChunkList) (q : ChunkPtr) (f : Chunk -> Chunk) :
  ids (update_at cl q f) = ids cl.
Proof. destruct q; [apply ids_update | reflexivity]. Qed.

Lemma ids_rewind_comments (l : ChunkList) :
  forall cl, ids (fst (rewind_comments l cl)) = ids cl.
Proof.
  induction l as [|[i c] rest IH]; intro cl; simpl; [reflexivity|].
  destruct (IsCommentOrNewline c); simpl; [|reflexivity].
  now rewrite IH, ids_update.
Qed.

Lemma rewind_comments_ref (l : ChunkList) :
  forall cl, snd (rewind_comments l cl)
             = first_such (fun c => negb (IsCommentOrNewline c)) l.
Proof.
  induction l as [|[i c] rest IH]; intro cl; simpl; [reflexivity|].
  unfold first_such. simpl.
  destruct (IsCommentOrNewline c); simpl; [apply IH | reflexivity].
Qed.

Lemma first_such_in (P : Chunk -> bool) (l : ChunkList) (r : ChunkId) :
  first_such P l = Some r -> In r (ids l).
Proof.
  unfold first_such. induction l as [|[i c] rest IH]; simpl; [discriminate|].
  destruct (P c); simpl.
  - inversion 1. now left.
  - intro H. right. now apply IH.
Qed.

Fixpoint insert_id (l : list ChunkId) (a n : ChunkId) : list ChunkId :=
  match l with
  | [] => []
  | i :: rest => if Nat.eqb i a then i :: n :: rest else i :: insert_id rest a n
  end.

Lemma ids_insert_after (cl : ChunkList) (a : ChunkId) (x : ChunkId * Chunk) :
  ids (insert_after cl a x) = insert_id (ids cl) a (fst x).
Proof.
  induction cl as [|[i c] rest IH]; simpl; [reflexivity|].
  destruct (Nat.eqb i a); simpl; [reflexivity | now rewrite IH].
Qed.

Lemma in_insert_id (l : list ChunkId) (a n : ChunkId) :
  In a l -> In n (insert_id l a n).
Proof.
  induction l as [|i rest IH]; simpl; [tauto|].
  destruct (Nat.eqb i a) eqn:E; simpl.
  - intros _. right. now left.
  - intros [H | H]; [apply Nat.eqb_neq in E; congruence | right; now apply IH].
Qed.

(** Linking a new chunk in after a chunk that lies before [p] puts it
    before [p]. *)
Lemma prefix_ids_insert (l : list ChunkId) (a n p : ChunkId) :
  forall pre,
    prefix_ids l p = Some pre -> In a pre -> n <> p ->
    prefix_ids (insert_id l a n) p = Some (insert_id pre a n).
Proof.
  induction l as [|i rest IH]; intros pre Hpre Ha Hn; simpl in *; [discriminate|].
  destruct (Nat.eqb i p) eqn:Eip.
  - inversion Hpre; subst. elim Ha.
  - destruct (prefix_ids rest p) as [pre'|] eqn:Er; [|discriminate].
    simpl in Hpre. inversion Hpre; subst pre. clear Hpre. simpl.
    destruct (Nat.eqb i a) eqn:Eia; simpl; rewrite Eip.
    + assert (Enp : Nat.eqb n p = false) by now apply Nat.eqb_neq.
      rewrite Enp, Er. reflexivity.
    + destruct Ha as [Ha | Ha]; [apply Nat.eqb_neq in Eia; congruence|].
      rewrite (IH pre' eq_refl Ha Hn). reflexivity.
Qed.

Lemma insert_before (cl : ChunkList) (a n p : ChunkId) (x : Chunk) :
  In a (ids (before cl (Some p))) -> n <> p ->
  In n (ids (before (insert_after cl a (n, x)) (Some p))).
Proof.
  rewrite !ids_before, ids_insert_after. simpl.
  destruct (prefix_ids (ids cl) p) as [pre|] eqn:E; [|intros []].
  intros Ha Hn. apply in_rev in Ha.
  rewrite (prefix_ids_insert (ids cl) a n p pre E Ha Hn).
  apply -> in_rev. now apply in_insert_id.
Qed.

Fixpoint after_ids (l : list ChunkId) (r : ChunkId) : list ChunkId :=
  match l with
  | [] => []
  | i :: rest => if Nat.eqb i r then rest else after_ids rest r
  end.

Lemma ids_after_id (cl : ChunkList) (r : ChunkId) :
  ids (after_id cl r) = after_ids (ids cl) r.
Proof.
  induction cl as [|[i c] rest IH]; simpl; [reflexivity|].
  destruct (Nat.eqb i r); [reflexivity | exact IH].
Qed.

Lemma first_id_ids (l : ChunkList) : first_id l = hd_error (ids l).
Proof. destruct l as [|[i c] rest]; reflexivity. Qed.

(** The chunk after one that lies before [p], but not right before it,
    lies before [p] too. *)
Lemma next_in_prefix (l : list ChunkId) (p r : ChunkId) :
  forall pre,
    prefix_ids l p = Some pre -> In r (removelast pre) ->
    exists a, hd_error (after_ids l r) = Some a /\ In a pre.
Proof.
  induction l as [|i rest IH]; intros pre Hpre Hr; simpl in *; [discriminate|].
  destruct (Nat.eqb i p) eqn:Eip; [inversion Hpre; subst; elim Hr|].
  destruct (prefix_ids rest p) as [pre'|] eqn:Er; [|discriminate].
  simpl in Hpre. inversion Hpre; subst pre. clear Hpre.
  destruct pre' as [|x pre'']; [elim Hr|].
  destruct (Nat.eqb i r) eqn:Eir.
  - destruct rest as [|y rest']; [discriminate|]. simpl in Er.
    destruct (Nat.eqb y p); [discriminate|].
    destruct (prefix_ids rest' p); [|discriminate]. simpl in Er.
    inversion Er; subst. exists x. split; [reflexivity | right; now left].
  - change (In r (i :: removelast (x :: pre''))) in Hr.
    destruct Hr as [Hr | Hr]; [apply Nat.eqb_neq in Eir; congruence|].
    destruct (IH (x :: pre'') eq_refl Hr) as (a & Ha & Hin).
    exists a. split; [assumption | now right].
Qed.

Lemma lookup_of_in (cl : ChunkList) (i : ChunkId) (c : Chunk) :
  NoDup (ids cl) -> In (i, c) cl -> lookup cl i = Some c.
Proof.
  induction cl as [|[j x] rest IH]; simpl; [tauto|].
  intros Hnd [H | H].
  - inversion H; subst. now rewrite Nat.eqb_refl.
  - inversion Hnd; subst.
    destruct (Nat.eqb j i) eqn:E.
    + apply Nat.eqb_eq in E. subst. exfalso. apply H2.
      change i with (fst (i, c)). now apply in_map.
    + now apply IH.
Qed.

Lemma before_acc_incl (cl : ChunkList) (p : ChunkId) :
  forall acc x, In x (before_acc cl p acc) -> In x cl \/ In x acc.
Proof.
  induction cl as [|[i c] rest IH]; intros acc x H; simpl in *; [tauto|].
  destruct (Nat.eqb i p); [now right|].
  destruct (IH _ _ H) as [H1 | [H1 | H1]]; auto.
Qed.

Lemma before_incl (cl : ChunkList) (p : ChunkPtr) (x : ChunkId * Chunk) :
  In x (before cl p) -> In x cl.
Proof.
  destruct p as [p|]; simpl; [|tauto].
  intro H. destruct (before_acc_incl cl p [] x H) as [H1 | []]. exact H1.
Qed.

Lemma first_such_cons_false (P : Chunk -> bool) (h : ChunkId) (ch : Chunk) (l : ChunkList) :
  P ch = false -> first_such P ((h, ch) :: l) = first_such P l.
Proof. intro H. unfold first_such. simpl. now rewrite H. Qed.

(** A successful [insert_vbrace_open_before] links the virtual brace in
    before the chunk, when the chunk and the nearest chunk before it that
    is neither comment nor newline are outside a preprocessor. *)
Lemma insert_vbrace_open_position (pc : ChunkPtr) (s s1 : State) (vb : ChunkId) :
  insert_vbrace_open_before pc s = Ok (Some vb) s1 ->
  NoDup (ids (chunks s)) ->
  TestFlags PCF_IN_PREPROC (chunk_at (chunks s) pc) = false ->
  TestFlags PCF_IN_PREPROC (chunk_at (chunks s) (GetPrevNcNnl (chunks s) pc)) = false ->
  In vb (ids (before (chunks s1) pc)).
Proof.
  unfold insert_vbrace_open_before, insert_vbrace. intros E Hnd Hpc Hprev.
  destruct (IsNullChunk (chunks s) (GetPrev (chunks s) pc)) eqn:Hgp; [discriminate|].
  pose proof (GetPrev_not_null _ _ Hgp) as Hpcn.
  destruct pc as [p|]; [|discriminate].
  set (cl := chunks s) in *. set (l := before cl (Some p)) in *.
  pose proof (rewind_comments_ref l cl) as Href.
  pose proof (ids_rewind_comments l cl) as Hids.
  pose proof (lookup_rewind_comments l cl) as Hlk.
  pose proof (kept_rewind_comments (TestFlags PCF_IN_PREPROC)
                (fun _ _ => eq_refl) (fun _ _ => eq_refl) l s
                (set_chunks (fst (rewind_comments l cl)) s) eq_refl) as Hk.
  destruct (rewind_comments l cl) as [cl1 ref].
  cbn [fst snd chunks set_chunks] in E, Href, Hids, Hlk, Hk.
  destruct (IsNullChunk cl1 ref) eqn:Hrn; [discriminate|].
  assert (Hrn0 : IsNullChunk cl ref = false).
  { destruct ref as [r|]; [|discriminate]. simpl in *.
    destruct (lookup cl1 r) eqn:E1; [|discriminate].
    destruct (lookup cl r) eqn:E0; [reflexivity|].
    apply Hlk in E0. congruence. }
  destruct (Hk ref Hrn0) as [_ Hflag]. cbn [chunks set_chunks] in Hflag. fold cl in Hflag.
  assert (Hgpn : ref = GetPrevNcNnl cl (Some p)) by (subst ref; reflexivity).
  rewrite <- Hgpn in Hprev. rewrite Hpc, Hflag, Hprev in E. simpl in E.
  (* the anchor lies before the chunk *)
  assert (Hanchor : forall a,
            (if IsComment (chunk_at cl (GetPrev cl (Some p))) then GetNext cl1 ref else ref)
              = Some a -> In a (ids (before cl1 (Some p)))).
  { intros a Ha.
    assert (Hb : ids (before cl1 (Some p)) = ids l)
      by (unfold l; rewrite !ids_before, Hids; reflexivity).
    rewrite Hb.
    destruct ref as [r|]; [|discriminate].
    destruct (IsComment (chunk_at cl (GetPrev cl (Some p)))) eqn:Hc.
    - (* the chunk right before is a comment: the anchor is the chunk after [ref] *)
      unfold GetPrev in Hc. fold l in Hc.
      destruct l as [|[h ch] l'] eqn:El; [discriminate|].
      simpl in Hc.
      assert (Hh : lookup cl h = Some ch).
      { apply lookup_of_in; [exact Hnd|].
        apply before_incl with (p := Some p). fold l. rewrite El. now left. }
      rewrite Hh in Hc.
      assert (Hr : In r (ids l')).
      { rewrite first_such_cons_false in Href
          by (unfold IsCommentOrNewline; rewrite Hc; reflexivity).
        eapply first_such_in. symmetry. exact Href. }
      unfold GetNext in Ha. simpl in Ha. rewrite first_id_ids, ids_after_id, Hids in Ha.
      pose proof (ids_before cl p) as Hpre. fold l in Hpre. rewrite El in Hpre.
      destruct (prefix_ids (ids cl) p) as [pre|] eqn:Ep; [|discriminate].
      simpl in Hpre.
      destruct (next_in_prefix (ids cl) p r pre Ep) as (a' & Ha' & Hin).
      + assert (Hrev : pre = rev (ids l') ++ [h]).
        { change (rev (ids l') ++ [h]) with (rev (h :: ids l')).
          rewrite Hpre. symmetry. apply rev_involutive. }
        rewrite Hrev, removelast_last. now apply -> in_rev.
      + rewrite Ha' in Ha. inversion Ha; subst a'.
        change (ids ((h, ch) :: l')) with (h :: ids l'). rewrite Hpre.
        now apply -> in_rev.
    - inversion Ha; subst a. eapply first_such_in. symmetry. exact Href. }
  match type of E with (if IsNullChunk cl1 ?r then _ else _) = _ =>
    destruct (IsNullChunk cl1 r) eqn:Han; [discriminate|];
    remember r as anchor eqn:Hanc end.
  match type of E with context [CopyAndAddAfter cl1 ?ch anchor] =>
    remember ch as chunk eqn:Hch; clear Hch end.
  unfold CopyAndAddAfter in E.
  destruct anchor as [a|]; [|discriminate].
  simpl in Han. destruct (lookup cl1 a) eqn:Hla; [|discriminate].
  simpl in E. inversion E; subst vb s1. clear E. simpl.
  apply insert_before; [apply Hanchor; now symmetry|].
  intro Hfresh.
  assert (Hl : lookup cl1 p = None) by (rewrite <- Hfresh; apply lookup_fresh_id).
  apply Hlk in Hl. unfold IsNullChunk in Hpcn. rewrite Hl in Hpcn. discriminate.
Qed.

(** C2 (as amended): with the top of the stack in stage [BRACE2] or
    [BRACE_DO], a chunk that is not an open brace and not flagged
    [PCF_IN_PREPROC] gets a virtual brace opened in front of it, unless it
    is a C# [using] statement with [indent_using_block] off, and provided
    [insert_vbrace] finds a chunk to link the new one to.  The new chunk is
    a [CT_VBRACE_OPEN] whose parent type is the type of the complex
    statement; level and brace level of the frame go up by one; the entry
    pushed is of type [CT_VBRACE_OPEN] with that parent; the chunk takes the
    new levels and both start marks and keeps its type, and the check says
    "keep processing", so that [parse_cleanup] goes on with the chunk inside
    the block.  The virtual brace lies before the chunk when the nearest
    chunk before it that is neither comment nor newline is outside a
    preprocessor. *)
Theorem virtual_brace_is_opened (env : Env) (pc : ChunkPtr) (s s1 : State) (vb : ChunkId) :
  let c := chunk_at (chunks s) pc in
  let t := top (frm s) in
  e_stage t = BRACE2 \/ e_stage t = BRACE_DO ->
  c_type c <> CT_BRACE_OPEN ->
  TestFlags PCF_IN_PREPROC c = false ->
  ~ (lang_cs env = true /\ c_type c = CT_USING_STMT /\ indent_using_block env = false) ->
  insert_vbrace_open_before pc s = Ok (Some vb) s1 ->
  exists s',
    check_complex_statements env pc s = Ok false s'
    /\ lookup (chunks s) vb = None
    /\ IsNullChunk (chunks s') (Some vb) = false
    /\ c_type (chunk_at (chunks s') (Some vb)) = CT_VBRACE_OPEN
    /\ c_parent_type (chunk_at (chunks s') (Some vb)) = e_type t
    /\ frm_level (frm s') = wrap64 (frm_level (frm s) + 1)
    /\ frm_brace_level (frm s') = wrap64 (frm_brace_level (frm s) + 1)
    /\ pse (frm s') = mkEntry CT_VBRACE_OPEN (e_type t) NONE (Some vb) :: pse (frm s)
    /\ c_level (chunk_at (chunks s') pc) = frm_level (frm s')
    /\ c_brace_level (chunk_at (chunks s') pc) = frm_brace_level (frm s')
    /\ TestFlags PCF_STMT_START (chunk_at (chunks s') pc) = true
    /\ TestFlags PCF_EXPR_START (chunk_at (chunks s') pc) = true
    /\ c_type (chunk_at (chunks s') pc) = c_type c
    /\ (NoDup (ids (chunks s)) ->
        TestFlags PCF_IN_PREPROC (chunk_at (chunks s) (GetPrevNcNnl (chunks s) pc)) = false ->
        In vb (ids (before (chunks s') pc))).
Proof.
  intros c t Hst Hb Hp Hu Hi. subst c t.
  assert (Hb' : IsNot CT_BRACE_OPEN (chunk_at (chunks s) pc) = true)
    by (unfold IsNot, Is; now apply negb_true_iff, tok_eqb_neq).
  assert (Hu' : lang_cs env && Is CT_USING_STMT (chunk_at (chunks s) pc)
                && negb (indent_using_block env) = false).
  { apply not_true_is_false. intro H. apply Hu.
    rewrite !andb_true_iff in H. destruct H as [[H1 H2] H3].
    unfold Is in H2. apply tok_eqb_eq in H2. apply negb_true_iff in H3. tauto. }
  pose proof (ccs_at_brace2 env pc (Some vb) s s1 Hst Hb' Hp Hu' Hi) as E.
  pose proof (insert_vbrace_open_position pc s s1 vb Hi) as Hpos.
  destruct (insert_vbrace_open_some pc s s1 vb Hi)
    as (Hf & _ & _ & Hpcn & Hnew & cv & Hlk & Hty & Hpt & _).
  eexists. split; [exact E|]. clear E.
  assert (Hne : Some vb <> pc).
  { intro H. subst pc. simpl in Hpcn. rewrite Hnew in Hpcn. discriminate. }
  assert (Hvbn : IsNullChunk (chunks s1) (Some vb) = false) by (simpl; now rewrite Hlk).
  assert (Hpc1 : IsNullChunk (chunks s1) pc = false).
  { destruct (keeps_insert_vbrace (fun _ : Chunk => tt) (fun _ _ => eq_refl)
                (fun _ _ => eq_refl) pc false s (Some vb) s1 Hi pc Hpcn) as [H _].
    exact H. }
  assert (Hty1 : c_type (chunk_at (chunks s1) pc) = c_type (chunk_at (chunks s) pc)).
  { destruct (keeps_insert_vbrace c_type (fun _ _ => eq_refl)
                (fun _ _ => eq_refl) pc false s (Some vb) s1 Hi pc Hpcn) as [_ H].
    exact H. }
  assert (Hcv : chunk_at (chunks s1) (Some vb) = cv) by (simpl; now rewrite Hlk).
  unfold vbrace_opened. cbn [chunks frm].
  split; [exact Hnew|].
  split; [now rewrite !IsNullChunk_update_at|].
  rewrite !(chunk_at_update_at_other _ pc (Some vb)) by (intro H; now apply Hne).
  rewrite (chunk_at_update_at_same _ (Some vb)) by assumption.
  rewrite Hcv.
  split; [exact Hty|]. split; [reflexivity|].
  rewrite Hf.
  split; [reflexivity|]. split; [reflexivity|].
  split.
  { unfold set_top, frm_push. cbn [pse set_pse set_brace_level_inc set_frm_brace_level
                                  set_frm_level set_stmt_count set_expr_count].
    rewrite (chunk_at_update_at_same _ (Some vb)) by assumption. rewrite Hcv.
    cbn. rewrite Hty. reflexivity. }
  rewrite !(chunk_at_update_at_same _ pc)
    by (rewrite ?IsNullChunk_update_at; assumption).
  rewrite (chunk_at_update_at_other _ (Some vb) pc) by assumption.
  split; [reflexivity|]. split; [reflexivity|].
  split; [apply TestFlags_SetFlagBits_lor_l; discriminate|].
  split; [apply TestFlags_SetFlagBits_lor_r; discriminate|].
  split; [exact Hty1|].
  intros Hnd Hprev.
  destruct pc as [p|]; [|discriminate].
  rewrite !ids_before, !ids_update_at. rewrite <- ids_before.
  now apply Hpos.
Qed.

(** The theorem at work on the [y] of [if ( x )], newline, comment, [y ;]:
    the virtual brace lands between the newline and the comment. *)
Lemma virtual_brace_is_opened_witness :
  exists s',
    check_complex_statements c_env (Some 6%nat) (state_after c_env 6 if_comment_stream)
      = Ok false s'
    /\ ids (chunks s') = [0; 1; 2; 3; 4; 8; 5; 6; 7]%nat
    /\ c_type (chunk_at (chunks s') (Some 8%nat)) = CT_VBRACE_OPEN
    /\ c_parent_type (chunk_at (chunks s') (Some 8%nat)) = CT_IF
    /\ frm_level (frm s') = 1
    /\ frm_brace_level (frm s') = 1
    /\ pse (frm s') = [mkEntry CT_VBRACE_OPEN CT_IF NONE (Some 8%nat);
                       mkEntry CT_IF CT_NONE BRACE2 (Some 0%nat); eof_entry]
    /\ c_level (chunk_at (chunks s') (Some 6%nat)) = 1
    /\ TestFlags PCF_STMT_START (chunk_at (chunks s') (Some 6%nat)) = true
    /\ In 8%nat (ids (before (chunks s') (Some 6%nat))).
Proof.
  pose (s0 := state_after c_env 6 if_comment_stream).
  pose (s1 := outcome_state (initial_state [])
                (insert_vbrace_open_before (Some 6%nat) s0)).
  assert (H1 : e_stage (top (frm s0)) = BRACE2) by (vm_compute; reflexivity).
  assert (H2 : c_type (chunk_at (chunks s0) (Some 6%nat)) <> CT_BRACE_OPEN)
    by (vm_compute; discriminate).
  assert (H3 : TestFlags PCF_IN_PREPROC (chunk_at (chunks s0) (Some 6%nat)) = false)
    by (vm_compute; reflexivity).
  assert (H4 : ~ (lang_cs c_env = true
                  /\ c_type (chunk_at (chunks s0) (Some 6%nat)) = CT_USING_STMT
                  /\ indent_using_block c_env = false))
    by (intros (H & _); vm_compute in H; discriminate).
  assert (H5 : insert_vbrace_open_before (Some 6%nat) s0 = Ok (Some 8%nat) s1)
    by (vm_compute; reflexivity).
  destruct (virtual_brace_is_opened c_env (Some 6%nat) s0 s1 8%nat (or_introl H1) H2 H3 H4 H5)
    as (s' & E & _ & _ & T1 & T2 & T3 & T4 & T5 & T6 & _ & T7 & _ & _ & T8).
  exists s'. split; [exact E|].
  assert (Hnd : NoDup (ids (chunks s0)))
    by (vm_compute; repeat constructor; simpl; intuition discriminate).
  assert (Hpre : TestFlags PCF_IN_PREPROC
                   (chunk_at (chunks s0) (GetPrevNcNnl (chunks s0) (Some 6%nat))) = false)
    by (vm_compute; reflexivity).
  specialize (T8 Hnd Hpre).
  assert (Es : check_complex_statements c_env (Some 6%nat) s0 = Ok false s') by exact E.
  vm_compute in Es. inversion Es as [Hs']. clear Es E.
  split; [vm_compute; reflexivity|].
  split; [rewrite Hs'; exact T1|]. split; [rewrite Hs'; exact T2|].
  split; [vm_compute; reflexivity|]. split; [vm_compute; reflexivity|].
  split; [rewrite Hs'; exact T5|]. split; [vm_compute; reflexivity|].
  split; [rewrite Hs'; exact T7|].
  rewrite Hs'. exact T8.
Defined.

(** C2 as stated fails: in C# with [indent_using_block] off, a [using]
    statement that follows the paren of another [using] meets the stage
    [BRACE2], is no open brace and is outside a preprocessor, and no virtual
    brace is opened for it: stack, levels and chunks stay as they are. *)
Lemma stacked_using_gets_no_virtual_brace :
  let s := state_after cs_env 4 using_stream in
  let c := chunk_at (chunks s) (Some 4%nat) in
  e_stage (top (frm s)) = BRACE2
  /\ c_type c = CT_USING_STMT
  /\ TestFlags PCF_IN_PREPROC c = false
  /\ check_complex_statements cs_env (Some 4%nat) s = Ok false s
  /\ (exists s', parse_cleanup cs_env (Some 4%nat) s = Ok tt s'
                 /\ chunks s' = chunks s
                 /\ frm_brace_level (frm s') = frm_brace_level (frm s)
                 /\ map e_type (pse (frm s')) = [CT_USING_STMT; CT_USING_STMT; CT_EOF]).
Proof.
  cbv zeta.
  split; [vm_compute; reflexivity|].
  split; [vm_compute; reflexivity|].
  split; [vm_compute; reflexivity|].
  split; [vm_compute; reflexivity|].
  eexists. split; [vm_compute; reflexivity|].
  split; [vm_compute; reflexivity|]. split; vm_compute; reflexivity.
Qed.

(* ================================================================== *)
(** ** What a call leaves behind, however it ends *)

(** How a call ends when it does not return. *)
Inductive Abort : Type :=
| A_exit (status : Z)
| A_throw (e : Exn).

(** [ends Rok Rab m]: the state [m] returns with is related by [Rok] to the
    state at the call, and the state it exits or throws with by [Rab]. *)
Definition ends {B : Type} (Rok : State -> State -> Prop)
           (Rab : State -> Abort -> State -> Prop) (m : M B) : Prop :=
  forall s,
    match m s with
    | Ok _ s' => Rok s s'
    | Exit st s' => Rab s (A_exit st) s'
    | Throw e s' => Rab s (A_throw e) s'
    | OutOfFuel => True
    end.

(** The same relation for every way to end. *)
Definition always {B : Type} (R : State -> State -> Prop) (m : M B) : Prop :=
  ends R (fun s _ s' => R s s') m.

(** Relations that follow the sequencing of the monad. *)
Class Flow (Rok : State -> State -> Prop) (Rab : State -> Abort -> State -> Prop) : Prop := {
  flow_refl  : forall s, Rok s s;
  flow_trans : forall s1 s2 s3, Rok s1 s2 -> Rok s2 s3 -> Rok s1 s3;
  flow_abort : forall s1 s2 a s3, Rok s1 s2 -> Rab s2 a s3 -> Rab s1 a s3
}.

Section Ends.

Context {Rok : State -> State -> Prop} {Rab : State -> Abort -> State -> Prop}.
Context {F : Flow Rok Rab}.

Lemma ends_ret {B : Type} (b : B) : ends Rok Rab (ret b).
Proof. intro s. apply flow_refl. Qed.

Lemma ends_gets {B : Type} (f : State -> B) : ends Rok Rab (gets f).
Proof. intro s. apply flow_refl. Qed.

Lemma ends_out_of_fuel {B : Type} : ends Rok Rab (@out_of_fuel B).
Proof. intro s. exact I. Qed.

Lemma ends_bind {B C : Type} (m : M B) (k : B -> M C) :
  ends Rok Rab m -> (forall b, ends Rok Rab (k b)) -> ends Rok Rab (bind m k).
Proof.
  intros Hm Hk s. unfold bind. specialize (Hm s).
  destruct (m s) as [b s1| | |]; try assumption.
  specialize (Hk b s1).
  destruct (k b s1); try exact I.
  - eapply flow_trans; eassumption.
  - eapply flow_abort; eassumption.
  - eapply flow_abort; eassumption.
Qed.

Lemma ends_modify (f : State -> State) :
  (forall s, Rok s (f s)) -> ends Rok Rab (modify f).
Proof. intros H s. apply H. Qed.

Lemma ends_when (b : bool) (m : M unit) : ends Rok Rab m -> ends Rok Rab (when b m).
Proof. intro H. destruct b; [exact H | apply ends_ret]. Qed.

End Ends.

(** The walk over the structure of a function; [leaf] closes what is left
    at the calls and the assignments. *)
Ltac ends_structure :=
  lazymatch goal with
  | |- ends _ _ (bind _ _) => apply ends_bind; [| intro]
  | |- ends _ _ (ret _) => apply ends_ret
  | |- ends _ _ (gets _) => apply ends_gets
  | |- ends _ _ the_top => apply ends_gets
  | |- ends _ _ (the_chunk _) => apply ends_gets
  | |- ends _ _ is_consumed => apply ends_gets
  | |- ends _ _ loop_fuel => apply ends_gets
  | |- ends _ _ out_of_fuel => apply ends_out_of_fuel
  | |- ends _ _ (when _ _) => apply ends_when
  | |- ends _ _ (or_continue _ _) => unfold or_continue
  | |- ends _ _ (if ?c then _ else _) => destruct c
  | |- ends _ _ (match ?x with _ => _ end) => destruct x
  | |- always _ _ => unfold always
  end.

Ltac ends_step leaf := first [ leaf | ends_structure ].

Ltac ends_walk leaf := repeat (ends_step leaf).

Lemma ends_exit {B : Type} (Rok : State -> State -> Prop)
      (Rab : State -> Abort -> State -> Prop) (st : Z) :
  (forall s, Rab s (A_exit st) s) -> ends Rok Rab (@exit_with B st).
Proof. intros H s. apply H. Qed.

Lemma ends_throw {B : Type} (Rok : State -> State -> Prop)
      (Rab : State -> Abort -> State -> Prop) (e : Exn) :
  (forall s, Rab s (A_throw e) s) -> ends Rok Rab (@throw B e).
Proof. intros H s. apply H. Qed.

(** A relation that is reflexive and transitive follows the sequencing. *)
Lemma always_flow (R : State -> State -> Prop) :
  (forall s, R s s) -> (forall s1 s2 s3, R s1 s2 -> R s2 s3 -> R s1 s3) ->
  Flow R (fun s _ s' => R s s').
Proof. intros Hr Ht. constructor; eauto. Qed.

(** [insert_vbrace] always returns, and only the chunks differ. *)
Lemma ends_insert_vbrace (Rok : State -> State -> Prop)
      (Rab : State -> Abort -> State -> Prop) (pc : ChunkPtr) (b : bool) :
  (forall s p cl, insert_vbrace pc b s = Ok p (set_chunks cl s) -> Rok s (set_chunks cl s)) ->
  ends Rok Rab (insert_vbrace pc b).
Proof.
  intros H s. destruct (insert_vbrace_frm pc b s) as (p & cl & E).
  rewrite E. eapply H. exact E.
Qed.

(* ================================================================== *)
(** ** Closing a statement never pushes *)

(** The stack of [s'] is no higher than that of [s], and what lies under
    its top lay, in the same order, under the top of [s]. *)
Definition shrinks (s s' : State) : Prop :=
  (frm_size (frm s') <= frm_size (frm s))%nat
  /\ exists k, tl (pse (frm s')) = skipn k (tl (pse (frm s))).

Lemma shrinks_refl (s : State) : shrinks s s.
Proof. split; [lia | now exists O]. Qed.

Lemma shrinks_trans (s1 s2 s3 : State) : shrinks s1 s2 -> shrinks s2 s3 -> shrinks s1 s3.
Proof.
  intros [L1 [k1 E1]] [L2 [k2 E2]]. split; [lia|].
  exists (k2 + k1)%nat. now rewrite E2, E1, skipn_skipn.
Qed.

#[local] Instance shrinks_flow : Flow shrinks (fun s _ s' => shrinks s s').
Proof. apply always_flow; [exact shrinks_refl | exact shrinks_trans]. Qed.

Lemma shrinks_same (s s' : State) : pse (frm s') = pse (frm s) -> shrinks s s'.
Proof.
  intro E. unfold shrinks, frm_size. rewrite E. split; [lia | now exists O].
Qed.

Lemma shrinks_set_top (g : paren_stack_entry_t -> paren_stack_entry_t) (s : State) :
  shrinks s (set_frm (set_top g (frm s)) s).
Proof.
  unfold shrinks, frm_size, set_top.
  destruct (pse (frm s)) eqn:E; simpl; rewrite ?E; (split; [apply Nat.le_refl | now exists O]).
Qed.

Lemma shrinks_pop (s : State) : shrinks s (set_frm (frm_pop (frm s)) s).
Proof.
  unfold shrinks, frm_size, frm_pop.
  destruct (pse (frm s)) as [|e l] eqn:E; simpl; rewrite ?E; simpl;
    [split; [lia | now exists O]|].
  split; [lia|]. exists 1%nat. now destruct l.
Qed.

Ltac shrink_leaf := idtac;
  lazymatch goal with
  | |- ends _ _ (upd_chunk _ _) => apply ends_modify; intro; apply shrinks_same; reflexivity
  | |- ends _ _ (log_warn _) => apply ends_modify; intro; apply shrinks_same; reflexivity
  | |- ends _ _ (set_consumed _) => apply ends_modify; intro; apply shrinks_same; reflexivity
  | |- ends _ _ (upd_top _) => apply ends_modify; intro; apply shrinks_set_top
  | |- ends _ _ pop => apply ends_modify; intro; apply shrinks_pop
  | |- ends _ _ (upd_frm _) => apply ends_modify; intro; apply shrinks_same; reflexivity
  | |- ends _ _ (exit_with _) => apply ends_exit; intro; apply shrinks_refl
  | |- ends _ _ (throw _) => apply ends_throw; intro; apply shrinks_refl
  | |- ends _ _ (insert_vbrace_close_after _) =>
      apply ends_insert_vbrace; intros; apply shrinks_same; reflexivity
  | |- ends _ _ (insert_vbrace _ _) =>
      apply ends_insert_vbrace; intros; apply shrinks_same; reflexivity
  end.

Lemma shrinks_handle_complex_close_body (cs : ChunkPtr -> M bool) (pc : ChunkPtr) :
  (forall p, always shrinks (cs p)) -> always shrinks (handle_complex_close_body cs pc).
Proof.
  intro Hcs. unfold handle_complex_close_body.
  ends_walk shrink_leaf; apply Hcs.
Qed.

Lemma shrinks_close_statement_body (cs : ChunkPtr -> M bool) (pc : ChunkPtr) :
  (forall p, always shrinks (cs p)) -> always shrinks (close_statement_body cs pc).
Proof.
  intro Hcs. unfold close_statement_body. cbv zeta.
  ends_walk shrink_leaf;
    first [apply Hcs | now apply shrinks_handle_complex_close_body].
Qed.

Lemma shrinks_close_statement_fuel (fuel : nat) :
  forall pc, always shrinks (close_statement_fuel fuel pc).
Proof.
  induction fuel as [|n IH]; intro pc; simpl.
  - intro s. exact I.
  - now apply shrinks_close_statement_body.
Qed.

Lemma shrinks_close_statement (pc : ChunkPtr) : always shrinks (close_statement pc).
Proof.
  intro s. unfold close_statement. apply shrinks_close_statement_fuel.
Qed.

Lemma shrinks_handle_complex_close (pc : ChunkPtr) : always shrinks (handle_complex_close pc).
Proof. apply shrinks_handle_complex_close_body. exact shrinks_close_statement. Qed.

(* ================================================================== *)
(** ** The loops of the complex-statement check come to an end *)

(** [m] never stops for lack of fuel. *)
Definition total {B : Type} (m : M B) : Prop := forall s, m s <> OutOfFuel.

Lemma total_bind {B C : Type} (m : M B) (k : B -> M C) :
  total m -> (forall b, total (k b)) -> total (bind m k).
Proof.
  intros Hm Hk s. unfold bind. specialize (Hm s).
  destruct (m s); try discriminate; [apply Hk | contradiction].
Qed.

Lemma total_ret {B : Type} (b : B) : total (ret b).
Proof. intro s. discriminate. Qed.

Lemma total_gets {B : Type} (f : State -> B) : total (gets f).
Proof. intro s. discriminate. Qed.

Lemma total_modify (f : State -> State) : total (modify f).
Proof. intro s. discriminate. Qed.

Lemma total_exit {B : Type} (st : Z) : total (@exit_with B st).
Proof. intro s. discriminate. Qed.

Lemma total_throw {B : Type} (e : Exn) : total (@throw B e).
Proof. intro s. discriminate. Qed.

Lemma total_when (b : bool) (m : M unit) : total m -> total (when b m).
Proof. intro H. destruct b; [exact H | apply total_ret]. Qed.

Lemma total_insert_vbrace (pc : ChunkPtr) (b : bool) : total (insert_vbrace pc b).
Proof.
  intro s. destruct (insert_vbrace_frm pc b s) as (p & cl & E). rewrite E. discriminate.
Qed.

Lemma total_close_statement (pc : ChunkPtr) : total (close_statement pc).
Proof. intro s. apply close_statement_total. Qed.

Lemma total_handle_complex_close (pc : ChunkPtr) : total (handle_complex_close pc).
Proof.
  intro s. unfold handle_complex_close.
  apply (handle_complex_close_body_total close_statement (frm_size (frm s)));
    [intros; apply close_statement_total | apply Nat.le_refl].
Qed.

Ltac total_step :=
  lazymatch goal with
  | |- total (bind _ _) => apply total_bind; [| intro]
  | |- total (ret _) => apply total_ret
  | |- total (gets _) => apply total_gets
  | |- total the_top => apply total_gets
  | |- total (the_chunk _) => apply total_gets
  | |- total is_consumed => apply total_gets
  | |- total loop_fuel => apply total_gets
  | |- total (modify _) => apply total_modify
  | |- total (upd_chunk _ _) => apply total_modify
  | |- total (upd_frm _) => apply total_modify
  | |- total (upd_top _) => apply total_modify
  | |- total pop => apply total_modify
  | |- total (push _ _) => apply total_modify
  | |- total (log_warn _) => apply total_modify
  | |- total (set_consumed _) => apply total_modify
  | |- total (set_in_preproc _) => apply total_modify
  | |- total (set_frames _) => apply total_modify
  | |- total (exit_with _) => apply total_exit
  | |- total (throw _) => apply total_throw
  | |- total (when _ _) => apply total_when
  | |- total (insert_vbrace _ _) => apply total_insert_vbrace
  | |- total (insert_vbrace_open_before _) => apply total_insert_vbrace
  | |- total (insert_vbrace_close_after _) => apply total_insert_vbrace
  | |- total (close_statement _) => apply total_close_statement
  | |- total (handle_complex_close _) => apply total_handle_complex_close
  | |- total (or_continue _ _) => unfold or_continue
  | |- total (if ?c then _ else _) => destruct c
  | |- total (match ?x with _ => _ end) => destruct x
  end.

Ltac total_walk := repeat total_step.

(** A turn of the loop pops an entry, and closing the statement pushes
    none: fuel above the stack height is never used up. *)
Lemma ccs_else_loop_total (n : nat) :
  forall pc s, (frm_size (frm s) < n)%nat -> ccs_else_loop n pc s <> OutOfFuel.
Proof.
  induction n as [|n IH]; intros pc s Hn; [lia|].
  simpl. unfold bind at 1, the_top, gets.
  destruct (stage_eqb (e_stage (top (frm s))) ELSE) eqn:Est; [|discriminate].
  unfold bind at 1, the_chunk, gets.
  destruct (Is CT_ELSE (chunk_at (chunks s) pc)); [discriminate|].
  unfold bind at 1, pop, upd_frm, modify.
  assert (Hne : pse (frm s) <> []).
  { apply top_stage_nonempty. apply stage_eqb_eq in Est. rewrite Est. discriminate. }
  pose proof (frm_size_pop (frm s) Hne) as Hsz.
  set (s1 := set_frm (frm_pop (frm s)) s).
  unfold bind at 1.
  pose proof (shrinks_close_statement pc s1) as Hsh.
  pose proof (close_statement_total pc s1) as Htot.
  destruct (close_statement pc s1) as [b s2| | |]; try discriminate; [|contradiction].
  destruct b; [discriminate|].
  apply IH. destruct Hsh as [Hle _]. subst s1. simpl in Hle. lia.
Qed.

Lemma ccs_catch_loop_total (env : Env) (n : nat) :
  forall pc s, (frm_size (frm s) < n)%nat -> ccs_catch_loop env n pc s <> OutOfFuel.
Proof.
  induction n as [|n IH]; intros pc s Hn; [lia|].
  simpl. unfold bind at 1, the_top, gets.
  destruct (stage_eqb (e_stage (top (frm s))) CATCH) eqn:Est; [|discriminate].
  unfold bind at 1, the_chunk, gets.
  destruct (Is CT_CATCH (chunk_at (chunks s) pc) || Is CT_FINALLY (chunk_at (chunks s) pc));
    [discriminate|].
  unfold bind at 1, pop, upd_frm, modify.
  assert (Hne : pse (frm s) <> []).
  { apply top_stage_nonempty. apply stage_eqb_eq in Est. rewrite Est. discriminate. }
  pose proof (frm_size_pop (frm s) Hne) as Hsz.
  set (s1 := set_frm (frm_pop (frm s)) s).
  unfold bind at 1.
  pose proof (shrinks_close_statement pc s1) as Hsh.
  pose proof (close_statement_total pc s1) as Htot.
  destruct (close_statement pc s1) as [b s2| | |]; try discriminate; [|contradiction].
  destruct b; [discriminate|].
  apply IH. destruct Hsh as [Hle _]. subst s1. simpl in Hle. lia.
Qed.

Lemma total_else_loop (pc : ChunkPtr) {C : Type} (K : option bool -> M C) :
  (forall r, total (K r)) -> total (n <- loop_fuel ;; bind (ccs_else_loop n pc) K).
Proof.
  intros HK s. unfold bind at 1, loop_fuel, gets. unfold bind.
  pose proof (ccs_else_loop_total (S (frm_size (frm s))) pc s (Nat.lt_succ_diag_r _)) as H.
  destruct (ccs_else_loop _ pc s); try discriminate; [apply HK | contradiction].
Qed.

Lemma total_catch_loop (env : Env) (pc : ChunkPtr) {C : Type} (K : option bool -> M C) :
  (forall r, total (K r)) -> total (n <- loop_fuel ;; bind (ccs_catch_loop env n pc) K).
Proof.
  intros HK s. unfold bind at 1, loop_fuel, gets. unfold bind.
  pose proof (ccs_catch_loop_total env (S (frm_size (frm s))) pc s (Nat.lt_succ_diag_r _)) as H.
  destruct (ccs_catch_loop _ _ pc s); try discriminate; [apply HK | contradiction].
Qed.

Lemma total_check_complex_statements (env : Env) (pc : ChunkPtr) :
  total (check_complex_statements env pc).
Proof.
  unfold check_complex_statements.
  apply total_bind; [unfold ccs_op_paren1; total_walk | intros _].
  unfold or_continue at 1. apply total_else_loop. intros [b|]; [apply total_ret|].
  unfold or_continue at 1. apply total_bind; [unfold ccs_elseif; total_walk|].
  intros [b|]; [apply total_ret|].
  unfold or_continue at 1. apply total_catch_loop. intros [b|]; [apply total_ret|].
  unfold ccs_catch_when, ccs_while, ccs_vbrace, ccs_constexpr, ccs_verify_paren.
  total_walk.
Qed.

Lemma total_set_parent_from_stack (pc : ChunkPtr) : total (set_parent_from_stack pc).
Proof. unfold set_parent_from_stack. total_walk. Qed.

Lemma total_parse_cleanup (env : Env) (pc : ChunkPtr) : total (parse_cleanup env pc).
Proof.
  unfold parse_cleanup, parse_cleanup_rest, pc_mark_start, pc_mark_sparen,
         pc_vbrace_close, pc_close, pc_wod_semi, pc_parent, pc_open, pc_switch,
         pc_push_complex, pc_reset_counts.
  total_walk;
    first [apply total_check_complex_statements | apply total_set_parent_from_stack].
Qed.

Lemma total_mark_namespace_loop (env : Env) (l : list ChunkId) :
  forall is_using, total (mark_namespace_loop env l is_using).
Proof.
  induction l as [|i rest IH]; intro is_using; simpl; [apply total_ret|].
  total_walk. apply IH.
Qed.

Lemma total_preproc_start (env : Env) (pc : ChunkPtr) : total (preproc_start env pc).
Proof.
  unfold preproc_start. total_walk. intro s. discriminate.
Qed.

Lemma total_brace_cleanup_step (env : Env) (pc : ChunkPtr) :
  total (brace_cleanup_step env pc).
Proof.
  unfold brace_cleanup_step, leave_preproc, mark_namespace.
  total_walk;
    first [ apply total_preproc_start | apply total_parse_cleanup
          | apply total_mark_namespace_loop | intro s; discriminate ].
Qed.

(** [close_statement] and [handle_complex_close] pop and rewrite the top of
    the stack and never push: however they end, the stack is no higher
    than it was, and the entries under the top lay under the top before,
    in the same order. *)
Theorem close_statement_never_pushes (pc : ChunkPtr) (s : State) :
  let never_pushes (o : Outcome bool) :=
    match o with
    | Ok _ s' | Exit _ s' | Throw _ s' =>
        (frm_size (frm s') <= frm_size (frm s))%nat
        /\ exists k, tl (pse (frm s')) = skipn k (tl (pse (frm s)))
    | OutOfFuel => False
    end in
  never_pushes (close_statement pc s) /\ never_pushes (handle_complex_close pc s).
Proof.
  cbv zeta. split.
  - pose proof (shrinks_close_statement pc s) as H.
    pose proof (close_statement_total pc s) as T.
    destruct (close_statement pc s); try exact H. now elim T.
  - pose proof (shrinks_handle_complex_close pc s) as H.
    pose proof (total_handle_complex_close pc s) as T.
    destruct (handle_complex_close pc s); try exact H. now elim T.
Qed.

(** The two [while] loops of [check_complex_statements] come to an end:
    each turn pops an entry and closing the statement pushes none, so a
    loop that starts on a stack of [n] entries makes at most [n] turns.
    With them [parse_cleanup] and a turn of the loop of [brace_cleanup]
    always come to an end. *)
Theorem complex_statement_loops_terminate (env : Env) (pc : ChunkPtr) (s : State) :
  (forall n, (frm_size (frm s) < n)%nat ->
             ccs_else_loop n pc s <> OutOfFuel /\ ccs_catch_loop env n pc s <> OutOfFuel)
  /\ check_complex_statements env pc s <> OutOfFuel
  /\ parse_cleanup env pc s <> OutOfFuel
  /\ brace_cleanup_step env pc s <> OutOfFuel.
Proof.
  split; [intros n Hn; split;
          [now apply ccs_else_loop_total | now apply ccs_catch_loop_total]|].
  split; [apply total_check_complex_statements|].
  split; [apply total_parse_cleanup | apply total_brace_cleanup_step].
Qed.

(** The bound at work: on [if ( a ) if ( b ) c ;] the stack holds five
    entries when the semicolon comes, and six units of fuel are enough. *)
Lemma complex_statement_loops_terminate_witness :
  frm_size (frm (state_after c_env 9 nested_if_stream)) = 5%nat
  /\ ccs_else_loop 6 (Some 9%nat) (state_after c_env 9 nested_if_stream) <> OutOfFuel
  /\ ccs_catch_loop c_env 6 (Some 9%nat) (state_after c_env 9 nested_if_stream) <> OutOfFuel.
Proof.
  split; [vm_compute; reflexivity|].
  apply (complex_statement_loops_terminate c_env (Some 9%nat)
           (state_after c_env 9 nested_if_stream)).
  vm_compute. lia.
Defined.

(* ================================================================== *)
(** ** What of a chunk the pass never touches *)

(** Text, position, preprocessor level and the preprocessor flag of a
    chunk: what the tokenizer knew of it. *)
Definition identity_of (c : Chunk) : string * Z * Z * Z * Z * bool :=
  (c_str c, c_orig_line c, c_orig_col c, c_column c, c_pp_level c,
   TestFlags PCF_IN_PREPROC c).

#[local] Instance kept_flow {A : Type} (g : Chunk -> A) :
  Flow (kept g) (fun s _ s' => kept g s s').
Proof. apply always_flow; [apply kept_refl | apply kept_trans]. Qed.

Lemma kept_upd_chunk {A : Type} (g : Chunk -> A) (p : ChunkPtr) (f : Chunk -> Chunk) :
  (forall c, g (f c) = g c) ->
  forall s, kept g s (set_chunks (update_at (chunks s) p f) s).
Proof. intros H s. eapply kept_update; [exact H | reflexivity]. Qed.

Ltac identity_side :=
  intros; unfold identity_of;
  first
    [ reflexivity
    | f_equal; first
        [ apply TestFlags_SetFlagBits_other; reflexivity
        | apply TestFlags_ResetFlagBits_other; reflexivity
        | apply TestFlags_SetFlagBits_other;
          match goal with |- context [if ?b then _ else _] => destruct b end;
          reflexivity ]
    | unfold SetType_succ;
      match goal with |- context [match ?x with _ => _ end] => destruct x end;
      reflexivity ].

(** The assignments and calls of the pass, for a relation that holds across
    every change that leaves the chunks alone. *)
Ltac kept_leaf side :=
  idtac;
  lazymatch goal with
  | |- ends _ _ (upd_chunk _ _) =>
      apply ends_modify; intro; apply kept_upd_chunk; side
  | |- ends _ _ (log_warn _) => apply ends_modify; intro; apply kept_same_chunks; reflexivity
  | |- ends _ _ (set_consumed _) => apply ends_modify; intro; apply kept_same_chunks; reflexivity
  | |- ends _ _ (upd_top _) => apply ends_modify; intro; apply kept_same_chunks; reflexivity
  | |- ends _ _ (upd_frm _) => apply ends_modify; intro; apply kept_same_chunks; reflexivity
  | |- ends _ _ pop => apply ends_modify; intro; apply kept_same_chunks; reflexivity
  | |- ends _ _ (push _ _) => apply ends_modify; intro; apply kept_same_chunks; reflexivity
  | |- ends _ _ (insert_vbrace _ _) =>
      apply ends_insert_vbrace; intros ? ? ? E;
      refine (keeps_insert_vbrace _ _ _ _ _ _ _ _ E); side
  | |- ends _ _ (insert_vbrace_close_after _) =>
      apply ends_insert_vbrace; intros ? ? ? E;
      refine (keeps_insert_vbrace _ _ _ _ _ _ _ _ E); side
  | |- ends _ _ (insert_vbrace_open_before _) =>
      apply ends_insert_vbrace; intros ? ? ? E;
      refine (keeps_insert_vbrace _ _ _ _ _ _ _ _ E); side
  end.

Ltac identity_leaf :=
  idtac;
  first
    [ kept_leaf identity_side
    | lazymatch goal with
      | |- ends _ _ (exit_with _) => apply ends_exit; intro; apply kept_refl
      | |- ends _ _ (throw _) => apply ends_throw; intro; apply kept_refl
      end ].

Lemma identity_handle_complex_close_body (cs : ChunkPtr -> M bool) (pc : ChunkPtr) :
  (forall p, always (kept identity_of) (cs p)) ->
  always (kept identity_of) (handle_complex_close_body cs pc).
Proof.
  intro Hcs. unfold handle_complex_close_body.
  ends_walk identity_leaf; apply Hcs.
Qed.

Lemma identity_close_statement_body (cs : ChunkPtr -> M bool) (pc : ChunkPtr) :
  (forall p, always (kept identity_of) (cs p)) ->
  always (kept identity_of) (close_statement_body cs pc).
Proof.
  intro Hcs. unfold close_statement_body. cbv zeta.
  ends_walk identity_leaf;
    first [apply Hcs | now apply identity_handle_complex_close_body].
Qed.

Lemma identity_close_statement_fuel (fuel : nat) :
  forall pc, always (kept identity_of) (close_statement_fuel fuel pc).
Proof.
  induction fuel as [|n IH]; intro pc; simpl.
  - intro s. exact I.
  - now apply identity_close_statement_body.
Qed.

Lemma identity_close_statement (pc : ChunkPtr) :
  always (kept identity_of) (close_statement pc).
Proof. intro s. unfold close_statement. apply identity_close_statement_fuel. Qed.

Lemma identity_handle_complex_close (pc : ChunkPtr) :
  always (kept identity_of) (handle_complex_close pc).
Proof. apply identity_handle_complex_close_body. exact identity_close_statement. Qed.

Lemma identity_ccs_else_loop (fuel : nat) (pc : ChunkPtr) :
  always (kept identity_of) (ccs_else_loop fuel pc).
Proof.
  induction fuel as [|n IH]; simpl; [intro s; exact I|].
  ends_walk identity_leaf; first [apply identity_close_statement | exact IH].
Qed.

Lemma identity_ccs_catch_loop (env : Env) (fuel : nat) (pc : ChunkPtr) :
  always (kept identity_of) (ccs_catch_loop env fuel pc).
Proof.
  induction fuel as [|n IH]; simpl; [intro s; exact I|].
  ends_walk identity_leaf; first [apply identity_close_statement | exact IH].
Qed.

Lemma identity_check_complex_statements (env : Env) (pc : ChunkPtr) :
  always (kept identity_of) (check_complex_statements env pc).
Proof.
  unfold check_complex_statements, ccs_op_paren1, ccs_elseif, ccs_catch_when,
         ccs_while, ccs_vbrace, ccs_constexpr, ccs_verify_paren.
  ends_walk identity_leaf;
    first [apply identity_ccs_else_loop | apply identity_ccs_catch_loop].
Qed.

Lemma identity_set_parent_from_stack (pc : ChunkPtr) :
  always (kept identity_of) (set_parent_from_stack pc).
Proof. unfold set_parent_from_stack. ends_walk identity_leaf. Qed.

Lemma identity_parse_cleanup (env : Env) (pc : ChunkPtr) :
  lang_pawn env = false ->
  always (kept identity_of) (parse_cleanup env pc).
Proof.
  intro Hpawn.
  unfold parse_cleanup, parse_cleanup_rest, pc_mark_start, pc_mark_sparen,
         pc_vbrace_close, pc_close, pc_wod_semi, pc_parent, pc_open, pc_switch,
         pc_push_complex, pc_reset_counts.
  rewrite Hpawn.
  ends_walk identity_leaf;
    first [ apply identity_check_complex_statements
          | apply identity_set_parent_from_stack
          | apply identity_close_statement
          | apply identity_handle_complex_close ].
Qed.

Lemma kept_identity_fields (s s' : State) (q : ChunkPtr) :
  kept identity_of s s' ->
  IsNullChunk (chunks s) q = false ->
  let c := chunk_at (chunks s) q in
  let c' := chunk_at (chunks s') q in
  IsNullChunk (chunks s') q = false
  /\ c_str c' = c_str c
  /\ c_orig_line c' = c_orig_line c
  /\ c_orig_col c' = c_orig_col c
  /\ c_column c' = c_column c
  /\ c_pp_level c' = c_pp_level c
  /\ TestFlags PCF_IN_PREPROC c' = TestFlags PCF_IN_PREPROC c.
Proof.
  intros K Hq. destruct (K q Hq) as [Hn E]. unfold identity_of in E.
  inversion E. cbv zeta. repeat split; assumption.
Qed.

(** Whatever [parse_cleanup] does with a chunk and however it ends (Pawn
    apart, where a pass of another file adds virtual semicolons), every
    chunk of the list is still in the list, with the text, the original
    line and column, the column, the preprocessor level and the
    preprocessor flag it had. *)
Theorem parse_cleanup_keeps_identity (env : Env) (pc : ChunkPtr) (s : State) :
  lang_pawn env = false ->
  match parse_cleanup env pc s with
  | Ok _ s' | Exit _ s' | Throw _ s' =>
      forall q, IsNullChunk (chunks s) q = false ->
        let c := chunk_at (chunks s) q in
        let c' := chunk_at (chunks s') q in
        IsNullChunk (chunks s') q = false
        /\ c_str c' = c_str c
        /\ c_orig_line c' = c_orig_line c
        /\ c_orig_col c' = c_orig_col c
        /\ c_column c' = c_column c
        /\ c_pp_level c' = c_pp_level c
        /\ TestFlags PCF_IN_PREPROC c' = TestFlags PCF_IN_PREPROC c
  | OutOfFuel => False
  end.
Proof.
  intro Hpawn.
  pose proof (identity_parse_cleanup env pc Hpawn s) as H.
  pose proof (total_parse_cleanup env pc s) as T.
  destruct (parse_cleanup env pc s);
    try (intros q Hq; now apply kept_identity_fields).
  now elim T.
Qed.

(** The theorem at work on the [y] of [if ( x )], newline, comment, [y ;]. *)
Lemma parse_cleanup_keeps_identity_witness :
  lang_pawn c_env = false
  /\ match parse_cleanup c_env (Some 6%nat) (state_after c_env 6 if_comment_stream) with
     | Ok _ s' | Exit _ s' | Throw _ s' =>
         forall q, IsNullChunk (chunks (state_after c_env 6 if_comment_stream)) q = false ->
           let c := chunk_at (chunks (state_after c_env 6 if_comment_stream)) q in
           let c' := chunk_at (chunks s') q in
           IsNullChunk (chunks s') q = false
           /\ c_str c' = c_str c
           /\ c_orig_line c' = c_orig_line c
           /\ c_orig_col c' = c_orig_col c
           /\ c_column c' = c_column c
           /\ c_pp_level c' = c_pp_level c
           /\ TestFlags PCF_IN_PREPROC c' = TestFlags PCF_IN_PREPROC c
     | OutOfFuel => False
     end.
Proof.
  split; [reflexivity|].
  apply (parse_cleanup_keeps_identity c_env (Some 6%nat)
           (state_after c_env 6 if_comment_stream)).
  reflexivity.
Defined.

(* ================================================================== *)
(** ** [close_statement] and the null chunk *)

(** A call that does not return has left through [exit], provided the chunk
    [pc] was in the list. *)
Definition exits_only (pc : ChunkPtr) (s : State) (a : Abort) (s' : State) : Prop :=
  IsNullChunk (chunks s) pc = false -> exists st, a = A_exit st.

#[local] Instance exits_only_flow (pc : ChunkPtr) :
  Flow (kept identity_of) (exits_only pc).
Proof.
  constructor.
  - apply kept_refl.
  - apply kept_trans.
  - intros s1 s2 a s3 K H Hn. apply H. now apply K.
Qed.

Ltac exits_leaf :=
  idtac;
  first
    [ kept_leaf identity_side
    | lazymatch goal with
      | |- ends _ _ (exit_with _) => apply ends_exit; intros ? _; eexists; reflexivity
      end ].

Lemma exits_only_handle_complex_close_body (cs : ChunkPtr -> M bool) (pc : ChunkPtr) :
  ends (kept identity_of) (exits_only pc) (cs pc) ->
  ends (kept identity_of) (exits_only pc) (handle_complex_close_body cs pc).
Proof.
  intro Hcs. unfold handle_complex_close_body.
  ends_walk exits_leaf; exact Hcs.
Qed.

Lemma exits_only_close_statement_body (cs : ChunkPtr -> M bool) (pc : ChunkPtr) :
  ends (kept identity_of) (exits_only pc) (cs pc) ->
  ends (kept identity_of) (exits_only pc) (close_statement_body cs pc).
Proof.
  intros Hcs s. unfold close_statement_body. cbv zeta.
  unfold bind at 1, gets at 1.
  destruct (IsNullChunk (chunks s) pc) eqn:En.
  - intro H. congruence.
  - revert s En.
    match goal with
    | |- forall s, _ -> match ?m s with _ => _ end =>
        assert (H : ends (kept identity_of) (exits_only pc) m)
    end.
    { ends_walk exits_leaf;
        first [exact Hcs | now apply exits_only_handle_complex_close_body]. }
    intros s _. apply H.
Qed.

Lemma exits_only_close_statement_fuel (fuel : nat) (pc : ChunkPtr) :
  ends (kept identity_of) (exits_only pc) (close_statement_fuel fuel pc).
Proof.
  induction fuel as [|n IH]; simpl.
  - intro s. exact I.
  - now apply exits_only_close_statement_body.
Qed.

(** [close_statement] throws exactly when it is handed the null chunk: then
    it throws [invalid_argument] at once, the state untouched; on a chunk of
    the list no call of it, however deep, throws. *)
Theorem close_statement_throws_on_null_only (pc : ChunkPtr) (s : State) :
  (IsNullChunk (chunks s) pc = true ->
     close_statement pc s = Throw invalid_argument s)
  /\ (IsNullChunk (chunks s) pc = false ->
        forall e s', close_statement pc s <> Throw e s').
Proof.
  split.
  - intro Hn. unfold close_statement. simpl. unfold close_statement_body.
    unfold bind at 1, gets at 1. now rewrite Hn.
  - intros Hn e s' E.
    pose proof (exits_only_close_statement_fuel (S (frm_size (frm s))) pc s) as H.
    unfold close_statement in E. rewrite E in H.
    destruct (H Hn) as [st Hst]. discriminate.
Qed.

(** Both halves at work: the null chunk, and the semicolon of
    [if ( a ) if ( b ) c ;]. *)
Lemma close_statement_throws_on_null_only_witness :
  close_statement None (state_after c_env 9 nested_if_stream)
    = Throw invalid_argument (state_after c_env 9 nested_if_stream)
  /\ forall e s', close_statement (Some 9%nat) (state_after c_env 9 nested_if_stream)
                  <> Throw e s'.
Proof.
  split.
  - apply (close_statement_throws_on_null_only None
             (state_after c_env 9 nested_if_stream)). reflexivity.
  - apply (close_statement_throws_on_null_only (Some 9%nat)
             (state_after c_env 9 nested_if_stream)). vm_compute. reflexivity.
Defined.

(* ================================================================== *)
(** ** Warnings and aborts *)

(** The two lines written about a closer that matches nothing. *)
Definition is_note (w : LogMsg) : bool :=
  match w with
  | W_closer _ _ _ _ | W_expected_closer _ => true
  | _ => false
  end.

(** The lines that name the reason of an abort, each with the status the
    process is ended with. *)
Definition is_error (status : Z) (w : LogMsg) : bool :=
  match w with
  | W_unexpected _ _ _ _ _ => status =? EXIT_FAILURE
  | W_expected_semicolon _ _ | W_expected_while _ _
  | W_expected_paren _ _ _ | W_tos_problem _ _ _ => status =? EX_SOFTWARE
  | _ => false
  end.

Definition notes_added (s s' : State) : Prop :=
  exists l, log s' = l ++ log s /\ forallb is_note l = true.

Definition error_added (s : State) (a : Abort) (s' : State) : Prop :=
  match a with
  | A_exit st =>
      exists w l, log s' = w :: l ++ log s /\ forallb is_note l = true
                  /\ is_error st w = true
  | A_throw _ => notes_added s s'
  end.

Lemma notes_added_refl (s : State) : notes_added s s.
Proof. now exists []. Qed.

Lemma notes_added_trans (s1 s2 s3 : State) :
  notes_added s1 s2 -> notes_added s2 s3 -> notes_added s1 s3.
Proof.
  intros (l1 & E1 & N1) (l2 & E2 & N2). exists (l2 ++ l1). split.
  - now rewrite E2, E1, app_assoc.
  - rewrite forallb_app. now rewrite N1, N2.
Qed.

#[local] Instance log_flow : Flow notes_added error_added.
Proof.
  constructor.
  - exact notes_added_refl.
  - exact notes_added_trans.
  - intros s1 s2 [st|e] s3 (l1 & E1 & N1); simpl.
    + intros (w & l2 & E2 & N2 & Hw). exists w, (l2 ++ l1). split; [|split].
      * now rewrite E2, E1, app_assoc.
      * rewrite forallb_app. now rewrite N1, N2.
      * exact Hw.
    + apply notes_added_trans. now exists l1.
Qed.

Lemma notes_same (s s' : State) : log s' = log s -> notes_added s s'.
Proof. intro E. now exists []. Qed.

Lemma ends_log_note (w : LogMsg) :
  is_note w = true -> ends notes_added error_added (log_warn w).
Proof.
  intros Hw s. simpl. exists [w]. split; [reflexivity|]. simpl. now rewrite Hw.
Qed.

Lemma ends_log_exit {B : Type} (w : LogMsg) (st : Z) :
  is_error st w = true ->
  ends notes_added error_added (log_warn w ;;; @exit_with B st).
Proof.
  intros Hw s. simpl. exists w, []. repeat split. exact Hw.
Qed.

Lemma ends_log_pop_exit {B : Type} (w : LogMsg) (st : Z) :
  is_error st w = true ->
  ends notes_added error_added (log_warn w ;;; pop ;;; @exit_with B st).
Proof.
  intros Hw s. simpl. exists w, []. repeat split. exact Hw.
Qed.

Ltac log_leaf :=
  idtac;
  lazymatch goal with
  | |- ends _ _ (bind (log_warn _) (fun _ => exit_with _)) =>
      apply ends_log_exit; reflexivity
  | |- ends _ _ (bind (log_warn _) (fun _ => bind pop (fun _ => exit_with _))) =>
      apply ends_log_pop_exit; reflexivity
  | |- ends _ _ (log_warn _) => apply ends_log_note; reflexivity
  | |- ends _ _ (upd_chunk _ _) => apply ends_modify; intro; apply notes_same; reflexivity
  | |- ends _ _ (set_consumed _) => apply ends_modify; intro; apply notes_same; reflexivity
  | |- ends _ _ (upd_top _) => apply ends_modify; intro; apply notes_same; reflexivity
  | |- ends _ _ (upd_frm _) => apply ends_modify; intro; apply notes_same; reflexivity
  | |- ends _ _ pop => apply ends_modify; intro; apply notes_same; reflexivity
  | |- ends _ _ (push _ _) => apply ends_modify; intro; apply notes_same; reflexivity
  | |- ends _ _ (modify _) => apply ends_modify; intro; apply notes_same; reflexivity
  | |- ends _ _ (throw _) => apply ends_throw; intro; apply notes_added_refl
  | |- ends _ _ (insert_vbrace _ _) =>
      apply ends_insert_vbrace; intros; apply notes_same; reflexivity
  | |- ends _ _ (insert_vbrace_close_after _) =>
      apply ends_insert_vbrace; intros; apply notes_same; reflexivity
  | |- ends _ _ (insert_vbrace_open_before _) =>
      apply ends_insert_vbrace; intros; apply notes_same; reflexivity
  end.

Lemma log_handle_complex_close_body (cs : ChunkPtr -> M bool) (pc : ChunkPtr) :
  (forall p, ends notes_added error_added (cs p)) ->
  ends notes_added error_added (handle_complex_close_body cs pc).
Proof.
  intro Hcs. unfold handle_complex_close_body.
  ends_walk log_leaf; apply Hcs.
Qed.

Lemma log_close_statement_body (cs : ChunkPtr -> M bool) (pc : ChunkPtr) :
  (forall p, ends notes_added error_added (cs p)) ->
  ends notes_added error_added (close_statement_body cs pc).
Proof.
  intro Hcs. unfold close_statement_body. cbv zeta.
  ends_walk log_leaf; first [apply Hcs | now apply log_handle_complex_close_body].
Qed.

Lemma log_close_statement_fuel (fuel : nat) :
  forall pc, ends notes_added error_added (close_statement_fuel fuel pc).
Proof.
  induction fuel as [|n IH]; intro pc; simpl.
  - intro s. exact I.
  - now apply log_close_statement_body.
Qed.

Lemma log_close_statement (pc : ChunkPtr) :
  ends notes_added error_added (close_statement pc).
Proof. intro s. unfold close_statement. apply log_close_statement_fuel. Qed.

Lemma log_handle_complex_close (pc : ChunkPtr) :
  ends notes_added error_added (handle_complex_close pc).
Proof. apply log_handle_complex_close_body. exact log_close_statement. Qed.

Lemma log_ccs_else_loop (fuel : nat) (pc : ChunkPtr) :
  ends notes_added error_added (ccs_else_loop fuel pc).
Proof.
  induction fuel as [|n IH]; simpl; [intro s; exact I|].
  ends_walk log_leaf; first [apply log_close_statement | exact IH].
Qed.

Lemma log_ccs_catch_loop (env : Env) (fuel : nat) (pc : ChunkPtr) :
  ends notes_added error_added (ccs_catch_loop env fuel pc).
Proof.
  induction fuel as [|n IH]; simpl; [intro s; exact I|].
  ends_walk log_leaf; first [apply log_close_statement | exact IH].
Qed.

Lemma log_check_complex_statements (env : Env) (pc : ChunkPtr) :
  ends notes_added error_added (check_complex_statements env pc).
Proof.
  unfold check_complex_statements, ccs_op_paren1, ccs_elseif, ccs_catch_when,
         ccs_while, ccs_vbrace, ccs_constexpr, ccs_verify_paren.
  ends_walk log_leaf; first [apply log_ccs_else_loop | apply log_ccs_catch_loop].
Qed.

Lemma log_set_parent_from_stack (pc : ChunkPtr) :
  ends notes_added error_added (set_parent_from_stack pc).
Proof. unfold set_parent_from_stack. ends_walk log_leaf. Qed.

Lemma log_parse_cleanup (env : Env) (pc : ChunkPtr) :
  ends notes_added error_added (parse_cleanup env pc).
Proof.
  unfold parse_cleanup, parse_cleanup_rest, pc_mark_start, pc_mark_sparen,
         pc_vbrace_close, pc_close, pc_wod_semi, pc_parent, pc_open, pc_switch,
         pc_push_complex, pc_reset_counts.
  ends_walk log_leaf;
    first [ apply log_check_complex_statements
          | apply log_set_parent_from_stack
          | apply log_close_statement
          | apply log_handle_complex_close ].
Qed.

(** [parse_cleanup] never ends the process in silence.  When it calls
    [exit], the last line written names the reason, and the status is
    [EX_SOFTWARE] for a missing [while], paren or semicolon and for a stage
    that cannot be closed, [EXIT_FAILURE] for a closer that meets the wrong
    opener.  When it returns (or throws), the only lines it can have
    written are the two about a closer that matches nothing. *)
Theorem parse_cleanup_aborts_are_announced (env : Env) (pc : ChunkPtr) (s : State) :
  match parse_cleanup env pc s with
  | Ok _ s' | Throw _ s' =>
      exists l, log s' = l ++ log s /\ forallb is_note l = true
  | Exit status s' =>
      exists w l, log s' = w :: l ++ log s /\ forallb is_note l = true
                  /\ is_error status w = true
                  /\ (status = EX_SOFTWARE \/ status = EXIT_FAILURE)
  | OutOfFuel => False
  end.
Proof.
  pose proof (log_parse_cleanup env pc s) as H.
  pose proof (total_parse_cleanup env pc s) as T.
  destruct (parse_cleanup env pc s) as [b s'|st s'|e s'|]; try exact H; [|now elim T].
  destruct H as (w & l & E & N & Hw). exists w, l. repeat split; try assumption.
  destruct w; simpl in Hw; try discriminate;
    apply Z.eqb_eq in Hw; subst st; auto.
Qed.

(* ================================================================== *)
(** ** The only chunks the pass adds are virtual braces *)

(** [l1] is [l2] with some elements left out. *)
Inductive subseq {A : Type} : list A -> list A -> Prop :=
| subseq_nil : subseq [] []
| subseq_skip (x : A) (l1 l2 : list A) : subseq l1 l2 -> subseq l1 (x :: l2)
| subseq_keep (x : A) (l1 l2 : list A) : subseq l1 l2 -> subseq (x :: l1) (x :: l2).

Lemma subseq_refl {A : Type} (l : list A) : subseq l l.
Proof. induction l; constructor; assumption. Qed.

Lemma subseq_trans {A : Type} (l1 l2 l3 : list A) :
  subseq l1 l2 -> subseq l2 l3 -> subseq l1 l3.
Proof.
  intros H12 H23. revert l1 H12.
  induction H23 as [|x l2 l3 H IH|x l2 l3 H IH]; intros l1 H12.
  - inversion H12. constructor.
  - apply subseq_skip. now apply IH.
  - inversion H12; subst.
    + apply subseq_skip. now apply IH.
    + apply subseq_keep. now apply IH.
Qed.

Lemma subseq_insert_id (l : list ChunkId) (a n : ChunkId) : subseq l (insert_id l a n).
Proof.
  induction l as [|i rest IH]; simpl; [constructor|].
  destruct (Nat.eqb i a).
  - apply subseq_keep, subseq_skip, subseq_refl.
  - apply subseq_keep, IH.
Qed.

Definition is_vbrace (c : Chunk) : bool := Is CT_VBRACE_OPEN c || Is CT_VBRACE_CLOSE c.

(** From [s] to [s'], seen from the chunk [pc] being processed: the chunks
    of [s] are all in [s'], in the same order and with their text; all but
    [pc] have kept their type; and whatever is new is a virtual brace with
    no text. *)
Definition only_vbraces_added (pc : ChunkPtr) (s s' : State) : Prop :=
  IsNullChunk (chunks s) pc = false ->
  subseq (ids (chunks s)) (ids (chunks s'))
  /\ (forall q, IsNullChunk (chunks s) q = false ->
        IsNullChunk (chunks s') q = false
        /\ c_str (chunk_at (chunks s') q) = c_str (chunk_at (chunks s) q)
        /\ (q <> pc -> c_type (chunk_at (chunks s') q) = c_type (chunk_at (chunks s) q)))
  /\ (forall q, IsNullChunk (chunks s) q = true -> IsNullChunk (chunks s') q = false ->
        is_vbrace (chunk_at (chunks s') q) = true
        /\ c_str (chunk_at (chunks s') q) = EmptyString).

Lemma ova_refl (pc : ChunkPtr) (s : State) : only_vbraces_added pc s s.
Proof.
  intros _. split; [apply subseq_refl|]. split.
  - intros q Hq. auto.
  - intros q H1 H2. congruence.
Qed.

Lemma ova_trans (pc : ChunkPtr) (s1 s2 s3 : State) :
  only_vbraces_added pc s1 s2 -> only_vbraces_added pc s2 s3 ->
  only_vbraces_added pc s1 s3.
Proof.
  intros H12 H23 Hpc.
  destruct (H12 Hpc) as (S12 & O12 & N12).
  destruct (O12 pc Hpc) as (Hpc2 & _).
  destruct (H23 Hpc2) as (S23 & O23 & N23).
  split; [eapply subseq_trans; eassumption|]. split.
  - intros q Hq. destruct (O12 q Hq) as (Hq2 & Es & Et).
    destruct (O23 q Hq2) as (Hq3 & Es' & Et').
    split; [assumption|]. split; [congruence|].
    intro Hne. rewrite Et', Et; auto.
  - intros q Hq1 Hq3.
    destruct (IsNullChunk (chunks s2) q) eqn:Hq2.
    + now apply N23.
    + destruct (N12 q Hq1 Hq2) as (Hv & Hs).
      destruct (O23 q Hq2) as (_ & Es & Et).
      assert (Hne : q <> pc) by (intro; subst; congruence).
      unfold is_vbrace, Is in *. rewrite Es, (Et Hne). auto.
Qed.

#[local] Instance ova_flow (pc : ChunkPtr) :
  Flow (only_vbraces_added pc) (fun s _ s' => only_vbraces_added pc s s').
Proof. apply always_flow; [apply ova_refl | apply ova_trans]. Qed.

Lemma ova_same (pc : ChunkPtr) (s s' : State) :
  chunks s' = chunks s -> only_vbraces_added pc s s'.
Proof.
  intros E _. rewrite E. split; [apply subseq_refl|]. split.
  - intros q Hq. auto.
  - intros q H1 H2. congruence.
Qed.

Lemma ova_upd_any (pc p : ChunkPtr) (f : Chunk -> Chunk) :
  (forall c, c_type (f c) = c_type c) -> (forall c, c_str (f c) = c_str c) ->
  forall s, only_vbraces_added pc s (set_chunks (update_at (chunks s) p f) s).
Proof.
  intros Ht Hs s _. simpl. rewrite ids_update_at.
  split; [apply subseq_refl|]. split.
  - intros q Hq. rewrite IsNullChunk_update_at. split; [assumption|]. split.
    + now apply (chunk_at_update_at_field c_str).
    + intros _. now apply (chunk_at_update_at_field c_type).
  - intros q H1 H2. rewrite IsNullChunk_update_at in H2. congruence.
Qed.

Lemma ova_upd_pc (pc : ChunkPtr) (f : Chunk -> Chunk) :
  (forall c, c_str (f c) = c_str c) ->
  forall s, only_vbraces_added pc s (set_chunks (update_at (chunks s) pc f) s).
Proof.
  intros Hs s _. simpl. rewrite ids_update_at.
  split; [apply subseq_refl|]. split.
  - intros q Hq. rewrite IsNullChunk_update_at. split; [assumption|]. split.
    + now apply (chunk_at_update_at_field c_str).
    + intros Hne. f_equal. apply chunk_at_update_at_other. congruence.
  - intros q H1 H2. rewrite IsNullChunk_update_at in H2. congruence.
Qed.

(** What [insert_vbrace] does to the list: it raises levels of comments and
    newlines, and links in at most one chunk, a virtual brace. *)
Lemma insert_vbrace_cases (pc : ChunkPtr) (b : bool) (s : State) (p : ChunkPtr) (s' : State) :
  insert_vbrace pc b s = Ok p s' ->
  exists cl1,
    ids cl1 = ids (chunks s)
    /\ (forall id, lookup cl1 id = None <-> lookup (chunks s) id = None)
    /\ (chunks s' = cl1
        \/ exists c ref, is_vbrace c = true /\ c_str c = EmptyString
                         /\ chunks s' = fst (CopyAndAddAfter cl1 c ref)).
Proof.
  unfold insert_vbrace. destruct b.
  - intro E. injection E as <- <-. exists (chunks s).
    split; [reflexivity|]. split; [tauto|]. right.
    eexists. exists pc. split; [|split; [|reflexivity]]; reflexivity.
  - destruct (IsNullChunk (chunks s) (GetPrev (chunks s) pc)).
    { intro E. injection E as <- <-. exists (chunks s). split; [reflexivity|].
      split; [tauto | now left]. }
    pose proof (ids_rewind_comments (before (chunks s) pc) (chunks s)) as Hi.
    pose proof (lookup_rewind_comments (before (chunks s) pc) (chunks s)) as Hl.
    destruct (rewind_comments (before (chunks s) pc) (chunks s)) as [cl1 ref].
    simpl in Hi, Hl. cbv zeta. cbn [fst snd].
    destruct (IsNullChunk cl1 ref).
    { intro E. injection E as <- <-. exists cl1. split; [assumption|].
      split; [assumption | now left]. }
    match goal with |- (if IsNullChunk cl1 ?r then _ else _) = _ -> _ =>
      destruct (IsNullChunk cl1 r) end.
    { intro E. injection E as <- <-. exists cl1. split; [assumption|].
      split; [assumption | now left]. }
    intro E. injection E as <- <-. exists cl1.
    split; [assumption|]. split; [assumption|]. right.
    eexists. eexists. split; [|split; [|reflexivity]].
    + reflexivity.
    + simpl. now destruct (negb _).
Qed.

Lemma subseq_CopyAndAddAfter (cl : ChunkList) (c : Chunk) (ref : ChunkPtr) :
  subseq (ids cl) (ids (fst (CopyAndAddAfter cl c ref))).
Proof.
  unfold CopyAndAddAfter. destruct ref as [a|]; [|apply subseq_refl].
  destruct (lookup cl a); [|apply subseq_refl].
  simpl. rewrite ids_insert_after. apply subseq_insert_id.
Qed.

Lemma CopyAndAddAfter_fresh (cl : ChunkList) (c : Chunk) (ref q : ChunkPtr) :
  IsNullChunk cl q = true ->
  IsNullChunk (fst (CopyAndAddAfter cl c ref)) q = false ->
  chunk_at (fst (CopyAndAddAfter cl c ref)) q = c.
Proof.
  intros H1 H2.
  destruct (CopyAndAddAfter cl c ref) as [cl' [n|]] eqn:E; simpl in *.
  - apply CopyAndAddAfter_new in E. destruct E as (Hn & Hc & Ho).
    destruct q as [id|]; [|discriminate]. simpl in *.
    destruct (Nat.eq_dec id n) as [->|Hne]; [now rewrite Hc|].
    rewrite (Ho id Hne) in H2. congruence.
  - apply CopyAndAddAfter_null in E. subst. congruence.
Qed.

Lemma IsNullChunk_lookup_iff (cl1 cl : ChunkList) (q : ChunkPtr) :
  (forall id, lookup cl1 id = None <-> lookup cl id = None) ->
  IsNullChunk cl1 q = IsNullChunk cl q.
Proof.
  intro H. destruct q as [id|]; [|reflexivity]. simpl.
  specialize (H id).
  destruct (lookup cl1 id), (lookup cl id); try reflexivity;
    destruct H as [H1 H2]; [specialize (H2 eq_refl) | specialize (H1 eq_refl)];
    discriminate.
Qed.

Lemma ova_insert_vbrace (pc pc' : ChunkPtr) (b : bool) (s : State) (p : ChunkPtr)
      (cl : ChunkList) :
  insert_vbrace pc' b s = Ok p (set_chunks cl s) ->
  only_vbraces_added pc s (set_chunks cl s).
Proof.
  intros E _.
  pose proof (keeps_insert_vbrace (fun c => (c_type c, c_str c))
                (fun _ _ => eq_refl) (fun _ _ => eq_refl) pc' b s p _ E) as K.
  destruct (insert_vbrace_cases _ _ _ _ _ E) as (cl1 & Hi & Hl & Hc).
  simpl in Hc. simpl.
  split; [|split].
  - destruct Hc as [->|(c & ref & _ & _ & ->)].
    + rewrite Hi. apply subseq_refl.
    + rewrite <- Hi. apply subseq_CopyAndAddAfter.
  - intros q Hq. destruct (K q Hq) as [Hn Eq]. simpl in Hn, Eq.
    inversion Eq. auto.
  - intros q H1 H2.
    rewrite <- (IsNullChunk_lookup_iff cl1 (chunks s) q Hl) in H1.
    destruct Hc as [->|(c & ref & Hv & Hs & ->)]; [congruence|].
    rewrite (CopyAndAddAfter_fresh cl1 c ref q H1 H2). auto.
Qed.

Ltac ova_side :=
  intro;
  first [ reflexivity
        | unfold SetType_succ;
          match goal with |- context [match ?x with _ => _ end] => destruct x end;
          reflexivity ].

Ltac ova_leaf :=
  idtac;
  lazymatch goal with
  | |- ends _ _ (upd_chunk _ _) =>
      apply ends_modify;
      first [ apply ova_upd_any; ova_side | apply ova_upd_pc; ova_side ]
  | |- ends _ _ (log_warn _) => apply ends_modify; intro; apply ova_same; reflexivity
  | |- ends _ _ (set_consumed _) => apply ends_modify; intro; apply ova_same; reflexivity
  | |- ends _ _ (upd_top _) => apply ends_modify; intro; apply ova_same; reflexivity
  | |- ends _ _ (upd_frm _) => apply ends_modify; intro; apply ova_same; reflexivity
  | |- ends _ _ pop => apply ends_modify; intro; apply ova_same; reflexivity
  | |- ends _ _ (push _ _) => apply ends_modify; intro; apply ova_same; reflexivity
  | |- ends _ _ (exit_with _) => apply ends_exit; intro; apply ova_refl
  | |- ends _ _ (throw _) => apply ends_throw; intro; apply ova_refl
  | |- ends _ _ (insert_vbrace _ _) =>
      apply ends_insert_vbrace; intros ? ? ? E; exact (ova_insert_vbrace _ _ _ _ _ _ E)
  | |- ends _ _ (insert_vbrace_close_after _) =>
      apply ends_insert_vbrace; intros ? ? ? E; exact (ova_insert_vbrace _ _ _ _ _ _ E)
  | |- ends _ _ (insert_vbrace_open_before _) =>
      apply ends_insert_vbrace; intros ? ? ? E; exact (ova_insert_vbrace _ _ _ _ _ _ E)
  end.

Section OnlyVbraces.

Variable pc : ChunkPtr.

Lemma ova_handle_complex_close_body (cs : ChunkPtr -> M bool) :
  always (only_vbraces_added pc) (cs pc) ->
  always (only_vbraces_added pc) (handle_complex_close_body cs pc).
Proof.
  intro Hcs. unfold handle_complex_close_body.
  ends_walk ova_leaf; exact Hcs.
Qed.

Lemma ova_close_statement_body (cs : ChunkPtr -> M bool) :
  always (only_vbraces_added pc) (cs pc) ->
  always (only_vbraces_added pc) (close_statement_body cs pc).
Proof.
  intro Hcs. unfold close_statement_body. cbv zeta.
  ends_walk ova_leaf; first [exact Hcs | now apply ova_handle_complex_close_body].
Qed.

Lemma ova_close_statement_fuel (fuel : nat) :
  always (only_vbraces_added pc) (close_statement_fuel fuel pc).
Proof.
  induction fuel as [|n IH]; simpl.
  - intro s. exact I.
  - now apply ova_close_statement_body.
Qed.

Lemma ova_close_statement : always (only_vbraces_added pc) (close_statement pc).
Proof. intro s. unfold close_statement. apply ova_close_statement_fuel. Qed.

Lemma ova_handle_complex_close :
  always (only_vbraces_added pc) (handle_complex_close pc).
Proof. apply ova_handle_complex_close_body. exact ova_close_statement. Qed.

Lemma ova_ccs_else_loop (fuel : nat) :
  always (only_vbraces_added pc) (ccs_else_loop fuel pc).
Proof.
  induction fuel as [|n IH]; simpl; [intro s; exact I|].
  ends_walk ova_leaf; first [apply ova_close_statement | exact IH].
Qed.

Lemma ova_ccs_catch_loop (env : Env) (fuel : nat) :
  always (only_vbraces_added pc) (ccs_catch_loop env fuel pc).
Proof.
  induction fuel as [|n IH]; simpl; [intro s; exact I|].
  ends_walk ova_leaf; first [apply ova_close_statement | exact IH].
Qed.

Lemma ova_check_complex_statements (env : Env) :
  always (only_vbraces_added pc) (check_complex_statements env pc).
Proof.
  unfold check_complex_statements, ccs_op_paren1, ccs_elseif, ccs_catch_when,
         ccs_while, ccs_vbrace, ccs_constexpr, ccs_verify_paren.
  ends_walk ova_leaf; first [apply ova_ccs_else_loop | apply ova_ccs_catch_loop].
Qed.

Lemma ova_set_parent_from_stack :
  always (only_vbraces_added pc) (set_parent_from_stack pc).
Proof. unfold set_parent_from_stack. ends_walk ova_leaf. Qed.

Lemma ova_parse_cleanup (env : Env) :
  lang_pawn env = false ->
  always (only_vbraces_added pc) (parse_cleanup env pc).
Proof.
  intro Hpawn.
  unfold parse_cleanup, parse_cleanup_rest, pc_mark_start, pc_mark_sparen,
         pc_vbrace_close, pc_close, pc_wod_semi, pc_parent, pc_open, pc_switch,
         pc_push_complex, pc_reset_counts.
  rewrite Hpawn.
  ends_walk ova_leaf;
    first [ apply ova_check_complex_statements
          | apply ova_set_parent_from_stack
          | apply ova_close_statement
          | apply ova_handle_complex_close ].
Qed.

End OnlyVbraces.

Lemma outcome_ok_case {B : Type} (o : Outcome B) (P : State -> Prop) (b : B) (s' : State) :
  o = Ok b s' ->
  match o with
  | Ok _ s1 | Exit _ s1 | Throw _ s1 => P s1
  | OutOfFuel => False
  end -> P s'.
Proof. intros ->. trivial. Qed.

(** Whatever [parse_cleanup] does with a chunk of the list and however it
    ends (Pawn apart), the chunks that were in the list are all still
    there and in the same order, none but the chunk at hand has changed its
    type, and every chunk that is new is a virtual brace, open or close,
    with no text. *)
Theorem parse_cleanup_only_adds_virtual_braces (env : Env) (pc : ChunkPtr) (s : State) :
  lang_pawn env = false ->
  IsNullChunk (chunks s) pc = false ->
  match parse_cleanup env pc s with
  | Ok _ s' | Exit _ s' | Throw _ s' =>
      subseq (ids (chunks s)) (ids (chunks s'))
      /\ (forall q, IsNullChunk (chunks s) q = false -> q <> pc ->
            c_type (chunk_at (chunks s') q) = c_type (chunk_at (chunks s) q))
      /\ (forall q, IsNullChunk (chunks s) q = true -> IsNullChunk (chunks s') q = false ->
            is_vbrace (chunk_at (chunks s') q) = true
            /\ c_str (chunk_at (chunks s') q) = EmptyString)
  | OutOfFuel => False
  end.
Proof.
  intros Hpawn Hpc.
  pose proof (ova_parse_cleanup pc env Hpawn s) as H.
  pose proof (total_parse_cleanup env pc s) as T.
  destruct (parse_cleanup env pc s); try now elim T.
  all: destruct (H Hpc) as (H1 & H2 & H3);
    (split; [exact H1|]); (split; [|exact H3]);
    intros q Hq Hne; now apply H2.
Qed.

(** The theorem at work on the semicolon of [if ( a ) if ( b ) c ;]: one
    chunk is added behind it, a virtual brace close. *)
Lemma parse_cleanup_only_adds_virtual_braces_witness :
  exists s',
    parse_cleanup c_env (Some 9%nat) (state_after c_env 9 nested_if_stream) = Ok tt s'
    /\ ids (chunks (state_after c_env 9 nested_if_stream))
       = [0; 1; 2; 3; 10; 4; 5; 6; 7; 11; 8; 9]%nat
    /\ ids (chunks s') = [0; 1; 2; 3; 10; 4; 5; 6; 7; 11; 8; 9; 12]%nat
    /\ subseq (ids (chunks (state_after c_env 9 nested_if_stream))) (ids (chunks s'))
    /\ is_vbrace (chunk_at (chunks s') (Some 12%nat)) = true.
Proof.
  pose (s0 := state_after c_env 9 nested_if_stream).
  pose (s' := outcome_state (initial_state []) (parse_cleanup c_env (Some 9%nat) s0)).
  assert (E : parse_cleanup c_env (Some 9%nat) s0 = Ok tt s') by (vm_compute; reflexivity).
  assert (Hn : IsNullChunk (chunks s0) (Some 9%nat) = false) by (vm_compute; reflexivity).
  assert (I0 : ids (chunks s0) = [0; 1; 2; 3; 10; 4; 5; 6; 7; 11; 8; 9]%nat)
    by (vm_compute; reflexivity).
  assert (I1 : ids (chunks s') = [0; 1; 2; 3; 10; 4; 5; 6; 7; 11; 8; 9; 12]%nat)
    by (vm_compute; reflexivity).
  assert (N0 : IsNullChunk (chunks s0) (Some 12%nat) = true) by (vm_compute; reflexivity).
  assert (N1 : IsNullChunk (chunks s') (Some 12%nat) = false) by (vm_compute; reflexivity).
  exists s'. change (state_after c_env 9 nested_if_stream) with s0.
  clearbody s'. clearbody s0.
  destruct (outcome_ok_case _ _ _ _ E
              (parse_cleanup_only_adds_virtual_braces c_env (Some 9%nat) s0 eq_refl Hn))
    as (H1 & _ & H3).
  split; [exact E|]. split; [exact I0|]. split; [exact I1|]. split; [exact H1|].
  now apply H3.
Defined.

(* ================================================================== *)
(** ** The aborts of a [do] ... [while] statement *)

(** In stage [WHILE] the check retypes a [while] and ends the process on
    anything else. *)
Lemma ccs_at_while (env : Env) (pc : ChunkPtr) (s : State) :
  let c := chunk_at (chunks s) pc in
  e_stage (top (frm s)) = WHILE ->
  Is CT_WHILE c = false ->
  check_complex_statements env pc s =
    Exit EX_SOFTWARE
      (set_frm (frm_pop (frm s))
         (set_log (W_expected_while (c_orig_line c) (c_str c) :: log s) s)).
Proof.
  intros c Hst Hw. subst c.
  ccs_unfold. mrun_with Hst. rewrite Hw. reflexivity.
Qed.

(** In stage [WOD_PAREN] only the test for the open paren is left. *)
Lemma ccs_at_wod_paren (env : Env) (pc : ChunkPtr) (s : State) :
  let c := chunk_at (chunks s) pc in
  let t := top (frm s) in
  e_stage t = WOD_PAREN ->
  IsNot CT_PAREN_OPEN c = true ->
  check_complex_statements env pc s =
    Exit EX_SOFTWARE
      (set_frm (frm_pop (frm s))
         (set_log (W_expected_paren (c_orig_line c) (c_str c) (e_type t) :: log s) s)).
Proof.
  intros c t Hst Hp. subst c t.
  ccs_unfold. mrun_with Hst. rewrite ?andb_false_r. mrun_with Hst.
  rewrite Hp. reflexivity.
Qed.

(** In stage [WOD_SEMI] the check has nothing to say. *)
Lemma ccs_at_wod_semi (env : Env) (pc : ChunkPtr) (s : State) :
  e_stage (top (frm s)) = WOD_SEMI ->
  check_complex_statements env pc s = Ok false s.
Proof.
  intros Hst.
  ccs_unfold. mrun_with Hst. rewrite ?andb_false_r. mrun_with Hst.
  rewrite ?andb_false_r. reflexivity.
Qed.

(** [parse_cleanup] once the two marking blocks are done. *)
Lemma parse_cleanup_after_marks (env : Env) (pc : ChunkPtr) (s : State) :
  exists s2,
    marks_only pc s s2
    /\ parse_cleanup env pc s =
       (t <- the_top ;;
        c <- the_chunk pc ;;
        done <- (if negb (stage_eqb (e_stage t) NONE) && negb (Is CT_AUTORELEASEPOOL c)
                 then check_complex_statements env pc else ret false) ;;
        if done then ret tt else parse_cleanup_rest env pc) s2.
Proof.
  destruct (pc_mark_start_marks pc s) as (s1 & E1 & M1).
  destruct (pc_mark_sparen_marks pc s1) as (s2 & E2 & M2).
  exists s2. split; [eapply marks_only_trans; eassumption|].
  unfold parse_cleanup.
  unfold bind at 1. rewrite E1. unfold bind at 1. rewrite E2. reflexivity.
Qed.

(** After the body of a [do] the pass accepts nothing but [while], and once
    that [while] is read nothing but an open paren: on any other chunk
    ([CT_AUTORELEASEPOOL] apart, for which the check is not run) it writes
    what it expected, drops the statement from the stack and ends the
    process with [EX_SOFTWARE]. *)
Theorem do_while_expects_while_and_paren (env : Env) (pc : ChunkPtr) (s : State) :
  let c := chunk_at (chunks s) pc in
  let t := top (frm s) in
  c_type c <> CT_AUTORELEASEPOOL ->
  (e_stage t = WHILE -> c_type c <> CT_WHILE ->
     exists s',
       parse_cleanup env pc s = Exit EX_SOFTWARE s'
       /\ pse (frm s') = tl (pse (frm s))
       /\ log s' = W_expected_while (c_orig_line c) (c_str c) :: log s)
  /\ (e_stage t = WOD_PAREN -> c_type c <> CT_PAREN_OPEN ->
        exists s',
          parse_cleanup env pc s = Exit EX_SOFTWARE s'
          /\ pse (frm s') = tl (pse (frm s))
          /\ log s' = W_expected_paren (c_orig_line c) (c_str c) (e_type t) :: log s).
Proof.
  intros c t Ha. subst c t.
  destruct (parse_cleanup_after_marks env pc s) as (s2 & M & E).
  destruct M as [Mpse Mlev Mblev Msp Mbs Mlog Mtype Mstr Mline Mcol Mprep Mnull].
  assert (Htop : top (frm s2) = top (frm s)) by (unfold top; now rewrite Mpse).
  assert (Ha' : Is CT_AUTORELEASEPOOL (chunk_at (chunks s2) pc) = false)
    by (unfold Is; rewrite Mtype; now apply tok_eqb_neq).
  split; intros Hst Hty; rewrite E; clear E;
    unfold bind at 1, the_top at 1, gets at 1;
    unfold bind at 1, the_chunk at 1, gets at 1;
    rewrite Htop, Hst, Ha'; simpl negb; simpl andb; unfold bind at 1.
  - rewrite ccs_at_while;
      [| now rewrite Htop | unfold Is; rewrite Mtype; now apply tok_eqb_neq].
    eexists. split; [reflexivity|]. simpl.
    now rewrite Mpse, Mlog, Mline, Mstr.
  - rewrite ccs_at_wod_paren;
      [| now rewrite Htop
       | unfold IsNot, Is; rewrite Mtype; now apply negb_true_iff, tok_eqb_neq].
    eexists. split; [reflexivity|]. simpl.
    now rewrite Htop, Mpse, Mlog, Mline, Mstr.
Qed.

(** The theorem at work on the [y] of [do x ; y]. *)
Lemma do_while_expects_while_and_paren_witness :
  exists s',
    parse_cleanup c_env (Some 3%nat) (state_after c_env 4 do_word_stream)
      = Exit EX_SOFTWARE s'
    /\ pse (frm s') = [eof_entry]
    /\ log s' = [W_expected_while 1 "y"].
Proof.
  pose (s0 := state_after c_env 4 do_word_stream).
  assert (H0 : c_type (chunk_at (chunks s0) (Some 3%nat)) <> CT_AUTORELEASEPOOL)
    by (vm_compute; discriminate).
  assert (H1 : e_stage (top (frm s0)) = WHILE) by (vm_compute; reflexivity).
  assert (H2 : c_type (chunk_at (chunks s0) (Some 3%nat)) <> CT_WHILE)
    by (vm_compute; discriminate).
  assert (F1 : tl (pse (frm s0)) = [eof_entry]) by (vm_compute; reflexivity).
  assert (F2 : c_orig_line (chunk_at (chunks s0) (Some 3%nat)) = 1)
    by (vm_compute; reflexivity).
  assert (F3 : c_str (chunk_at (chunks s0) (Some 3%nat)) = "y"%string)
    by (vm_compute; reflexivity).
  assert (F4 : log s0 = []) by (vm_compute; reflexivity).
  change (state_after c_env 4 do_word_stream) with s0. clearbody s0.
  destruct (proj1 (do_while_expects_while_and_paren c_env (Some 3%nat) s0 H0) H1 H2)
    as (s' & E & P & L).
  exists s'. split; [exact E|]. rewrite P, L, F1, F2, F3, F4. split; reflexivity.
Defined.

Lemma parse_cleanup_at_wod_semi (env : Env) (pc : ChunkPtr) (s : State) :
  let c := chunk_at (chunks s) pc in
  let t := top (frm s) in
  e_stage t = WOD_SEMI ->
  e_type t <> CT_VBRACE_OPEN ->
  consumed (braceState s) = false ->
  is_closer c = false ->
  IsSemicolon c = false ->
  exists s',
    parse_cleanup env pc s = Exit EX_SOFTWARE s'
    /\ log s' = W_expected_semicolon (c_orig_line c) (c_type c) :: log s
    /\ pse (frm s') = pse (frm s).
Proof.
  intros c t Hst Hty Hcons Hcl Hsemi. subst c t.
  destruct (parse_cleanup_after_marks env pc s) as (s2 & M & E).
  destruct M as [Mpse Mlev Mblev Msp Mbs Mlog Mtype Mstr Mline Mcol Mprep Mnull].
  assert (Htop : top (frm s2) = top (frm s)) by (unfold top; now rewrite Mpse).
  assert (Hcl2 : is_closer (chunk_at (chunks s2) pc) = false)
    by (unfold is_closer, Is in *; now rewrite Mtype).
  assert (Hsemi2 : IsSemicolon (chunk_at (chunks s2) pc) = false)
    by (unfold IsSemicolon, Is in *; now rewrite Mtype).
  assert (Hty2 : tok_eqb (e_type (top (frm s2))) CT_VBRACE_OPEN = false)
    by (rewrite Htop; now apply tok_eqb_neq).
  assert (Hst2 : e_stage (top (frm s2)) = WOD_SEMI) by now rewrite Htop.
  assert (Hcons2 : consumed (braceState s2) = false) by now rewrite Mbs.
  assert (Hdone : (if negb (stage_eqb (e_stage (top (frm s2))) NONE)
                      && negb (Is CT_AUTORELEASEPOOL (chunk_at (chunks s2) pc))
                   then check_complex_statements env pc else ret false) s2 = Ok false s2).
  { destruct (_ && _); [now apply ccs_at_wod_semi | reflexivity]. }
  rewrite E. clear E.
  unfold bind at 1, the_top at 1, gets at 1.
  unfold bind at 1, the_chunk at 1, gets at 1.
  unfold bind at 1. rewrite Hdone.
  unfold parse_cleanup_rest.
  unfold bind at 1, pc_vbrace_close. mrun_with Hty2.
  unfold pc_close. mrun_with Hcl2.
  unfold pc_wod_semi. mrun_with Hst2. rewrite Hcons2. mrun_with Hsemi2.
  eexists. split; [reflexivity|]. simpl.
  now rewrite Mpse, Mlog, Mline, Mtype.
Qed.

(** Once the parens of the [while] of a [do] are closed the pass expects a
    semicolon.  On a chunk that is no semicolon (and no closer, which is
    judged against the stack first) the loop of [brace_cleanup], which
    clears [consumed] and calls [parse_cleanup], has the process ended with
    [EX_SOFTWARE] after writing what it got; the stack is left as it is. *)
Theorem while_of_do_expects_semicolon (env : Env) (pc : ChunkPtr) (s : State) :
  let c := chunk_at (chunks s) pc in
  let t := top (frm s) in
  e_stage t = WOD_SEMI ->
  e_type t <> CT_VBRACE_OPEN ->
  is_closer c = false ->
  IsSemicolon c = false ->
  exists s',
    (set_consumed false ;;; parse_cleanup env pc) s = Exit EX_SOFTWARE s'
    /\ log s' = W_expected_semicolon (c_orig_line c) (c_type c) :: log s
    /\ pse (frm s') = pse (frm s).
Proof.
  intros c t Hst Hty Hcl Hsemi.
  unfold bind, set_consumed, modify.
  match goal with |- context [parse_cleanup env pc ?s1] =>
    destruct (parse_cleanup_at_wod_semi env pc s1 Hst Hty eq_refl Hcl Hsemi)
      as (s' & E & L & P) end.
  exists s'. split; [exact E|]. split; assumption.
Qed.

(** The theorem at work on the [y] of [do { } while ( x ) y]. *)
Lemma while_of_do_expects_semicolon_witness :
  exists s',
    (set_consumed false ;;; parse_cleanup c_env (Some 7%nat))
      (state_after c_env 7 do_while_word_stream) = Exit EX_SOFTWARE s'
    /\ log s' = [W_expected_semicolon 1 CT_WORD]
    /\ map e_type (pse (frm s')) = [CT_WHILE_OF_DO; CT_EOF].
Proof.
  pose (s0 := state_after c_env 7 do_while_word_stream).
  assert (H1 : e_stage (top (frm s0)) = WOD_SEMI) by (vm_compute; reflexivity).
  assert (H2 : e_type (top (frm s0)) <> CT_VBRACE_OPEN) by (vm_compute; discriminate).
  assert (H3 : is_closer (chunk_at (chunks s0) (Some 7%nat)) = false)
    by (vm_compute; reflexivity).
  assert (H4 : IsSemicolon (chunk_at (chunks s0) (Some 7%nat)) = false)
    by (vm_compute; reflexivity).
  assert (F1 : map e_type (pse (frm s0)) = [CT_WHILE_OF_DO; CT_EOF])
    by (vm_compute; reflexivity).
  assert (F2 : c_orig_line (chunk_at (chunks s0) (Some 7%nat)) = 1)
    by (vm_compute; reflexivity).
  assert (F3 : c_type (chunk_at (chunks s0) (Some 7%nat)) = CT_WORD)
    by (vm_compute; reflexivity).
  assert (F4 : log s0 = []) by (vm_compute; reflexivity).
  change (state_after c_env 7 do_while_word_stream) with s0. clearbody s0.
  destruct (while_of_do_expects_semicolon c_env (Some 7%nat) s0 H1 H2 H3 H4)
    as (s' & E & L & P).
  exists s'. split; [exact E|]. rewrite P, L, F1, F2, F3, F4. split; reflexivity.
Defined.

(* ================================================================== *)
(** ** Where [insert_vbrace] links the virtual braces *)

Lemma after_id_insert_after_ref (cl : ChunkList) (a : ChunkId) (x : ChunkId * Chunk) :
  lookup cl a <> None ->
  after_id (insert_after cl a x) a = x :: after_id cl a.
Proof.
  induction cl as [|[i c] rest IH]; simpl; [intro H; now elim H|].
  destruct (Nat.eqb i a) eqn:E; simpl; rewrite E; [reflexivity|].
  exact IH.
Qed.

Lemma after_id_insert_after_new (cl : ChunkList) (a n : ChunkId) (x : Chunk) :
  lookup cl n = None -> lookup cl a <> None ->
  after_id (insert_after cl a (n, x)) n = after_id cl a.
Proof.
  induction cl as [|[i c] rest IH]; simpl; [intros _ H; now elim H|].
  destruct (Nat.eqb i n) eqn:En; [discriminate|]. intros Hn Ha.
  destruct (Nat.eqb i a) eqn:Ea; simpl; rewrite En.
  - now rewrite Nat.eqb_refl.
  - now apply IH.
Qed.

Lemma before_acc_insert_after_new (cl : ChunkList) (a n : ChunkId) (x : Chunk) :
  forall acc,
    lookup cl n = None -> lookup cl a <> None ->
    first_id (before_acc (insert_after cl a (n, x)) n acc) = Some a.
Proof.
  induction cl as [|[i c] rest IH]; simpl; intros acc; [intros _ H; now elim H|].
  destruct (Nat.eqb i n) eqn:En; [discriminate|]. intros Hn Ha.
  destruct (Nat.eqb i a) eqn:Ea; simpl; rewrite En.
  - rewrite Nat.eqb_refl. simpl. apply Nat.eqb_eq in Ea. now subst.
  - now apply IH.
Qed.

(** The virtual brace close that [insert_vbrace] makes for [pc] out of the
    frame [f]. *)
Definition vbrace_close_for (f : ParseFrame) (c : Chunk) : Chunk :=
  mkChunk CT_VBRACE_CLOSE (e_type (top f)) (frm_level f) (frm_brace_level f)
          (frm_pp_level f) (Z.land (c_flags c) PCF_COPY_FLAGS)
          (c_orig_line c) (c_orig_col c) 0 EmptyString None.

(** What [insert_vbrace(pc, true, frm)] does. *)
Lemma insert_vbrace_close_after_spec (pc : ChunkPtr) (s : State) :
  (IsNullChunk (chunks s) pc = false ->
     exists v s',
       insert_vbrace_close_after pc s = Ok (Some v) s'
       /\ lookup (chunks s) v = None
       /\ chunk_at (chunks s') (Some v) = vbrace_close_for (frm s) (chunk_at (chunks s) pc)
       /\ GetNext (chunks s') pc = Some v
       /\ GetPrev (chunks s') (Some v) = pc
       /\ GetNext (chunks s') (Some v) = GetNext (chunks s) pc
       /\ (forall q, IsNullChunk (chunks s) q = false ->
             chunk_at (chunks s') q = chunk_at (chunks s) q)
       /\ frm s' = frm s /\ braceState s' = braceState s /\ log s' = log s)
  /\ (IsNullChunk (chunks s) pc = true ->
        exists s', insert_vbrace_close_after pc s = Ok None s' /\ chunks s' = chunks s).
Proof.
  unfold insert_vbrace_close_after, insert_vbrace. split; intro Hn.
  - destruct pc as [a|]; [|discriminate]. simpl in Hn.
    destruct (lookup (chunks s) a) as [c|] eqn:Ea; [|discriminate].
    assert (Ha : lookup (chunks s) a <> None) by congruence.
    exists (fresh_id (chunks s)). eexists. split.
    { unfold CopyAndAddAfter. rewrite Ea. reflexivity. }
    simpl. split; [apply lookup_fresh_id|].
    split.
    { rewrite lookup_insert_after_new; [|apply lookup_fresh_id | exact Ha].
      rewrite Ea. reflexivity. }
    split.
    { unfold GetNext. simpl. now rewrite after_id_insert_after_ref. }
    split.
    { unfold GetPrev. simpl.
      apply before_acc_insert_after_new; [apply lookup_fresh_id | exact Ha]. }
    split.
    { unfold GetNext. simpl.
      rewrite after_id_insert_after_new; [reflexivity | apply lookup_fresh_id | exact Ha]. }
    split; [|repeat split].
    intros q Hq.
    pose proof (CopyAndAddAfter_old (chunks s)
                  (vbrace_close_for (frm s) c) (Some a) q Hq) as [_ H].
    unfold CopyAndAddAfter in H. rewrite Ea in H. rewrite Ea. exact H.
  - unfold CopyAndAddAfter.
    destruct pc as [a|]; simpl in *.
    + destruct (lookup (chunks s) a); [discriminate|].
      eexists. split; reflexivity.
    + eexists. split; reflexivity.
Qed.



(* ================================================================== *)
(** ** Comments in front of a statement that gets a virtual brace *)

(** The comments and newlines a list starts with. *)
Fixpoint leading_comments (l : ChunkList) : ChunkList :=
  match l with
  | (i, c) :: rest => if IsCommentOrNewline c then (i, c) :: leading_comments rest else []
  | [] => []
  end.

(** One level deeper. *)
Definition raised (r : Chunk) : Chunk :=
  SetBraceLevel (wrap64 (c_brace_level r + 1)) (SetLevel (wrap64 (c_level r + 1)) r).

Lemma leading_comments_incl (l : ChunkList) (x : ChunkId * Chunk) :
  In x (leading_comments l) -> In x l.
Proof.
  induction l as [|[i c] rest IH]; simpl; [tauto|].
  destruct (IsCommentOrNewline c); simpl; [|tauto].
  intros [H|H]; [now left | right; now apply IH].
Qed.

Lemma rewind_comments_levels (l : ChunkList) :
  forall cl,
    NoDup (ids l) ->
    (forall i c, In (i, c) l -> lookup cl i = Some c) ->
    (forall i c, In (i, c) (leading_comments l) ->
       lookup (fst (rewind_comments l cl)) i = Some (raised c))
    /\ (forall i, ~ In i (ids (leading_comments l)) ->
          lookup (fst (rewind_comments l cl)) i = lookup cl i).
Proof.
  induction l as [|[i c] rest IH]; intros cl Hnd Hl; simpl.
  - split; [intros ? ? []| reflexivity].
  - inversion Hnd as [|? ? Hni Hnd']; subst.
    destruct (IsCommentOrNewline c) eqn:Ec; simpl; [|split; [intros ? ? [] | reflexivity]].
    assert (Hl' : forall j d, In (j, d) rest -> lookup (update cl i raised) j = Some d).
    { intros j d Hin. rewrite lookup_update.
      destruct (Nat.eqb i j) eqn:E.
      - apply Nat.eqb_eq in E. subst j. elim Hni.
        change i with (fst (i, d)). now apply in_map.
      - apply Hl. now right. }
    destruct (IH (update cl i raised) Hnd' Hl') as [IH1 IH2].
    fold raised. split.
    + intros j d [H|H].
      * inversion H; subst j d. rewrite IH2.
        -- rewrite lookup_update, Nat.eqb_refl. rewrite (Hl i c (or_introl eq_refl)).
           reflexivity.
        -- intro Hin. apply Hni. unfold ids in Hin. apply in_map_iff in Hin.
           destruct Hin as ([j d] & Hj & Hin). simpl in Hj. subst j.
           change i with (fst (i, d)). apply in_map.
           now apply leading_comments_incl.
      * now apply IH1.
    + intros j Hj. rewrite IH2 by tauto.
      rewrite lookup_update.
      destruct (Nat.eqb i j) eqn:E; [|reflexivity].
      apply Nat.eqb_eq in E. subst j. elim Hj. now left.
Qed.

Lemma prefix_ids_nodup (l : list ChunkId) (p : ChunkId) :
  forall pre, prefix_ids l p = Some pre -> NoDup l -> NoDup pre.
Proof.
  induction l as [|i rest IH]; simpl; intros pre; [discriminate|].
  destruct (Nat.eqb i p).
  - intros H _. inversion H. constructor.
  - destruct (prefix_ids rest p) as [pre'|] eqn:E; simpl; [|discriminate].
    intros H Hnd. inversion H; subst. inversion Hnd as [|? ? Hni Hnd']; subst.
    constructor; [|now apply IH].
    intro Hin. apply Hni. clear -E Hin. revert pre' E Hin.
    induction rest as [|j r IHr]; simpl; intros pre' E Hin; [discriminate|].
    destruct (Nat.eqb j p); [inversion E; subst; destruct Hin|].
    destruct (prefix_ids r p) as [q|] eqn:E'; simpl in E; [|discriminate].
    inversion E; subst. destruct Hin as [->|Hin]; [now left | right; eauto].
Qed.

Lemma nodup_ids_before (cl : ChunkList) (p : ChunkPtr) :
  NoDup (ids cl) -> NoDup (ids (before cl p)).
Proof.
  intro Hnd. destruct p as [p|]; [|constructor].
  rewrite ids_before.
  destruct (prefix_ids (ids cl) p) as [pre|] eqn:E; [|constructor].
  apply NoDup_rev. eapply prefix_ids_nodup; eassumption.
Qed.

(** What [insert_vbrace(pc, false, frm)] leaves in the list. *)
Lemma insert_vbrace_open_cases (pc : ChunkPtr) (s : State) (p : ChunkPtr) (s' : State) :
  insert_vbrace_open_before pc s = Ok p s' ->
  let cl1 := fst (rewind_comments (before (chunks s) pc) (chunks s)) in
  (IsNullChunk (chunks s) (GetPrev (chunks s) pc) = true /\ chunks s' = chunks s)
  \/ chunks s' = cl1
  \/ exists c ref, chunks s' = fst (CopyAndAddAfter cl1 c ref).
Proof.
  unfold insert_vbrace_open_before, insert_vbrace.
  destruct (IsNullChunk (chunks s) (GetPrev (chunks s) pc)).
  { intro E. injection E as <- <-. left. now split. }
  cbv zeta.
  destruct (rewind_comments (before (chunks s) pc) (chunks s)) as [cl1 ref].
  cbn [fst snd].
  destruct (IsNullChunk cl1 ref).
  { intro E. injection E as <- <-. right. now left. }
  match goal with |- (if IsNullChunk cl1 ?r then _ else _) = _ -> _ =>
    destruct (IsNullChunk cl1 r) end.
  { intro E. injection E as <- <-. right. now left. }
  intro E. injection E as <- <-. right. right. eexists. eexists. reflexivity.
Qed.

(** When a virtual brace is to be opened in front of [pc], the comments and
    newlines that stand directly before [pc] go one level deeper, level and
    brace level both (they will be inside the braces); every other chunk of
    the list stays as it is.  This holds also when in the end no virtual
    brace is linked in. *)
Theorem comments_before_virtual_brace_are_raised
        (pc : ChunkPtr) (s : State) (p : ChunkPtr) (s' : State) :
  insert_vbrace_open_before pc s = Ok p s' ->
  NoDup (ids (chunks s)) ->
  let run := leading_comments (before (chunks s) pc) in
  (forall i c, In (i, c) run ->
     chunk_at (chunks s) (Some i) = c
     /\ chunk_at (chunks s') (Some i) = raised c)
  /\ (forall i, IsNullChunk (chunks s) (Some i) = false -> ~ In i (ids run) ->
        chunk_at (chunks s') (Some i) = chunk_at (chunks s) (Some i)).
Proof.
  intros E Hnd run. subst run.
  assert (Hin : forall i c, In (i, c) (before (chunks s) pc) -> lookup (chunks s) i = Some c).
  { intros i c H. apply lookup_of_in; [exact Hnd|]. eapply before_incl. exact H. }
  destruct (rewind_comments_levels (before (chunks s) pc) (chunks s)
              (nodup_ids_before _ _ Hnd) Hin) as [R1 R2].
  assert (Hold : forall i c, In (i, c) (leading_comments (before (chunks s) pc)) ->
                             chunk_at (chunks s) (Some i) = c).
  { intros i c H. simpl. now rewrite (Hin i c (leading_comments_incl _ _ H)). }
  destruct (insert_vbrace_open_cases pc s p s' E) as [[Hnull ->]|[->|(c & ref & ->)]].
  - assert (Hb : before (chunks s) pc = []).
    { destruct (before (chunks s) pc) as [|[i c] rest] eqn:Eb; [reflexivity|].
      unfold GetPrev in Hnull. rewrite Eb in Hnull. simpl in Hnull.
      rewrite (Hin i c (or_introl eq_refl)) in Hnull. discriminate. }
    rewrite Hb. simpl. split; [intros ? ? []| reflexivity].
  - split.
    + intros i c H. split; [now apply Hold|]. simpl. now rewrite (R1 i c H).
    + intros i _ Hni. simpl. now rewrite (R2 i Hni).
  - assert (Hkeep : forall i, IsNullChunk (chunks s) (Some i) = false ->
              chunk_at (fst (CopyAndAddAfter
                               (fst (rewind_comments (before (chunks s) pc) (chunks s)))
                               c ref)) (Some i)
              = chunk_at (fst (rewind_comments (before (chunks s) pc) (chunks s))) (Some i)).
    { intros i Hi. apply CopyAndAddAfter_old.
      rewrite (IsNullChunk_lookup_iff _ (chunks s) (Some i)); [exact Hi|].
      apply lookup_rewind_comments. }
    split.
    + intros i d H. split; [now apply Hold|].
      rewrite Hkeep.
      * simpl. now rewrite (R1 i d H).
      * simpl. now rewrite (Hin i d (leading_comments_incl _ _ H)).
    + intros i Hi Hni. rewrite (Hkeep i Hi). simpl. now rewrite (R2 i Hni).
Qed.

(** The theorem at work on the [y] of [if ( x )], newline, comment, [y ;]:
    newline and comment go to level 1, the paren before them stays. *)
Lemma comments_before_virtual_brace_are_raised_witness :
  exists p s',
    insert_vbrace_open_before (Some 6%nat) (state_after c_env 6 if_comment_stream) = Ok p s'
    /\ c_level (chunk_at (chunks s') (Some 5%nat)) = 1
    /\ c_level (chunk_at (chunks s') (Some 4%nat)) = 1
    /\ c_level (chunk_at (chunks s') (Some 3%nat)) = 0.
Proof.
  pose (s0 := state_after c_env 6 if_comment_stream).
  pose (o := insert_vbrace_open_before (Some 6%nat) s0).
  pose (s' := outcome_state s0 o).
  assert (E : insert_vbrace_open_before (Some 6%nat) s0 = Ok (Some 8%nat) s')
    by (vm_compute; reflexivity).
  assert (Hnd : NoDup (ids (chunks s0)))
    by (vm_compute; repeat constructor; simpl; intuition discriminate).
  assert (R5 : In (5%nat, tok CT_COMMENT "/* c */" 2 1)
                  (leading_comments (before (chunks s0) (Some 6%nat))))
    by (vm_compute; left; reflexivity).
  assert (R4 : In (4%nat, tok CT_NEWLINE "" 1 7)
                  (leading_comments (before (chunks s0) (Some 6%nat))))
    by (vm_compute; right; left; reflexivity).
  assert (N3 : IsNullChunk (chunks s0) (Some 3%nat) = false) by (vm_compute; reflexivity).
  assert (R3 : ~ In 3%nat (ids (leading_comments (before (chunks s0) (Some 6%nat)))))
    by (vm_compute; intuition discriminate).
  assert (L3 : c_level (chunk_at (chunks s0) (Some 3%nat)) = 0) by (vm_compute; reflexivity).
  change (state_after c_env 6 if_comment_stream) with s0.
  clearbody s'. clear o. clearbody s0.
  destruct (comments_before_virtual_brace_are_raised (Some 6%nat) s0 _ s' E Hnd) as [H1 H2].
  exists (Some 8%nat), s'. split; [exact E|].
  destruct (H1 _ _ R5) as [_ Q5]. destruct (H1 _ _ R4) as [_ Q4].
  split; [exact (f_equal c_level Q5)|]. split; [exact (f_equal c_level Q4)|].
  exact (eq_trans (f_equal c_level (H2 _ N3 R3)) L3).
Defined.

(* ================================================================== *)
(** ** The blocks of [parse_cleanup] that a chunk passes untouched *)

(** Running the monad without unfolding anything else. *)
Ltac mred := repeat progress (monad_unfold; cbv beta iota).

Lemma pc_vbrace_close_skip (env : Env) (pc : ChunkPtr) (s : State) :
  let c := chunk_at (chunks s) pc in
  tok_eqb (e_type (top (frm s))) CT_VBRACE_OPEN = false
  \/ (IsSemicolon c = false /\ Is CT_BRACE_CLOSE c = false) ->
  pc_vbrace_close env pc s = Ok tt s.
Proof.
  intros c H. subst c. unfold pc_vbrace_close. mrun.
  destruct H as [H|[H1 H2]].
  - now rewrite H.
  - rewrite H1, H2, !andb_false_r. now destruct (tok_eqb _ _).
Qed.

Lemma pc_close_skip (pc : ChunkPtr) (s : State) :
  is_closer (chunk_at (chunks s) pc) = false -> pc_close pc s = Ok tt s.
Proof. intro H. unfold pc_close. mrun. now rewrite H. Qed.

Lemma pc_wod_semi_skip (env : Env) (pc : ChunkPtr) (s : State) :
  e_stage (top (frm s)) <> WOD_SEMI -> pc_wod_semi env pc s = Ok tt s.
Proof.
  intro H. unfold pc_wod_semi. mrun.
  destruct (stage_eqb (e_stage (top (frm s))) WOD_SEMI) eqn:E; [|reflexivity].
  apply stage_eqb_eq in E. contradiction.
Qed.

Lemma pc_parent_skip (env : Env) (pc : ChunkPtr) (s : State) :
  let c := chunk_at (chunks s) pc in
  Is CT_PAREN_OPEN c || Is CT_FPAREN_OPEN c || Is CT_SPAREN_OPEN c || Is CT_BRACE_OPEN c
    = false ->
  pc_parent env pc s = Ok (c_parent_type c) s.
Proof. intros c H. subst c. unfold pc_parent. mrun. now rewrite H. Qed.

Lemma pc_open_skip (env : Env) (pc : ChunkPtr) (pt : E_Token) (s : State) :
  is_opener (chunk_at (chunks s) pc) = false -> pc_open env pc pt s = Ok tt s.
Proof. intro H. unfold pc_open. mrun. now rewrite H. Qed.

Lemma pc_switch_skip (pc : ChunkPtr) (s : State) :
  let c := chunk_at (chunks s) pc in
  Is CT_BRACE_OPEN c = false -> Is CT_CASE c = false -> Is CT_DEFAULT c = false ->
  Is CT_BREAK c = false ->
  pc_switch pc s = Ok tt s.
Proof.
  intros c H1 H2 H3 H4. subst c. unfold pc_switch. mrun.
  now rewrite H1, H2, H3, H4.
Qed.

Lemma pc_push_complex_skip (pc : ChunkPtr) (s : State) :
  get_token_pattern_class (c_type (chunk_at (chunks s) pc)) = PC_NONE ->
  pc_push_complex pc s = Ok tt s.
Proof. intro H. unfold pc_push_complex. mrun. now rewrite H. Qed.

(** The last block only resets the two counters. *)
Lemma pc_reset_counts_frame (pc : ChunkPtr) (s : State) :
  exists s',
    pc_reset_counts pc s = Ok tt s'
    /\ chunks s' = chunks s /\ braceState s' = braceState s /\ log s' = log s
    /\ pse (frm s') = pse (frm s)
    /\ frm_level (frm s') = frm_level (frm s)
    /\ frm_brace_level (frm s') = frm_brace_level (frm s)
    /\ sparen_count (frm s') = sparen_count (frm s).
Proof.
  unfold pc_reset_counts. mred.
  match goal with |- context [if ?b then _ else _] => destruct b end; mred;
    match goal with |- context [if ?b then _ else _] => destruct b end; mred;
    eexists; (split; [reflexivity|]); repeat split.
Qed.

(* ================================================================== *)
(** ** Lists of the same shape *)

(** The same chunks in the same order, each of the type it had: all that
    the walks along the list look at. *)
Definition same_shape (cl cl' : ChunkList) : Prop :=
  Forall2 (fun x y => fst x = fst y /\ c_type (snd x) = c_type (snd y)) cl cl'.

Lemma same_shape_refl (cl : ChunkList) : same_shape cl cl.
Proof. induction cl; constructor; auto. Qed.

Lemma same_shape_trans (a b c : ChunkList) :
  same_shape a b -> same_shape b c -> same_shape a c.
Proof.
  intros H. revert c. induction H as [|x y l l' [H1 H2] H IH]; intros c Hc.
  - inversion Hc. constructor.
  - inversion Hc as [|? z ? l'' [H3 H4] H5]; subst.
    constructor; [split; congruence | now apply IH].
Qed.

Lemma same_shape_update (cl : ChunkList) (i : ChunkId) (f : Chunk -> Chunk) :
  (forall c, c_type (f c) = c_type c) -> same_shape cl (update cl i f).
Proof.
  intro Hf. induction cl as [|[j c] rest IH]; simpl; [constructor|].
  destruct (Nat.eqb j i).
  - constructor; [split; simpl; auto | apply same_shape_refl].
  - constructor; [split; reflexivity | exact IH].
Qed.

Lemma same_shape_update_at (cl : ChunkList) (p : ChunkPtr) (f : Chunk -> Chunk) :
  (forall c, c_type (f c) = c_type c) -> same_shape cl (update_at cl p f).
Proof.
  intro Hf. destruct p; simpl; [now apply same_shape_update | apply same_shape_refl].
Qed.

Lemma same_shape_before_acc (cl cl' : ChunkList) (p : ChunkId) :
  same_shape cl cl' ->
  forall acc acc', same_shape acc acc' ->
    same_shape (before_acc cl p acc) (before_acc cl' p acc').
Proof.
  intro H. induction H as [|[i c] [j d] l l' [H1 H2] H IH]; intros acc acc' Ha; simpl.
  - constructor.
  - simpl in H1, H2. subst j.
    destruct (Nat.eqb i p); [exact Ha|].
    apply IH. constructor; [split; auto | exact Ha].
Qed.

Lemma same_shape_before (cl cl' : ChunkList) (p : ChunkPtr) :
  same_shape cl cl' -> same_shape (before cl p) (before cl' p).
Proof.
  intro H. destruct p as [p|]; simpl; [|constructor].
  apply same_shape_before_acc; [exact H | constructor].
Qed.

Lemma same_shape_after (cl cl' : ChunkList) (p : ChunkPtr) :
  same_shape cl cl' -> same_shape (after cl p) (after cl' p).
Proof.
  intro H. destruct p as [p|]; simpl; [|constructor].
  induction H as [|[i c] [j d] l l' [H1 H2] H IH]; simpl; [constructor|].
  simpl in H1. subst j. destruct (Nat.eqb i p); assumption.
Qed.

Lemma same_shape_first_such (P : Chunk -> bool) (l l' : ChunkList) :
  (forall c c', c_type c = c_type c' -> P c = P c') ->
  same_shape l l' -> first_such P l = first_such P l'.
Proof.
  intros HP H. unfold first_such.
  induction H as [|[i c] [j d] l l' [H1 H2] H IH]; simpl; [reflexivity|].
  simpl in H1, H2. subst j. rewrite (HP c d H2).
  destruct (P d); [reflexivity | exact IH].
Qed.

Lemma same_shape_lookup (cl cl' : ChunkList) (i : ChunkId) :
  same_shape cl cl' ->
  option_map c_type (lookup cl i) = option_map c_type (lookup cl' i).
Proof.
  intro H. induction H as [|[j c] [k d] l l' [H1 H2] H IH]; simpl; [reflexivity|].
  simpl in H1, H2. subst k. destruct (Nat.eqb j i); [simpl; now rewrite H2 | exact IH].
Qed.

(** The walks along the list go the same way in lists of the same shape. *)
Lemma same_shape_walks (cl cl' : ChunkList) (p : ChunkPtr) :
  same_shape cl cl' ->
  GetNext cl p = GetNext cl' p
  /\ GetPrev cl p = GetPrev cl' p
  /\ GetNextNc cl p = GetNextNc cl' p
  /\ GetPrevNc cl p = GetPrevNc cl' p
  /\ GetNextNcNnl cl p = GetNextNcNnl cl' p
  /\ GetPrevNcNnl cl p = GetPrevNcNnl cl' p.
Proof.
  intro H.
  pose proof (same_shape_before cl cl' p H) as Hb.
  pose proof (same_shape_after cl cl' p H) as Ha.
  assert (Hfirst : forall l l', same_shape l l' -> first_id l = first_id l').
  { intros l l' Hl. destruct Hl as [|[i c] [j d] ? ? [H1 _] _]; simpl; [reflexivity|].
    simpl in H1. now subst. }
  unfold GetNext, GetPrev, GetNextNc, GetPrevNc, GetNextNcNnl, GetPrevNcNnl.
  repeat split; try (now apply Hfirst);
    apply same_shape_first_such; try assumption;
    intros c c' E; unfold IsCommentOrNewline, IsComment, IsNewline, Is; now rewrite E.
Qed.

Definition shape_kept (s s' : State) : Prop := same_shape (chunks s) (chunks s').

#[local] Instance shape_flow : Flow shape_kept (fun s _ s' => shape_kept s s').
Proof.
  apply always_flow.
  - intro s. apply same_shape_refl.
  - intros s1 s2 s3. apply same_shape_trans.
Qed.

Ltac shape_leaf :=
  idtac;
  lazymatch goal with
  | |- ends _ _ (upd_chunk _ _) =>
      apply ends_modify; intro; apply same_shape_update_at; intro; reflexivity
  | |- ends _ _ (upd_frm _) => apply ends_modify; intro; apply same_shape_refl
  end.

Lemma shape_marks (pc : ChunkPtr) :
  always shape_kept (pc_mark_start pc ;;; pc_mark_sparen pc).
Proof. unfold pc_mark_start, pc_mark_sparen. ends_walk shape_leaf. Qed.

(** [parse_cleanup] once the two marking blocks are done: the stack, the
    levels and the shape of the list are what they were. *)
Lemma parse_cleanup_after_marks_shape (env : Env) (pc : ChunkPtr) (s : State) :
  exists s2,
    marks_only pc s s2
    /\ same_shape (chunks s) (chunks s2)
    /\ parse_cleanup env pc s =
       (t <- the_top ;;
        c <- the_chunk pc ;;
        done <- (if negb (stage_eqb (e_stage t) NONE) && negb (Is CT_AUTORELEASEPOOL c)
                 then check_complex_statements env pc else ret false) ;;
        if done then ret tt else parse_cleanup_rest env pc) s2.
Proof.
  destruct (marks_spec pc s) as (s2 & E & M).
  exists s2. split; [exact M|]. split.
  - pose proof (shape_marks pc s) as H. rewrite E in H. exact H.
  - unfold bind in E. unfold parse_cleanup. unfold bind at 1.
    destruct (pc_mark_start pc s) as [[] s1| | |]; try discriminate.
    unfold bind at 1. rewrite E. reflexivity.
Qed.

(* ================================================================== *)
(** ** The parens of a complex statement *)

(** With the statement waiting for its paren, an open paren passes the
    complex-statement check. *)
Lemma ccs_at_paren_open (env : Env) (pc : ChunkPtr) (s : State) :
  e_stage (top (frm s)) = PAREN1 \/ e_stage (top (frm s)) = WOD_PAREN ->
  Is CT_PAREN_OPEN (chunk_at (chunks s) pc) = true ->
  check_complex_statements env pc s = Ok false s.
Proof.
  intros Hst Hp.
  assert (Hc : Is CT_CONSTEXPR (chunk_at (chunks s) pc) = false).
  { unfold Is in *. apply tok_eqb_eq in Hp. rewrite Hp. reflexivity. }
  assert (Hb : IsNot CT_BRACE_OPEN (chunk_at (chunks s) pc) = true).
  { unfold IsNot, Is in *. apply tok_eqb_eq in Hp. rewrite Hp. reflexivity. }
  destruct Hst as [Hst|Hst]; ccs_unfold; mrun_with Hst;
    rewrite ?andb_false_r; mrun_with Hst;
    unfold IsNot; rewrite ?Hc, ?andb_false_r; simpl; rewrite ?Hst; simpl;
    rewrite Hp; reflexivity.
Qed.

Lemma pc_parent_keyword (env : Env) (pc : ChunkPtr) (s : State) :
  let c := chunk_at (chunks s) pc in
  let prev := GetPrevNcNnl (chunks s) pc in
  Is CT_PAREN_OPEN c = true ->
  IsNullChunk (chunks s) prev = false ->
  is_sparen_keyword (chunk_at (chunks s) prev) = true ->
  pc_parent env pc s =
    Ok (e_type (top (frm s)))
       (set_frm (set_sparen_count (wrap64 (sparen_count (frm s) + 1)) (frm s))
          (set_chunks (update_at (chunks s) pc (SetType CT_SPAREN_OPEN)) s)).
Proof.
  intros c prev Hp Hn Hk. subst c prev.
  unfold pc_parent. mred. rewrite Hp. cbn [orb]. mred.
  rewrite Hn. cbn [negb]. mred. rewrite ?Hp. cbn [orb]. mred.
  rewrite Hk. mred. reflexivity.
Qed.

(** The state after the block "adjust the level for opens and create a
    stack entry", for an opener that is no brace. *)
Definition opened (pc : ChunkPtr) (parentType : E_Token) (s : State) : State :=
  set_chunks (update_at (chunks s) pc (SetParentType parentType))
    (set_frm (set_top (set_e_parent parentType)
                (frm_push (chunks s) pc NONE
                   (set_frm_level (wrap64 (frm_level (frm s) + 1)) (frm s)))) s).

Lemma pc_open_paren (env : Env) (pc : ChunkPtr) (pt : E_Token) (s : State) :
  let c := chunk_at (chunks s) pc in
  is_opener c = true ->
  Is CT_BRACE_OPEN c || Is CT_MACRO_OPEN c = false ->
  pc_open env pc pt s = Ok tt (opened pc pt s).
Proof.
  intros c Ho Hb. subst c. unfold pc_open. mred. rewrite Ho, Hb. mred. reflexivity.
Qed.

(** The open paren that follows the keyword of a complex statement ([if],
    [for], [while], [switch], ...), met while the statement waits for its
    paren: [parse_cleanup] makes it a statement paren whose parent is the
    statement, counts it in [sparen_count], goes one level deeper (the
    brace level stays) and pushes an entry for it. *)
Theorem statement_paren_is_opened (env : Env) (pc : ChunkPtr) (s : State) :
  let c := chunk_at (chunks s) pc in
  let t := top (frm s) in
  let prev := GetPrevNcNnl (chunks s) pc in
  IsNullChunk (chunks s) pc = false ->
  c_type c = CT_PAREN_OPEN ->
  e_stage t = PAREN1 \/ e_stage t = WOD_PAREN ->
  IsNullChunk (chunks s) prev = false ->
  is_sparen_keyword (chunk_at (chunks s) prev) = true ->
  exists s',
    parse_cleanup env pc s = Ok tt s'
    /\ c_type (chunk_at (chunks s') pc) = CT_SPAREN_OPEN
    /\ c_parent_type (chunk_at (chunks s') pc) = e_type t
    /\ pse (frm s') = mkEntry CT_SPAREN_OPEN (e_type t) NONE pc :: pse (frm s)
    /\ frm_level (frm s') = wrap64 (frm_level (frm s) + 1)
    /\ frm_brace_level (frm s') = frm_brace_level (frm s)
    /\ sparen_count (frm s') = wrap64 (sparen_count (frm s) + 1)
    /\ log s' = log s.
Proof.
  intros c t prev Hn Hty Hst Hpn Hkw. subst c t prev.
  destruct (parse_cleanup_after_marks_shape env pc s) as (s2 & M & Hsh & E).
  destruct M as [Mpse Mlev Mblev Msp Mbs Mlog Mtype Mstr Mline Mcol Mprep Mnull].
  destruct (same_shape_walks _ _ pc Hsh) as (_ & _ & _ & _ & _ & Wprev).
  assert (Htop : top (frm s2) = top (frm s)) by (unfold top; now rewrite Mpse).
  assert (Hn2 : IsNullChunk (chunks s2) pc = false) by now rewrite Mnull.
  assert (Hp2 : Is CT_PAREN_OPEN (chunk_at (chunks s2) pc) = true)
    by (unfold Is; rewrite Mtype, Hty; reflexivity).
  assert (Hst2 : e_stage (top (frm s2)) = PAREN1 \/ e_stage (top (frm s2)) = WOD_PAREN)
    by now rewrite Htop.
  assert (Hty2 : c_type (chunk_at (chunks s2) pc) = CT_PAREN_OPEN) by now rewrite Mtype.
  assert (Hpn2 : IsNullChunk (chunks s2) (GetPrevNcNnl (chunks s2) pc) = false)
    by now rewrite <- Wprev, Mnull.
  assert (Hkw2 : is_sparen_keyword (chunk_at (chunks s2) (GetPrevNcNnl (chunks s2) pc)) = true)
    by (rewrite <- Wprev; unfold is_sparen_keyword, Is in *; now rewrite Mtype).
  rewrite E. clear E.
  unfold bind at 1, the_top at 1, gets at 1.
  unfold bind at 1, the_chunk at 1, gets at 1.
  assert (Hgo : negb (stage_eqb (e_stage (top (frm s2))) NONE)
                && negb (Is CT_AUTORELEASEPOOL (chunk_at (chunks s2) pc)) = true).
  { unfold Is. rewrite Hty2. destruct Hst2 as [-> | ->]; reflexivity. }
  rewrite Hgo. unfold bind at 1. rewrite (ccs_at_paren_open env pc s2 Hst2 Hp2).
  unfold parse_cleanup_rest.
  unfold bind at 1. rewrite pc_vbrace_close_skip
    by (right; unfold IsSemicolon, Is; rewrite Hty2; split; reflexivity).
  unfold bind at 1. rewrite pc_close_skip
    by (unfold is_closer, Is; rewrite Hty2; reflexivity).
  unfold bind at 1. rewrite pc_wod_semi_skip
    by (destruct Hst2 as [-> | ->]; discriminate).
  unfold bind at 1. rewrite (pc_parent_keyword env pc s2 Hp2 Hpn2 Hkw2).
  set (s3 := set_frm _ (set_chunks _ s2)).
  assert (C3 : chunk_at (chunks s3) pc = SetType CT_SPAREN_OPEN (chunk_at (chunks s2) pc))
    by (subst s3; simpl; now apply chunk_at_update_at_same).
  unfold bind at 1. rewrite pc_open_paren by (rewrite C3; reflexivity).
  set (s4 := opened pc _ s3).
  assert (N3 : IsNullChunk (chunks s3) pc = false)
    by (subst s3; simpl; now rewrite IsNullChunk_update_at).
  assert (C4 : chunk_at (chunks s4) pc
               = SetParentType (e_type (top (frm s2)))
                   (SetType CT_SPAREN_OPEN (chunk_at (chunks s2) pc)))
    by (subst s4; unfold opened; cbn [chunks set_chunks];
        rewrite chunk_at_update_at_same by exact N3; now rewrite C3).
  unfold bind at 1. rewrite pc_switch_skip by (rewrite C4; reflexivity).
  unfold bind at 1. rewrite pc_push_complex_skip by (rewrite C4; reflexivity).
  destruct (pc_reset_counts_frame pc s4) as (s5 & Ef & Fc & _ & Flog & Fp & Fl & Fb & Fs).
  rewrite Ef. exists s5. split; [reflexivity|].
  assert (P4 : pse (frm s4)
               = mkEntry CT_SPAREN_OPEN (e_type (top (frm s2))) NONE pc :: pse (frm s2)).
  { subst s4. unfold opened, frm_push, set_top. cbn [frm set_frm set_chunks pse set_pse
      set_frm_level chunks]. rewrite C3. reflexivity. }
  rewrite Fc, Flog, C4, Fp, Fl, Fb, Fs, P4.
  subst s4 s3. unfold opened, frm_push, set_top. simpl.
  rewrite Htop, Mpse, Mlev, Mblev, Msp, Mlog.
  repeat split.
Qed.

(** The theorem at work on the paren of [while ( x ) y ;]. *)
Lemma statement_paren_is_opened_witness :
  exists s',
    parse_cleanup c_env (Some 1%nat) (state_after c_env 1 while_stream) = Ok tt s'
    /\ c_type (chunk_at (chunks s') (Some 1%nat)) = CT_SPAREN_OPEN
    /\ c_parent_type (chunk_at (chunks s') (Some 1%nat)) = CT_WHILE
    /\ map e_type (pse (frm s')) = [CT_SPAREN_OPEN; CT_WHILE; CT_EOF]
    /\ frm_level (frm s') = 1
    /\ sparen_count (frm s') = 1.
Proof.
  pose (s0 := state_after c_env 1 while_stream).
  assert (H1 : IsNullChunk (chunks s0) (Some 1%nat) = false) by (vm_compute; reflexivity).
  assert (H2 : c_type (chunk_at (chunks s0) (Some 1%nat)) = CT_PAREN_OPEN)
    by (vm_compute; reflexivity).
  assert (H3 : e_stage (top (frm s0)) = PAREN1) by (vm_compute; reflexivity).
  assert (H4 : IsNullChunk (chunks s0) (GetPrevNcNnl (chunks s0) (Some 1%nat)) = false)
    by (vm_compute; reflexivity).
  assert (H5 : is_sparen_keyword
                 (chunk_at (chunks s0) (GetPrevNcNnl (chunks s0) (Some 1%nat))) = true)
    by (vm_compute; reflexivity).
  assert (F1 : e_type (top (frm s0)) = CT_WHILE) by (vm_compute; reflexivity).
  assert (F2 : map e_type (pse (frm s0)) = [CT_WHILE; CT_EOF]) by (vm_compute; reflexivity).
  assert (F3 : frm_level (frm s0) = 0) by (vm_compute; reflexivity).
  assert (F4 : sparen_count (frm s0) = 0) by (vm_compute; reflexivity).
  change (state_after c_env 1 while_stream) with s0. clearbody s0.
  destruct (statement_paren_is_opened c_env (Some 1%nat) s0 H1 H2 (or_introl H3) H4 H5)
    as (s' & E & T1 & T2 & T3 & T4 & _ & T6 & _).
  exists s'. split; [exact E|]. split; [exact T1|]. split; [now rewrite T2|].
  split; [rewrite T3; simpl; now rewrite F2|].
  split; [now rewrite T4, F3 | now rewrite T6, F4].
Defined.

Lemma GetNext_ids (cl cl' : ChunkList) (p : ChunkPtr) :
  ids cl = ids cl' -> GetNext cl p = GetNext cl' p.
Proof.
  intro H. unfold GetNext. rewrite !first_id_ids.
  destruct p as [p|]; simpl; [|reflexivity].
  now rewrite !ids_after_id, H.
Qed.

Lemma TestFlags_ResetFlagBits_same (m : Z) (c : Chunk) :
  TestFlags m (ResetFlagBits m c) = false.
Proof.
  unfold TestFlags, ResetFlagBits. cbn [c_flags SetFlags].
  replace (Z.land (Z.ldiff (c_flags c) m) m) with 0; [reflexivity|].
  symmetry. apply Z.bits_inj'. intros n Hn.
  rewrite Z.land_spec, Z.ldiff_spec, Z.bits_0.
  now destruct (Z.testbit (c_flags c) n), (Z.testbit m n).
Qed.

#[local] Arguments close_statement : simpl never.
#[local] Arguments handle_complex_close : simpl never.

(** Running the monad and reading fields of states just built, nothing
    else. *)
Ltac mcbn :=
  mred;
  cbn [andb orb negb fst snd
       chunks frm braceState log set_chunks set_frm set_braceState set_log
       consumed frames in_preproc pp_level
       pse frm_level frm_brace_level frm_pp_level sparen_count stmt_count expr_count
       set_pse set_frm_level set_frm_brace_level set_sparen_count set_stmt_count
       set_expr_count].

(** Comparisons of two given token types or stages. *)
Ltac tok_consts :=
  repeat match goal with
         | |- context [tok_eqb ?a ?b] =>
             is_constructor a; is_constructor b;
             let v := eval vm_compute in (tok_eqb a b) in
             change (tok_eqb a b) with v
         | |- context [is_succ_of ?a ?b] =>
             is_constructor a; is_constructor b;
             let v := eval vm_compute in (is_succ_of a b) in
             change (is_succ_of a b) with v
         | |- context [stage_eqb ?a ?b] =>
             is_constructor a; is_constructor b;
             let v := eval vm_compute in (stage_eqb a b) in
             change (stage_eqb a b) with v
         end.

Lemma c_type_ResetFlagBits (m : Z) (c : Chunk) : c_type (ResetFlagBits m c) = c_type c.
Proof. reflexivity. Qed.

Lemma c_type_SetFlagBits (m : Z) (c : Chunk) : c_type (SetFlagBits m c) = c_type c.
Proof. reflexivity. Qed.

(** Reading the chunk [pc] back after it was written through [pc]. *)
Ltac read_back :=
  repeat (rewrite chunk_at_update_at_same by (rewrite ?IsNullChunk_update_at; assumption));
  rewrite ?c_type_ResetFlagBits, ?c_type_SetFlagBits;
  cbn [c_type c_parent_type c_level c_brace_level SetType SetParentType SetLevel
       SetBraceLevel SetParent].

Lemma update_fuse (cl : ChunkList) (i : ChunkId) (f g : Chunk -> Chunk) :
  update (update cl i f) i g = update cl i (fun c => g (f c)).
Proof.
  induction cl as [|[j c] rest IH]; simpl; [reflexivity|].
  destruct (Nat.eqb j i) eqn:E; simpl; rewrite E; [reflexivity | now rewrite IH].
Qed.

Lemma update_at_fuse (cl : ChunkList) (p : ChunkPtr) (f g : Chunk -> Chunk) :
  update_at (update_at cl p f) p g = update_at cl p (fun c => g (f c)).
Proof. destruct p; simpl; [apply update_fuse | reflexivity]. Qed.

Lemma chunk_at_update_at_cases (cl : ChunkList) (p q : ChunkPtr) (f : Chunk -> Chunk) :
  chunk_at (update_at cl p f) q = chunk_at cl q
  \/ (q = p /\ chunk_at (update_at cl p f) q = f (chunk_at cl q)).
Proof.
  destruct p as [i|], q as [j|]; simpl; auto.
  rewrite lookup_update. destruct (Nat.eqb i j) eqn:E; [|now left].
  apply Nat.eqb_eq in E. subst j.
  destruct (lookup cl i); simpl; [right | left]; auto.
Qed.

Lemma top_after_pop (f : ParseFrame) : hd eof_entry (tl (pse f)) = prev_entry f.
Proof. unfold prev_entry. now destruct (pse f) as [|a [|b l]]. Qed.

(** Closing the parens of a statement moves it on to its body, unless
    [when] follows. *)
Lemma handle_complex_close_at_paren1 (pc : ChunkPtr) (s : State) :
  e_stage (top (frm s)) = PAREN1 ->
  c_type (chunk_at (chunks s) (GetNext (chunks s) pc)) <> CT_WHEN ->
  handle_complex_close pc s
    = Ok false (set_frm (set_top (set_e_stage BRACE2) (frm s)) s).
Proof.
  intros Hst Hw. unfold handle_complex_close, handle_complex_close_body.
  mcbn. rewrite Hst. mcbn.
  apply tok_eqb_neq in Hw. rewrite Hw. reflexivity.
Qed.

Lemma pc_close_statement_paren (pc : ChunkPtr) (s : State) :
  let c := chunk_at (chunks s) pc in
  let t := top (frm s) in
  let below := prev_entry (frm s) in
  IsNullChunk (chunks s) pc = false ->
  c_type c = CT_PAREN_CLOSE ->
  e_type t = CT_SPAREN_OPEN ->
  e_stage below = PAREN1 ->
  c_type (chunk_at (chunks s) (GetNext (chunks s) pc)) <> CT_WHEN ->
  exists s',
    pc_close pc s = Ok tt s'
    /\ chunk_at (chunks s') pc
       = SetBraceLevel (frm_brace_level (frm s))
           (SetLevel (wrap64 (frm_level (frm s) - 1))
              (SetParentType (e_parent t)
                 (ResetFlagBits PCF_IN_SPAREN (SetType CT_SPAREN_CLOSE c))))
    /\ pse (frm s') = set_e_stage BRACE2 below :: tl (tl (pse (frm s)))
    /\ frm_level (frm s') = wrap64 (frm_level (frm s) - 1)
    /\ frm_brace_level (frm s') = frm_brace_level (frm s)
    /\ sparen_count (frm s') = wrap64 (sparen_count (frm s) - 1)
    /\ consumed (braceState s') = true
    /\ log s' = log s.
Proof.
  intros c t below Hn Hty Ht Hb Hw. subst c t below.
  unfold pc_close. mcbn.
  unfold is_closer, Is. rewrite Hty. tok_consts. mcbn.
  rewrite Ht. tok_consts. mcbn.
  unfold SetType_succ. cbn [tok_succ]. read_back. tok_consts. mcbn.
  read_back. tok_consts. mcbn. read_back. tok_consts. mcbn.
  rewrite !andb_false_r. cbn [andb]. mcbn.
  unfold top at 1, frm_pop at 1. cbn [pse set_pse set_frm_level set_sparen_count].
  rewrite top_after_pop, Hb. tok_consts. mcbn.
  rewrite !update_at_fuse.
  match goal with |- context [handle_complex_close pc ?s1] => set (sm := s1) end.
  assert (Hst : e_stage (top (frm sm)) = PAREN1).
  { subst sm. unfold top, frm_pop. cbn [frm set_frm set_chunks set_braceState pse set_pse
      set_frm_level set_sparen_count]. now rewrite top_after_pop. }
  assert (Hnx : c_type (chunk_at (chunks sm) (GetNext (chunks sm) pc)) <> CT_WHEN).
  { subst sm. cbn [chunks set_frm set_chunks set_braceState].
    rewrite (GetNext_ids _ (chunks s)) by apply ids_update_at.
    match goal with |- context [chunk_at (update_at ?cl ?p ?f) ?q] =>
      destruct (chunk_at_update_at_cases cl p q f) as [E|[_ E]]; rewrite E end;
      [exact Hw | discriminate]. }
  rewrite (handle_complex_close_at_paren1 pc sm Hst Hnx).
  eexists. split; [reflexivity|].
  subst sm. clear Hst Hnx.
  cbn [chunks frm braceState log set_frm set_chunks set_braceState consumed].
  read_back.
  unfold set_top, frm_pop, prev_entry in *.
  cbn [pse set_pse set_frm_level set_sparen_count frm_level frm_brace_level sparen_count].
  destruct (pse (frm s)) as [|a [|b rest]]; simpl in Hb; try discriminate.
  cbn [tl nth pse set_pse frm_level frm_brace_level sparen_count].
  repeat split.
Qed.

(** The close paren that meets the entry of a statement paren, the
    statement below it still in stage [PAREN1] and no [when] coming:
    [parse_cleanup] makes it a statement paren close that is no longer
    [PCF_IN_SPAREN], copies the parent type from the entry, takes
    [sparen_count] and the level back by one, pops the entry and moves the
    statement on to stage [BRACE2]; the chunk counts as consumed. *)
Theorem statement_paren_is_closed (env : Env) (pc : ChunkPtr) (s : State) :
  let c := chunk_at (chunks s) pc in
  let t := top (frm s) in
  let below := prev_entry (frm s) in
  IsNullChunk (chunks s) pc = false ->
  c_type c = CT_PAREN_CLOSE ->
  e_type t = CT_SPAREN_OPEN ->
  e_stage t = NONE ->
  e_stage below = PAREN1 ->
  c_type (chunk_at (chunks s) (GetNext (chunks s) pc)) <> CT_WHEN ->
  exists s',
    parse_cleanup env pc s = Ok tt s'
    /\ c_type (chunk_at (chunks s') pc) = CT_SPAREN_CLOSE
    /\ c_parent_type (chunk_at (chunks s') pc) = e_parent t
    /\ TestFlags PCF_IN_SPAREN (chunk_at (chunks s') pc) = false
    /\ c_level (chunk_at (chunks s') pc) = wrap64 (frm_level (frm s) - 1)
    /\ pse (frm s') = set_e_stage BRACE2 below :: tl (tl (pse (frm s)))
    /\ frm_level (frm s') = wrap64 (frm_level (frm s) - 1)
    /\ frm_brace_level (frm s') = frm_brace_level (frm s)
    /\ sparen_count (frm s') = wrap64 (sparen_count (frm s) - 1)
    /\ consumed (braceState s') = true
    /\ log s' = log s.
Proof.
  intros c t below Hn Hty Ht Hst Hb Hw. subst c t below.
  destruct (parse_cleanup_after_marks_shape env pc s) as (s2 & M & Hsh & E).
  destruct M as [Mpse Mlev Mblev Msp Mbs Mlog Mtype Mstr Mline Mcol Mprep Mnull].
  destruct (same_shape_walks _ _ pc Hsh) as (Wnext & _).
  assert (Htop : top (frm s2) = top (frm s)) by (unfold top; now rewrite Mpse).
  assert (Hbel : prev_entry (frm s2) = prev_entry (frm s))
    by (unfold prev_entry; now rewrite Mpse).
  assert (Hn2 : IsNullChunk (chunks s2) pc = false) by now rewrite Mnull.
  assert (Hty2 : c_type (chunk_at (chunks s2) pc) = CT_PAREN_CLOSE) by now rewrite Mtype.
  assert (Ht2 : e_type (top (frm s2)) = CT_SPAREN_OPEN) by now rewrite Htop.
  assert (Hb2 : e_stage (prev_entry (frm s2)) = PAREN1) by now rewrite Hbel.
  assert (Hw2 : c_type (chunk_at (chunks s2) (GetNext (chunks s2) pc)) <> CT_WHEN)
    by now rewrite <- Wnext, Mtype.
  rewrite E. clear E.
  unfold bind at 1, the_top at 1, gets at 1.
  unfold bind at 1, the_chunk at 1, gets at 1.
  rewrite Htop, Hst. tok_consts. cbn [negb andb].
  unfold bind at 1, ret at 1.
  unfold parse_cleanup_rest.
  unfold bind at 1. rewrite pc_vbrace_close_skip by (left; now rewrite Ht2).
  destruct (pc_close_statement_paren pc s2 Hn2 Hty2 Ht2 Hb2 Hw2)
    as (s3 & E3 & C3 & P3 & L3 & B3 & S3 & K3 & G3).
  unfold bind at 1. rewrite E3.
  assert (T3 : c_type (chunk_at (chunks s3) pc) = CT_SPAREN_CLOSE) by now rewrite C3.
  unfold bind at 1. rewrite pc_wod_semi_skip
    by (unfold top; rewrite P3; discriminate).
  unfold bind at 1. rewrite pc_parent_skip by (unfold Is; rewrite T3; reflexivity).
  unfold bind at 1. rewrite pc_open_skip by (unfold is_opener, Is; rewrite T3; reflexivity).
  unfold bind at 1. rewrite pc_switch_skip by (unfold Is; rewrite T3; reflexivity).
  unfold bind at 1. rewrite pc_push_complex_skip by (rewrite T3; reflexivity).
  destruct (pc_reset_counts_frame pc s3) as (s4 & E4 & Fc & Fbs & Flog & Fp & Fl & Fb & Fs).
  rewrite E4. exists s4. split; [reflexivity|].
  rewrite Fc, Fbs, Flog, Fp, Fl, Fb, Fs, C3, P3, L3, B3, S3, K3, G3.
  rewrite Htop, Hbel, Mpse, Mlev, Mblev, Msp, Mlog.
  repeat split.
  apply TestFlags_ResetFlagBits_same.
Qed.

(** The theorem at work on the close paren of [while ( x ) y ;]. *)
Lemma statement_paren_is_closed_witness :
  exists s',
    parse_cleanup c_env (Some 3%nat) (state_after c_env 3 while_stream) = Ok tt s'
    /\ c_type (chunk_at (chunks s') (Some 3%nat)) = CT_SPAREN_CLOSE
    /\ c_parent_type (chunk_at (chunks s') (Some 3%nat)) = CT_WHILE
    /\ TestFlags PCF_IN_SPAREN (chunk_at (chunks s') (Some 3%nat)) = false
    /\ pse (frm s') = [mkEntry CT_WHILE CT_NONE BRACE2 (Some 0%nat); eof_entry]
    /\ frm_level (frm s') = 0
    /\ sparen_count (frm s') = 0.
Proof.
  pose (s0 := state_after c_env 3 while_stream).
  assert (H1 : IsNullChunk (chunks s0) (Some 3%nat) = false) by (vm_compute; reflexivity).
  assert (H2 : c_type (chunk_at (chunks s0) (Some 3%nat)) = CT_PAREN_CLOSE)
    by (vm_compute; reflexivity).
  assert (H3 : e_type (top (frm s0)) = CT_SPAREN_OPEN) by (vm_compute; reflexivity).
  assert (H4 : e_stage (top (frm s0)) = NONE) by (vm_compute; reflexivity).
  assert (H5 : e_stage (prev_entry (frm s0)) = PAREN1) by (vm_compute; reflexivity).
  assert (H6 : c_type (chunk_at (chunks s0) (GetNext (chunks s0) (Some 3%nat))) <> CT_WHEN)
    by (vm_compute; discriminate).
  assert (F1 : e_parent (top (frm s0)) = CT_WHILE) by (vm_compute; reflexivity).
  assert (F2 : set_e_stage BRACE2 (prev_entry (frm s0)) :: tl (tl (pse (frm s0)))
               = [mkEntry CT_WHILE CT_NONE BRACE2 (Some 0%nat); eof_entry])
    by (vm_compute; reflexivity).
  assert (F3 : wrap64 (frm_level (frm s0) - 1) = 0) by (vm_compute; reflexivity).
  assert (F4 : wrap64 (sparen_count (frm s0) - 1) = 0) by (vm_compute; reflexivity).
  change (state_after c_env 3 while_stream) with s0. clearbody s0.
  destruct (statement_paren_is_closed c_env (Some 3%nat) s0 H1 H2 H3 H4 H5 H6)
    as (s' & E & T1 & T2 & T3 & _ & T5 & T6 & _ & T8 & _).
  exists s'. split; [exact E|]. split; [exact T1|]. split; [now rewrite T2|].
  split; [exact T3|]. split; [now rewrite T5|].
  split; [now rewrite T6 | now rewrite T8].
Defined.

(* ================================================================== *)
(** ** [else if] *)

Lemma ccs_at_else_if (env : Env) (pc : ChunkPtr) (s : State) :
  let c := chunk_at (chunks s) pc in
  e_stage (top (frm s)) = ELSEIF ->
  c_type c = CT_IF ->
  indent_else_if env = false
  \/ IsNewline (chunk_at (chunks s) (GetPrevNc (chunks s) pc)) = false ->
  check_complex_statements env pc s =
    Ok true (set_frm (set_top (fun e => set_e_stage PAREN1 (set_e_type CT_ELSEIF e)) (frm s))
               (set_chunks (update_at (chunks s) pc (SetType CT_ELSEIF)) s)).
Proof.
  intros c Hst Hty Hopt. subst c.
  unfold check_complex_statements, ccs_op_paren1. mcbn. rewrite Hst. tok_consts. mcbn.
  unfold or_continue, loop_fuel. mcbn. unfold ccs_else_loop. mcbn.
  rewrite Hst. tok_consts. mcbn.
  unfold ccs_elseif. mcbn. rewrite Hst. tok_consts. mcbn.
  unfold Is at 1. rewrite Hty. tok_consts. cbn [andb].
  assert (Hg : negb (indent_else_if env)
               || negb (IsNewline (chunk_at (chunks s) (GetPrevNc (chunks s) pc))) = true).
  { destruct Hopt as [H|H]; rewrite H; [reflexivity | apply orb_true_r]. }
  rewrite Hg. mcbn. reflexivity.
Qed.

(** An [if] that follows [else] (the option [indent_else_if] off, or no
    newline between the two) is not a statement of its own: [parse_cleanup]
    retypes the chunk [CT_ELSEIF] and the entry of the [else] becomes the
    entry of the [else if], waiting for its paren; nothing is pushed and
    the levels stay. *)
Theorem else_if_is_merged (env : Env) (pc : ChunkPtr) (s : State) :
  let c := chunk_at (chunks s) pc in
  let t := top (frm s) in
  e_stage t = ELSEIF ->
  c_type c = CT_IF ->
  indent_else_if env = false
  \/ IsNewline (chunk_at (chunks s) (GetPrevNc (chunks s) pc)) = false ->
  exists s',
    parse_cleanup env pc s = Ok tt s'
    /\ c_type (chunk_at (chunks s') pc) = CT_ELSEIF
    /\ pse (frm s') = set_e_stage PAREN1 (set_e_type CT_ELSEIF t) :: tl (pse (frm s))
    /\ frm_level (frm s') = frm_level (frm s)
    /\ frm_brace_level (frm s') = frm_brace_level (frm s)
    /\ log s' = log s.
Proof.
  intros c t Hst Hty Hopt. subst c t.
  destruct (parse_cleanup_after_marks_shape env pc s) as (s2 & M & Hsh & E).
  destruct M as [Mpse Mlev Mblev Msp Mbs Mlog Mtype Mstr Mline Mcol Mprep Mnull].
  destruct (same_shape_walks _ _ pc Hsh) as (_ & _ & _ & Wprev & _).
  assert (Htop : top (frm s2) = top (frm s)) by (unfold top; now rewrite Mpse).
  assert (Hst2 : e_stage (top (frm s2)) = ELSEIF) by now rewrite Htop.
  assert (Hty2 : c_type (chunk_at (chunks s2) pc) = CT_IF) by now rewrite Mtype.
  assert (Hopt2 : indent_else_if env = false
                  \/ IsNewline (chunk_at (chunks s2) (GetPrevNc (chunks s2) pc)) = false).
  { destruct Hopt as [H|H]; [now left | right].
    rewrite <- Wprev. unfold IsNewline, Is in *. now rewrite Mtype. }
  assert (Hnn : IsNullChunk (chunks s2) pc = false).
  { destruct (IsNullChunk (chunks s2) pc) eqn:N; [|reflexivity].
    unfold IsNullChunk in N. unfold chunk_at in Hty2.
    destruct pc as [i|]; [destruct (lookup (chunks s2) i)|]; discriminate. }
  rewrite E. clear E.
  unfold bind at 1, the_top at 1, gets at 1.
  unfold bind at 1, the_chunk at 1, gets at 1.
  rewrite Hst2. unfold Is at 1. rewrite Hty2. tok_consts. cbn [negb andb].
  unfold bind at 1. rewrite (ccs_at_else_if env pc s2 Hst2 Hty2 Hopt2).
  eexists. split; [reflexivity|].
  cbn [chunks frm log set_frm set_chunks].
  rewrite chunk_at_update_at_same by exact Hnn.
  rewrite Mlog, <- Mlev, <- Mblev. unfold set_top, top. rewrite Mpse.
  destruct (pse (frm s)) as [|a rest] eqn:P.
  - unfold top in Hst. rewrite P in Hst. discriminate.
  - cbn. repeat split.
Qed.

(** The theorem at work on the second [if] of
    [if ( a ) { } else if ( b ) { }]. *)
Lemma else_if_is_merged_witness :
  exists s',
    parse_cleanup c_env (Some 7%nat) (state_after c_env 7 else_if_stream) = Ok tt s'
    /\ c_type (chunk_at (chunks s') (Some 7%nat)) = CT_ELSEIF
    /\ pse (frm s') = [mkEntry CT_ELSEIF CT_NONE PAREN1 (Some 0%nat); eof_entry].
Proof.
  pose (s0 := state_after c_env 7 else_if_stream).
  assert (H1 : e_stage (top (frm s0)) = ELSEIF) by (vm_compute; reflexivity).
  assert (H2 : c_type (chunk_at (chunks s0) (Some 7%nat)) = CT_IF)
    by (vm_compute; reflexivity).
  assert (F1 : set_e_stage PAREN1 (set_e_type CT_ELSEIF (top (frm s0))) :: tl (pse (frm s0))
               = [mkEntry CT_ELSEIF CT_NONE PAREN1 (Some 0%nat); eof_entry])
    by (vm_compute; reflexivity).
  change (state_after c_env 7 else_if_stream) with s0. clearbody s0.
  destruct (else_if_is_merged c_env (Some 7%nat) s0 H1 H2 (or_introl eq_refl))
    as (s' & E & T1 & T2 & _).
  exists s'. split; [exact E|]. split; [exact T1 | now rewrite T2].
Defined.

Lemma ccs_at_else (env : Env) (pc : ChunkPtr) (s : State) :
  e_stage (top (frm s)) = ELSE ->
  c_type (chunk_at (chunks s) pc) = CT_ELSE ->
  check_complex_statements env pc s =
    Ok true (set_frm (set_top (fun e => set_e_stage ELSEIF (set_e_type CT_ELSE e)) (frm s)) s).
Proof.
  intros Hst Hty.
  unfold check_complex_statements, ccs_op_paren1. mcbn. rewrite Hst. tok_consts. mcbn.
  unfold or_continue, loop_fuel. mcbn. unfold ccs_else_loop. mcbn.
  rewrite Hst. tok_consts. mcbn.
  unfold Is at 1. rewrite Hty. tok_consts. mcbn. reflexivity.
Qed.

(** An [else] met while an [if] waits for it takes over the entry of the
    [if]: the entry gets the type [CT_ELSE] and the stage [ELSEIF], and
    that is all [parse_cleanup] does with the chunk: the [else] is not
    pushed, its type stays, and the levels stay. *)
Theorem else_takes_over_the_if_entry (env : Env) (pc : ChunkPtr) (s : State) :
  let c := chunk_at (chunks s) pc in
  let t := top (frm s) in
  e_stage t = ELSE ->
  c_type c = CT_ELSE ->
  exists s',
    parse_cleanup env pc s = Ok tt s'
    /\ pse (frm s') = set_e_stage ELSEIF (set_e_type CT_ELSE t) :: tl (pse (frm s))
    /\ c_type (chunk_at (chunks s') pc) = CT_ELSE
    /\ frm_level (frm s') = frm_level (frm s)
    /\ frm_brace_level (frm s') = frm_brace_level (frm s)
    /\ log s' = log s.
Proof.
  intros c t Hst Hty. subst c t.
  destruct (parse_cleanup_after_marks_shape env pc s) as (s2 & M & Hsh & E).
  destruct M as [Mpse Mlev Mblev Msp Mbs Mlog Mtype Mstr Mline Mcol Mprep Mnull].
  assert (Htop : top (frm s2) = top (frm s)) by (unfold top; now rewrite Mpse).
  assert (Hst2 : e_stage (top (frm s2)) = ELSE) by now rewrite Htop.
  assert (Hty2 : c_type (chunk_at (chunks s2) pc) = CT_ELSE) by now rewrite Mtype.
  rewrite E. clear E.
  unfold bind at 1, the_top at 1, gets at 1.
  unfold bind at 1, the_chunk at 1, gets at 1.
  rewrite Hst2. unfold Is at 1. rewrite Hty2. tok_consts. cbn [negb andb].
  unfold bind at 1. rewrite (ccs_at_else env pc s2 Hst2 Hty2).
  eexists. split; [reflexivity|].
  cbn [chunks frm log set_frm].
  rewrite Hty2, Mlog, <- Mlev, <- Mblev. unfold set_top, top. rewrite Mpse.
  destruct (pse (frm s)) as [|a rest] eqn:P.
  - unfold top in Hst. rewrite P in Hst. discriminate.
  - cbn. repeat split.
Qed.

(** The theorem at work on the [else] of [if ( a ) { } else if ( b ) { }]. *)
Lemma else_takes_over_the_if_entry_witness :
  exists s',
    parse_cleanup c_env (Some 6%nat) (state_after c_env 6 else_if_stream) = Ok tt s'
    /\ pse (frm s') = [mkEntry CT_ELSE CT_NONE ELSEIF (Some 0%nat); eof_entry].
Proof.
  pose (s0 := state_after c_env 6 else_if_stream).
  assert (H1 : e_stage (top (frm s0)) = ELSE) by (vm_compute; reflexivity).
  assert (H2 : c_type (chunk_at (chunks s0) (Some 6%nat)) = CT_ELSE)
    by (vm_compute; reflexivity).
  assert (F1 : set_e_stage ELSEIF (set_e_type CT_ELSE (top (frm s0))) :: tl (pse (frm s0))
               = [mkEntry CT_ELSE CT_NONE ELSEIF (Some 0%nat); eof_entry])
    by (vm_compute; reflexivity).
  change (state_after c_env 6 else_if_stream) with s0. clearbody s0.
  destruct (else_takes_over_the_if_entry c_env (Some 6%nat) s0 H1 H2)
    as (s' & E & T1 & _).
  exists s'. split; [exact E | now rewrite T1].
Defined.

(* ================================================================== *)
(** ** [mark_namespace] *)

(** The chunks [mark_namespace] walks over: those after [pns], comments and
    newlines left out, nearest first. *)
Definition following (cl : ChunkList) (pns : ChunkPtr) : list ChunkId :=
  map fst (filter (fun x => negb (IsCommentOrNewline (snd x))) (after cl pns)).

(** The list once the chunks [l] have been given the parent type
    [CT_NAMESPACE], one after the other. *)
Fixpoint marked (cl : ChunkList) (l : list ChunkId) : ChunkList :=
  match l with
  | [] => cl
  | i :: rest => marked (update_at cl (Some i) (SetParentType CT_NAMESPACE)) rest
  end.

Lemma marked_app (cl : ChunkList) (l l' : list ChunkId) :
  marked cl (l ++ l') = marked (marked cl l) l'.
Proof. revert cl. induction l as [|i l IH]; intro cl; simpl; [reflexivity | apply IH]. Qed.

Lemma marked_field {A : Type} (g : Chunk -> A) (l : list ChunkId) (cl : ChunkList)
      (q : ChunkPtr) :
  (forall t c, g (SetParentType t c) = g c) ->
  g (chunk_at (marked cl l) q) = g (chunk_at cl q).
Proof.
  intro Hg. revert cl. induction l as [|i l IH]; intro cl; cbn [marked]; [reflexivity|].
  rewrite IH. apply chunk_at_update_at_field. apply Hg.
Qed.

Lemma IsNullChunk_marked (l : list ChunkId) (cl : ChunkList) (q : ChunkPtr) :
  IsNullChunk (marked cl l) q = IsNullChunk cl q.
Proof.
  revert cl. induction l as [|i l IH]; intro cl; cbn [marked]; [reflexivity|].
  rewrite IH. apply IsNullChunk_update_at.
Qed.

Lemma lookup_marked_other (l : list ChunkId) (cl : ChunkList) (i : ChunkId) :
  ~ In i l -> lookup (marked cl l) i = lookup cl i.
Proof.
  revert cl. induction l as [|j l IH]; intros cl Hn; cbn [marked]; [reflexivity|].
  rewrite IH by (intro H; apply Hn; now right).
  simpl. rewrite lookup_update.
  destruct (Nat.eqb j i) eqn:E; [|reflexivity].
  apply Nat.eqb_eq in E. exfalso. apply Hn. now left.
Qed.

Lemma parent_marked (l : list ChunkId) (cl : ChunkList) (i : ChunkId) :
  In i l -> IsNullChunk cl (Some i) = false ->
  c_parent_type (chunk_at (marked cl l) (Some i)) = CT_NAMESPACE.
Proof.
  revert cl. induction l as [|j l IH]; intros cl Hin Hnn; cbn [marked]; [destruct Hin|].
  destruct (in_dec Nat.eq_dec i l) as [Hl|Hl].
  - apply IH; [exact Hl | now rewrite IsNullChunk_update_at].
  - destruct Hin as [->|Hin]; [|contradiction].
    unfold chunk_at at 1. rewrite lookup_marked_other by exact Hl.
    change (c_parent_type (chunk_at (update_at cl (Some i) (SetParentType CT_NAMESPACE)) (Some i))
            = CT_NAMESPACE).
    now rewrite chunk_at_update_at_same.
Qed.

(** The loop runs over chunks that are neither an open brace nor a
    semicolon and leaves them marked. *)
Lemma mark_namespace_loop_run (env : Env) (pre l : list ChunkId) (u : bool) (s : State) :
  (forall i, In i pre ->
     c_type (chunk_at (chunks s) (Some i)) <> CT_BRACE_OPEN
     /\ c_type (chunk_at (chunks s) (Some i)) <> CT_SEMICOLON) ->
  mark_namespace_loop env (pre ++ l) u s
  = mark_namespace_loop env l u (set_chunks (marked (chunks s) pre) s).
Proof.
  revert s. induction pre as [|i pre IH]; intros s Hpre.
  - simpl. now destruct s.
  - change ((i :: pre) ++ l) with (i :: pre ++ l).
    cbn [mark_namespace_loop]. mred.
    set (s1 := set_chunks (update_at (chunks s) (Some i) (SetParentType CT_NAMESPACE)) s).
    assert (Ty : forall q, c_type (chunk_at (chunks s1) q) = c_type (chunk_at (chunks s) q)).
    { intro q. unfold s1. cbn [chunks set_chunks].
      apply (chunk_at_update_at_field c_type). reflexivity. }
    destruct (Hpre i (or_introl eq_refl)) as [Hb Hs].
    unfold IsNot, Is. rewrite Ty.
    destruct (tok_eqb (c_type (chunk_at (chunks s) (Some i))) CT_BRACE_OPEN) eqn:Eb;
      [apply tok_eqb_eq in Eb; contradiction|].
    destruct (tok_eqb (c_type (chunk_at (chunks s) (Some i))) CT_SEMICOLON) eqn:Es;
      [apply tok_eqb_eq in Es; contradiction|].
    cbn [negb]. rewrite IH.
    + unfold s1. destruct s. reflexivity.
    + intros j Hj. rewrite !Ty. apply Hpre. now right.
Qed.

Lemma In_ids_lookup (cl : ChunkList) (i : ChunkId) :
  In i (map fst cl) -> lookup cl i <> None.
Proof.
  induction cl as [|[j c] rest IH]; simpl; [tauto|].
  intros [H|H]; destruct (Nat.eqb j i) eqn:E; try discriminate.
  - subst j. now rewrite Nat.eqb_refl in E.
  - now apply IH.
Qed.

Lemma after_id_incl (cl : ChunkList) (id : ChunkId) (x : ChunkId * Chunk) :
  In x (after_id cl id) -> In x cl.
Proof.
  induction cl as [|[j c] rest IH]; simpl; [tauto|].
  destruct (Nat.eqb j id); intro H; right; [exact H | now apply IH].
Qed.

(** The chunks the loop meets are chunks of the list. *)
Lemma In_following_nonnull (cl : ChunkList) (pns : ChunkPtr) (i : ChunkId) :
  In i (following cl pns) -> IsNullChunk cl (Some i) = false.
Proof.
  unfold following. intro H.
  apply in_map_iff in H. destruct H as ([j c] & Hj & H). simpl in Hj. subst j.
  apply filter_In in H. destruct H as [H _].
  assert (Hin : In i (map fst cl)).
  { destruct pns as [p|]; simpl in H; [|destruct H].
    apply after_id_incl in H. change i with (fst (i, c)). now apply in_map. }
  apply In_ids_lookup in Hin. simpl. now destruct (lookup cl i).
Qed.

Lemma following_same_shape (cl cl' : ChunkList) (pns : ChunkPtr) :
  same_shape cl cl' -> following cl pns = following cl' pns.
Proof.
  intro H. apply (same_shape_after _ _ pns) in H. unfold following.
  induction H as [|[i c] [j d] l l' [H1 H2] H IH]; simpl; [reflexivity|].
  simpl in H1, H2. subst j.
  unfold IsCommentOrNewline, IsComment, IsNewline, Is in *. rewrite H2.
  match goal with |- context [negb ?b] => destruct (negb b) end;
    simpl; now rewrite IH.
Qed.

(** A namespace that ends in a semicolon before any open brace
    ([using namespace std ;], a namespace alias): [mark_namespace] gives the
    chunks between the keyword and the semicolon the parent type
    [CT_NAMESPACE], the semicolon [CT_USING] when [using] precedes the
    keyword and [CT_NAMESPACE] otherwise, the keyword itself [CT_USING]
    under [using], and stops there: no chunk behind the semicolon is
    touched, nor the stack, nor the log. *)
Theorem namespace_marking_stops_at_semicolon
    (env : Env) (pns : ChunkPtr) (s : State)
    (pre : list ChunkId) (semi : ChunkId) (rest : list ChunkId) :
  let is_using := Is CT_USING (chunk_at (chunks s) (GetPrevNcNnl (chunks s) pns)) in
  following (chunks s) pns = pre ++ semi :: rest ->
  (forall i, In i pre ->
     c_type (chunk_at (chunks s) (Some i)) <> CT_BRACE_OPEN
     /\ c_type (chunk_at (chunks s) (Some i)) <> CT_SEMICOLON) ->
  c_type (chunk_at (chunks s) (Some semi)) = CT_SEMICOLON ->
  exists s',
    mark_namespace env pns s = Ok tt s'
    /\ frm s' = frm s /\ braceState s' = braceState s /\ log s' = log s
    /\ (forall i, In i pre ->
          c_parent_type (chunk_at (chunks s') (Some i)) = CT_NAMESPACE)
    /\ c_parent_type (chunk_at (chunks s') (Some semi))
       = (if is_using then CT_USING else CT_NAMESPACE)
    /\ (forall p, pns = Some p -> ~ In p pre -> p <> semi ->
          IsNullChunk (chunks s) pns = false ->
          chunk_at (chunks s') pns
          = if is_using then SetParentType CT_USING (chunk_at (chunks s) pns)
            else chunk_at (chunks s) pns)
    /\ (forall i, pns <> Some i -> ~ In i pre -> i <> semi ->
          lookup (chunks s') i = lookup (chunks s) i).
Proof.
  intros is_using Hfol Hpre Hsemi.
  set (cl0 := if is_using then update_at (chunks s) pns (SetParentType CT_USING)
              else chunks s).
  assert (Ty0 : forall q, c_type (chunk_at cl0 q) = c_type (chunk_at (chunks s) q)).
  { intro q. unfold cl0. destruct is_using; [|reflexivity].
    apply (chunk_at_update_at_field c_type). reflexivity. }
  assert (Nn0 : forall q, IsNullChunk cl0 q = IsNullChunk (chunks s) q).
  { intro q. unfold cl0. destruct is_using; [|reflexivity]. apply IsNullChunk_update_at. }
  assert (Fol0 : following cl0 pns = pre ++ semi :: rest).
  { rewrite <- Hfol. symmetry. apply following_same_shape. unfold cl0.
    destruct is_using; [|apply same_shape_refl].
    apply same_shape_update_at. intro; reflexivity. }
  assert (Hin : forall i, In i (pre ++ semi :: rest) -> IsNullChunk (chunks s) (Some i) = false).
  { intros i Hi. rewrite <- Hfol in Hi. now apply In_following_nonnull in Hi. }
  assert (Hsp : ~ In semi pre).
  { intro H. destruct (Hpre semi H) as [_ Hs]. contradiction. }
  set (s0 := set_chunks cl0 s).
  assert (E0 : mark_namespace env pns s
               = mark_namespace_loop env (pre ++ semi :: rest) is_using s0).
  { unfold mark_namespace. mred. fold is_using.
    unfold s0, cl0. destruct is_using; mred; cbn [chunks set_chunks]; fold (following);
      fold (following (update_at (chunks s) pns (SetParentType CT_USING)) pns);
      fold (following (chunks s) pns).
    - unfold cl0 in Fol0. cbn in Fol0. rewrite Fol0. reflexivity.
    - rewrite Hfol. now destruct s. }
  rewrite E0.
  rewrite mark_namespace_loop_run
    by (intros i Hi; unfold s0; cbn [chunks set_chunks]; rewrite !Ty0; now apply Hpre).
  unfold s0. cbn [chunks set_chunks].
  cbn [mark_namespace_loop]. mred. cbn [chunks set_chunks].
  set (cl1 := update_at (marked cl0 pre) (Some semi) (SetParentType CT_NAMESPACE)).
  assert (Ty1 : c_type (chunk_at cl1 (Some semi)) = CT_SEMICOLON).
  { unfold cl1. rewrite (chunk_at_update_at_field c_type) by reflexivity.
    rewrite (marked_field c_type) by reflexivity. now rewrite Ty0. }
  assert (Nn1 : IsNullChunk (marked cl0 pre) (Some semi) = false).
  { rewrite IsNullChunk_marked, Nn0. apply Hin. apply in_or_app. right. now left. }
  unfold IsNot, Is. rewrite Ty1. tok_consts. cbn [negb].
  set (clF := if is_using then update_at cl1 (Some semi) (SetParentType CT_USING) else cl1).
  exists (set_chunks clF s).
  split.
  { unfold clF. destruct is_using; mred; cbn [chunks set_chunks]; reflexivity. }
  cbn [frm braceState log chunks set_chunks].
  split; [reflexivity|]. split; [reflexivity|]. split; [reflexivity|].
  assert (Other : forall i, i <> semi -> lookup clF i = lookup (marked cl0 pre) i).
  { intros i Hi. unfold clF, cl1. apply Nat.eqb_neq in Hi. rewrite Nat.eqb_sym in Hi.
    destruct is_using; simpl; rewrite ?lookup_update, ?Hi; reflexivity. }
  split; [|split; [|split]].
  - intros i Hi.
    assert (Hne : i <> semi) by (intro; subst; contradiction).
    unfold chunk_at at 1. rewrite (Other i Hne).
    change (c_parent_type (chunk_at (marked cl0 pre) (Some i)) = CT_NAMESPACE).
    apply parent_marked; [exact Hi|]. rewrite Nn0. apply Hin. apply in_or_app. now left.
  - unfold clF. destruct is_using.
    + rewrite chunk_at_update_at_same
        by (unfold cl1; now rewrite IsNullChunk_update_at).
      reflexivity.
    + unfold cl1. now rewrite chunk_at_update_at_same.
  - intros p -> Hp Hps N. unfold chunk_at at 1. rewrite (Other p Hps).
    rewrite lookup_marked_other by exact Hp.
    change (chunk_at cl0 (Some p)
            = if is_using then SetParentType CT_USING (chunk_at (chunks s) (Some p))
              else chunk_at (chunks s) (Some p)).
    unfold cl0. destruct is_using; [|reflexivity].
    now apply chunk_at_update_at_same.
  - intros i Hns Hp Hps. rewrite (Other i Hps).
    rewrite lookup_marked_other by exact Hp.
    unfold cl0. destruct is_using; [|reflexivity].
    destruct pns as [p|]; simpl; [|reflexivity].
    rewrite lookup_update. destruct (Nat.eqb p i) eqn:E; [|reflexivity].
    apply Nat.eqb_eq in E. subst. contradiction.
Qed.

(** The theorem at work on [using namespace std ; x]. *)
Lemma namespace_marking_stops_at_semicolon_witness :
  exists s',
    mark_namespace c_env (Some 1%nat) (initial_state using_namespace_stream) = Ok tt s'
    /\ parent_type_of s' 1%nat = CT_USING
    /\ parent_type_of s' 2%nat = CT_NAMESPACE
    /\ parent_type_of s' 3%nat = CT_USING
    /\ lookup (chunks s') 4%nat = lookup using_namespace_stream 4%nat.
Proof.
  pose (s0 := initial_state using_namespace_stream).
  assert (H1 : following (chunks s0) (Some 1%nat) = [2%nat] ++ 3%nat :: [4%nat])
    by (vm_compute; reflexivity).
  assert (H2 : forall i, In i [2%nat] ->
             c_type (chunk_at (chunks s0) (Some i)) <> CT_BRACE_OPEN
             /\ c_type (chunk_at (chunks s0) (Some i)) <> CT_SEMICOLON).
  { intros i [<-|[]]. split; vm_compute; discriminate. }
  assert (H3 : c_type (chunk_at (chunks s0) (Some 3%nat)) = CT_SEMICOLON)
    by (vm_compute; reflexivity).
  assert (F1 : Is CT_USING (chunk_at (chunks s0) (GetPrevNcNnl (chunks s0) (Some 1%nat))) = true)
    by (vm_compute; reflexivity).
  assert (F2 : c_parent_type (SetParentType CT_USING (chunk_at (chunks s0) (Some 1%nat)))
               = CT_USING) by reflexivity.
  assert (F3 : IsNullChunk (chunks s0) (Some 1%nat) = false) by (vm_compute; reflexivity).
  assert (F4 : lookup (chunks s0) 4%nat = lookup using_namespace_stream 4%nat) by reflexivity.
  change (initial_state using_namespace_stream) with s0. clearbody s0.
  destruct (namespace_marking_stops_at_semicolon c_env (Some 1%nat) s0 [2%nat] 3%nat [4%nat]
              H1 H2 H3)
    as (s' & E & _ & _ & _ & T1 & T2 & T3 & T4).
  rewrite F1 in T2, T3.
  exists s'. split; [exact E|]. unfold parent_type_of. split; [|split; [|split]].
  - assert (N1 : ~ In 1%nat [2%nat]) by (intros [H|[]]; discriminate).
    assert (N2 : 1%nat <> 3%nat) by discriminate.
    exact (eq_trans (f_equal c_parent_type (T3 1%nat eq_refl N1 N2 F3)) F2).
  - apply T1. now left.
  - exact T2.
  - assert (N1 : ~ In 4%nat [2%nat]) by (intros [H|[]]; discriminate).
    assert (N2 : 4%nat <> 3%nat) by discriminate.
    assert (N3 : Some 1%nat <> Some 4%nat) by discriminate.
    exact (eq_trans (T4 4%nat N3 N1 N2) F4).
Defined.


(** A namespace whose braces open and close on the same line: the count
    [numberOfLines] of the lines between them is [0 - 1] in [size_t], the
    largest value there is, so under any limit [indent_namespace_limit > 0]
    both braces are flagged [PCF_LONG_BLOCK] before [flag_parens] is called
    on the open brace, which has got the parent type [CT_NAMESPACE]. *)
Theorem one_line_namespace_is_a_long_block
    (env : Env) (pns : ChunkPtr) (s : State)
    (pre : list ChunkId) (br : ChunkId) (rest : list ChunkId) :
  let is_using := Is CT_USING (chunk_at (chunks s) (GetPrevNcNnl (chunks s) pns)) in
  let cl0 := if is_using then update_at (chunks s) pns (SetParentType CT_USING)
             else chunks s in
  let cl1 := marked cl0 (pre ++ [br]) in
  let br_close := GetClosingParen env cl1 (Some br) in
  following (chunks s) pns = pre ++ br :: rest ->
  (forall i, In i pre ->
     c_type (chunk_at (chunks s) (Some i)) <> CT_BRACE_OPEN
     /\ c_type (chunk_at (chunks s) (Some i)) <> CT_SEMICOLON) ->
  c_type (chunk_at (chunks s) (Some br)) = CT_BRACE_OPEN ->
  0 < indent_namespace_limit env < 2 ^ 64 - 1 ->
  IsNullChunk (chunks s) br_close = false ->
  c_orig_line (chunk_at (chunks s) br_close) = c_orig_line (chunk_at (chunks s) (Some br)) ->
  exists cl2,
    mark_namespace env pns s
    = Ok tt (set_chunks (flag_parens env cl2 (Some br) PCF_IN_NAMESPACE CT_NONE
                           CT_NAMESPACE false) s)
    /\ TestFlags PCF_LONG_BLOCK (chunk_at cl2 (Some br)) = true
    /\ TestFlags PCF_LONG_BLOCK (chunk_at cl2 br_close) = true
    /\ c_parent_type (chunk_at cl2 (Some br)) = CT_NAMESPACE.
Proof.
  intros is_using cl0 cl1 br_close Hfol Hpre Hbr Hlim Hcn Hline.
  assert (Ty0 : forall q, c_type (chunk_at cl0 q) = c_type (chunk_at (chunks s) q)).
  { intro q. unfold cl0. destruct is_using; [|reflexivity].
    apply (chunk_at_update_at_field c_type). reflexivity. }
  assert (Ln0 : forall q, c_orig_line (chunk_at cl0 q) = c_orig_line (chunk_at (chunks s) q)).
  { intro q. unfold cl0. destruct is_using; [|reflexivity].
    apply (chunk_at_update_at_field c_orig_line). reflexivity. }
  assert (Nn0 : forall q, IsNullChunk cl0 q = IsNullChunk (chunks s) q).
  { intro q. unfold cl0. destruct is_using; [|reflexivity]. apply IsNullChunk_update_at. }
  assert (Fol0 : following cl0 pns = pre ++ br :: rest).
  { rewrite <- Hfol. symmetry. apply following_same_shape. unfold cl0.
    destruct is_using; [|apply same_shape_refl].
    apply same_shape_update_at. intro; reflexivity. }
  assert (Hbn : IsNullChunk (chunks s) (Some br) = false).
  { apply (In_following_nonnull _ pns). rewrite Hfol. apply in_or_app. right. now left. }
  set (s0 := set_chunks cl0 s).
  assert (E0 : mark_namespace env pns s
               = mark_namespace_loop env (pre ++ br :: rest) is_using s0).
  { unfold mark_namespace. mred. fold is_using.
    unfold s0, cl0. destruct is_using; mred; cbn [chunks set_chunks]; fold (following);
      fold (following (update_at (chunks s) pns (SetParentType CT_USING)) pns);
      fold (following (chunks s) pns).
    - unfold cl0 in Fol0. cbn in Fol0. rewrite Fol0. reflexivity.
    - rewrite Hfol. now destruct s. }
  rewrite E0.
  rewrite mark_namespace_loop_run
    by (intros i Hi; unfold s0; cbn [chunks set_chunks]; rewrite !Ty0; now apply Hpre).
  unfold s0. cbn [chunks set_chunks].
  cbn [mark_namespace_loop]. mred. cbn [chunks set_chunks].
  change (update_at (marked cl0 pre) (Some br) (SetParentType CT_NAMESPACE))
    with (marked (marked cl0 pre) [br]).
  rewrite <- marked_app. fold cl1. fold br_close.
  assert (Ty1 : c_type (chunk_at cl1 (Some br)) = CT_BRACE_OPEN).
  { unfold cl1. rewrite (marked_field c_type) by reflexivity. now rewrite Ty0. }
  assert (Ln1 : forall q, c_orig_line (chunk_at cl1 q) = c_orig_line (chunk_at (chunks s) q)).
  { intro q. unfold cl1. rewrite (marked_field c_orig_line) by reflexivity. apply Ln0. }
  assert (Nn1 : forall q, IsNullChunk cl1 q = IsNullChunk (chunks s) q).
  { intro q. unfold cl1. rewrite IsNullChunk_marked. apply Nn0. }
  cbn [chunks set_chunks]. fold br_close.
  unfold IsNot, Is. rewrite Ty1. tok_consts. cbn [negb].
  mred. cbn [chunks set_chunks]. fold br_close.
  rewrite Nn1, Hcn, !Ln1, Hline.
  replace (c_orig_line (chunk_at (chunks s) (Some br))
           - c_orig_line (chunk_at (chunks s) (Some br)) - 1) with (-1) by lia.
  assert (L1 : (0 <? indent_namespace_limit env) = true) by (apply Z.ltb_lt; lia).
  assert (L2 : (indent_namespace_limit env <? wrap64 (-1)) = true)
    by (apply Z.ltb_lt; change (wrap64 (-1)) with (2 ^ 64 - 1); lia).
  rewrite L1, L2. cbn [negb andb]. mred. cbn [chunks set_chunks].
  set (long := SetFlagBits PCF_LONG_BLOCK).
  exists (update_at (update_at cl1 (Some br) long) br_close long).
  split; [now destruct s|].
  assert (Hb1 : IsNullChunk cl1 (Some br) = false) by now rewrite Nn1.
  assert (Fb : TestFlags PCF_LONG_BLOCK (chunk_at (update_at cl1 (Some br) long) (Some br))
               = true).
  { rewrite chunk_at_update_at_same by exact Hb1.
    apply TestFlags_SetFlagBits_same. discriminate. }
  split; [|split].
  - destruct (chunk_at_update_at_cases (update_at cl1 (Some br) long) br_close (Some br) long)
      as [H | [_ H]]; rewrite H; [exact Fb|].
    apply TestFlags_SetFlagBits_same. discriminate.
  - rewrite chunk_at_update_at_same by (now rewrite IsNullChunk_update_at, Nn1).
    apply TestFlags_SetFlagBits_same. discriminate.
  - rewrite !(chunk_at_update_at_field c_parent_type) by reflexivity.
    unfold cl1. apply parent_marked; [apply in_or_app; right; now left|].
    now rewrite Nn0.
Qed.

(** The theorem at work on [namespace a { }] under a limit of 3 lines. *)
Lemma one_line_namespace_is_a_long_block_witness :
  exists cl2,
    mark_namespace ns_env (Some 0%nat) (initial_state one_line_namespace_stream)
    = Ok tt (set_chunks (flag_parens ns_env cl2 (Some 2%nat) PCF_IN_NAMESPACE CT_NONE
                           CT_NAMESPACE false)
               (initial_state one_line_namespace_stream))
    /\ TestFlags PCF_LONG_BLOCK (chunk_at cl2 (Some 2%nat)) = true
    /\ TestFlags PCF_LONG_BLOCK (chunk_at cl2 (Some 3%nat)) = true.
Proof.
  pose (s0 := initial_state one_line_namespace_stream).
  pose (close :=
          GetClosingParen ns_env
            (marked (if Is CT_USING (chunk_at (chunks s0) (GetPrevNcNnl (chunks s0) (Some 0%nat)))
                     then update_at (chunks s0) (Some 0%nat) (SetParentType CT_USING)
                     else chunks s0) ([1%nat] ++ [2%nat])) (Some 2%nat)).
  assert (F : close = Some 3%nat) by (vm_compute; reflexivity).
  assert (H1 : following (chunks s0) (Some 0%nat) = [1%nat] ++ 2%nat :: [3%nat])
    by (vm_compute; reflexivity).
  assert (H2 : forall i, In i [1%nat] ->
             c_type (chunk_at (chunks s0) (Some i)) <> CT_BRACE_OPEN
             /\ c_type (chunk_at (chunks s0) (Some i)) <> CT_SEMICOLON).
  { intros i [<-|[]]. split; vm_compute; discriminate. }
  assert (H3 : c_type (chunk_at (chunks s0) (Some 2%nat)) = CT_BRACE_OPEN)
    by (vm_compute; reflexivity).
  assert (H4 : 0 < indent_namespace_limit ns_env < 2 ^ 64 - 1) by (vm_compute; split; reflexivity).
  assert (H5 : IsNullChunk (chunks s0) close = false) by (vm_compute; reflexivity).
  assert (H6 : c_orig_line (chunk_at (chunks s0) close)
               = c_orig_line (chunk_at (chunks s0) (Some 2%nat)))
    by (vm_compute; reflexivity).
  change (initial_state one_line_namespace_stream) with s0.
  subst close. clearbody s0.
  destruct (one_line_namespace_is_a_long_block ns_env (Some 0%nat) s0 [1%nat] 2%nat [3%nat]
              H1 H2 H3 H4 H5 H6)
    as (cl2 & E & T1 & T2 & _).
  exists cl2. split; [exact E|]. split; [exact T1|].
  exact (eq_trans
           (f_equal (fun q => TestFlags PCF_LONG_BLOCK (chunk_at cl2 q)) (eq_sym F)) T2).
Defined.

(* ================================================================== *)
(** ** Chunks the loop of [brace_cleanup] does not parse *)

(** One turn of the loop on a chunk that is not parsed. *)
Lemma brace_cleanup_step_unparsed (env : Env) (pc : ChunkPtr) (s : State) :
  let c := chunk_at (chunks s) pc in
  let bs := braceState s in
  IsNullChunk (chunks s) pc = false ->
  lang_pawn env = false \/ e_type (top (frm s)) <> CT_VBRACE_OPEN ->
  in_preproc bs = CT_NONE \/ TestFlags PCF_IN_PREPROC c = true ->
  c_type c <> CT_PREPROC ->
  c_type c <> CT_NAMESPACE ->
  IsCommentOrNewline c = true \/ c_type c = CT_ATTRIBUTE \/ c_type c = CT_IGNORED
  \/ (in_preproc bs <> CT_PP_DEFINE /\ in_preproc bs <> CT_NONE) ->
  brace_cleanup_step env pc s
  = Ok (GetNext (chunks s) pc)
       (set_chunks
          (update_at (chunks s) pc
             (fun x => SetPpLevel (wrap64 (pp_level bs))
                         (SetBraceLevel (frm_brace_level (frm s))
                            (SetLevel (frm_level (frm s)) x))))
          s).
Proof.
  intros c bs Hnn Hpawn Hleave Hpp Hns Hskip. subst c bs.
  assert (L : negb (tok_eqb (in_preproc (braceState s)) CT_NONE)
              && negb (TestFlags PCF_IN_PREPROC (chunk_at (chunks s) pc)) = false).
  { destruct Hleave as [H|H]; rewrite H; [reflexivity | apply andb_false_r]. }
  assert (W : lang_pawn env && tok_eqb (e_type (top (frm s))) CT_VBRACE_OPEN = false).
  { destruct Hpawn as [H|H]; [now rewrite H|].
    apply tok_eqb_neq in H. rewrite H. apply andb_false_r. }
  assert (P : Is CT_PREPROC (chunk_at (chunks s) pc) = false).
  { unfold Is. destruct (tok_eqb _ CT_PREPROC) eqn:E; [|reflexivity].
    apply tok_eqb_eq in E. contradiction. }
  assert (N : Is CT_NAMESPACE (chunk_at (chunks s) pc) = false).
  { unfold Is. destruct (tok_eqb _ CT_NAMESPACE) eqn:E; [|reflexivity].
    apply tok_eqb_eq in E. contradiction. }
  assert (G : negb (IsCommentOrNewline (chunk_at (chunks s) pc))
              && negb (Is CT_ATTRIBUTE (chunk_at (chunks s) pc))
              && negb (Is CT_IGNORED (chunk_at (chunks s) pc))
              && (tok_eqb (in_preproc (braceState s)) CT_PP_DEFINE
                  || tok_eqb (in_preproc (braceState s)) CT_NONE) = false).
  { destruct Hskip as [H|[H|[H|[H1 H2]]]].
    - rewrite H. reflexivity.
    - unfold Is at 1 2. rewrite H. cbn. now rewrite andb_false_r.
    - unfold Is at 2. rewrite H. cbn. now rewrite andb_false_r.
    - destruct (tok_eqb (in_preproc (braceState s)) CT_PP_DEFINE) eqn:E1;
        [apply tok_eqb_eq in E1; contradiction|].
      destruct (tok_eqb (in_preproc (braceState s)) CT_NONE) eqn:E2;
        [apply tok_eqb_eq in E2; contradiction|].
      apply andb_false_r. }
  unfold brace_cleanup_step, leave_preproc. mred. rewrite L. mred. rewrite P. mred.
  rewrite W. cbn [andb]. mred. rewrite Hnn. mred. rewrite N. mred.
  cbn [chunks set_chunks frm braceState].
  set (f := fun x => SetPpLevel _ _).
  assert (T : forall t, Is t (chunk_at (update_at (chunks s) pc f) pc)
                        = Is t (chunk_at (chunks s) pc)).
  { intro t. unfold Is. rewrite (chunk_at_update_at_field c_type); reflexivity. }
  unfold IsCommentOrNewline, IsComment, IsNewline in *. rewrite !T, G. mred.
  cbn [chunks set_chunks].
  rewrite <- (GetNext_ids (chunks s)) by (symmetry; apply ids_update_at).
  reflexivity.
Qed.



(** *** A list of such chunks only *)

Definition is_unparsed_kind (c : Chunk) : bool :=
  IsCommentOrNewline c || Is CT_ATTRIBUTE c || Is CT_IGNORED c.

(** What the loop makes of such a chunk under the frame [f] and the
    preprocessor level [pp]. *)
Definition with_levels (f : ParseFrame) (pp : Z) (x : ChunkId * Chunk) : ChunkId * Chunk :=
  (fst x, SetPpLevel (wrap64 pp)
            (SetBraceLevel (frm_brace_level f) (SetLevel (frm_level f) (snd x)))).

Lemma lookup_app_notin (pre l : ChunkList) (i : ChunkId) :
  ~ In i (ids pre) -> lookup (pre ++ l) i = lookup l i.
Proof.
  induction pre as [|[j c] pre IH]; simpl; intro H; [reflexivity|].
  destruct (Nat.eqb j i) eqn:E.
  - apply Nat.eqb_eq in E. exfalso. apply H. now left.
  - apply IH. intro Hi. apply H. now right.
Qed.

Lemma update_app_notin (pre post : ChunkList) (i : ChunkId) (c : Chunk) (f : Chunk -> Chunk) :
  ~ In i (ids pre) ->
  update (pre ++ (i, c) :: post) i f = pre ++ (i, f c) :: post.
Proof.
  induction pre as [|[j d] pre IH]; simpl; intro H.
  - now rewrite Nat.eqb_refl.
  - destruct (Nat.eqb j i) eqn:E.
    + apply Nat.eqb_eq in E. exfalso. apply H. now left.
    + rewrite IH; [reflexivity|]. intro Hi. apply H. now right.
Qed.

Lemma after_id_app_notin (pre post : ChunkList) (i : ChunkId) (c : Chunk) :
  ~ In i (ids pre) -> after_id (pre ++ (i, c) :: post) i = post.
Proof.
  induction pre as [|[j d] pre IH]; simpl; intro H.
  - now rewrite Nat.eqb_refl.
  - destruct (Nat.eqb j i) eqn:E.
    + apply Nat.eqb_eq in E. exfalso. apply H. now left.
    + apply IH. intro Hi. apply H. now right.
Qed.

Lemma unparsed_kind_types (c : Chunk) :
  is_unparsed_kind c = true ->
  c_type c <> CT_PREPROC /\ c_type c <> CT_NAMESPACE
  /\ (IsCommentOrNewline c = true \/ c_type c = CT_ATTRIBUTE \/ c_type c = CT_IGNORED).
Proof.
  unfold is_unparsed_kind, IsCommentOrNewline, IsComment, IsNewline, Is.
  destruct (c_type c); simpl; intro H; try discriminate;
    (split; [discriminate | split; [discriminate | auto]]).
Qed.

(** The loop over a tail of chunks that are not parsed. *)
Lemma brace_cleanup_loop_unparsed (env : Env) (post : ChunkList) :
  forall (pre : ChunkList) (s : State) (n : nat),
    chunks s = pre ++ post ->
    NoDup (ids (pre ++ post)) ->
    (forall x, In x post -> is_unparsed_kind (snd x) = true) ->
    e_type (top (frm s)) <> CT_VBRACE_OPEN ->
    in_preproc (braceState s) = CT_NONE ->
    (List.length post < n)%nat ->
    brace_cleanup_loop env n (first_id post) s
    = Ok tt (set_chunks (pre ++ map (with_levels (frm s) (pp_level (braceState s))) post) s).
Proof.
  induction post as [|[i c] post IH]; intros pre s n Hc Hnd Hk Htop Hin Hn.
  - destruct n as [|n]; [inversion Hn|].
    cbn [brace_cleanup_loop first_id map]. mred. cbn [IsNullChunk].
    rewrite app_nil_r in *. rewrite <- Hc. now destruct s.
  - destruct n as [|n]; [inversion Hn|].
    assert (Hi : ~ In i (ids pre)).
    { unfold ids in *. rewrite map_app in Hnd. apply NoDup_remove_2 in Hnd.
      intro H. apply Hnd. apply in_or_app. now left. }
    assert (Hl : lookup (chunks s) i = Some c).
    { rewrite Hc, lookup_app_notin by exact Hi. simpl. now rewrite Nat.eqb_refl. }
    assert (Hca : chunk_at (chunks s) (Some i) = c) by (simpl; now rewrite Hl).
    assert (Hnn : IsNullChunk (chunks s) (Some i) = false) by (simpl; now rewrite Hl).
    destruct (unparsed_kind_types c (Hk (i, c) (or_introl eq_refl))) as (Hp & Hns & Hkind).
    cbn [brace_cleanup_loop first_id]. mred. rewrite Hnn. mred.
    rewrite <- Hca in Hp, Hns, Hkind.
    pose proof (brace_cleanup_step_unparsed env (Some i) s Hnn (or_intror Htop)
                  (or_introl Hin) Hp Hns) as Hstep.
    cbv zeta in Hstep. rewrite Hstep by tauto. clear Hstep.
    set (lev := fun x => SetPpLevel _ (SetBraceLevel _ (SetLevel _ x))).
    assert (Hnext : GetNext (chunks s) (Some i) = first_id post).
    { unfold GetNext. simpl. now rewrite Hc, after_id_app_notin. }
    rewrite Hnext.
    rewrite (IH (pre ++ [(i, lev c)]) _ n).
    + cbn [frm braceState set_chunks]. rewrite <- app_assoc. now destruct s.
    + cbn [chunks set_chunks]. simpl update_at. rewrite Hc, update_app_notin by exact Hi.
      now rewrite <- app_assoc.
    + rewrite <- app_assoc. unfold ids in *. rewrite !map_app in *. exact Hnd.
    + intros x Hx. apply Hk. now right.
    + exact Htop.
    + exact Hin.
    + simpl in Hn. lia.
Qed.

(** A list that holds nothing but comments, newlines, attributes and
    ignored chunks (a file without code, the empty file among them) goes
    through the pass: with one unit of fuel more than there are chunks
    [brace_cleanup] returns, every chunk has got level, brace level and
    preprocessor level 0 and is unchanged otherwise, the stack holds its
    bottom entry only and nothing is written to the log. *)
Theorem pass_over_a_list_without_code (env : Env) (cl : ChunkList) :
  NoDup (ids cl) ->
  (forall x, In x cl -> is_unparsed_kind (snd x) = true) ->
  brace_cleanup env (S (List.length cl)) cl
  = Ok tt (mkState (map (fun x => (fst x, SetPpLevel 0 (SetBraceLevel 0 (SetLevel 0 (snd x)))))
                        cl)
                   new_frame new_brace_state []).
Proof.
  intros Hnd Hk. unfold brace_cleanup.
  change (GetHead cl) with (first_id cl).
  rewrite (brace_cleanup_loop_unparsed env cl [] (initial_state cl));
    try assumption; try reflexivity; [discriminate | lia].
Qed.

(** The theorem at work on a comment between two newlines. *)
Lemma pass_over_a_list_without_code_witness :
  brace_cleanup c_env 4
    (number [ tok CT_NEWLINE "" 1 1; tok CT_COMMENT "/* c */" 2 1; tok CT_NEWLINE "" 2 8 ])
  = Ok tt (mkState
             (number [ tok CT_NEWLINE "" 1 1; tok CT_COMMENT "/* c */" 2 1;
                       tok CT_NEWLINE "" 2 8 ])
             new_frame new_brace_state []).
Proof.
  apply (pass_over_a_list_without_code c_env
           (number [ tok CT_NEWLINE "" 1 1; tok CT_COMMENT "/* c */" 2 1;
                     tok CT_NEWLINE "" 2 8 ])).
  - vm_compute. repeat constructor; simpl; intuition discriminate.
  - intros x Hx. vm_compute in Hx.
    repeat (destruct Hx as [<-|Hx]; [reflexivity|]). destruct Hx.
Defined.

(* ================================================================== *)
(** ** [case] and [break] *)

Lemma set_parent_from_stack_under_top (pc : ChunkPtr) (s : State)
      (t e : paren_stack_entry_t) (rest : list paren_stack_entry_t) :
  pse (frm s) = t :: e :: rest ->
  IsNullChunk (chunks s) (e_pc e) = false ->
  set_parent_from_stack pc s
  = Ok tt (set_chunks (update_at (chunks s) pc (SetParent (e_pc e))) s).
Proof.
  intros Hp Hn. unfold set_parent_from_stack. mred.
  unfold at_size_minus_2. rewrite Hp. mred. rewrite Hn. reflexivity.
Qed.

Lemma pc_switch_case_break (pc : ChunkPtr) (s : State)
      (t e : paren_stack_entry_t) (rest : list paren_stack_entry_t) :
  let c := chunk_at (chunks s) pc in
  c_type c = CT_CASE \/ c_type c = CT_BREAK ->
  pse (frm s) = t :: e :: rest ->
  IsNullChunk (chunks s) (e_pc e) = false ->
  pc_switch pc s
  = Ok tt (set_chunks
             (update_at (chunks s) pc
                (fun x => SetParent (e_pc e)
                            (if tok_eqb (c_type c) CT_CASE then SetParentType CT_SWITCH x
                             else x)))
             s).
Proof.
  intros c Hty Hp Hn. subst c. unfold pc_switch. mred. unfold Is.
  destruct Hty as [Hty|Hty]; rewrite Hty; tok_consts; cbn [andb orb]; mred.
  - rewrite (set_parent_from_stack_under_top pc _ t e rest)
      by (cbn [chunks frm set_chunks]; rewrite ?IsNullChunk_update_at; assumption).
    cbn [chunks set_chunks]. rewrite update_at_fuse. now destruct s.
  - rewrite (set_parent_from_stack_under_top pc _ t e rest) by assumption.
    reflexivity.
Qed.

(** A [case] and a [break] met outside any pending statement stage: the
    chunk gets as its parent the chunk of the stack entry right under the
    top (the [switch] keyword when the top is the brace of the switch), a
    [case] also the parent type [CT_SWITCH]; nothing is pushed or popped
    and the levels stay. *)
Theorem case_and_break_get_the_entry_under_the_top
    (env : Env) (pc : ChunkPtr) (s : State)
    (t e : paren_stack_entry_t) (rest : list paren_stack_entry_t) :
  let c := chunk_at (chunks s) pc in
  c_type c = CT_CASE \/ c_type c = CT_BREAK ->
  pse (frm s) = t :: e :: rest ->
  e_stage t = NONE ->
  IsNullChunk (chunks s) (e_pc e) = false ->
  exists s',
    parse_cleanup env pc s = Ok tt s'
    /\ c_parent (chunk_at (chunks s') pc) = e_pc e
    /\ (c_type c = CT_CASE -> c_parent_type (chunk_at (chunks s') pc) = CT_SWITCH)
    /\ c_type (chunk_at (chunks s') pc) = c_type c
    /\ pse (frm s') = pse (frm s)
    /\ frm_level (frm s') = frm_level (frm s)
    /\ frm_brace_level (frm s') = frm_brace_level (frm s)
    /\ log s' = log s.
Proof.
  intros c Hty Hp Hst Hn. subst c.
  destruct (parse_cleanup_after_marks_shape env pc s) as (s2 & M & Hsh & E).
  destruct M as [Mpse Mlev Mblev Msp Mbs Mlog Mtype Mstr Mline Mcol Mprep Mnull].
  assert (Htop : top (frm s2) = t) by (unfold top; now rewrite Mpse, Hp).
  assert (Hty2 : c_type (chunk_at (chunks s2) pc) = CT_CASE
                 \/ c_type (chunk_at (chunks s2) pc) = CT_BREAK) by now rewrite Mtype.
  assert (Hnn : IsNullChunk (chunks s2) pc = false).
  { destruct (IsNullChunk (chunks s2) pc) eqn:N; [|reflexivity].
    rewrite (chunk_at_null _ _ N) in Hty2. destruct Hty2; discriminate. }
  assert (Hp2 : pse (frm s2) = t :: e :: rest) by now rewrite Mpse.
  assert (Hn2 : IsNullChunk (chunks s2) (e_pc e) = false) by now rewrite Mnull.
  rewrite E. clear E.
  unfold bind at 1, the_top at 1, gets at 1.
  unfold bind at 1, the_chunk at 1, gets at 1.
  rewrite Htop, Hst. tok_consts. cbn [negb andb].
  unfold bind at 1, ret at 1.
  unfold parse_cleanup_rest.
  unfold bind at 1. rewrite pc_vbrace_close_skip
    by (right; unfold IsSemicolon, Is; destruct Hty2 as [H|H]; rewrite H; split; reflexivity).
  unfold bind at 1. rewrite pc_close_skip
    by (unfold is_closer, Is; destruct Hty2 as [H|H]; rewrite H; reflexivity).
  unfold bind at 1. rewrite pc_wod_semi_skip by (rewrite Htop, Hst; discriminate).
  unfold bind at 1. rewrite pc_parent_skip
    by (unfold Is; destruct Hty2 as [H|H]; rewrite H; reflexivity).
  unfold bind at 1. rewrite pc_open_skip
    by (unfold is_opener, Is; destruct Hty2 as [H|H]; rewrite H; reflexivity).
  unfold bind at 1. rewrite (pc_switch_case_break pc s2 t e rest Hty2 Hp2 Hn2).
  set (F := fun x => SetParent (e_pc e) _).
  set (s3 := set_chunks (update_at (chunks s2) pc F) s2).
  assert (C3 : chunk_at (chunks s3) pc = F (chunk_at (chunks s2) pc)).
  { unfold s3. cbn [chunks set_chunks]. now apply chunk_at_update_at_same. }
  assert (T3 : c_type (chunk_at (chunks s3) pc) = c_type (chunk_at (chunks s2) pc)).
  { rewrite C3. unfold F. now destruct (tok_eqb _ _). }
  unfold bind at 1. rewrite pc_push_complex_skip
    by (rewrite T3; destruct Hty2 as [H|H]; rewrite H; reflexivity).
  destruct (pc_reset_counts_frame pc s3) as (s4 & E4 & Fc & Fbs & Flog & Fp & Fl & Fb & Fs).
  rewrite E4. exists s4. split; [reflexivity|].
  rewrite Fc, Flog, Fp, Fl, Fb, C3. unfold s3. cbn [frm log set_chunks].
  rewrite Mpse, Mlev, Mblev, Mlog, <- Mtype.
  split; [|split; [|split; [|repeat split]]].
  - unfold F. now destruct (tok_eqb _ _).
  - intro H. unfold F. rewrite H. reflexivity.
  - unfold F. now destruct (tok_eqb _ _).
Qed.

(** The theorem at work on the [case] of [switch ( x ) { case y : break ; }]:
    its parent is the [switch] keyword. *)
Lemma case_and_break_get_the_entry_under_the_top_witness :
  exists s',
    parse_cleanup c_env (Some 5%nat) (state_after c_env 5 switch_stream) = Ok tt s'
    /\ c_parent (chunk_at (chunks s') (Some 5%nat)) = Some 0%nat
    /\ c_parent_type (chunk_at (chunks s') (Some 5%nat)) = CT_SWITCH.
Proof.
  pose (s0 := state_after c_env 5 switch_stream).
  pose (t := mkEntry CT_BRACE_OPEN CT_SWITCH NONE (Some 4%nat)).
  pose (e := mkEntry CT_SWITCH CT_NONE BRACE2 (Some 0%nat)).
  assert (H1 : c_type (chunk_at (chunks s0) (Some 5%nat)) = CT_CASE)
    by (vm_compute; reflexivity).
  assert (H2 : pse (frm s0) = t :: e :: [eof_entry]) by (vm_compute; reflexivity).
  assert (H3 : e_stage t = NONE) by reflexivity.
  assert (H4 : IsNullChunk (chunks s0) (e_pc e) = false) by (vm_compute; reflexivity).
  change (state_after c_env 5 switch_stream) with s0. clearbody s0.
  destruct (case_and_break_get_the_entry_under_the_top c_env (Some 5%nat) s0 t e [eof_entry]
              (or_introl H1) H2 H3 H4)
    as (s' & E & T1 & T2 & _).
  exists s'. split; [exact E|]. split; [exact T1 | exact (T2 H1)].
Defined.

(* ================================================================== *)
(** ** The close brace of a statement body *)

(** A close brace, real or virtual, on the open brace it belongs to. *)
Definition closes_top_brace (c : Chunk) (t : paren_stack_entry_t) : Prop :=
  (c_type c = CT_BRACE_CLOSE /\ e_type t = CT_BRACE_OPEN)
  \/ (c_type c = CT_VBRACE_CLOSE /\ e_type t = CT_VBRACE_OPEN).

(** A close brace that meets its open brace on the stack, a statement
    waiting underneath: what [pc_close] has done when it asks
    [handle_complex_close]. *)
Lemma pc_close_brace_upto (pc : ChunkPtr) (s : State) :
  let c := chunk_at (chunks s) pc in
  let t := top (frm s) in
  let below := prev_entry (frm s) in
  IsNullChunk (chunks s) pc = false ->
  closes_top_brace c t ->
  e_stage below <> NONE ->
  exists sm,
    pc_close pc s = (_ <- handle_complex_close pc ;; ret tt) sm
    /\ chunks sm
       = update_at (chunks s) pc
           (fun x => SetBraceLevel (wrap64 (frm_brace_level (frm s) - 1))
                       (SetLevel (wrap64 (frm_level (frm s) - 1))
                          (SetParentType (e_parent t) x)))
    /\ pse (frm sm) = tl (pse (frm s))
    /\ frm_level (frm sm) = wrap64 (frm_level (frm s) - 1)
    /\ frm_brace_level (frm sm) = wrap64 (frm_brace_level (frm s) - 1)
    /\ sparen_count (frm sm) = sparen_count (frm s)
    /\ consumed (braceState sm) = true
    /\ log sm = log s.
Proof.
  intros c t below Hn Hcl Hb. subst c t below.
  unfold pc_close. mcbn.
  destruct Hcl as [[Hty Ht]|[Hty Ht]];
  unfold is_closer, Is; rewrite Hty; tok_consts; mcbn;
  rewrite Ht; tok_consts; mcbn;
  rewrite Hty; tok_consts; mcbn;
  unfold top at 1, frm_pop at 1; cbn [pse set_pse set_frm_level set_frm_brace_level];
  rewrite top_after_pop;
  (destruct (stage_eqb (e_stage (prev_entry (frm s))) NONE) eqn:Es;
    [apply stage_eqb_eq in Es; contradiction|]);
  mcbn; rewrite !update_at_fuse;
  unfold top at 1, frm_pop at 1; cbn [pse set_pse set_frm_level set_frm_brace_level];
  rewrite top_after_pop, Es; mcbn;
  (eexists; split; [reflexivity|]);
  cbn [chunks frm braceState log set_frm set_chunks set_braceState consumed];
  unfold frm_pop;
  cbn [pse set_pse set_frm_level set_frm_brace_level frm_level frm_brace_level
       sparen_count];
  repeat split.
Qed.



(** The body of an [if] is done and [else] comes next: the [if] stays on
    the stack and waits for it. *)
Lemma handle_complex_close_else_next (pc : ChunkPtr) (s : State) :
  let t := top (frm s) in
  let next := GetNextNcNnl (chunks s) pc in
  e_stage t = BRACE2 ->
  e_type t = CT_IF \/ e_type t = CT_ELSEIF ->
  IsNullChunk (chunks s) next = false ->
  c_type (chunk_at (chunks s) next) = CT_ELSE ->
  handle_complex_close pc s
  = Ok false (set_frm (set_top (set_e_stage ELSE) (frm s)) s).
Proof.
  intros t next Hst Hty Hn He. subst t next.
  unfold handle_complex_close, handle_complex_close_body. mcbn. rewrite Hst. mcbn.
  assert (Hif : tok_eqb (e_type (top (frm s))) CT_IF
                || tok_eqb (e_type (top (frm s))) CT_ELSEIF = true).
  { destruct Hty as [H|H]; rewrite H; reflexivity. }
  rewrite Hif. mcbn. rewrite Hn. unfold IsNot, Is. rewrite He. tok_consts. mcbn.
  reflexivity.
Qed.

(** When the statement whose body is done is closed. *)
Definition closes_at_brace (ty : E_Token) (next_null : bool) (next : Chunk) : bool :=
  if tok_eqb ty CT_IF || tok_eqb ty CT_ELSEIF then next_null || IsNot CT_ELSE next
  else if tok_eqb ty CT_TRY || tok_eqb ty CT_CATCH
       then IsNot CT_CATCH next && IsNot CT_FINALLY next
       else true.

(** The body of a statement is done and nothing of the statement follows:
    the statement is popped, and with a plain entry under it that is the
    end of it. *)
Lemma handle_complex_close_closes (pc : ChunkPtr) (s : State)
      (e u : paren_stack_entry_t) (rest : list paren_stack_entry_t) :
  let next := GetNextNcNnl (chunks s) pc in
  IsNullChunk (chunks s) pc = false ->
  consumed (braceState s) = true ->
  pse (frm s) = e :: u :: rest ->
  e_stage e = BRACE2 ->
  closes_at_brace (e_type e) (IsNullChunk (chunks s) next) (chunk_at (chunks s) next) = true ->
  e_stage u = NONE ->
  e_type u <> CT_VBRACE_OPEN ->
  exists s',
    handle_complex_close pc s = Ok false s'
    /\ chunks s' = chunks s /\ braceState s' = braceState s /\ log s' = log s
    /\ pse (frm s') = u :: rest
    /\ frm_level (frm s') = frm_level (frm s)
    /\ frm_brace_level (frm s') = frm_brace_level (frm s)
    /\ sparen_count (frm s') = sparen_count (frm s)
    /\ stmt_count (frm s') = 0 /\ expr_count (frm s') = 0.
Proof.
  intros next Hn Hc Hp Hst Hcl Hu Hv. subst next.
  apply tok_eqb_neq in Hv.
  assert (Ht : top (frm s) = e) by (unfold top; now rewrite Hp).
  unfold handle_complex_close, handle_complex_close_body. mcbn. rewrite Ht, Hst. mcbn.
  assert (Run : forall f,
            pse f = e :: u :: rest \/ pse f = set_e_stage ELSE e :: u :: rest
            \/ pse f = set_e_stage CATCH e :: u :: rest ->
            frm_level f = frm_level (frm s) ->
            frm_brace_level f = frm_brace_level (frm s) ->
            sparen_count f = sparen_count (frm s) ->
            exists s',
              close_statement pc (set_frm (frm_pop f) s) = Ok false s'
              /\ chunks s' = chunks s /\ braceState s' = braceState s /\ log s' = log s
              /\ pse (frm s') = u :: rest
              /\ frm_level (frm s') = frm_level (frm s)
              /\ frm_brace_level (frm s') = frm_brace_level (frm s)
              /\ sparen_count (frm s') = sparen_count (frm s)
              /\ stmt_count (frm s') = 0 /\ expr_count (frm s') = 0).
  { intros f Hf Hl Hbl Hsp.
    assert (Hpop : pse (frm_pop f) = u :: rest).
    { unfold frm_pop. cbn [pse set_pse]. destruct Hf as [H|[H|H]]; now rewrite H. }
    unfold close_statement. cbn [close_statement_fuel].
    unfold close_statement_body. mcbn. rewrite Hn. mcbn. rewrite Hc. mcbn.
    unfold top. cbn [pse set_pse set_stmt_count set_expr_count].
    rewrite Hpop. cbn [hd]. rewrite Hv. mcbn.
    cbn [frm set_frm pse set_pse set_stmt_count set_expr_count].
    rewrite Hpop. cbn [hd]. rewrite Hu. tok_consts. mcbn.
    eexists. split; [reflexivity|].
    cbn [chunks frm braceState log set_frm pse frm_level frm_brace_level sparen_count
         stmt_count expr_count set_stmt_count set_expr_count].
    rewrite Hpop. unfold frm_pop.
    cbn [pse set_pse frm_level frm_brace_level sparen_count].
    rewrite Hl, Hbl, Hsp. repeat split. }
  unfold closes_at_brace in Hcl.
  destruct (tok_eqb (e_type e) CT_IF || tok_eqb (e_type e) CT_ELSEIF) eqn:Eif.
  - mcbn. rewrite Hcl. mcbn.
    apply Run; unfold set_top; rewrite Hp; try reflexivity.
    right. left. reflexivity.
  - destruct (tok_eqb (e_type e) CT_TRY || tok_eqb (e_type e) CT_CATCH) eqn:Etry.
    + mcbn. rewrite Hcl. mcbn.
      apply Run; unfold set_top; rewrite Hp; try reflexivity.
      right. right. reflexivity.
    + mcbn. apply Run; try reflexivity. now left.
Qed.

(** What is left of [parse_cleanup] once a close brace has been handled. *)
Lemma after_close_brace (env : Env) (pc : ChunkPtr) (s : State) :
  c_type (chunk_at (chunks s) pc) = CT_BRACE_CLOSE
  \/ c_type (chunk_at (chunks s) pc) = CT_VBRACE_CLOSE ->
  e_stage (top (frm s)) <> WOD_SEMI ->
  (pc_wod_semi env pc ;;;
   parentType <- pc_parent env pc ;;
   pc_open env pc parentType ;;;
   pc_switch pc ;;;
   pc_push_complex pc ;;;
   pc_reset_counts pc) s
  = pc_reset_counts pc s.
Proof.
  intros Hty Hst.
  unfold bind at 1. rewrite pc_wod_semi_skip by exact Hst.
  unfold bind at 1. rewrite pc_parent_skip
    by (unfold Is; destruct Hty as [H|H]; rewrite H; reflexivity).
  unfold bind at 1. rewrite pc_open_skip
    by (unfold is_opener, Is; destruct Hty as [H|H]; rewrite H; reflexivity).
  unfold bind at 1. rewrite pc_switch_skip
    by (unfold Is; destruct Hty as [H|H]; rewrite H; reflexivity).
  unfold bind at 1. rewrite pc_push_complex_skip
    by (destruct Hty as [H|H]; rewrite H; reflexivity).
  reflexivity.
Qed.

(** [parse_cleanup] on the close brace of a statement body, up to the call
    of [handle_complex_close]. *)
Lemma parse_cleanup_at_body_close (env : Env) (pc : ChunkPtr) (s : State)
      (t e : paren_stack_entry_t) (rest : list paren_stack_entry_t) :
  let c := chunk_at (chunks s) pc in
  closes_top_brace c t ->
  pse (frm s) = t :: e :: rest ->
  e_stage t = NONE ->
  e_stage e <> NONE ->
  exists sm,
    parse_cleanup env pc s
    = (_ <- handle_complex_close pc ;;
       pc_wod_semi env pc ;;;
       parentType <- pc_parent env pc ;;
       pc_open env pc parentType ;;;
       pc_switch pc ;;;
       pc_push_complex pc ;;;
       pc_reset_counts pc) sm
    /\ same_shape (chunks s) (chunks sm)
    /\ (forall q, IsNullChunk (chunks sm) q = IsNullChunk (chunks s) q)
    /\ c_parent_type (chunk_at (chunks sm) pc) = e_parent t
    /\ c_level (chunk_at (chunks sm) pc) = wrap64 (frm_level (frm s) - 1)
    /\ c_brace_level (chunk_at (chunks sm) pc) = wrap64 (frm_brace_level (frm s) - 1)
    /\ pse (frm sm) = e :: rest
    /\ frm_level (frm sm) = wrap64 (frm_level (frm s) - 1)
    /\ frm_brace_level (frm sm) = wrap64 (frm_brace_level (frm s) - 1)
    /\ sparen_count (frm sm) = sparen_count (frm s)
    /\ consumed (braceState sm) = true
    /\ log sm = log s.
Proof.
  intros c Hcl Hp Hst He. subst c.
  destruct (parse_cleanup_after_marks_shape env pc s) as (s2 & M & Hsh & E).
  destruct M as [Mpse Mlev Mblev Msp Mbs Mlog Mtype Mstr Mline Mcol Mprep Mnull].
  assert (Htop : top (frm s2) = t) by (unfold top; now rewrite Mpse, Hp).
  assert (Hbel : prev_entry (frm s2) = e) by (unfold prev_entry; now rewrite Mpse, Hp).
  assert (Hcl2 : closes_top_brace (chunk_at (chunks s2) pc) (top (frm s2))).
  { unfold closes_top_brace in *. now rewrite Mtype, Htop. }
  assert (Hnn : IsNullChunk (chunks s2) pc = false).
  { destruct (IsNullChunk (chunks s2) pc) eqn:N; [|reflexivity].
    unfold closes_top_brace in Hcl2. rewrite (chunk_at_null _ _ N) in Hcl2.
    destruct Hcl2 as [[H _]|[H _]]; discriminate. }
  rewrite E. clear E.
  unfold bind at 1, the_top at 1, gets at 1.
  unfold bind at 1, the_chunk at 1, gets at 1.
  rewrite Htop, Hst. tok_consts. cbn [negb andb].
  unfold bind at 1, ret at 1.
  unfold parse_cleanup_rest.
  unfold bind at 1. rewrite pc_vbrace_close_skip.
  2:{ unfold closes_top_brace in Hcl2. rewrite Htop in *.
      destruct Hcl2 as [[H1 H2]|[H1 H2]]; [left; now rewrite H2|].
      right. unfold IsSemicolon, Is. rewrite H1. split; reflexivity. }
  destruct (pc_close_brace_upto pc s2 Hnn Hcl2)
    as (sm & Em & Cm & Pm & Lm & Bm & Sm & Km & Gm);
    [now rewrite Hbel |].
  exists sm. split.
  - unfold bind. rewrite Em. unfold bind, ret.
    destruct (handle_complex_close pc sm); reflexivity.
  - rewrite Cm, Pm, Lm, Bm, Sm, Km, Gm, Mpse, Mlev, Mblev, Msp, Mlog, Hp, Htop.
    split; [|split; [|split; [|split; [|split; [|repeat split]]]]].
    + eapply same_shape_trans; [exact Hsh|].
      apply same_shape_update_at. intro; reflexivity.
    + intro q. now rewrite IsNullChunk_update_at.
    + now rewrite chunk_at_update_at_same.
    + now rewrite chunk_at_update_at_same.
    + now rewrite chunk_at_update_at_same.
Qed.

Lemma same_shape_type (cl cl' : ChunkList) (q : ChunkPtr) :
  same_shape cl cl' -> c_type (chunk_at cl q) = c_type (chunk_at cl' q).
Proof.
  intro H. destruct q as [i|]; simpl; [|reflexivity].
  pose proof (same_shape_lookup cl cl' i H) as E.
  destruct (lookup cl i), (lookup cl' i); simpl in E; congruence.
Qed.

(** The close brace, real or virtual, of the body of an [if] (or
    [else if]) with [else] coming next: [parse_cleanup] pops the entry of
    the open brace, gives
    the close brace its parent type and the levels one down, and leaves the
    [if] on the stack in stage [ELSE]; no warning is written. *)
Theorem if_body_close_waits_for_else
    (env : Env) (pc : ChunkPtr) (s : State)
    (t e : paren_stack_entry_t) (rest : list paren_stack_entry_t) :
  let c := chunk_at (chunks s) pc in
  let next := GetNextNcNnl (chunks s) pc in
  closes_top_brace c t ->
  pse (frm s) = t :: e :: rest ->
  e_stage t = NONE ->
  e_stage e = BRACE2 ->
  e_type e = CT_IF \/ e_type e = CT_ELSEIF ->
  IsNullChunk (chunks s) next = false ->
  c_type (chunk_at (chunks s) next) = CT_ELSE ->
  exists s',
    parse_cleanup env pc s = Ok tt s'
    /\ pse (frm s') = set_e_stage ELSE e :: rest
    /\ c_type (chunk_at (chunks s') pc) = c_type c
    /\ c_parent_type (chunk_at (chunks s') pc) = e_parent t
    /\ c_level (chunk_at (chunks s') pc) = wrap64 (frm_level (frm s) - 1)
    /\ c_brace_level (chunk_at (chunks s') pc) = wrap64 (frm_brace_level (frm s) - 1)
    /\ frm_level (frm s') = wrap64 (frm_level (frm s) - 1)
    /\ frm_brace_level (frm s') = wrap64 (frm_brace_level (frm s) - 1)
    /\ log s' = log s.
Proof.
  intros c next Hcl Hp Hst He Hif Hnn Hel. subst c next.
  assert (Hty : c_type (chunk_at (chunks s) pc) = CT_BRACE_CLOSE
                \/ c_type (chunk_at (chunks s) pc) = CT_VBRACE_CLOSE)
    by (destruct Hcl as [[H _]|[H _]]; auto).
  destruct (parse_cleanup_at_body_close env pc s t e rest Hcl Hp Hst)
    as (sm & E & Hsh & Nm & Pm & Lm & Bm & Sm & FLm & FBm & _ & _ & Gm);
    [rewrite He; discriminate|].
  destruct (same_shape_walks _ _ pc Hsh) as (_ & _ & _ & _ & Wnext & _).
  assert (Tm : forall q, c_type (chunk_at (chunks sm) q) = c_type (chunk_at (chunks s) q))
    by (intro q; symmetry; now apply same_shape_type).
  assert (Htm : top (frm sm) = e) by (unfold top; now rewrite Sm).
  rewrite E. clear E.
  unfold bind at 1.
  rewrite (handle_complex_close_else_next pc sm)
    by (rewrite <- ?Wnext, ?Nm, ?Tm, ?Htm; assumption).
  set (s3 := set_frm (set_top (set_e_stage ELSE) (frm sm)) sm).
  assert (P3 : pse (frm s3) = set_e_stage ELSE e :: rest).
  { unfold s3, set_top. cbn [frm set_frm]. rewrite Sm. reflexivity. }
  rewrite after_close_brace;
    [| unfold s3; cbn [chunks set_frm]; now rewrite Tm
     | unfold top; rewrite P3; discriminate].
  destruct (pc_reset_counts_frame pc s3) as (s4 & E4 & Fc & Fbs & Flog & Fp & Fl & Fb & Fs).
  rewrite E4. exists s4. split; [reflexivity|].
  rewrite Fc, Flog, Fp, Fl, Fb, P3. unfold s3, set_top. cbn [chunks log frm set_frm].
  rewrite Sm. cbn [frm_level frm_brace_level set_pse].
  rewrite Tm, Pm, Lm, Bm, FLm, FBm, Gm.
  repeat split.
Qed.

(** The theorem at work on the first close brace of
    [if ( a ) { } else if ( b ) { }]. *)
Lemma if_body_close_waits_for_else_witness :
  exists s',
    parse_cleanup c_env (Some 5%nat) (state_after c_env 5 else_if_stream) = Ok tt s'
    /\ pse (frm s') = [mkEntry CT_IF CT_NONE ELSE (Some 0%nat); eof_entry]
    /\ c_parent_type (chunk_at (chunks s') (Some 5%nat)) = CT_IF.
Proof.
  pose (s0 := state_after c_env 5 else_if_stream).
  pose (t := mkEntry CT_BRACE_OPEN CT_IF NONE (Some 4%nat)).
  pose (e := mkEntry CT_IF CT_NONE BRACE2 (Some 0%nat)).
  assert (H1 : c_type (chunk_at (chunks s0) (Some 5%nat)) = CT_BRACE_CLOSE)
    by (vm_compute; reflexivity).
  assert (H2 : pse (frm s0) = t :: e :: [eof_entry]) by (vm_compute; reflexivity).
  assert (H3 : IsNullChunk (chunks s0) (GetNextNcNnl (chunks s0) (Some 5%nat)) = false)
    by (vm_compute; reflexivity).
  assert (H4 : c_type (chunk_at (chunks s0) (GetNextNcNnl (chunks s0) (Some 5%nat))) = CT_ELSE)
    by (vm_compute; reflexivity).
  change (state_after c_env 5 else_if_stream) with s0. clearbody s0.
  destruct (if_body_close_waits_for_else c_env (Some 5%nat) s0 t e [eof_entry]
              (or_introl (conj H1 eq_refl)) H2 eq_refl eq_refl (or_introl eq_refl) H3 H4)
    as (s' & E & T1 & _ & T3 & _).
  exists s'. split; [exact E|]. split; [exact T1 | exact T3].
Defined.

(** The close brace, real or virtual, of the body of a statement that ends
    there (a loop, a
    switch, an [if] without [else], a [try] or [catch] without a handler
    behind it), a plain entry under the statement: [parse_cleanup] pops the
    entry of the open brace and the statement with it, gives the close
    brace its parent type and the levels one down, and starts a new
    statement; no warning is written. *)
Theorem braced_statement_is_closed
    (env : Env) (pc : ChunkPtr) (s : State)
    (t e u : paren_stack_entry_t) (rest : list paren_stack_entry_t) :
  let c := chunk_at (chunks s) pc in
  let next := GetNextNcNnl (chunks s) pc in
  closes_top_brace c t ->
  pse (frm s) = t :: e :: u :: rest ->
  e_stage t = NONE ->
  e_stage e = BRACE2 ->
  closes_at_brace (e_type e) (IsNullChunk (chunks s) next) (chunk_at (chunks s) next) = true ->
  e_stage u = NONE ->
  e_type u <> CT_VBRACE_OPEN ->
  exists s',
    parse_cleanup env pc s = Ok tt s'
    /\ pse (frm s') = u :: rest
    /\ c_type (chunk_at (chunks s') pc) = c_type c
    /\ c_parent_type (chunk_at (chunks s') pc) = e_parent t
    /\ c_level (chunk_at (chunks s') pc) = wrap64 (frm_level (frm s) - 1)
    /\ c_brace_level (chunk_at (chunks s') pc) = wrap64 (frm_brace_level (frm s) - 1)
    /\ frm_level (frm s') = wrap64 (frm_level (frm s) - 1)
    /\ frm_brace_level (frm s') = wrap64 (frm_brace_level (frm s) - 1)
    /\ stmt_count (frm s') = 0 /\ expr_count (frm s') = 0
    /\ log s' = log s.
Proof.
  intros c next Hcb Hp Hst He Hcl Hu Hv. subst c next.
  assert (Hty : c_type (chunk_at (chunks s) pc) = CT_BRACE_CLOSE
                \/ c_type (chunk_at (chunks s) pc) = CT_VBRACE_CLOSE)
    by (destruct Hcb as [[H _]|[H _]]; auto).
  destruct (parse_cleanup_at_body_close env pc s t e (u :: rest) Hcb Hp Hst)
    as (sm & E & Hsh & Nm & Pm & Lm & Bm & Sm & FLm & FBm & _ & Km & Gm);
    [rewrite He; discriminate|].
  destruct (same_shape_walks _ _ pc Hsh) as (_ & _ & _ & _ & Wnext & _).
  assert (Tm : forall q, c_type (chunk_at (chunks sm) q) = c_type (chunk_at (chunks s) q))
    by (intro q; symmetry; now apply same_shape_type).
  assert (Hnn : IsNullChunk (chunks sm) pc = false).
  { rewrite Nm. destruct (IsNullChunk (chunks s) pc) eqn:N; [|reflexivity].
    rewrite (chunk_at_null _ _ N) in Hty. destruct Hty; discriminate. }
  assert (Hcm : closes_at_brace (e_type e)
                  (IsNullChunk (chunks sm) (GetNextNcNnl (chunks sm) pc))
                  (chunk_at (chunks sm) (GetNextNcNnl (chunks sm) pc)) = true).
  { rewrite <- Wnext, Nm. rewrite <- Hcl.
    unfold closes_at_brace, IsNot, Is. now rewrite Tm. }
  rewrite E. clear E.
  destruct (handle_complex_close_closes pc sm e u rest Hnn Km Sm He Hcm Hu Hv)
    as (s3 & E3 & C3 & _ & G3 & P3 & L3 & B3 & _ & _ & _).
  unfold bind at 1. rewrite E3.
  rewrite after_close_brace;
    [| now rewrite C3, Tm | unfold top; rewrite P3; cbn [hd]; rewrite Hu; discriminate].
  assert (Hbc : Is CT_BRACE_CLOSE (chunk_at (chunks s3) pc)
                || Is CT_VBRACE_CLOSE (chunk_at (chunks s3) pc) = true)
    by (unfold Is; rewrite C3, Tm; destruct Hty as [H|H]; rewrite H; reflexivity).
  unfold pc_reset_counts. mcbn.
  match goal with |- context [if ?b then _ else _] =>
    assert (Hreset : b = true)
      by (apply orb_true_iff in Hbc; destruct Hbc as [H|H]; rewrite H;
          rewrite ?orb_true_r; reflexivity);
    rewrite Hreset; clear Hreset
  end.
  mcbn.
  match goal with |- context [if ?b then _ else _] => destruct b end; mcbn;
    (eexists; split; [reflexivity|]);
    cbn [chunks frm log set_frm pse frm_level frm_brace_level stmt_count expr_count
         set_stmt_count set_expr_count];
    rewrite C3, G3, P3, L3, B3, Tm, Pm, Lm, Bm, FLm, FBm, Gm;
    repeat split.
Qed.

(** The theorem at work on the close brace of [while ( x ) { } y]. *)
Lemma braced_statement_is_closed_witness :
  exists s',
    parse_cleanup c_env (Some 5%nat) (state_after c_env 5 while_block_stream) = Ok tt s'
    /\ pse (frm s') = [eof_entry]
    /\ c_parent_type (chunk_at (chunks s') (Some 5%nat)) = CT_WHILE
    /\ frm_level (frm s') = 0.
Proof.
  pose (s0 := state_after c_env 5 while_block_stream).
  pose (t := mkEntry CT_BRACE_OPEN CT_WHILE NONE (Some 4%nat)).
  pose (e := mkEntry CT_WHILE CT_NONE BRACE2 (Some 0%nat)).
  assert (H1 : c_type (chunk_at (chunks s0) (Some 5%nat)) = CT_BRACE_CLOSE)
    by (vm_compute; reflexivity).
  assert (H2 : pse (frm s0) = t :: e :: eof_entry :: []) by (vm_compute; reflexivity).
  assert (H3 : closes_at_brace (e_type e)
                 (IsNullChunk (chunks s0) (GetNextNcNnl (chunks s0) (Some 5%nat)))
                 (chunk_at (chunks s0) (GetNextNcNnl (chunks s0) (Some 5%nat))) = true)
    by (vm_compute; reflexivity).
  assert (H4 : e_type eof_entry <> CT_VBRACE_OPEN) by discriminate.
  assert (F1 : wrap64 (frm_level (frm s0) - 1) = 0) by (vm_compute; reflexivity).
  change (state_after c_env 5 while_block_stream) with s0. clearbody s0.
  destruct (braced_statement_is_closed c_env (Some 5%nat) s0 t e eof_entry []
              (or_introl (conj H1 eq_refl)) H2 eq_refl eq_refl H3 eq_refl H4)
    as (s' & E & T1 & _ & T3 & _ & _ & T6 & _).
  exists s'. split; [exact E|]. split; [exact T1|]. split; [exact T3|].
  now rewrite T6.
Defined.

(* ================================================================== *)
(** ** The semicolon that ends a statement in virtual braces *)

Lemma close_statement_in_vbrace (pc : ChunkPtr) (s : State) :
  IsNullChunk (chunks s) pc = false ->
  consumed (braceState s) = true ->
  e_type (top (frm s)) = CT_VBRACE_OPEN ->
  e_stage (top (frm s)) = NONE ->
  close_statement pc s
  = (_ <- insert_vbrace_close_after pc ;; ret false)
      (set_frm (set_expr_count 0 (set_stmt_count 0 (frm s))) s).
Proof.
  intros Hn Hc Ht Hst.
  unfold close_statement. cbn [close_statement_fuel].
  unfold close_statement_body. mcbn. rewrite Hn. mcbn. rewrite Hc. mcbn.
  unfold top in *. cbn [pse set_pse set_stmt_count set_expr_count].
  rewrite Ht. tok_consts. mcbn.
  destruct (insert_vbrace_close_after pc _) as [v s1| | |] eqn:E; try reflexivity.
  assert (Hf : frm s1 = set_expr_count 0 (set_stmt_count 0 (frm s))).
  { destruct (IsNullChunk (chunks s) pc) eqn:N; [discriminate|].
    destruct (insert_vbrace_close_after_spec pc
                (set_frm (set_expr_count 0 (set_stmt_count 0 (frm s))) s)) as [H _].
    destruct (H N) as (v' & s' & E' & _ & _ & _ & _ & _ & _ & F' & _).
    rewrite E in E'. injection E' as _ <-. exact F'. }
  unfold top. rewrite Hf. cbn [pse set_pse set_stmt_count set_expr_count].
  rewrite Hst. tok_consts. mcbn. reflexivity.
Qed.

(** A semicolon met while a virtual brace is open: [parse_cleanup] links a
    new virtual brace close in right behind the semicolon, on the line and
    in the column of the semicolon and with the levels of the frame, and
    marks the chunk as consumed.  The stack and the levels are left as they
    are (the loop pops the entry when it comes to the new chunk), a new
    statement starts, and no warning is written. *)
Theorem semicolon_closes_the_virtual_brace (env : Env) (pc : ChunkPtr) (s : State) :
  let c := chunk_at (chunks s) pc in
  let t := top (frm s) in
  IsNullChunk (chunks s) pc = false ->
  IsSemicolon c = true ->
  e_type t = CT_VBRACE_OPEN ->
  e_stage t = NONE ->
  exists v s',
    parse_cleanup env pc s = Ok tt s'
    /\ lookup (chunks s) v = None
    /\ GetNext (chunks s') pc = Some v
    /\ GetNext (chunks s') (Some v) = GetNext (chunks s) pc
    /\ c_type (chunk_at (chunks s') (Some v)) = CT_VBRACE_CLOSE
    /\ c_level (chunk_at (chunks s') (Some v)) = frm_level (frm s)
    /\ c_brace_level (chunk_at (chunks s') (Some v)) = frm_brace_level (frm s)
    /\ c_orig_line (chunk_at (chunks s') (Some v)) = c_orig_line c
    /\ c_orig_col (chunk_at (chunks s') (Some v)) = c_orig_col c
    /\ c_type (chunk_at (chunks s') pc) = c_type c
    /\ pse (frm s') = pse (frm s)
    /\ frm_level (frm s') = frm_level (frm s)
    /\ frm_brace_level (frm s') = frm_brace_level (frm s)
    /\ stmt_count (frm s') = 0 /\ expr_count (frm s') = 0
    /\ consumed (braceState s') = true
    /\ log s' = log s.
Proof.
  intros c t Hn Hsemi Ht Hst. subst c t.
  destruct (parse_cleanup_after_marks_shape env pc s) as (s2 & M & Hsh & E).
  destruct M as [Mpse Mlev Mblev Msp Mbs Mlog Mtype Mstr Mline Mcol Mprep Mnull].
  destruct (same_shape_walks _ _ pc Hsh) as (Wnext & _).
  assert (Htop : top (frm s2) = top (frm s)) by (unfold top; now rewrite Mpse).
  assert (Hn2 : IsNullChunk (chunks s2) pc = false) by now rewrite Mnull.
  assert (Hsemi2 : IsSemicolon (chunk_at (chunks s2) pc) = true).
  { unfold IsSemicolon, Is in *. now rewrite Mtype. }
  rewrite E. clear E.
  unfold bind at 1, the_top at 1, gets at 1.
  unfold bind at 1, the_chunk at 1, gets at 1.
  rewrite Htop, Hst. tok_consts. cbn [negb andb].
  unfold bind at 1, ret at 1.
  unfold parse_cleanup_rest.
  (* the virtual brace close *)
  set (s3 := set_braceState
               (mkBraceState (frames (braceState s2)) (in_preproc (braceState s2))
                             (pp_level (braceState s2)) true) s2).
  set (s4 := set_frm (set_expr_count 0 (set_stmt_count 0 (frm s3))) s3).
  assert (Hn4 : IsNullChunk (chunks s4) pc = false) by exact Hn2.
  destruct (insert_vbrace_close_after_spec pc s4) as [Hins _].
  destruct (Hins Hn4) as (v & s5 & E5 & Hnew & C5 & N5 & _ & NN5 & K5 & F5 & B5 & G5).
  assert (Hnew0 : lookup (chunks s) v = None).
  { pose proof (same_shape_lookup _ _ v Hsh) as L.
    change (chunks s4) with (chunks s2) in Hnew. rewrite Hnew in L.
    destruct (lookup (chunks s) v); [discriminate | reflexivity]. }
  assert (Evb : pc_vbrace_close env pc s2 = Ok tt s5).
  { unfold pc_vbrace_close. mcbn. rewrite Htop, Ht. tok_consts. mcbn.
    rewrite Hsemi2. mcbn. fold s3.
    rewrite (close_statement_in_vbrace pc s3);
      [| exact Hn2 | reflexivity | unfold s3; cbn [frm set_braceState]; now rewrite Htop
       | unfold s3; cbn [frm set_braceState]; now rewrite Htop].
    fold s4. unfold bind at 1. rewrite E5. reflexivity. }
  unfold bind at 1. rewrite Evb.
  assert (C5pc : chunk_at (chunks s5) pc = chunk_at (chunks s2) pc) by (apply K5; exact Hn2).
  assert (T5 : c_type (chunk_at (chunks s5) pc) = c_type (chunk_at (chunks s) pc))
    by now rewrite C5pc, Mtype.
  assert (Hsemi5 : IsSemicolon (chunk_at (chunks s5) pc) = true) by now rewrite C5pc.
  assert (Types5 : forall ty, ty <> CT_SEMICOLON -> ty <> CT_VSEMICOLON ->
                     Is ty (chunk_at (chunks s5) pc) = false).
  { intros ty H1 H2. unfold IsSemicolon, Is in *.
    apply orb_true_iff in Hsemi5. destruct Hsemi5 as [H|H];
      apply tok_eqb_eq in H; rewrite H; apply tok_eqb_neq; congruence. }
  assert (P5 : pse (frm s5) = pse (frm s)).
  { rewrite F5. unfold s4, s3. cbn [frm set_frm set_braceState pse set_expr_count
      set_stmt_count]. exact Mpse. }
  assert (Htop5 : top (frm s5) = top (frm s)) by (unfold top; now rewrite P5).
  unfold bind at 1. rewrite pc_close_skip
    by (unfold is_closer; rewrite !Types5 by discriminate; reflexivity).
  unfold bind at 1. rewrite pc_wod_semi_skip by (rewrite Htop5, Hst; discriminate).
  unfold bind at 1. rewrite pc_parent_skip by (rewrite !Types5 by discriminate; reflexivity).
  unfold bind at 1. rewrite pc_open_skip
    by (unfold is_opener; rewrite !Types5 by discriminate; reflexivity).
  unfold bind at 1. rewrite pc_switch_skip by (apply Types5; discriminate).
  unfold bind at 1. rewrite pc_push_complex_skip.
  2:{ unfold IsSemicolon, Is in Hsemi5. apply orb_true_iff in Hsemi5.
      destruct Hsemi5 as [H|H]; apply tok_eqb_eq in H; rewrite H; reflexivity. }
  unfold pc_reset_counts. mcbn. rewrite Hsemi5, Htop5, Ht. tok_consts.
  cbn [negb andb]. rewrite !orb_true_r. cbn [orb]. mcbn.
  match goal with |- context [if ?b then _ else _] => destruct b end; mcbn;
    (exists v; eexists; split; [reflexivity|]);
    cbn [chunks frm braceState log set_frm pse frm_level frm_brace_level stmt_count
         expr_count set_stmt_count set_expr_count];
    rewrite C5, N5, NN5, C5pc, F5, B5, G5, Mtype;
    unfold s4, s3;
    cbn [chunks frm braceState log set_frm set_braceState pse frm_level frm_brace_level
         stmt_count expr_count set_stmt_count set_expr_count consumed vbrace_close_for
         c_type c_level c_brace_level c_orig_line c_orig_col];
    rewrite Mpse, Mlev, Mblev, Mlog, Mline, Mcol, <- Wnext;
    (split; [exact Hnew0 | repeat split]).
Qed.

(** The theorem at work on the semicolon of [while ( x ) y ;]. *)
Lemma semicolon_closes_the_virtual_brace_witness :
  exists v s',
    parse_cleanup c_env (Some 5%nat) (state_after c_env 5 while_stream) = Ok tt s'
    /\ GetNext (chunks s') (Some 5%nat) = Some v
    /\ c_type (chunk_at (chunks s') (Some v)) = CT_VBRACE_CLOSE
    /\ c_level (chunk_at (chunks s') (Some v)) = 1.
Proof.
  pose (s0 := state_after c_env 5 while_stream).
  assert (H1 : IsNullChunk (chunks s0) (Some 5%nat) = false) by (vm_compute; reflexivity).
  assert (H2 : IsSemicolon (chunk_at (chunks s0) (Some 5%nat)) = true)
    by (vm_compute; reflexivity).
  assert (H3 : e_type (top (frm s0)) = CT_VBRACE_OPEN) by (vm_compute; reflexivity).
  assert (H4 : e_stage (top (frm s0)) = NONE) by (vm_compute; reflexivity).
  assert (F1 : frm_level (frm s0) = 1) by (vm_compute; reflexivity).
  change (state_after c_env 5 while_stream) with s0. clearbody s0.
  destruct (semicolon_closes_the_virtual_brace c_env (Some 5%nat) s0 H1 H2 H3 H4)
    as (v & s' & E & _ & T2 & _ & T4 & T5 & _).
  exists v, s'. split; [exact E|]. split; [exact T2|]. split; [exact T4|].
  now rewrite T5.
Defined.

(* ================================================================== *)
(** ** The open brace of a statement body *)

(** The two marking blocks write the parent type of a semicolon only. *)
Lemma marks_keep_parent_type (pc : ChunkPtr) (s s2 : State) :
  (pc_mark_start pc ;;; pc_mark_sparen pc) s = Ok tt s2 ->
  Is CT_SEMICOLON (chunk_at (chunks s) pc) = false ->
  forall q, c_parent_type (chunk_at (chunks s2) q) = c_parent_type (chunk_at (chunks s) q).
Proof.
  intros E Hs q. revert E.
  assert (Fl : forall cl m p, c_parent_type (chunk_at (update_at cl p (SetFlagBits m)) q)
                              = c_parent_type (chunk_at cl q)).
  { intros cl m p. apply (chunk_at_update_at_field c_parent_type). reflexivity. }
  assert (Ty : forall cl m, Is CT_SEMICOLON (chunk_at (update_at cl pc (SetFlagBits m)) pc)
                            = Is CT_SEMICOLON (chunk_at cl pc)).
  { intros cl m. unfold Is. now rewrite (chunk_at_update_at_field c_type). }
  unfold pc_mark_start, pc_mark_sparen. mcbn.
  match goal with |- context [if ?b then _ else _] => destruct b end; mcbn;
    (destruct (0 <? sparen_count (frm s)); mcbn;
     [destruct (for_below_top _); mcbn; rewrite ?Ty, Hs; mcbn|]);
    intro E; injection E as <-; cbn [chunks set_chunks set_frm]; now rewrite ?Fl.
Qed.

Lemma parse_cleanup_after_marks_parent (env : Env) (pc : ChunkPtr) (s : State) :
  exists s2,
    marks_only pc s s2
    /\ same_shape (chunks s) (chunks s2)
    /\ (Is CT_SEMICOLON (chunk_at (chunks s) pc) = false ->
        forall q, c_parent_type (chunk_at (chunks s2) q)
                  = c_parent_type (chunk_at (chunks s) q))
    /\ parse_cleanup env pc s =
       (t <- the_top ;;
        c <- the_chunk pc ;;
        done <- (if negb (stage_eqb (e_stage t) NONE) && negb (Is CT_AUTORELEASEPOOL c)
                 then check_complex_statements env pc else ret false) ;;
        if done then ret tt else parse_cleanup_rest env pc) s2.
Proof.
  destruct (marks_spec pc s) as (s2 & E & M).
  exists s2. split; [exact M|]. split; [|split].
  - pose proof (shape_marks pc s) as H. rewrite E in H. exact H.
  - intro Hs. now apply (marks_keep_parent_type pc s s2).
  - unfold bind in E. unfold parse_cleanup. unfold bind at 1.
    destruct (pc_mark_start pc s) as [[] s1| | |]; try discriminate.
    unfold bind at 1. rewrite E. reflexivity.
Qed.

(** With the statement waiting for its body, an open brace passes the
    complex-statement check. *)
Lemma ccs_at_brace_open (env : Env) (pc : ChunkPtr) (s : State) :
  e_stage (top (frm s)) = BRACE2 \/ e_stage (top (frm s)) = BRACE_DO ->
  c_type (chunk_at (chunks s) pc) = CT_BRACE_OPEN ->
  check_complex_statements env pc s = Ok false s.
Proof.
  intros Hst Hty.
  unfold check_complex_statements, ccs_op_paren1, or_continue, loop_fuel.
  destruct Hst as [Hst|Hst]; mcbn; rewrite Hst; tok_consts; mcbn;
    unfold ccs_else_loop; mcbn; rewrite Hst; tok_consts; mcbn;
    unfold ccs_elseif; mcbn; rewrite Hst; tok_consts; mcbn;
    unfold ccs_catch_loop; mcbn; rewrite Hst; tok_consts; mcbn;
    unfold ccs_catch_when; mcbn; rewrite Hst; tok_consts; mcbn;
    unfold ccs_while; mcbn; rewrite Hst; tok_consts; mcbn;
    unfold ccs_vbrace; mcbn; unfold IsNot, Is; rewrite Hty; tok_consts; mcbn;
    unfold ccs_constexpr; mcbn; rewrite Hst; tok_consts; mcbn;
    unfold ccs_verify_paren; mcbn; rewrite Hst; tok_consts;
    rewrite ?andb_false_r; mcbn; reflexivity.
Qed.

Lemma pc_parent_brace (env : Env) (pc : ChunkPtr) (s : State) :
  let c := chunk_at (chunks s) pc in
  c_type c = CT_BRACE_OPEN ->
  IsNullChunk (chunks s) (GetPrevNcNnl (chunks s) pc) = false ->
  e_stage (top (frm s)) <> NONE ->
  pc_parent env pc s = Ok (e_type (top (frm s))) s.
Proof.
  intros c Hty Hn Hst. subst c.
  unfold pc_parent. mcbn. unfold Is. rewrite Hty. tok_consts. mcbn.
  rewrite Hn. mcbn.
  destruct (stage_eqb (e_stage (top (frm s))) NONE) eqn:E;
    [apply stage_eqb_eq in E; contradiction | reflexivity].
Qed.

Lemma pc_open_brace (env : Env) (pc : ChunkPtr) (pt : E_Token) (s : State) :
  let c := chunk_at (chunks s) pc in
  c_type c = CT_BRACE_OPEN ->
  c_parent_type c <> CT_NAMESPACE
  \/ indent_namespace env = false \/ indent_namespace_single_indent env = false ->
  pc_open env pc pt s
  = Ok tt
      (set_chunks (update_at (chunks s) pc (SetParentType pt))
         (set_frm
            (set_pse (mkEntry CT_BRACE_OPEN pt NONE pc :: pse (frm s))
               (set_frm_brace_level (wrap64 (frm_brace_level (frm s) + 1))
                  (set_frm_level (wrap64 (frm_level (frm s) + 1)) (frm s)))) s)).
Proof.
  intros c Hty Hsingle. subst c.
  unfold pc_open. mcbn. unfold is_opener, Is. rewrite Hty. tok_consts. mcbn.
  assert (S : tok_eqb (c_parent_type (chunk_at (chunks s) pc)) CT_NAMESPACE
              && tok_eqb (c_parent_type
                            (chunk_at (chunks s)
                               (e_pc (top (set_frm_level (wrap64 (frm_level (frm s) + 1))
                                             (frm s))))))
                         CT_NAMESPACE
              && indent_namespace env && indent_namespace_single_indent env = false).
  { destruct Hsingle as [H|[H|H]].
    - apply tok_eqb_neq in H. now rewrite H.
    - rewrite H. now rewrite andb_false_r.
    - rewrite H. now rewrite andb_false_r. }
  rewrite S. mcbn. unfold frm_push, set_top.
  cbn [pse set_pse set_frm_level set_frm_brace_level chunks frm set_frm].
  rewrite Hty. reflexivity.
Qed.

Lemma pc_switch_brace (pc : ChunkPtr) (s : State)
      (b t : paren_stack_entry_t) (rest : list paren_stack_entry_t) :
  let c := chunk_at (chunks s) pc in
  c_type c = CT_BRACE_OPEN ->
  pse (frm s) = b :: t :: rest ->
  pc_switch pc s
  = Ok tt (if tok_eqb (c_parent_type c) CT_SWITCH && negb (IsNullChunk (chunks s) (e_pc t))
           then set_chunks (update_at (chunks s) pc (SetParent (e_pc t))) s
           else s).
Proof.
  intros c Hty Hp. subst c.
  unfold pc_switch. mcbn. unfold Is at 1. rewrite Hty. tok_consts. cbn [andb].
  destruct (tok_eqb (c_parent_type (chunk_at (chunks s) pc)) CT_SWITCH) eqn:Esw; mcbn.
  - unfold set_parent_from_stack. mcbn. unfold at_size_minus_2. rewrite Hp. mcbn.
    destruct (IsNullChunk (chunks s) (e_pc t)); mcbn;
      unfold Is; rewrite ?(chunk_at_update_at_field c_type) by reflexivity;
      rewrite Hty; tok_consts; mcbn; reflexivity.
  - unfold Is. rewrite Hty. tok_consts. mcbn. reflexivity.
Qed.

(** The open brace of the body of a complex statement (stage [BRACE2], or
    [BRACE_DO] after [do]), the brace no namespace brace under single
    indent: no virtual brace is made; [parse_cleanup] gives the brace the
    statement as parent type, pushes an entry for it and goes one level and
    one brace level deeper.  The brace of a [switch] also gets the chunk of
    the [switch] as its parent.  No warning is written. *)
Theorem statement_brace_is_opened (env : Env) (pc : ChunkPtr) (s : State) :
  let c := chunk_at (chunks s) pc in
  let t := top (frm s) in
  c_type c = CT_BRACE_OPEN ->
  e_stage t = BRACE2 \/ e_stage t = BRACE_DO ->
  IsNullChunk (chunks s) (GetPrevNcNnl (chunks s) pc) = false ->
  c_parent_type c <> CT_NAMESPACE
  \/ indent_namespace env = false \/ indent_namespace_single_indent env = false ->
  exists s',
    parse_cleanup env pc s = Ok tt s'
    /\ c_type (chunk_at (chunks s') pc) = CT_BRACE_OPEN
    /\ c_parent_type (chunk_at (chunks s') pc) = e_type t
    /\ (e_type t = CT_SWITCH -> IsNullChunk (chunks s) (e_pc t) = false ->
        c_parent (chunk_at (chunks s') pc) = e_pc t)
    /\ pse (frm s') = mkEntry CT_BRACE_OPEN (e_type t) NONE pc :: pse (frm s)
    /\ frm_level (frm s') = wrap64 (frm_level (frm s) + 1)
    /\ frm_brace_level (frm s') = wrap64 (frm_brace_level (frm s) + 1)
    /\ sparen_count (frm s') = sparen_count (frm s)
    /\ log s' = log s.
Proof.
  intros c t Hty Hst Hpn Hsingle. subst c t.
  assert (Hsemi : Is CT_SEMICOLON (chunk_at (chunks s) pc) = false)
    by (unfold Is; rewrite Hty; reflexivity).
  destruct (parse_cleanup_after_marks_parent env pc s) as (s2 & M & Hsh & Hpar & E).
  specialize (Hpar Hsemi).
  destruct M as [Mpse Mlev Mblev Msp Mbs Mlog Mtype Mstr Mline Mcol Mprep Mnull].
  destruct (same_shape_walks _ _ pc Hsh) as (_ & _ & _ & _ & _ & Wprev).
  assert (Htop : top (frm s2) = top (frm s)) by (unfold top; now rewrite Mpse).
  assert (Hty2 : c_type (chunk_at (chunks s2) pc) = CT_BRACE_OPEN) by now rewrite Mtype.
  assert (Hst2 : e_stage (top (frm s2)) = BRACE2 \/ e_stage (top (frm s2)) = BRACE_DO)
    by now rewrite Htop.
  assert (Hpn2 : IsNullChunk (chunks s2) (GetPrevNcNnl (chunks s2) pc) = false)
    by now rewrite <- Wprev, Mnull.
  assert (Hnn : IsNullChunk (chunks s2) pc = false).
  { destruct (IsNullChunk (chunks s2) pc) eqn:N; [|reflexivity].
    rewrite (chunk_at_null _ _ N) in Hty2. discriminate. }
  assert (Hsingle2 : c_parent_type (chunk_at (chunks s2) pc) <> CT_NAMESPACE
                     \/ indent_namespace env = false
                     \/ indent_namespace_single_indent env = false)
    by now rewrite Hpar.
  destruct (pse (frm s)) as [|t rest] eqn:P.
  { unfold top in Hst. rewrite P in Hst. destruct Hst; discriminate. }
  assert (Ht : top (frm s) = t) by (unfold top; now rewrite P).
  rewrite Ht in *.
  rewrite E. clear E.
  unfold bind at 1, the_top at 1, gets at 1.
  unfold bind at 1, the_chunk at 1, gets at 1.
  assert (Hgo : negb (stage_eqb (e_stage (top (frm s2))) NONE)
                && negb (Is CT_AUTORELEASEPOOL (chunk_at (chunks s2) pc)) = true).
  { unfold Is. rewrite Hty2, Htop. destruct Hst as [-> | ->]; reflexivity. }
  rewrite Hgo. unfold bind at 1. rewrite (ccs_at_brace_open env pc s2 Hst2 Hty2).
  unfold parse_cleanup_rest.
  unfold bind at 1. rewrite pc_vbrace_close_skip
    by (right; unfold IsSemicolon, Is; rewrite Hty2; split; reflexivity).
  unfold bind at 1. rewrite pc_close_skip
    by (unfold is_closer, Is; rewrite Hty2; reflexivity).
  unfold bind at 1. rewrite pc_wod_semi_skip
    by (destruct Hst2 as [-> | ->]; discriminate).
  unfold bind at 1. rewrite (pc_parent_brace env pc s2 Hty2 Hpn2)
    by (destruct Hst2 as [-> | ->]; discriminate).
  unfold bind at 1. rewrite (pc_open_brace env pc _ s2 Hty2 Hsingle2).
  rewrite Htop.
  set (s4 := set_chunks _ (set_frm _ s2)).
  assert (C4 : chunk_at (chunks s4) pc
               = SetParentType (e_type t) (chunk_at (chunks s2) pc))
    by (subst s4; cbn [chunks set_chunks]; now apply chunk_at_update_at_same).
  assert (T4 : c_type (chunk_at (chunks s4) pc) = CT_BRACE_OPEN) by now rewrite C4.
  assert (P4 : pse (frm s4) = mkEntry CT_BRACE_OPEN (e_type t) NONE pc :: t :: rest).
  { subst s4. cbn [frm set_frm set_chunks pse set_pse]. now rewrite Mpse. }
  assert (N4 : forall q, IsNullChunk (chunks s4) q = IsNullChunk (chunks s) q).
  { intro q. subst s4. cbn [chunks set_chunks]. now rewrite IsNullChunk_update_at. }
  unfold bind at 1. rewrite (pc_switch_brace pc s4 _ t rest T4 P4).
  rewrite C4, N4. cbn [c_parent_type SetParentType].
  match goal with |- context [if ?b then ?x else s4] =>
    set (sw := b); set (s5 := if sw then x else s4) end.
  assert (F5 : frm s5 = frm s4) by (subst s5; now destruct sw).
  assert (G5 : log s5 = log s4) by (subst s5; now destruct sw).
  assert (T5 : c_type (chunk_at (chunks s5) pc) = CT_BRACE_OPEN).
  { subst s5. destruct sw; [|exact T4].
    cbn [chunks set_chunks]. now rewrite (chunk_at_update_at_field c_type). }
  assert (PT5 : c_parent_type (chunk_at (chunks s5) pc) = e_type t).
  { subst s5. destruct sw; cbn [chunks set_chunks];
      rewrite ?(chunk_at_update_at_field c_parent_type) by reflexivity;
      now rewrite C4. }
  assert (PP5 : e_type t = CT_SWITCH -> IsNullChunk (chunks s) (e_pc t) = false ->
                c_parent (chunk_at (chunks s5) pc) = e_pc t).
  { intros H1 H2. subst s5 sw. rewrite H1, H2.
    change (tok_eqb CT_SWITCH CT_SWITCH) with true. cbn [andb negb].
    cbn [chunks set_chunks].
    rewrite chunk_at_update_at_same by (now rewrite N4, <- Mnull).
    reflexivity. }
  unfold bind at 1. rewrite pc_push_complex_skip by (rewrite T5; reflexivity).
  destruct (pc_reset_counts_frame pc s5) as (s6 & Ef & Fc & _ & Flog & Fp & Fl & Fb & Fs).
  rewrite Ef. exists s6. split; [reflexivity|].
  rewrite Fc, Flog, Fp, Fl, Fb, Fs, T5, PT5, F5, G5, P4.
  split; [reflexivity|]. split; [reflexivity|]. split; [exact PP5|].
  subst s4. cbn [frm log set_frm set_chunks frm_level frm_brace_level sparen_count
                 set_pse set_frm_level set_frm_brace_level].
  rewrite Mlev, Mblev, Msp, Mlog.
  repeat split.
Qed.

(** The theorem at work on the open brace of
    [switch ( x ) { case y : break ; }]. *)
Lemma statement_brace_is_opened_witness :
  exists s',
    parse_cleanup c_env (Some 4%nat) (state_after c_env 4 switch_stream) = Ok tt s'
    /\ c_parent_type (chunk_at (chunks s') (Some 4%nat)) = CT_SWITCH
    /\ c_parent (chunk_at (chunks s') (Some 4%nat)) = Some 0%nat
    /\ map e_type (pse (frm s')) = [CT_BRACE_OPEN; CT_SWITCH; CT_EOF]
    /\ frm_level (frm s') = 1
    /\ frm_brace_level (frm s') = 1.
Proof.
  pose (s0 := state_after c_env 4 switch_stream).
  assert (H1 : c_type (chunk_at (chunks s0) (Some 4%nat)) = CT_BRACE_OPEN)
    by (vm_compute; reflexivity).
  assert (H2 : e_stage (top (frm s0)) = BRACE2) by (vm_compute; reflexivity).
  assert (H3 : IsNullChunk (chunks s0) (GetPrevNcNnl (chunks s0) (Some 4%nat)) = false)
    by (vm_compute; reflexivity).
  assert (H4 : indent_namespace c_env = false) by reflexivity.
  assert (F1 : e_type (top (frm s0)) = CT_SWITCH) by (vm_compute; reflexivity).
  assert (F2 : IsNullChunk (chunks s0) (e_pc (top (frm s0))) = false)
    by (vm_compute; reflexivity).
  assert (F3 : e_pc (top (frm s0)) = Some 0%nat) by (vm_compute; reflexivity).
  assert (F4 : map e_type (pse (frm s0)) = [CT_SWITCH; CT_EOF]) by (vm_compute; reflexivity).
  assert (F5 : wrap64 (frm_level (frm s0) + 1) = 1) by (vm_compute; reflexivity).
  assert (F6 : wrap64 (frm_brace_level (frm s0) + 1) = 1) by (vm_compute; reflexivity).
  change (state_after c_env 4 switch_stream) with s0. clearbody s0.
  destruct (statement_brace_is_opened c_env (Some 4%nat) s0 H1 (or_introl H2) H3
              (or_intror (or_introl H4)))
    as (s' & E & _ & T2 & T3 & T4 & T5 & T6 & _).
  exists s'. split; [exact E|]. split; [now rewrite T2|].
  split; [now rewrite (T3 F1 F2)|].
  split; [rewrite T4; cbn [map e_type]; now rewrite F4|].
  split; [now rewrite T5 | now rewrite T6].
Defined.

(* ================================================================== *)
(** ** Plain braces and the single indent of nested namespaces *)

(** [single] of the block that opens a brace: the brace of a namespace
    right inside the brace of a namespace, with both options on. *)
Definition single_indent (env : Env) (s : State) (pc : ChunkPtr) : bool :=
  tok_eqb (c_parent_type (chunk_at (chunks s) pc)) CT_NAMESPACE
  && tok_eqb (c_parent_type (chunk_at (chunks s) (e_pc (top (frm s))))) CT_NAMESPACE
  && indent_namespace env && indent_namespace_single_indent env.

Lemma pc_parent_plain_brace (env : Env) (pc : ChunkPtr) (s : State) :
  let c := chunk_at (chunks s) pc in
  let prev := chunk_at (chunks s) (GetPrevNcNnl (chunks s) pc) in
  c_type c = CT_BRACE_OPEN ->
  e_stage (top (frm s)) = NONE ->
  c_type prev <> CT_ASSIGN -> c_type prev <> CT_RETURN -> c_type prev <> CT_FPAREN_CLOSE ->
  pc_parent env pc s = Ok (c_parent_type c) s.
Proof.
  intros c prev Hty Hst H1 H2 H3. subst c prev.
  apply tok_eqb_neq in H1, H2, H3.
  unfold pc_parent. mcbn. unfold Is. rewrite Hty. tok_consts. mcbn.
  destruct (IsNullChunk (chunks s) (GetPrevNcNnl (chunks s) pc)); mcbn; [reflexivity|].
  rewrite Hst. tok_consts. rewrite H1, H2, H3. mcbn. reflexivity.
Qed.

Lemma pc_open_plain_brace (env : Env) (pc : ChunkPtr) (pt : E_Token) (s : State) :
  let c := chunk_at (chunks s) pc in
  c_type c = CT_BRACE_OPEN ->
  pc_open env pc pt s
  = Ok tt
      (set_chunks (update_at (chunks s) pc (SetParentType pt))
         (set_frm
            (set_pse (mkEntry CT_BRACE_OPEN pt NONE pc :: pse (frm s))
               (set_frm_brace_level
                  (if single_indent env s pc then frm_brace_level (frm s)
                   else wrap64 (frm_brace_level (frm s) + 1))
                  (set_frm_level (wrap64 (frm_level (frm s) + 1)) (frm s)))) s)).
Proof.
  intros c Hty. subst c.
  unfold pc_open. mcbn. unfold is_opener, Is. rewrite Hty. tok_consts. mcbn.
  unfold single_indent.
  change (top (set_frm_level (wrap64 (frm_level (frm s) + 1)) (frm s))) with (top (frm s)).
  match goal with |- context [if negb ?b then _ else _] => destruct b end;
    mcbn; unfold frm_push, set_top;
    cbn [pse set_pse set_frm_level set_frm_brace_level chunks frm set_frm];
    rewrite Hty; destruct s as [cl [p l b pp sp st ex] bs lg]; reflexivity.
Qed.

(** [parse_cleanup] on an open brace that starts no statement body. *)
Lemma parse_cleanup_plain_brace_open (env : Env) (pc : ChunkPtr) (s : State)
      (t : paren_stack_entry_t) (rest : list paren_stack_entry_t) :
  let c := chunk_at (chunks s) pc in
  let prev := chunk_at (chunks s) (GetPrevNcNnl (chunks s) pc) in
  c_type c = CT_BRACE_OPEN ->
  pse (frm s) = t :: rest ->
  e_stage t = NONE ->
  c_type prev <> CT_ASSIGN -> c_type prev <> CT_RETURN -> c_type prev <> CT_FPAREN_CLOSE ->
  exists s',
    parse_cleanup env pc s = Ok tt s'
    /\ c_type (chunk_at (chunks s') pc) = CT_BRACE_OPEN
    /\ c_parent_type (chunk_at (chunks s') pc) = c_parent_type c
    /\ pse (frm s') = mkEntry CT_BRACE_OPEN (c_parent_type c) NONE pc :: t :: rest
    /\ frm_level (frm s') = wrap64 (frm_level (frm s) + 1)
    /\ frm_brace_level (frm s')
       = (if single_indent env s pc then frm_brace_level (frm s)
          else wrap64 (frm_brace_level (frm s) + 1))
    /\ log s' = log s.
Proof.
  intros c prev Hty P Hst Hp1 Hp2 Hp3. subst c prev.
  assert (Hsemi : Is CT_SEMICOLON (chunk_at (chunks s) pc) = false)
    by (unfold Is; rewrite Hty; reflexivity).
  destruct (parse_cleanup_after_marks_parent env pc s) as (s2 & M & Hsh & Hpar & E).
  specialize (Hpar Hsemi).
  destruct M as [Mpse Mlev Mblev Msp Mbs Mlog Mtype Mstr Mline Mcol Mprep Mnull].
  destruct (same_shape_walks _ _ pc Hsh) as (_ & _ & _ & _ & _ & Wprev).
  assert (Htop : top (frm s2) = top (frm s)) by (unfold top; now rewrite Mpse).
  assert (Ht : top (frm s) = t) by (unfold top; now rewrite P).
  assert (Hty2 : c_type (chunk_at (chunks s2) pc) = CT_BRACE_OPEN) by now rewrite Mtype.
  assert (Hnn : IsNullChunk (chunks s2) pc = false).
  { destruct (IsNullChunk (chunks s2) pc) eqn:N; [|reflexivity].
    rewrite (chunk_at_null _ _ N) in Hty2. discriminate. }
  assert (Hsi : single_indent env s2 pc = single_indent env s pc).
  { unfold single_indent. now rewrite Htop, !Hpar. }
  rewrite E. clear E.
  unfold bind at 1, the_top at 1, gets at 1.
  unfold bind at 1, the_chunk at 1, gets at 1.
  rewrite Htop, Ht, Hst. tok_consts. cbn [negb andb].
  unfold bind at 1, ret at 1.
  unfold parse_cleanup_rest.
  unfold bind at 1. rewrite pc_vbrace_close_skip
    by (right; unfold IsSemicolon, Is; rewrite Hty2; split; reflexivity).
  unfold bind at 1. rewrite pc_close_skip
    by (unfold is_closer, Is; rewrite Hty2; reflexivity).
  unfold bind at 1. rewrite pc_wod_semi_skip by (rewrite Htop, Ht, Hst; discriminate).
  unfold bind at 1. rewrite (pc_parent_plain_brace env pc s2 Hty2);
    [| now rewrite Htop, Ht | rewrite <- Wprev, Mtype; assumption
     | rewrite <- Wprev, Mtype; assumption | rewrite <- Wprev, Mtype; assumption].
  unfold bind at 1. rewrite (pc_open_plain_brace env pc _ s2 Hty2).
  rewrite Hsi, Hpar.
  set (pt := c_parent_type (chunk_at (chunks s) pc)).
  set (s4 := set_chunks _ (set_frm _ s2)).
  assert (C4 : chunk_at (chunks s4) pc = SetParentType pt (chunk_at (chunks s2) pc))
    by (subst s4; cbn [chunks set_chunks]; now apply chunk_at_update_at_same).
  assert (T4 : c_type (chunk_at (chunks s4) pc) = CT_BRACE_OPEN) by now rewrite C4.
  assert (P4 : pse (frm s4) = mkEntry CT_BRACE_OPEN pt NONE pc :: t :: rest).
  { subst s4. cbn [frm set_frm set_chunks pse set_pse]. now rewrite Mpse, P. }
  unfold bind at 1. rewrite (pc_switch_brace pc s4 _ t rest T4 P4).
  match goal with |- context [if ?b then ?x else s4] =>
    set (sw := b); set (s5 := if sw then x else s4) end.
  assert (F5 : frm s5 = frm s4) by (subst s5; now destruct sw).
  assert (G5 : log s5 = log s4) by (subst s5; now destruct sw).
  assert (T5 : c_type (chunk_at (chunks s5) pc) = CT_BRACE_OPEN).
  { subst s5. destruct sw; [|exact T4].
    cbn [chunks set_chunks]. now rewrite (chunk_at_update_at_field c_type). }
  assert (PT5 : c_parent_type (chunk_at (chunks s5) pc) = pt).
  { subst s5. destruct sw; cbn [chunks set_chunks];
      rewrite ?(chunk_at_update_at_field c_parent_type) by reflexivity;
      now rewrite C4. }
  unfold bind at 1. rewrite pc_push_complex_skip by (rewrite T5; reflexivity).
  destruct (pc_reset_counts_frame pc s5) as (s6 & Ef & Fc & _ & Flog & Fp & Fl & Fb & Fs).
  rewrite Ef. exists s6. split; [reflexivity|].
  rewrite Fc, Flog, Fp, Fl, Fb, T5, PT5, F5, G5, P4.
  split; [reflexivity|]. split; [reflexivity|]. split; [reflexivity|].
  subst s4. cbn [frm log set_frm set_chunks frm_level frm_brace_level
                 set_pse set_frm_level set_frm_brace_level].
  rewrite Mlev, Mblev, Mlog.
  repeat split.
Qed.

(** [pc_close] on a close brace whose open brace lies on an entry without a
    stage. *)
Lemma pc_close_plain_brace (pc : ChunkPtr) (s : State)
      (t u : paren_stack_entry_t) (rest : list paren_stack_entry_t) :
  let c := chunk_at (chunks s) pc in
  IsNullChunk (chunks s) pc = false ->
  c_type c = CT_BRACE_CLOSE ->
  pse (frm s) = t :: u :: rest ->
  e_type t = CT_BRACE_OPEN ->
  e_stage u = NONE ->
  c_type (chunk_at (chunks s) (e_pc u)) <> CT_VBRACE_OPEN ->
  exists sm,
    pc_close pc s = Ok tt sm
    /\ chunks sm
       = update_at (chunks s) pc
           (fun x => SetBraceLevel (wrap64 (frm_brace_level (frm s) - 1))
                       (SetLevel (wrap64 (frm_level (frm s) - 1))
                          (SetParentType (e_parent t) x)))
    /\ pse (frm sm) = u :: rest
    /\ frm_level (frm sm) = wrap64 (frm_level (frm s) - 1)
    /\ frm_brace_level (frm sm) = wrap64 (frm_brace_level (frm s) - 1)
    /\ log sm = log s.
Proof.
  intros c Hn Hty P Ht Hu Hv. subst c.
  assert (Htop : top (frm s) = t) by (unfold top; now rewrite P).
  unfold pc_close. mcbn.
  unfold is_closer, Is. rewrite Hty. tok_consts. mcbn.
  rewrite Htop, Ht. tok_consts. mcbn.
  rewrite Hty. tok_consts. mcbn.
  unfold top, frm_pop. cbn [pse set_pse set_frm_level set_frm_brace_level].
  rewrite ?P. cbn [tl hd]. rewrite Hu. tok_consts. cbn [andb].
  rewrite !update_at_fuse.
  assert (Hop : tok_eqb (c_type (chunk_at
                   (update_at (chunks s) pc
                      (fun c => SetBraceLevel (wrap64 (frm_brace_level (frm s) - 1))
                                  (SetLevel (wrap64 (frm_level (frm s) - 1))
                                     (SetParentType (e_parent t) c))))
                   (e_pc u))) CT_VBRACE_OPEN = false).
  { rewrite (chunk_at_update_at_field c_type) by reflexivity. now apply tok_eqb_neq. }
  rewrite Hop. mcbn.
  cbn [pse set_pse set_frm_level set_frm_brace_level].
  rewrite ?P. cbn [tl hd]. rewrite Hu. tok_consts. mcbn.
  eexists. split; [reflexivity|].
  cbn [chunks frm braceState log set_frm set_chunks set_braceState].
  cbn [pse set_pse set_frm_level set_frm_brace_level frm_level frm_brace_level].
  rewrite ?P. repeat split.
Qed.

(** [parse_cleanup] on a close brace whose open brace lies on an entry
    without a stage. *)
Lemma parse_cleanup_plain_brace_close (env : Env) (pc : ChunkPtr) (s : State)
      (t u : paren_stack_entry_t) (rest : list paren_stack_entry_t) :
  let c := chunk_at (chunks s) pc in
  c_type c = CT_BRACE_CLOSE ->
  pse (frm s) = t :: u :: rest ->
  e_type t = CT_BRACE_OPEN ->
  e_stage t = NONE ->
  e_stage u = NONE ->
  c_type (chunk_at (chunks s) (e_pc u)) <> CT_VBRACE_OPEN ->
  exists s',
    parse_cleanup env pc s = Ok tt s'
    /\ pse (frm s') = u :: rest
    /\ c_type (chunk_at (chunks s') pc) = CT_BRACE_CLOSE
    /\ c_parent_type (chunk_at (chunks s') pc) = e_parent t
    /\ c_level (chunk_at (chunks s') pc) = wrap64 (frm_level (frm s) - 1)
    /\ c_brace_level (chunk_at (chunks s') pc) = wrap64 (frm_brace_level (frm s) - 1)
    /\ frm_level (frm s') = wrap64 (frm_level (frm s) - 1)
    /\ frm_brace_level (frm s') = wrap64 (frm_brace_level (frm s) - 1)
    /\ log s' = log s.
Proof.
  intros c Hty P Ht Hst Hu Hv. subst c.
  destruct (parse_cleanup_after_marks_shape env pc s) as (s2 & M & Hsh & E).
  destruct M as [Mpse Mlev Mblev Msp Mbs Mlog Mtype Mstr Mline Mcol Mprep Mnull].
  assert (P2 : pse (frm s2) = t :: u :: rest) by now rewrite Mpse.
  assert (Htop : top (frm s2) = t) by (unfold top; now rewrite P2).
  assert (Hty2 : c_type (chunk_at (chunks s2) pc) = CT_BRACE_CLOSE) by now rewrite Mtype.
  assert (Hnn : IsNullChunk (chunks s2) pc = false).
  { destruct (IsNullChunk (chunks s2) pc) eqn:N; [|reflexivity].
    rewrite (chunk_at_null _ _ N) in Hty2. discriminate. }
  rewrite E. clear E.
  unfold bind at 1, the_top at 1, gets at 1.
  unfold bind at 1, the_chunk at 1, gets at 1.
  rewrite Htop, Hst. tok_consts. cbn [negb andb].
  unfold bind at 1, ret at 1.
  unfold parse_cleanup_rest.
  unfold bind at 1. rewrite pc_vbrace_close_skip by (left; now rewrite Htop, Ht).
  destruct (pc_close_plain_brace pc s2 t u rest Hnn Hty2 P2 Ht Hu)
    as (sm & Em & Cm & Pm & Lm & Bm & Gm); [now rewrite Mtype|].
  unfold bind at 1. rewrite Em.
  assert (Tm : c_type (chunk_at (chunks sm) pc) = CT_BRACE_CLOSE).
  { rewrite Cm, (chunk_at_update_at_field c_type) by reflexivity. exact Hty2. }
  rewrite after_close_brace;
    [| now left | unfold top; rewrite Pm; cbn [hd]; rewrite Hu; discriminate].
  destruct (pc_reset_counts_frame pc sm) as (s4 & E4 & Fc & _ & Flog & Fp & Fl & Fb & _).
  rewrite E4. exists s4. split; [reflexivity|].
  rewrite Fc, Flog, Fp, Fl, Fb, Tm, Pm, Lm, Bm, Gm, Cm, Mlev, Mblev, Mlog.
  rewrite chunk_at_update_at_same by exact Hnn.
  repeat split.
Qed.

(** An open brace that starts no statement body (the top of the stack has
    no stage; the chunk before it is no assignment, [return] or close of a
    function paren): [parse_cleanup] keeps its parent type, pushes an entry
    for it and goes one level deeper; the brace level goes up by one as
    well, unless the brace is that of a namespace right inside the brace of
    a namespace and [indent_namespace] and [indent_namespace_single_indent]
    are both on.  No warning is written. *)
Theorem plain_brace_is_opened (env : Env) (pc : ChunkPtr) (s : State)
      (t : paren_stack_entry_t) (rest : list paren_stack_entry_t) :
  let c := chunk_at (chunks s) pc in
  let prev := chunk_at (chunks s) (GetPrevNcNnl (chunks s) pc) in
  c_type c = CT_BRACE_OPEN ->
  pse (frm s) = t :: rest ->
  e_stage t = NONE ->
  c_type prev <> CT_ASSIGN -> c_type prev <> CT_RETURN -> c_type prev <> CT_FPAREN_CLOSE ->
  exists s',
    parse_cleanup env pc s = Ok tt s'
    /\ c_type (chunk_at (chunks s') pc) = CT_BRACE_OPEN
    /\ c_parent_type (chunk_at (chunks s') pc) = c_parent_type c
    /\ pse (frm s') = mkEntry CT_BRACE_OPEN (c_parent_type c) NONE pc :: t :: rest
    /\ frm_level (frm s') = wrap64 (frm_level (frm s) + 1)
    /\ frm_brace_level (frm s')
       = (if single_indent env s pc then frm_brace_level (frm s)
          else wrap64 (frm_brace_level (frm s) + 1))
    /\ log s' = log s.
Proof. exact (parse_cleanup_plain_brace_open env pc s t rest). Qed.

(** The theorem at work on the first brace of
    [namespace a { namespace b { } }]. *)
Lemma plain_brace_is_opened_witness :
  exists s',
    parse_cleanup single_env (Some 2%nat) (state_after single_env 2 nested_namespace_stream)
    = Ok tt s'
    /\ map e_type (pse (frm s')) = [CT_BRACE_OPEN; CT_EOF]
    /\ frm_level (frm s') = 1
    /\ frm_brace_level (frm s') = 1.
Proof.
  pose (s0 := state_after single_env 2 nested_namespace_stream).
  assert (H1 : c_type (chunk_at (chunks s0) (Some 2%nat)) = CT_BRACE_OPEN)
    by (vm_compute; reflexivity).
  assert (H2 : pse (frm s0) = eof_entry :: []) by (vm_compute; reflexivity).
  assert (H3 : c_type (chunk_at (chunks s0) (GetPrevNcNnl (chunks s0) (Some 2%nat)))
               <> CT_ASSIGN) by (vm_compute; discriminate).
  assert (H4 : c_type (chunk_at (chunks s0) (GetPrevNcNnl (chunks s0) (Some 2%nat)))
               <> CT_RETURN) by (vm_compute; discriminate).
  assert (H5 : c_type (chunk_at (chunks s0) (GetPrevNcNnl (chunks s0) (Some 2%nat)))
               <> CT_FPAREN_CLOSE) by (vm_compute; discriminate).
  assert (F1 : wrap64 (frm_level (frm s0) + 1) = 1) by (vm_compute; reflexivity).
  assert (F2 : (if single_indent single_env s0 (Some 2%nat) then frm_brace_level (frm s0)
                else wrap64 (frm_brace_level (frm s0) + 1)) = 1)
    by (vm_compute; reflexivity).
  change (state_after single_env 2 nested_namespace_stream) with s0. clearbody s0.
  destruct (plain_brace_is_opened single_env (Some 2%nat) s0 eof_entry [] H1 H2 eq_refl
              H3 H4 H5)
    as (s' & E & _ & _ & T3 & T4 & T5 & _).
  exists s'. split; [exact E|]. split; [now rewrite T3|].
  split; [now rewrite T4 | now rewrite T5].
Defined.

(** A close brace that meets its open brace on the top of the stack, the
    entry under it without a stage and not that of a virtual brace:
    [parse_cleanup] pops the entry, gives the close brace the parent type
    of the entry, and takes level and brace level down by one, those of the
    frame and those of the chunk.  No warning is written. *)
Theorem plain_brace_is_closed (env : Env) (pc : ChunkPtr) (s : State)
      (t u : paren_stack_entry_t) (rest : list paren_stack_entry_t) :
  let c := chunk_at (chunks s) pc in
  c_type c = CT_BRACE_CLOSE ->
  pse (frm s) = t :: u :: rest ->
  e_type t = CT_BRACE_OPEN ->
  e_stage t = NONE ->
  e_stage u = NONE ->
  c_type (chunk_at (chunks s) (e_pc u)) <> CT_VBRACE_OPEN ->
  exists s',
    parse_cleanup env pc s = Ok tt s'
    /\ pse (frm s') = u :: rest
    /\ c_type (chunk_at (chunks s') pc) = CT_BRACE_CLOSE
    /\ c_parent_type (chunk_at (chunks s') pc) = e_parent t
    /\ c_level (chunk_at (chunks s') pc) = wrap64 (frm_level (frm s) - 1)
    /\ c_brace_level (chunk_at (chunks s') pc) = wrap64 (frm_brace_level (frm s) - 1)
    /\ frm_level (frm s') = wrap64 (frm_level (frm s) - 1)
    /\ frm_brace_level (frm s') = wrap64 (frm_brace_level (frm s) - 1)
    /\ log s' = log s.
Proof. exact (parse_cleanup_plain_brace_close env pc s t u rest). Qed.

(** The theorem at work on the last brace of
    [namespace a { namespace b { } }], both options off. *)
Lemma plain_brace_is_closed_witness :
  exists s',
    parse_cleanup c_env (Some 7%nat) (state_after c_env 7 nested_namespace_stream) = Ok tt s'
    /\ pse (frm s') = [eof_entry]
    /\ frm_level (frm s') = 0
    /\ frm_brace_level (frm s') = 0.
Proof.
  pose (s0 := state_after c_env 7 nested_namespace_stream).
  pose (t := mkEntry CT_BRACE_OPEN CT_NAMESPACE NONE (Some 2%nat)).
  assert (H1 : c_type (chunk_at (chunks s0) (Some 7%nat)) = CT_BRACE_CLOSE)
    by (vm_compute; reflexivity).
  assert (H2 : pse (frm s0) = t :: eof_entry :: []) by (vm_compute; reflexivity).
  assert (H3 : c_type (chunk_at (chunks s0) (e_pc eof_entry)) <> CT_VBRACE_OPEN)
    by (vm_compute; discriminate).
  assert (F1 : wrap64 (frm_level (frm s0) - 1) = 0) by (vm_compute; reflexivity).
  assert (F2 : wrap64 (frm_brace_level (frm s0) - 1) = 0) by (vm_compute; reflexivity).
  change (state_after c_env 7 nested_namespace_stream) with s0. clearbody s0.
  destruct (plain_brace_is_closed c_env (Some 7%nat) s0 t eof_entry []
              H1 H2 eq_refl eq_refl eq_refl H3)
    as (s' & E & T1 & _ & _ & _ & _ & T6 & T7 & _).
  exists s'. split; [exact E|]. split; [exact T1|].
  split; [now rewrite T6 | now rewrite T7].
Defined.

(** The braces of a namespace right inside the brace of a namespace, with
    [indent_namespace] and [indent_namespace_single_indent] on: the open
    brace raises the level and leaves the brace level, but the close brace
    that meets it afterwards lowers both.  So the pair leaves the stack and
    the level where they were and the brace level one lower than before
    (in [size_t]: from 0 it wraps around to the largest value). *)
Theorem single_indent_namespace_loses_a_brace_level
    (env : Env) (pc : ChunkPtr) (s : State)
    (t : paren_stack_entry_t) (rest : list paren_stack_entry_t) :
  let c := chunk_at (chunks s) pc in
  let prev := chunk_at (chunks s) (GetPrevNcNnl (chunks s) pc) in
  c_type c = CT_BRACE_OPEN ->
  pse (frm s) = t :: rest ->
  e_stage t = NONE ->
  c_type prev <> CT_ASSIGN -> c_type prev <> CT_RETURN -> c_type prev <> CT_FPAREN_CLOSE ->
  single_indent env s pc = true ->
  0 <= frm_level (frm s) < 2 ^ 64 - 1 ->
  exists s1,
    parse_cleanup env pc s = Ok tt s1
    /\ frm_level (frm s1) = frm_level (frm s) + 1
    /\ frm_brace_level (frm s1) = frm_brace_level (frm s)
    /\ forall (pc2 : ChunkPtr) (s1' : State),
         frm s1' = frm s1 ->
         c_type (chunk_at (chunks s1') pc2) = CT_BRACE_CLOSE ->
         c_type (chunk_at (chunks s1') (e_pc t)) <> CT_VBRACE_OPEN ->
         exists s2,
           parse_cleanup env pc2 s1' = Ok tt s2
           /\ pse (frm s2) = pse (frm s)
           /\ frm_level (frm s2) = frm_level (frm s)
           /\ frm_brace_level (frm s2) = wrap64 (frm_brace_level (frm s) - 1).
Proof.
  intros c prev Hty P Hst H1 H2 H3 Hsi Hl. subst c prev.
  destruct (parse_cleanup_plain_brace_open env pc s t rest Hty P Hst H1 H2 H3)
    as (s1 & E1 & _ & _ & P1 & L1 & B1 & _).
  rewrite Hsi in B1.
  assert (Lup : wrap64 (frm_level (frm s) + 1) = frm_level (frm s) + 1)
    by (unfold wrap64; apply Z.mod_small; lia).
  exists s1. split; [exact E1|]. split; [now rewrite L1|]. split; [exact B1|].
  intros pc2 s1' Hf Hc Hv.
  destruct (parse_cleanup_plain_brace_close env pc2 s1'
              (mkEntry CT_BRACE_OPEN (c_parent_type (chunk_at (chunks s) pc)) NONE pc)
              t rest Hc)
    as (s2 & E2 & P2 & _ & _ & _ & _ & L2 & B2 & _);
    [now rewrite Hf | reflexivity | reflexivity | exact Hst | exact Hv |].
  exists s2. split; [exact E2|]. split; [now rewrite P2, P|].
  rewrite L2, B2, Hf, L1, B1, Lup. split; [|reflexivity].
  replace (frm_level (frm s) + 1 - 1) with (frm_level (frm s)) by lia.
  unfold wrap64. apply Z.mod_small. lia.
Qed.

(** The theorem at work on the inner braces of
    [namespace a { namespace b { } }]: inside the outer braces the brace
    level is 1 before the inner pair and 0 behind it. *)
Lemma single_indent_namespace_loses_a_brace_level_witness :
  frm_brace_level (frm (state_after single_env 5 nested_namespace_stream)) = 1
  /\ exists s1 s2,
       parse_cleanup single_env (Some 5%nat)
         (state_after single_env 5 nested_namespace_stream) = Ok tt s1
       /\ parse_cleanup single_env (Some 6%nat) s1 = Ok tt s2
       /\ frm_level (frm s2) = 1
       /\ frm_brace_level (frm s2) = 0.
Proof.
  pose (s0 := state_after single_env 5 nested_namespace_stream).
  pose (t := mkEntry CT_BRACE_OPEN CT_NAMESPACE NONE (Some 2%nat)).
  assert (H0 : frm_brace_level (frm s0) = 1) by (vm_compute; reflexivity).
  assert (H1 : c_type (chunk_at (chunks s0) (Some 5%nat)) = CT_BRACE_OPEN)
    by (vm_compute; reflexivity).
  assert (H2 : pse (frm s0) = t :: [eof_entry]) by (vm_compute; reflexivity).
  assert (H3 : c_type (chunk_at (chunks s0) (GetPrevNcNnl (chunks s0) (Some 5%nat)))
               <> CT_ASSIGN) by (vm_compute; discriminate).
  assert (H4 : c_type (chunk_at (chunks s0) (GetPrevNcNnl (chunks s0) (Some 5%nat)))
               <> CT_RETURN) by (vm_compute; discriminate).
  assert (H5 : c_type (chunk_at (chunks s0) (GetPrevNcNnl (chunks s0) (Some 5%nat)))
               <> CT_FPAREN_CLOSE) by (vm_compute; discriminate).
  assert (H6 : single_indent single_env s0 (Some 5%nat) = true) by (vm_compute; reflexivity).
  assert (F1 : frm_level (frm s0) = 1) by (vm_compute; reflexivity).
  assert (H7 : 0 <= frm_level (frm s0) < 2 ^ 64 - 1) by (rewrite F1; lia).
  assert (F2 : wrap64 (frm_brace_level (frm s0) - 1) = 0) by (vm_compute; reflexivity).
  assert (K : forall s1, parse_cleanup single_env (Some 5%nat) s0 = Ok tt s1 ->
                c_type (chunk_at (chunks s1) (Some 6%nat)) = CT_BRACE_CLOSE
                /\ c_type (chunk_at (chunks s1) (e_pc t)) <> CT_VBRACE_OPEN).
  { intros s1 E. vm_compute in E. injection E as <-. split; vm_compute; [reflexivity|discriminate]. }
  change (state_after single_env 5 nested_namespace_stream) with s0. clearbody s0.
  split; [exact H0|].
  destruct (single_indent_namespace_loses_a_brace_level single_env (Some 5%nat) s0 t
              [eof_entry] H1 H2 eq_refl H3 H4 H5 H6 H7)
    as (s1 & E1 & _ & _ & Hclose).
  destruct (K s1 E1) as [K1 K2].
  destruct (Hclose (Some 6%nat) s1 eq_refl K1 K2) as (s2 & E2 & _ & T2 & T3).
  exists s1, s2. split; [exact E1|]. split; [exact E2|].
  split; [now rewrite T2 | now rewrite T3].
Defined.
